(* ===== verification/_CoqProject ===== *)
-Q . S2P
Prelude.v
Bytes.v
BTree.v
StoreIface.v
StoreIter.v
NullStore.v
BufStore.v
PrefixStore.v
PartialMap.v
BackingStore.v
Codec.v
StateIface.v
Next.v
StructState.v
Utf8.v
Encoding.v
SimpleState.v
MapColl.v
MapSpec.v
MapProps.v
MapIter.v
MapIterSpec.v
Keys.v
EntryMap.v
EntryDerive.v
LeafMap.v
MapCall.v
Fields.v
Address.v
DequeColl.v
DequeSpec.v
DequeProps.v
Coins.v
Decimal.v
DecimalInst.v
Share.v
Pool.v
PoolSpec.v
AbciTypes.v
Context.v
Faucet.v
Accounts.v
Plugins.v
PluginsSpec.v
PaidCalls.v
AbciStore.v
AbciPlugin.v
SdkCompat.v
Signer.v
PluginHooks.v
CallItems.v
AbciPluginSpec.v
InternalApp.v
InternalAppSpec.v
InternalAppProps.v
Upgrade.v
UpgradeSpec.v
SignerSpec.v
SignerProps.v
Migrate.v
MigrateSpec.v
IbcTypes.v
IbcContext.v
IbcTransfer.v
IbcQuery.v
IbcSpec.v
IbcProps.v
Delegator.v
StakingValidator.v
StakingState.v
Staking.v
StakingPowers.v
StakingFrame.v
StakingBlock.v
DelegatorSpec.v
StakingProps.v
Abci.v
AbciSpec.v
MerkStore.v
MerkSpec.v
