(* ===== verification/Prelude.v ===== *)
(** * Orga: a verification of the state machine engine

    Orga ([src/src/], Rust) is a stack for blockchain applications: an
    application is a tree of typed state over a merkleised key/value store, calls
    change it, plugins wrap calls with authentication, replay protection and fees,
    and an ABCI server runs it block by block. This library models that core from
    the bottom up and proves what each layer promises to the next.

    ** The parts of the program and where they are modelled

    - Stores. [store/mod.rs] gives the [Read] and [Write] traits; [StoreIface] has
      them as classes, with law classes [ReadSpec] and [WriteSpec] that state their
      contract against an abstract view (a finite map from keys to values).
      [NullStore] ([store/null.rs], [store/log.rs]), [BufStore]
      ([store/bufstore.rs]: a write buffer and [MapStore]), [PrefixStore]
      ([store/store.rs]: [Store], a handle to the keys under a prefix),
      [PartialMap] ([store/partialmap.rs]), [BackingStore] ([store/share.rs], reference
      counting and aliasing on an explicit heap, and [store/backingstore.rs], the
      enum over all of them) and [StoreIter] ([store/iter.rs]) are the implementations; [Bytes] and [BTree] hold the order
      on keys and [BTreeMap].
    - Encodings. [Codec] has the encoding traits of the [ed] crate as classes with
      the integers and bytes that stand for the crate; [Utf8] the validation behind
      Rust strings; [Encoding] is [encoding.rs] with [encoding/encoder.rs] and
      [encoding/decoder.rs]; [SimpleState] the [orga(simple)] structs and
      [encoding::Adapter].
    - State. [StateIface] is the [State] trait ([state/mod.rs]) with its law class
      [StateSpec]; [StructState] and [Fields] are the derived
      implementations ([state/attach.rs], [flush.rs], [load.rs],
      [macros/src/state.rs]), the last one for any number of fields.
    - Migration. [Migrate] is [migrate.rs], the migrations of the collections and
      what [macros/src/migrate.rs] generates; [MigrateSpec] its laws, the
      plugins' own migrations and an example.
    - Collections. [MapColl] is [collections/map.rs], [MapIter] its iterators,
      [MapCall] the ways clients call methods on its values; [DequeColl] is
      [collections/deque.rs]; [Next] and [EntryMap] are [collections/mod.rs] and
      [entry_map.rs], and [EntryDerive] what [macros/src/entry.rs] and [next.rs]
      generate. [MapSpec], [MapIterSpec], [MapProps], [DequeSpec] and [DequeProps]
      hold theorems; [LeafMap] restates those on maps of plain values for clients,
      [Keys] has the signed integers and composed keys.
    - Coins and calls. [Address] ([coins/mod.rs]), [Coins] ([coins/amount.rs], [math.rs], [coin.rs], [ops/]),
      [Decimal] ([coins/decimal.rs], over [NumDecimal], a parameter for the
      [rust_decimal] crate, with [DecimalInst] an instance), [Share]
      ([coins/share.rs], [multishare.rs]), [Pool] ([coins/pool.rs]; [PoolSpec] its
      theorems), [Faucet] ([coins/faucet.rs]), [Context]
      ([context.rs]), [Accounts] ([coins/accounts.rs]); [Plugins] has
      [plugins/nonce.rs], [payable.rs], [fee.rs] and [chain_commitment.rs];
      [PluginsSpec] and [PaidCalls] their theorems, the latter composing the fee
      and payable plugins with the ledger. [SdkCompat] is [plugins/sdk_compat.rs],
      [Signer] is [plugins/signer.rs] with the conversions of all plugins,
      [PluginHooks] their block hooks and [plugins/query.rs], up to [DefaultPlugins];
      [SignerSpec] and [SignerProps] say what the guards of a call establish.
      [CallItems] is [call.rs], [query.rs] and [macros/src/field_call.rs]. [Upgrade]
      and [UpgradeSpec] are [upgrade/mod.rs].
    - Staking ([coins/staking/]). [Delegator] and [StakingValidator] are the two
      levels of entries ([delegator.rs], [validator.rs]), [StakingState] and [Staking]
      the module ([mod.rs]) with its block hooks, calls and queries.
      [DelegatorSpec], [StakingPowers], [StakingFrame] and [StakingBlock] hold
      theorems, [StakingProps] scenarios, tests of the source among them.
    - IBC ([ibc/]). [IbcTypes] has the keys and wrappers of [mod.rs], with the types of
      the [ibc] crate as parameters ([IbcRs]) and what is documented of them as laws
      ([IbcRsSpec]); [IbcContext] is the host state and every method of the validation
      and execution contexts that the crate calls back ([impls.rs],
      [client_contexts.rs]); [IbcTransfer] the token balances ([transfer.rs]), the
      router, and the delivery of messages ([router.rs], [messages.rs], [mod.rs]), over
      the crate's handlers ([Handlers], [Ics20Module]); [IbcQuery] is [query.rs].
      [IbcSpec] and [IbcProps] hold the theorems.
    - The server. [AbciStore] and [Abci] are [abci/mod.rs] ([ABCIStore],
      [MemStore], [Application], [ABCIStateMachine::run] with every request
      handler), [MerkStore] is [merk/store.rs] and [merk/snapshot.rs]; [AbciSpec]
      and [MerkSpec] their theorems. [AbciTypes] has the messages, [AbciPlugin] is
      [plugins/abci.rs] (validators, time, events, logs) and [InternalApp] the
      adapter of [abci/node.rs] that runs a state behind that plugin as an
      [Application]; [AbciPluginSpec], [InternalAppSpec] and [InternalAppProps]
      their theorems.

    ** How code is modelled

    A Rust call returns [Ok], [Err] or panics ([res]); a method on [&mut self] is a
    function from a state to its outcome and the state it leaves ([M]), which also
    exists on an error, so the theorems can say what a failed call has done.
    Integers are [Z] with their width written out; [+], [-] and [*] panic or wrap
    according to the build profile, a parameter ([Profile]). A shared store cell is
    passed explicitly, so aliasing handles see each other's writes. Traits are
    classes; what a trait promises is a second class with laws. Code of other
    crates ([ed], [merk], RocksDB, protobuf messages, the hash function) is a
    parameter with its laws, and every such law class has an instance here.

    ** What the theorems show

    - A block: handling its requests has the effect of running the application's
      handlers in sequence, errors included ([AbciSpec.ABCI_block_executes]), and
      checking transactions never influences it ([ABCI_check_tx_isolated]). With
      the Merk store this holds for handlers that look keys up and write; ones that
      iterate see the tree of the last commit only, whatever was delivered since
      ([MerkSpec.ABCI_iteration_misses_earlier_tx]).
    - Money: no account call creates value, transfers move exactly the amount, the
      fee is taken before a paid call runs ([Accounts], [PaidCalls]).
    - Authentication: a nonce is never accepted twice, a call for another chain is
      refused ([PluginsSpec]); a native call that gets through was signed by the
      holder of the signer's key for this chain and a fresh nonce, while protobuf
      transactions can be replayed ([SignerSpec]). Calls of fields and methods are
      told apart as long as prefixes are small ([CallItems]).
    - Staking: the index by power has one entry per validator whatever happens, the
      end of a block reports exactly the changes of the active set, queues pay out what
      has matured, commissions stay well formed, and what a double sign takes from
      redelegated stake, which is the complement of the fraction to be slashed
      ([StakingBlock], [DelegatorSpec]); how short unbonding periods go wrong
      ([StakingProps]).
    - IBC: the host answers what was stored last under each path, for packets, channels
      and clients, over any sequence of operations; it remembers the states of its last
      100,000 blocks; token balances follow a reference on numbers, failures included,
      and escrow creates nothing. What goes wrong: keys that begin other keys when a
      deletion is flushed, consensus states that are never deleted, heights ordered as
      texts ([IbcProps]).
    - Migration: a migrated map has what was stored, migrated, and the source is left
      empty ([MigrateSpec]).
    - Collections: [Map] is a partial function, [Deque] a list, iteration
      enumerates the content once in order, flushing and loading round-trips, maps
      nest; [retain] filters a queue of values that keep nothing in the store, and
      loses what others keep there ([MapProps], [MapIterSpec], [DequeProps]).
    - Stores: each implementation refines its view; buffers overlay and flush
      without changing what is read, prefixes isolate, partial maps never answer
      wrongly ([BufStore], [PrefixStore], [PartialMap], [BackingStore], [StoreIter]).
    - The application behind the server: a delivered transaction runs on the stored
      state and what it leaves is stored, on success and on failure; what becomes of
      a panic and of validator updates ([InternalAppProps]).
    - Encodings of derived structs, entries, strings and calls round-trip, or
      exactly when ([Fields], [EntryDerive], [Encoding], [PaidCalls], [Decimal]).
    - Decimal money: conversions round to the nearest amount and are refused from
      [2^64 - 1/2] on, taking and giving are exact inverses, a faucet hands out what
      its schedule allows however often it is called, accesses to pool entries through
      [get_mut] keep the pool's totals in step with the entries and those through
      [get] do not ([Decimal], [Share], [Faucet], [PoolSpec]).
    - Upgrades: the version moves exactly when the power behind a newer one has
      passed the threshold for the delay ([UpgradeSpec]).

    Several theorems record behaviour the code's comments do not expect: the
    iteration problem above, [MerkStore::get_prev] at an absent key, the endless
    iteration over a map with a key of all [0xff], [get_prev] under such a prefix,
    references to removed map entries, nested values that reappear, the version
    byte of a struct without fields, strings that are not ASCII, a faucet without
    periods, amounts above [u64::MAX] that are rounded down, pool entries changed by
    [get], moved queue elements that lose their entries, and deletions that take other
    keys along.

    ** Recursion

    Loops are structural where the data gives a measure: the merge of a buffer
    with its store recurses on the buffer's entries, the retain loops of [Deque] on
    its length, [flush] on the entries. Loops over a store have none and take
    fuel: removing a map entry's subtree takes it from [Bounded], a bound on the
    entries of a store that [Empty] and [BufStore] compute; [remove_range] and the
    collecting of a map's iterator take it as an argument. The theorems prove that
    any fuel above the number of entries in range (in store and memory) is enough,
    and an empty tank is a panic, so no theorem holds by running out of it. UTF-8
    validation recurses on the length of its input. Writing a [u64] takes fuel 20, the
    digits of the largest; the loop that trims the host's block states takes the length
    of the queue.

    ** What is not modelled

    I/O and processes (the ABCI socket server, the Tendermint node and client, the
    command-line clients, the wallets [plugins/signer.rs] talks to in a browser),
    cryptography and serialisation formats (curves, hashes, JSON and protobuf are
    parameters), the verification of packets and headers in the [ibc] crate and the
    gRPC services over the queries ([ibc/service.rs]), run-time reflection
    ([describe]), queries with proofs ([InternalApp::query], [merk/proofbuilder.rs]
    and what else forwards to the [merk] crate), and macros that only generate glue.

    ** This file

    The shared vocabulary: errors, results, the method monad with its notation,
    machine integers, the hint database [orga] and the tactics [res_inv] and
    [res_case]. *)

From stdpp Require Import base tactics numbers list strings.
From Stdlib Require Import ZArith Lia.

(** ** Byte strings and errors *)

(** A [Vec<u8>] (or [&[u8]]) is a list of integers; [is_bytes] says that every
    element is a [u8]. *)
Abbreviation bytes := (list Z).

Definition is_u8 (b : Z) : Prop := (0 <= b < 256)%Z.
Definition is_bytes (bs : bytes) : Prop := Forall is_u8 bs.

(** [src/store/mod.rs], [enum Error]: what a store with partial data reports. *)
Inductive StoreError :=
| GetUnknown (key : bytes)
| GetNextUnknown (key : bytes)
| GetPrevUnknown (key : option bytes).

(** [src/upgrade/mod.rs], [enum Error]: a version mismatch. A version is a
    byte string. *)
Inductive UpgradeError :=
| UpgradeVersion (expected actual : bytes).

(** [src/error.rs], [enum Error], constructor for constructor. A message is its
    literal text; a constructor that wraps the error of another crate carries a
    text standing for it. *)
Inductive Error :=
| EABCI (msg : string)
| EABCI2 (err : string)
| EApp (msg : string)
| ECall (msg : string)
| EClient (msg : string)
| ECoins (msg : string)
| EDalek (err : string)
| EDecimal (err : string)
| EDivideByZero
| EDowncast (msg : string)
| EEd (err : string)
| EIbc (msg : string)
| EIbcContext (err : string)
| EInvalidID
| EIO (err : string)
| EMerk (err : string)
| EMigrate (msg : string)
| ENonce (msg : string)
| EOverflow
| EParseInt (err : string)
| EPoison (msg : string)
| ETendermint (msg : string)
| ETendermintRPC (err : string)
| ETryFromInt (err : string)
| ERocksDB (err : string)
| ESecp256k1 (err : string)
| ESerdeJson (err : string)
| ESigner (msg : string)
| EStore (msg : string)
| EStoreErr (e : StoreError)
| EState (msg : string)
| ETest (msg : string)
| EQuery (msg : string)
| EUpgrade (e : UpgradeError)
| EUnknown.

(** ** Results

    A Rust call returns [Ok], returns [Err], or panics; panics are values too, so
    that a theorem can exclude them. *)
Inductive res (A : Type) :=
| Ok (a : A)
| Err (e : Error)
| Panic (why : string).
Arguments Ok {A} a.
Arguments Err {A} e.
Arguments Panic {A} why.

(** The [?] operator. *)
Definition res_bind {A B} (m : res A) (f : A -> res B) : res B :=
  match m with
  | Ok a => f a
  | Err e => Err e
  | Panic w => Panic w
  end.

Definition res_map {A B} (f : A -> B) (m : res A) : res B :=
  res_bind m (fun a => Ok (f a)).

Definition is_ok {A} (m : res A) : bool := if m is Ok _ then true else false.

(** [Option::ok_or] and [Option::unwrap]. *)
Definition ok_or {A} (o : option A) (e : Error) : res A :=
  if o is Some a then Ok a else Err e.
Definition unwrap {A} (o : option A) (why : string) : res A :=
  if o is Some a then Ok a else Panic why.

Declare Scope orga_scope.
Delimit Scope orga_scope with orga.
Notation "'let?' x := m 'in' k" := (res_bind m (fun x => k))
  (at level 10, x name, m at level 100, k at level 200,
   format "'[v' 'let?'  x  :=  m  'in' '/' k ']'") : orga_scope.
Notation "'let?' ' p := m 'in' k" := (res_bind m (fun p => k))
  (at level 10, p strict pattern, m at level 100, k at level 200,
   format "'[v' 'let?'  ' p  :=  m  'in' '/' k ']'") : orga_scope.
Open Scope orga_scope.

(** ** Mutating methods

    A method on [&mut self] is a function from the state to its outcome and the
    state it leaves behind, which also exists when the outcome is an error. *)
Definition M (S A : Type) : Type := S -> res A * S.

Definition retM {S A} (a : A) : M S A := fun s => (Ok a, s).
Definition errM {S A} (e : Error) : M S A := fun s => (Err e, s).
Definition panicM {S A} (why : string) : M S A := fun s => (Panic why, s).
Definition liftM {S A} (r : res A) : M S A := fun s => (r, s).
Definition getM {S} : M S S := fun s => (Ok s, s).
Definition putM {S} (s : S) : M S unit := fun _ => (Ok tt, s).
(** A shared borrow of the state: a computation that only reads it. *)
Definition readM {S A} (f : S -> res A) : M S A := fun s => (f s, s).

Definition bindM {S A B} (m : M S A) (f : A -> M S B) : M S B :=
  fun s => match m s with
           | (Ok a, s') => f a s'
           | (Err e, s') => (Err e, s')
           | (Panic w, s') => (Panic w, s')
           end.

(** Running a method of a component on the part of the state that holds it. *)
Definition zoomM {S T A} (get : S -> T) (set : T -> S -> S) (m : M T A) : M S A :=
  fun s => let '(r, t) := m (get s) in (r, set t s).

Notation "'do' x <- m ; k" := (bindM m (fun x => k))
  (at level 10, x name, m at level 100, k at level 200,
   format "'[v' 'do'  x  <-  m ; '/' k ']'") : orga_scope.
Notation "'do' ' p <- m ; k" := (bindM m (fun p => k))
  (at level 10, p strict pattern, m at level 100, k at level 200,
   format "'[v' 'do'  ' p  <-  m ; '/' k ']'") : orga_scope.
Notation "'run' m ; k" := (bindM m (fun _ => k))
  (at level 10, m at level 100, k at level 200,
   format "'[v' 'run'  m ; '/' k ']'") : orga_scope.

(** ** Machine integers

    Arithmetic written with [+], [-] and [*] in the source panics on overflow
    when overflow checks are on (the [dev] profile) and wraps around when they
    are off (the [release] profile, which [Cargo.toml] leaves at its default).
    Both are modelled: the build profile is a parameter. *)
(** [debug_assert!] is on in the same profile as the overflow checks. *)
Class Profile := { overflow_checks : bool; debug_assertions : bool }.

Definition u64_max : Z := (2 ^ 64 - 1)%Z.
Definition is_u64 (z : Z) : Prop := (0 <= z <= u64_max)%Z.
Definition i64_min : Z := (- 2 ^ 63)%Z.
Definition i64_max : Z := (2 ^ 63 - 1)%Z.
Definition is_i64 (z : Z) : Prop := (i64_min <= z <= i64_max)%Z.

Definition u64b (z : Z) : bool := ((0 <=? z) && (z <=? u64_max))%Z.
Definition i64b (z : Z) : bool := ((i64_min <=? z) && (z <=? i64_max))%Z.
Definition wrap64 (z : Z) : Z := (z mod 2 ^ 64)%Z.
Definition wrap_i64 (z : Z) : Z := ((z + 2 ^ 63) mod 2 ^ 64 - 2 ^ 63)%Z.

Section Arith.
Context `{Profile}.
Definition u64_op (z : Z) : res Z :=
  if u64b z then Ok z
  else if overflow_checks then Panic "arithmetic overflow" else Ok (wrap64 z).
Definition i64_op (z : Z) : res Z :=
  if i64b z then Ok z
  else if overflow_checks then Panic "arithmetic overflow" else Ok (wrap_i64 z).
Definition u8_op (z : Z) : res Z :=
  if ((0 <=? z) && (z <? 256))%Z then Ok z
  else if overflow_checks then Panic "arithmetic overflow" else Ok (z mod 256)%Z.
Definition u64_add (a b : Z) : res Z := u64_op (a + b).
Definition u64_sub (a b : Z) : res Z := u64_op (a - b).
Definition i64_add (a b : Z) : res Z := i64_op (a + b).
Definition i64_sub (a b : Z) : res Z := i64_op (a - b).
End Arith.

(** [u64::checked_add] and its siblings never panic. *)
Definition checked_u64 (z : Z) : option Z := if u64b z then Some z else None.

(** ** Automation *)

Create HintDb orga discriminated.

(** Invert an [Ok]/[Err] equation produced by [let?] or [do]. *)
Ltac res_step :=
  match goal with
  | H : Ok _ = Ok _ |- _ => injection H; clear H; intros
  | H : (Ok _, _) = (Ok _, _) |- _ => injection H; clear H; intros
  | H : Some _ = Some _ |- _ => injection H; clear H; intros
  | H : Ok _ = Err _ |- _ => discriminate H
  | H : Ok _ = Panic _ |- _ => discriminate H
  | H : Err _ = Ok _ |- _ => discriminate H
  | H : Err _ = Panic _ |- _ => discriminate H
  | H : Panic _ = Ok _ |- _ => discriminate H
  | H : Panic _ = Err _ |- _ => discriminate H
  | H : (Err _, _) = (Ok _, _) |- _ => discriminate H
  | H : (Panic _, _) = (Ok _, _) |- _ => discriminate H
  | H : (Ok _, _) = (Err _, _) |- _ => discriminate H
  | H : (Ok _, _) = (Panic _, _) |- _ => discriminate H
  | H : None = Some _ |- _ => discriminate H
  | H : Some _ = None |- _ => discriminate H
  end.
Ltac res_inv := repeat (res_step; subst).

(** Case analysis on the outcome of a call that a [let?] or [do] waits for. *)
Ltac res_case :=
  match goal with
  | H : context [res_bind ?m _] |- _ =>
      let E := fresh "E" in destruct m eqn:E; cbn [res_bind] in H
  | |- context [res_bind ?m _] =>
      let E := fresh "E" in destruct m eqn:E; cbn [res_bind]
  end.

(** ** Generic lemmas *)

Lemma res_bind_ok {A B} (m : res A) (f : A -> res B) b :
  res_bind m f = Ok b <-> exists a, m = Ok a /\ f a = Ok b.
Proof.
  destruct m; simpl; split; try (intros (? & ? & ?)); try congruence; eauto.
Qed.

Lemma bindM_run {S A B} (m : M S A) (f : A -> M S B) s a s' :
  m s = (Ok a, s') -> bindM m f s = f a s'.
Proof. intros Hm. unfold bindM. by rewrite Hm. Qed.
Lemma zoomM_run {S T A} (get : S -> T) (set : T -> S -> S) (m : M T A) s r t :
  m (get s) = (r, t) -> zoomM get set m s = (r, set t s).
Proof. intros Hm. unfold zoomM. by rewrite Hm. Qed.
Lemma bindM_ok {S A B} (m : M S A) (f : A -> M S B) s b s' :
  bindM m f s = (Ok b, s') <->
  exists a s1, m s = (Ok a, s1) /\ f a s1 = (Ok b, s').
Proof.
  unfold bindM. destruct (m s) as [[a|e|w] s1] eqn:E; split.
  all: try (intros (? & ? & ? & ?)); try congruence; eauto.
  all: intros; discriminate.
Qed.

(** ** Frames

    A method keeps a predicate when the state it leaves behind has it, whatever the
    outcome. *)
Definition keeps {S A} (P : S -> Prop) (m : M S A) : Prop := forall s, P s -> P (m s).2.

Lemma keeps_state {S A} P (r : S -> res A) : keeps P (fun s => (r s, s)).
Proof. by intros s. Qed.
Lemma keeps_bind {S A B} P (m : M S A) (f : A -> M S B) :
  keeps P m -> (forall a, keeps P (f a)) -> keeps P (bindM m f).
Proof.
  intros Hm Hf s Hs. unfold bindM. specialize (Hm s Hs). destruct (m s) as [[a|?|?] s']; [|done..]. by apply Hf.
Qed.
Lemma keeps_zoom {S T A} P (get : S -> T) (set : T -> S -> S) (m : M T A) :
  (forall s t, P s -> P (set t s)) -> keeps P (zoomM get set m).
Proof. intros Hset s Hs. unfold zoomM. destruct (m (get s)) as [r t]. by apply Hset. Qed.

Create HintDb frames.
(** Goes through the structure of a method; what calls it cannot look into is left to
    the lemmas of [frames]. *)
Ltac keeping :=
  repeat match goal with
  | |- keeps _ (retM _) => exact (keeps_state _ _)
  | |- keeps _ (errM _) => exact (keeps_state _ _)
  | |- keeps _ (panicM _) => exact (keeps_state _ _)
  | |- keeps _ (liftM _) => exact (keeps_state _ _)
  | |- keeps _ (readM _) => exact (keeps_state _ _)
  | |- keeps _ getM => exact (keeps_state _ _)
  | |- keeps _ (bindM _ _) => apply keeps_bind; [|intros ?]
  | |- keeps _ (match ?x with _ => _ end) => destruct x
  | |- keeps _ _ => solve [auto with frames]
  end.

Lemma u64b_spec z : reflect (is_u64 z) (u64b z).
Proof. apply iff_reflect. unfold is_u64, u64b. lia. Qed.

Lemma i64b_spec z : reflect (is_i64 z) (i64b z).
Proof. apply iff_reflect. unfold is_i64, i64b. lia. Qed.

Lemma u64_op_ok `{Profile} z : is_u64 z -> u64_op z = Ok z.
Proof. intros Hz. unfold u64_op. by destruct (u64b_spec z). Qed.

Lemma i64_op_ok `{Profile} z : is_i64 z -> i64_op z = Ok z.
Proof. intros Hz. unfold i64_op. by destruct (i64b_spec z). Qed.

Lemma u64_op_range `{Profile} z r : u64_op z = Ok r -> is_u64 r.
Proof.
  unfold u64_op, wrap64. destruct (u64b_spec z); [|destruct overflow_checks].
  all: intros; res_inv; try done.
  unfold is_u64, u64_max.
  pose proof (Z.mod_pos_bound z (2 ^ 64) ltac:(lia)). lia.
Qed.
#[export] Hint Resolve u64_op_ok i64_op_ok : orga.
