(* ===== verification/Bytes.v ===== *)
(** * Byte strings: the order of [Vec<u8>], prefixes, and the successor routines.

    [Ord for Vec<u8>] is lexicographic; every store orders its keys by it. The
    order is packaged as a total order so that the [order] tactic of the
    Standard Library decides goals about it ([border] below). *)

From stdpp Require Import base tactics numbers list.
From Stdlib Require Import ZArith Lia Orders OrdersTac.
From S2P Require Import Prelude.

(** ** The lexicographic order *)

Fixpoint bcmp (a b : bytes) : comparison :=
  match a, b with
  | [], [] => Eq
  | [], _ :: _ => Lt
  | _ :: _, [] => Gt
  | x :: a', y :: b' =>
      match Z.compare x y with Eq => bcmp a' b' | c => c end
  end.

Definition blt (a b : bytes) : Prop := bcmp a b = Lt.
Definition ble (a b : bytes) : Prop := blt a b \/ a = b.
Definition bltb (a b : bytes) : bool := if bcmp a b is Lt then true else false.
Definition bleb (a b : bytes) : bool := if bcmp a b is Gt then false else true.
Definition beqb (a b : bytes) : bool := if bcmp a b is Eq then true else false.

Lemma bcmp_eq a b : bcmp a b = Eq <-> a = b.
Proof.
  revert b; induction a as [|x a IH]; intros [|y b]; simpl; try done.
  destruct (Z.compare_spec x y); subst; [rewrite IH; naive_solver|..].
  all: split; intros; simplify_eq; lia.
Qed.

Lemma bcmp_refl a : bcmp a a = Eq.
Proof. by apply bcmp_eq. Qed.

Lemma bcmp_antisym a b : bcmp b a = CompOpp (bcmp a b).
Proof.
  revert b; induction a as [|x a IH]; intros [|y b]; simpl; try done.
  rewrite (Z.compare_antisym x y). destruct (Z.compare x y); simpl; auto.
Qed.

Lemma blt_irrefl a : ~ blt a a.
Proof. unfold blt. by rewrite bcmp_refl. Qed.

Lemma blt_trans a b c : blt a b -> blt b c -> blt a c.
Proof.
  unfold blt. revert b c; induction a as [|x a IH]; intros [|y b] [|z c]; simpl; try done.
  destruct (Z.compare_spec x y), (Z.compare_spec y z), (Z.compare_spec x z);
    subst; intros; try done; try lia; eauto.
Qed.

Lemma bcmp_gt a b : bcmp a b = Gt <-> blt b a.
Proof. unfold blt. rewrite (bcmp_antisym a b). destruct (bcmp a b); simpl; split; done. Qed.

Lemma bcmp_spec a b : CompareSpec (a = b) (blt a b) (blt b a) (bcmp a b).
Proof.
  destruct (bcmp a b) eqn:E; constructor; [by apply bcmp_eq|done|by apply bcmp_gt].
Qed.

Lemma blt_total a b : blt a b \/ a = b \/ blt b a.
Proof. destruct (bcmp_spec a b); auto. Qed.

Module BytesOrder.
Definition t := bytes.
Definition eq := @Logic.eq bytes.
Definition lt := blt.
Definition le := ble.
Lemma eq_equiv : Equivalence eq.
Proof. unfold eq. apply _. Qed.
Lemma lt_strorder : StrictOrder lt.
Proof. split; [exact blt_irrefl|exact blt_trans]. Qed.
Lemma lt_compat : Proper (eq ==> eq ==> iff) lt.
Proof. by intros ?? -> ?? ->. Qed.
Lemma le_lteq a b : le a b <-> lt a b \/ eq a b.
Proof. done. Qed.
Lemma lt_total a b : lt a b \/ eq a b \/ lt b a.
Proof. apply blt_total. Qed.
End BytesOrder.
Module BytesTac := MakeOrderTac BytesOrder BytesOrder.

(** Decides goals about [blt], [ble] and [=] on byte strings. *)
Ltac border :=
  change blt with BytesOrder.lt in *; change ble with BytesOrder.le in *;
  change (@Logic.eq bytes) with BytesOrder.eq in *;
  BytesTac.order.

Lemma bltb_spec a b : reflect (blt a b) (bltb a b).
Proof. unfold bltb, blt. destruct (bcmp a b); constructor; done. Qed.
Lemma bleb_spec a b : reflect (ble a b) (bleb a b).
Proof.
  apply iff_reflect. unfold bleb.
  destruct (bcmp_spec a b); split; intros; subst; try done; border.
Qed.
Lemma beqb_spec a b : reflect (a = b) (beqb a b).
Proof.
  apply iff_reflect. unfold beqb.
  destruct (bcmp_spec a b); split; intros; subst; try done; border.
Qed.

#[export] Instance blt_dec a b : Decision (blt a b).
Proof. destruct (bltb_spec a b); [by left|by right]. Defined.
#[export] Instance ble_dec a b : Decision (ble a b).
Proof. destruct (bleb_spec a b); [by left|by right]. Defined.

Lemma blt_cons x a y b : blt (x :: a) (y :: b) <-> (x < y)%Z \/ x = y /\ blt a b.
Proof. unfold blt; simpl. destruct (Z.compare_spec x y); intuition (try lia; done). Qed.
Lemma ble_cons x a y b : ble (x :: a) (y :: b) <-> (x < y)%Z \/ x = y /\ ble a b.
Proof. unfold ble. rewrite blt_cons. intuition (subst; simplify_eq; auto). Qed.

Lemma ble_nil a : ble [] a.
Proof. destruct a; [by right|by left]. Qed.
Lemma blt_nil a : ~ blt a [].
Proof. by destruct a. Qed.
Lemma ble_refl a : ble a a.
Proof. by right. Qed.
#[export] Hint Resolve ble_nil ble_refl : orga.

(** ** Prefixes *)

(** [slice::starts_with]. *)
Fixpoint starts_with (p k : bytes) : bool :=
  match p, k with
  | [], _ => true
  | x :: p', y :: k' => (x =? y)%Z && starts_with p' k'
  | _ :: _, [] => false
  end.

Lemma starts_with_spec p k : starts_with p k = true <-> exists r, k = p ++ r.
Proof.
  revert k; induction p as [|x p IH]; intros k; simpl; [naive_solver|].
  destruct k as [|y k]; [naive_solver|].
  rewrite andb_true_iff, IH, Z.eqb_eq. naive_solver.
Qed.

Lemma starts_with_app p r : starts_with p (p ++ r) = true.
Proof. apply starts_with_spec; eauto. Qed.
Lemma starts_with_refl p : starts_with p p = true.
Proof. apply starts_with_spec. exists []. by rewrite app_nil_r. Qed.
#[export] Hint Resolve starts_with_app starts_with_refl : orga.

Lemma bcmp_app p a b : bcmp (p ++ a) (p ++ b) = bcmp a b.
Proof. induction p as [|x p IH]; simpl; [done|]. by rewrite Z.compare_refl. Qed.
Lemma blt_app p a b : blt (p ++ a) (p ++ b) <-> blt a b.
Proof. unfold blt. by rewrite bcmp_app. Qed.
Lemma ble_app_r p r : ble p (p ++ r).
Proof. destruct (blt_app p [] r) as [_ H]. rewrite app_nil_r in H.
  destruct r; [rewrite app_nil_r; by right|left; by apply H]. Qed.

(** The keys that start with a given prefix are an interval of the order. *)
Lemma starts_with_convex p a k b :
  ble (p ++ a) k -> ble k (p ++ b) -> starts_with p k = true.
Proof.
  revert k; induction p as [|x p IH]; intros k H1 H2; [done|].
  destruct k as [|y k]; [destruct H1 as [H1|H1]; by destruct (blt_nil _ H1) || done|].
  simpl in *. rewrite ble_cons in H1, H2.
  assert (x = y) as <- by lia. rewrite Z.eqb_refl. apply IH; intuition lia.
Qed.

(** ** [increment_bytes] and [decrement_bytes] *)

(** The loop over [bytes.iter_mut().rev()]: the argument is the reversed
    vector, the flag tells whether the loop returned from its body. *)
Fixpoint incr_loop (l : bytes) : bytes * bool :=
  match l with
  | [] => ([], false)
  | b :: l' =>
      if (b =? 255)%Z then let '(r, returned) := incr_loop l' in (0%Z :: r, returned)
      else ((b + 1)%Z :: l', true)
  end.

Definition increment_bytes (bs : bytes) : bytes :=
  let '(l, returned) := incr_loop (rev bs) in
  let bs := rev l in
  if returned then bs
  else
    let bs := bs ++ [0%Z] in
    if 1 <? length bs then
      match bs with b :: t => (b + 1)%Z :: t | [] => [] end
    else bs.

Fixpoint decr_loop (l : bytes) : bytes * bool :=
  match l with
  | [] => ([], false)
  | b :: l' =>
      if (b =? 0)%Z then let '(r, returned) := decr_loop l' in (255%Z :: r, returned)
      else ((b - 1)%Z :: l', true)
  end.

Definition decrement_bytes (bs : bytes) : option bytes :=
  let '(l, returned) := decr_loop (rev bs) in
  let bs := rev l in
  if returned then Some bs
  else match bs with [] => Some [] | _ => None end.

Lemma increment_bytes_last q b :
  b <> 255%Z -> increment_bytes (q ++ [b]) = q ++ [(b + 1)%Z].
Proof.
  intros Hb. unfold increment_bytes. rewrite rev_app_distr. simpl.
  destruct (Z.eqb_spec b 255); [done|]. simpl. by rewrite rev_involutive.
Qed.

(** Below [q ++ [b + 1]] and at or above [q ++ [b]] every key starts with
    [q ++ [b]]: the upper bound [get_prev] seeks from is tight. *)
Lemma increment_bytes_bound q b k :
  blt k (q ++ [(b + 1)%Z]) -> ble (q ++ [b]) k -> starts_with (q ++ [b]) k = true.
Proof.
  revert k; induction q as [|x q IH]; intros [|y k] H1 H2; simpl in *.
  1, 3: by destruct H2 as [H2|H2]; [destruct (blt_nil _ H2)|].
  - rewrite blt_cons in H1. rewrite ble_cons in H2. pose proof (blt_nil k).
    rewrite andb_true_r. apply Z.eqb_eq. intuition lia.
  - rewrite blt_cons in H1. rewrite ble_cons in H2.
    assert (x = y) as <- by lia. rewrite Z.eqb_refl. apply IH; intuition lia.
Qed.

Lemma increment_bytes_above q b r : blt ((q ++ [b]) ++ r) (q ++ [(b + 1)%Z]).
Proof.
  rewrite <- app_assoc. apply blt_app. unfold blt; simpl.
  by destruct (Z.compare_spec b (b + 1)); try lia.
Qed.

(** ** [std::ops::Bound] *)

Inductive Bound (A : Type) :=
| Included (a : A)
| Excluded (a : A)
| Unbounded.
Arguments Included {A} a.
Arguments Excluded {A} a.
Arguments Unbounded {A}.

(** [RangeBounds::contains], split into its two halves. *)
Definition above (lo : Bound bytes) (k : bytes) : bool :=
  match lo with
  | Included a => bleb a k
  | Excluded a => bltb a k
  | Unbounded => true
  end.
Definition below (hi : Bound bytes) (k : bytes) : bool :=
  match hi with
  | Included a => bleb k a
  | Excluded a => bltb k a
  | Unbounded => true
  end.
Definition bounds_contains (bounds : Bound bytes * Bound bytes) (k : bytes) : bool :=
  above bounds.1 k && below bounds.2 k.

Lemma above_mono lo a b : above lo a = true -> ble a b -> above lo b = true.
Proof.
  destruct lo as [l|l|]; simpl; intros H1 H2; [..|done].
  - destruct (bleb_spec l a), (bleb_spec l b); try done. border.
  - destruct (bltb_spec l a), (bltb_spec l b); try done. border.
Qed.
Lemma below_mono hi a b : below hi b = true -> ble a b -> below hi a = true.
Proof.
  destruct hi as [l|l|]; simpl; intros H1 H2; [..|done].
  - destruct (bleb_spec a l), (bleb_spec b l); try done. border.
  - destruct (bltb_spec a l), (bltb_spec b l); try done. border.
Qed.
