(* ===== verification/BTree.v ===== *)
(** * [std::collections::BTreeMap] keyed by byte strings

    The map is the list of its entries in key order, so that iteration, ranges
    and [pop_first] compute; [bt_wf] is the representation invariant and
    [bt_map] the finite map a list stands for. [BufStore], [PartialMapStore] and
    the collections' [Map] keep one of these (a [MapKey] is ordered by its
    encoded bytes). *)

From stdpp Require Import base tactics numbers list strings gmap sorting.
From Stdlib Require Import ZArith Lia.
From S2P Require Import Prelude Bytes.

Abbreviation BTree V := (list (bytes * V)).

Definition key_lt {V} (a b : bytes * V) : Prop := blt a.1 b.1.
Definition bt_wf {V} (m : BTree V) : Prop := StronglySorted key_lt m.
Definition bt_map {V} (m : BTree V) : gmap bytes V := list_to_map m.

Fixpoint bt_get {V} (k : bytes) (m : BTree V) : option V :=
  match m with
  | [] => None
  | (k', v) :: m' => if beqb k k' then Some v else bt_get k m'
  end.

Fixpoint bt_insert {V} (k : bytes) (v : V) (m : BTree V) : BTree V :=
  match m with
  | [] => [(k, v)]
  | (k', v') :: m' =>
      match bcmp k k' with
      | Lt => (k, v) :: m
      | Eq => (k, v) :: m'
      | Gt => (k', v') :: bt_insert k v m'
      end
  end.

Fixpoint bt_remove {V} (k : bytes) (m : BTree V) : BTree V :=
  match m with
  | [] => []
  | (k', v') :: m' => if beqb k k' then m' else (k', v') :: bt_remove k m'
  end.

(** [BTreeMap::range]: the entries in range, in key order. It panics when the
    range starts after its end, or when both bounds exclude the same key. *)
Definition range_panics (lo hi : Bound bytes) : bool :=
  match lo, hi with
  | Excluded a, Excluded b => bleb b a
  | Included a, Included b | Included a, Excluded b | Excluded a, Included b => bltb b a
  | _, _ => false
  end.
Definition bt_filter {V} (lo hi : Bound bytes) (m : BTree V) : BTree V :=
  filter (fun e => bounds_contains (lo, hi) e.1 = true) m.
Definition bt_range {V} (lo hi : Bound bytes) (m : BTree V) : res (BTree V) :=
  if range_panics lo hi then Panic "range start is greater than range end in BTreeMap"
  else Ok (bt_filter lo hi m).

Section BTree.
Context {V : Type}.
Implicit Types (m : BTree V) (k : bytes) (v : V).

Lemma bt_get_lookup k m : bt_get k m = bt_map m !! k.
Proof.
  induction m as [|[k' v] m IH]; [done|]. unfold bt_map in *; simpl.
  destruct (beqb_spec k k') as [->|Hk].
  - by rewrite lookup_insert_eq.
  - by rewrite lookup_insert_ne.
Qed.

Lemma bt_wf_cons k v m :
  bt_wf ((k, v) :: m) <-> bt_wf m /\ Forall (fun e => blt k e.1) m.
Proof. unfold bt_wf. split; [by inversion 1|by intros []; constructor]. Qed.

Lemma bt_map_cons k v m : bt_map ((k, v) :: m) = <[k := v]> (bt_map m).
Proof. done. Qed.

Lemma bt_map_above k m : Forall (fun e => blt k e.1) m -> forall j, ble j k -> bt_map m !! j = None.
Proof.
  induction 1 as [|[k' v] m Hk _ IH]; intros j Hj; [done|].
  rewrite bt_map_cons. simpl in Hk.
  rewrite lookup_insert_ne; [by apply IH|]. intros ->. border.
Qed.

Lemma bt_map_head k v m : bt_wf ((k, v) :: m) -> bt_map m !! k = None.
Proof. intros [_ Hf]%bt_wf_cons. eapply bt_map_above; eauto with orga. Qed.

Lemma bt_wf_NoDup m : bt_wf m -> NoDup m.*1.
Proof.
  induction m as [|[k v] m IH]; [constructor|].
  intros [Hm Hf]%bt_wf_cons. simpl. constructor; [|by apply IH].
  intros ([k' v'] & -> & Hin)%list_elem_of_fmap.
  rewrite Forall_forall in Hf. specialize (Hf _ Hin). simpl in Hf. border.
Qed.

(** Membership in the entry list is lookup. *)
Lemma bt_elem m k v : bt_wf m -> (k, v) ∈ m <-> bt_map m !! k = Some v.
Proof. intros Hm. apply elem_of_list_to_map. by apply bt_wf_NoDup. Qed.

Lemma bt_insert_Forall (P : bytes -> Prop) k v m :
  P k -> Forall (fun e => P e.1) m -> Forall (fun e => P e.1) (bt_insert k v m).
Proof.
  intros Hk. induction 1 as [|[k' v'] m Hk' Hm IH]; simpl; [by repeat constructor|].
  destruct (bcmp k k'); repeat constructor; auto.
Qed.

Lemma bt_insert_wf k v m : bt_wf m -> bt_wf (bt_insert k v m).
Proof.
  induction m as [|[k' v'] m IH]; simpl; [intros; by repeat constructor|].
  intros Hm. pose proof Hm as [Hm' Hf]%bt_wf_cons.
  destruct (bcmp_spec k k') as [->|Hlt|Hgt]; apply bt_wf_cons; split; auto.
  - constructor; [done|]. eapply Forall_impl; [exact Hf|]. simpl; intros; border.
  - by apply bt_insert_Forall.
Qed.

Lemma bt_insert_map k v m : bt_map (bt_insert k v m) = <[k := v]> (bt_map m).
Proof.
  induction m as [|[k' v'] m IH]; [done|]. simpl.
  destruct (bcmp_spec k k') as [->|Hlt|Hgt]; rewrite ?bt_map_cons.
  - by rewrite insert_insert_eq.
  - done.
  - rewrite IH, insert_insert_ne; [done|]. intros ->. border.
Qed.

Lemma bt_get_insert k k' v m :
  bt_get k' (bt_insert k v m) = if decide (k' = k) then Some v else bt_get k' m.
Proof.
  rewrite !bt_get_lookup, bt_insert_map. case_decide as Hk.
  - subst. apply lookup_insert_eq.
  - by rewrite lookup_insert_ne.
Qed.

Lemma bt_insert_twice k v v' m : bt_insert k v (bt_insert k v' m) = bt_insert k v m.
Proof.
  induction m as [|[k' w] m IH]; simpl; [by rewrite bcmp_refl|].
  destruct (bcmp k k') eqn:E; simpl; rewrite ?bcmp_refl, ?E; [done..|]. by rewrite IH.
Qed.

Lemma bt_remove_sub k m e : e ∈ bt_remove k m -> e ∈ m.
Proof.
  induction m as [|[k' v'] m IH]; simpl; [done|].
  destruct (beqb k k'); rewrite !elem_of_cons; intuition.
Qed.

Lemma bt_remove_wf k m : bt_wf m -> bt_wf (bt_remove k m).
Proof.
  induction m as [|[k' v'] m IH]; simpl; [done|]. intros [Hm Hf]%bt_wf_cons.
  destruct (beqb k k'); [done|]. apply bt_wf_cons; split; [by apply IH|].
  rewrite Forall_forall in *. intros e He. by eapply Hf, bt_remove_sub.
Qed.

Lemma bt_remove_map k m : bt_wf m -> bt_map (bt_remove k m) = delete k (bt_map m).
Proof.
  induction m as [|[k' v'] m IH]; simpl; [unfold bt_map; simpl; by rewrite delete_empty|].
  intros Hm. pose proof Hm as [Hm' Hf]%bt_wf_cons.
  destruct (beqb_spec k k') as [->|Hne].
  - rewrite delete_insert_id; [done|]. by eapply bt_map_head.
  - rewrite bt_map_cons, IH, delete_insert_ne; auto.
Qed.

Lemma bt_filter_wf lo hi m : bt_wf m -> bt_wf (bt_filter lo hi m).
Proof.
  induction 1 as [|[k v] m Hm IH Hf]; [constructor|].
  unfold bt_filter; rewrite filter_cons; case_decide; [|done].
  apply bt_wf_cons; split; [done|]. rewrite Forall_forall in *.
  intros e [_ He]%list_elem_of_filter. by apply Hf.
Qed.

Lemma bt_filter_elem lo hi m k v :
  bt_wf m ->
  (k, v) ∈ bt_filter lo hi m <-> bounds_contains (lo, hi) k = true /\ bt_map m !! k = Some v.
Proof. intros Hm. unfold bt_filter. rewrite list_elem_of_filter, bt_elem; done. Qed.

Lemma bt_range_ok lo hi m :
  range_panics lo hi = false -> bt_range lo hi m = Ok (bt_filter lo hi m).
Proof. unfold bt_range. by intros ->. Qed.

(** The sorted entry list of a finite map is unique. *)
Lemma bt_ext m1 m2 : bt_wf m1 -> bt_wf m2 -> bt_map m1 = bt_map m2 -> m1 = m2.
Proof.
  revert m2; induction m1 as [|[k1 v1] m1 IH]; intros [|[k2 v2] m2] H1 H2 Heq; [done|..].
  - rewrite bt_map_cons in Heq. apply (f_equal (lookup k2)) in Heq.
    by rewrite lookup_insert_eq in Heq.
  - rewrite bt_map_cons in Heq. apply (f_equal (lookup k1)) in Heq.
    by rewrite lookup_insert_eq in Heq.
  - pose proof H1 as [H1' F1]%bt_wf_cons. pose proof H2 as [H2' F2]%bt_wf_cons.
    assert (k1 = k2) as <-.
    { rewrite !bt_map_cons in Heq. pose proof (f_equal (lookup k1) Heq) as E1.
      pose proof (f_equal (lookup k2) Heq) as E2.
      rewrite lookup_insert_eq in E1, E2. destruct (blt_total k1 k2) as [Hk|[Hk|Hk]]; [|done|].
      - rewrite lookup_insert_ne, (bt_map_above k2) in E1 by (auto || (by left) || (intros ->; border)). done.
      - rewrite lookup_insert_ne, (bt_map_above k1) in E2 by (auto || (by left) || (intros ->; border)). done. }
    rewrite !bt_map_cons in Heq.
    assert (v1 = v2) as <-.
    { apply (f_equal (lookup k1)) in Heq. rewrite !lookup_insert_eq in Heq. congruence. }
    f_equal. apply IH; [done..|]. rewrite <- (delete_insert_id (bt_map m1) k1 v1),
      <- (delete_insert_id (bt_map m2) k1 v1), Heq; eauto using bt_map_head.
Qed.

(** The entries of a finite map in key order. *)
Definition to_sorted (v : gmap bytes V) : BTree V :=
  foldr (fun e m => bt_insert e.1 e.2 m) [] (map_to_list v).

Lemma to_sorted_wf (v : gmap bytes V) : bt_wf (to_sorted v).
Proof. unfold to_sorted. induction (map_to_list v); simpl; [constructor|auto using bt_insert_wf]. Qed.
Lemma to_sorted_map (v : gmap bytes V) : bt_map (to_sorted v) = v.
Proof.
  rewrite <- (list_to_map_to_list v) at 2. unfold to_sorted.
  induction (map_to_list v) as [|[k x] l IH]; [done|]. simpl. by rewrite bt_insert_map, IH.
Qed.

(** The entries of [v] in a range, in key order: what iterating over the
    range must produce. *)
Definition range_entries (v : gmap bytes V) (lo hi : Bound bytes) : BTree V :=
  bt_filter lo hi (to_sorted v).

Lemma range_entries_wf (v : gmap bytes V) lo hi : bt_wf (range_entries v lo hi).
Proof. apply bt_filter_wf, to_sorted_wf. Qed.
Lemma range_entries_elem (v : gmap bytes V) lo hi k x :
  (k, x) ∈ range_entries v lo hi <-> bounds_contains (lo, hi) k = true /\ v !! k = Some x.
Proof. unfold range_entries. rewrite bt_filter_elem, to_sorted_map by apply to_sorted_wf. done. Qed.
Lemma range_entries_unique (v : gmap bytes V) lo hi m :
  bt_wf m ->
  (forall k x, (k, x) ∈ m <-> bounds_contains (lo, hi) k = true /\ v !! k = Some x) ->
  range_entries v lo hi = m.
Proof.
  intros Hm Hin. apply bt_ext; [apply range_entries_wf|done|].
  apply map_eq. intros k. apply option_eq. intros x.
  rewrite <- !bt_elem by auto using range_entries_wf. by rewrite range_entries_elem, Hin.
Qed.
Lemma range_entries_all (m : BTree V) :
  bt_wf m -> range_entries (bt_map m) Unbounded Unbounded = m.
Proof. intros Hm. apply range_entries_unique; [done|]. intros. rewrite bt_elem by done. naive_solver. Qed.
End BTree.
#[export] Hint Resolve range_entries_wf to_sorted_wf : orga.
#[export] Hint Resolve bt_insert_wf bt_remove_wf bt_filter_wf : orga.
