(* ===== verification/StoreIface.v ===== *)
(** * The store interface ([src/store/mod.rs])

    [Read] and [Write] are the source's traits; [ReadSpec] and [WriteSpec] are
    what their doc comments promise, stated against an abstract view of the
    store as a finite map. Clients are proved against the laws, implementations
    are instances of them. *)

From stdpp Require Import base tactics numbers list strings gmap.
From Stdlib Require Import ZArith Lia.
From S2P Require Import Prelude Bytes.

(** A key/value entry. *)
Definition KV : Type := bytes * bytes.

(** ** [trait Read] and [trait Write] *)

Class Read (St : Type) := {
  Read_get : St -> bytes -> res (option bytes);
  Read_get_next : St -> bytes -> res (option KV);
  Read_get_prev : St -> option bytes -> res (option KV)
}.

Class Write (St : Type) := {
  Write_put : bytes -> bytes -> M St unit;
  Write_delete : bytes -> M St unit
}.

(** The trait's provided methods. *)
Definition Read_get_next_inclusive `{Read St} (s : St) (key : bytes) : res (option KV) :=
  let? o := Read_get s key in
  match o with
  | Some value => Ok (Some (key, value))
  | None => Read_get_next s key
  end.

Definition Read_get_prev_inclusive `{Read St} (s : St) (key : option bytes) : res (option KV) :=
  match key with
  | Some key =>
      let? o := Read_get s key in
      match o with
      | Some value => Ok (Some (key, value))
      | None => Read_get_prev s (Some key)
      end
  | None => Read_get_prev s None
  end.

(** ** The abstract view *)

Abbreviation View := (gmap bytes bytes).

(** [r] is the entry of [v] with the least (greatest) key among those that
    satisfy [P]. *)
Definition is_first (v : View) (P : bytes -> Prop) (r : option KV) : Prop :=
  match r with
  | Some (k, x) => v !! k = Some x /\ P k /\ forall j y, v !! j = Some y -> P j -> ble k j
  | None => forall j y, v !! j = Some y -> ~ P j
  end.
Definition is_last (v : View) (P : bytes -> Prop) (r : option KV) : Prop :=
  match r with
  | Some (k, x) => v !! k = Some x /\ P k /\ forall j y, v !! j = Some y -> P j -> ble j k
  | None => forall j y, v !! j = Some y -> ~ P j
  end.

(** The keys [get_prev] ranges over. *)
Definition before (k : option bytes) (j : bytes) : Prop :=
  match k with Some k => blt j k | None => True end.
Definition at_or_before (k : option bytes) (j : bytes) : Prop :=
  match k with Some k => ble j k | None => True end.

(** ** The laws

    [Read_inv] is the implementation's well-formedness invariant. On a well-formed
    store every read succeeds and agrees with the view. *)
Class ReadSpec (St : Type) `{Read St} := {
  Read_inv : St -> Prop;
  view : St -> View;
  Read_get_spec s k : Read_inv s -> Read_get s k = Ok (view s !! k);
  Read_get_next_spec s k :
    Read_inv s -> exists r, Read_get_next s k = Ok r /\ is_first (view s) (blt k) r;
  Read_get_prev_spec s k :
    Read_inv s -> exists r, Read_get_prev s k = Ok r /\ is_last (view s) (before k) r
}.

(** Writes succeed, keep the invariant and change the view at one key. The
    predicate [writable] is the implementation's limit on the keys of [put],
    which writing does not tighten. *)
Class WriteSpec (St : Type) `{RS : ReadSpec St} `{Write St} := {
  writable : St -> bytes -> Prop;
  Write_put_spec s k x :
    Read_inv s -> writable s k ->
    exists s', Write_put k x s = (Ok tt, s') /\ Read_inv s' /\
      view s' = <[k := x]> (view s) /\ (forall j, writable s j -> writable s' j);
  Write_delete_spec s k :
    Read_inv s ->
    exists s', Write_delete k s = (Ok tt, s') /\ Read_inv s' /\
      view s' = delete k (view s) /\ (forall j, writable s j -> writable s' j)
}.

(** ** Facts about the view relations *)

Section Views.
Implicit Types (v : View) (P Q : bytes -> Prop) (r : option KV).

Lemma is_first_unique v P r1 r2 : is_first v P r1 -> is_first v P r2 -> r1 = r2.
Proof.
  destruct r1 as [[k1 x1]|], r2 as [[k2 x2]|]; simpl; [| | |done].
  - intros (H1 & H2 & H3) (H4 & H5 & H6).
    assert (k1 = k2) as -> by (pose proof (H3 _ _ H4 H5); pose proof (H6 _ _ H1 H2); border).
    congruence.
  - intros (H1 & H2 & H3) H4. by destruct (H4 _ _ H1).
  - intros H4 (H1 & H2 & H3). by destruct (H4 _ _ H1).
Qed.

Lemma is_last_unique v P r1 r2 : is_last v P r1 -> is_last v P r2 -> r1 = r2.
Proof.
  destruct r1 as [[k1 x1]|], r2 as [[k2 x2]|]; simpl; [| | |done].
  - intros (H1 & H2 & H3) (H4 & H5 & H6).
    assert (k1 = k2) as -> by (pose proof (H3 _ _ H4 H5); pose proof (H6 _ _ H1 H2); border).
    congruence.
  - intros (H1 & H2 & H3) H4. by destruct (H4 _ _ H1).
  - intros H4 (H1 & H2 & H3). by destruct (H4 _ _ H1).
Qed.

Lemma is_first_ext v P Q r : (forall k, P k <-> Q k) -> is_first v P r -> is_first v Q r.
Proof. intros HPQ. destruct r as [[k x]|]; simpl; setoid_rewrite HPQ; done. Qed.
Lemma is_last_ext v P Q r : (forall k, P k <-> Q k) -> is_last v P r -> is_last v Q r.
Proof. intros HPQ. destruct r as [[k x]|]; simpl; setoid_rewrite HPQ; done. Qed.

(** The key itself when present, else the strict successor (predecessor). *)
Lemma is_first_incl_here v k x : v !! k = Some x -> is_first v (ble k) (Some (k, x)).
Proof. intros; simpl; repeat split; auto with orga. Qed.
Lemma is_first_incl_next v k r :
  v !! k = None -> is_first v (blt k) r -> is_first v (ble k) r.
Proof.
  intros Hk. assert (Hle : forall j y, v !! j = Some y -> ble k j -> blt k j).
  { intros j y Hj [|<-]; congruence. }
  destruct r as [[k' x]|]; simpl; [|intros Hr j y Hj Hkj; by eapply Hr, Hle].
  intros (H1 & H2 & H3); repeat split; eauto. by left.
Qed.
Lemma is_last_incl_here v k x : v !! k = Some x -> is_last v (fun j => ble j k) (Some (k, x)).
Proof. intros; simpl; repeat split; auto with orga. Qed.
Lemma is_last_incl_prev v k r :
  v !! k = None -> is_last v (fun j => blt j k) r -> is_last v (fun j => ble j k) r.
Proof.
  intros Hk. assert (Hle : forall j y, v !! j = Some y -> ble j k -> blt j k).
  { intros j y Hj [|<-]; congruence. }
  destruct r as [[k' x]|]; simpl; [|intros Hr j y Hj Hkj; by eapply Hr, Hle].
  intros (H1 & H2 & H3); repeat split; eauto. by left.
Qed.
End Views.

(** [s] reads as [v]: the forward reads, which is all forward iteration needs,
    and the backward read. *)
Definition reads_fwd `{Read St} (s : St) (v : View) : Prop :=
  (forall k, Read_get s k = Ok (v !! k)) /\
  (forall k, exists r, Read_get_next s k = Ok r /\ is_first v (blt k) r).
Definition reads_back `{Read St} (s : St) (v : View) : Prop :=
  forall k, exists r, Read_get_prev s k = Ok r /\ is_last v (before k) r.

Section ReadFacts.
Context `{Read St}.
Implicit Types (s : St) (v : View).

Lemma get_next_inclusive_spec s v k :
  reads_fwd s v ->
  exists r, Read_get_next_inclusive s k = Ok r /\ is_first v (ble k) r.
Proof.
  intros [Hget Hnext]. unfold Read_get_next_inclusive. rewrite Hget. simpl.
  destruct (v !! k) as [x|] eqn:Hk; [eauto using is_first_incl_here|].
  destruct (Hnext k) as (r & -> & Hr). eauto using is_first_incl_next.
Qed.

Lemma get_prev_inclusive_spec s v k :
  reads_fwd s v -> reads_back s v ->
  exists r, Read_get_prev_inclusive s k = Ok r /\ is_last v (at_or_before k) r.
Proof.
  intros [Hget _] Hprev. destruct k as [k|]; simpl; [|by apply (Hprev None)].
  rewrite Hget. simpl.
  destruct (v !! k) as [x|] eqn:Hk; [eauto using is_last_incl_here|].
  destruct (Hprev (Some k)) as (r & -> & Hr). eauto using is_last_incl_prev.
Qed.

Lemma get_next_eq s v k r : reads_fwd s v -> is_first v (blt k) r -> Read_get_next s k = Ok r.
Proof.
  intros [_ Hnext] Hr. destruct (Hnext k) as (r' & -> & Hr').
  by rewrite (is_first_unique _ _ _ _ Hr Hr').
Qed.
Lemma get_prev_eq s v k r : reads_back s v -> is_last v (before k) r -> Read_get_prev s k = Ok r.
Proof.
  intros Hprev Hr. destruct (Hprev k) as (r' & -> & Hr').
  by rewrite (is_last_unique _ _ _ _ Hr Hr').
Qed.

Context `{!ReadSpec St}.
Lemma reads_fwd_view s : Read_inv s -> reads_fwd s (view s).
Proof. intros Hs. split; intros k; [by apply Read_get_spec|by apply Read_get_next_spec]. Qed.
Lemma reads_back_view s : Read_inv s -> reads_back s (view s).
Proof. intros Hs k. by apply Read_get_prev_spec. Qed.
End ReadFacts.
#[export] Hint Resolve reads_fwd_view reads_back_view : orga.

#[global] Arguments Read_get_next_inclusive : simpl never.
#[global] Arguments Read_get_prev_inclusive : simpl never.
