(* ===== verification/StoreIter.v ===== *)
(** * Store iteration ([src/store/iter.rs])

    [Iter] keeps the bounds still to be visited and a flag; the parent store is
    an argument of every step, since a [Shared] parent may be written to between
    two steps. The theorems say that, over a store that meets its laws, any
    interleaving of [next] and [next_back] consumes the sorted list of the
    entries in range from its two ends. *)

From stdpp Require Import base tactics numbers list strings gmap.
From Stdlib Require Import ZArith Lia.
From S2P Require Import Prelude Bytes BTree StoreIface.

(** ** The iterator *)

Record Iter := mkIter {
  Iter_bounds : Bound bytes * Bound bytes;
  Iter_done : bool
}.

Definition Iter_new (bounds : Bound bytes * Bound bytes) : Iter := mkIter bounds false.

(** [Option<Result<KV>>]: what a step yields. *)
Definition Item : Type := option (KV + Error).

(** [Result::transpose], with panics left as panics. *)
Definition transpose (r : res (option KV)) : res Item :=
  match r with
  | Ok None => Ok None
  | Ok (Some e) => Ok (Some (inl e))
  | Err e => Ok (Some (inr e))
  | Panic w => Panic w
  end.

Section Steps.
Context `{Read St}.

Definition Iter_next (parent : St) : M Iter Item := fun it =>
  if Iter_done it then (Ok None, it)
  else
    let maybe_entry :=
      match (Iter_bounds it).1 with
      | Unbounded => transpose (Read_get_next_inclusive parent [])
      | Included key => transpose (Read_get_next_inclusive parent key)
      | Excluded key => transpose (Read_get_next parent key)
      end in
    match maybe_entry with
    | Ok (Some (inr err)) => (Ok (Some (inr err)), it)
    | Ok (Some (inl (key, value))) =>
        if bounds_contains (Iter_bounds it) key then
          (Ok (Some (inl (key, value))), mkIter (Excluded key, (Iter_bounds it).2) false)
        else (Ok None, mkIter (Iter_bounds it) true)
    | Ok None => (Ok None, mkIter (Iter_bounds it) true)
    | Err e => (Err e, it)
    | Panic w => (Panic w, it)
    end.

Definition Iter_next_back (parent : St) : M Iter Item := fun it =>
  if Iter_done it then (Ok None, it)
  else
    let maybe_entry :=
      match (Iter_bounds it).2 with
      | Unbounded => transpose (Read_get_prev parent None)
      | Included key => transpose (Read_get_prev_inclusive parent (Some key))
      | Excluded key => transpose (Read_get_prev parent (Some key))
      end in
    match maybe_entry with
    | Ok (Some (inr err)) => (Ok (Some (inr err)), it)
    | Ok (Some (inl (key, value))) =>
        if bounds_contains (Iter_bounds it) key then
          (Ok (Some (inl (key, value))), mkIter ((Iter_bounds it).1, Excluded key) false)
        else (Ok None, mkIter (Iter_bounds it) true)
    | Ok None => (Ok None, mkIter (Iter_bounds it) true)
    | Err e => (Err e, it)
    | Panic w => (Panic w, it)
    end.

(** A client's sequence of steps: [true] is [next], [false] is [next_back]. *)
Fixpoint Iter_steps (parent : St) (dirs : list bool) : M Iter (list Item) :=
  match dirs with
  | [] => retM []
  | d :: dirs' =>
      do i <- if d then Iter_next parent else Iter_next_back parent;
      do l <- Iter_steps parent dirs';
      retM (i :: l)
  end.

(** [iter.take(n).collect::<Result<Vec<_>>>()]: at most [n] steps, stopping at
    the end of the iteration or at the first error. *)
Fixpoint Iter_take (parent : St) (n : nat) : M Iter (list KV) :=
  match n with
  | O => retM []
  | S n' =>
      do i <- Iter_next parent;
      match i with
      | None => retM []
      | Some (inr e) => errM e
      | Some (inl kv) => do l <- Iter_take parent n'; retM (kv :: l)
      end
  end.
End Steps.

(** ** What a step consumes *)

(** The two-ended queue an iterator stands for. *)
Fixpoint drain (dirs : list bool) (l : list KV) : list Item :=
  match dirs with
  | [] => []
  | true :: dirs' => (inl <$> head l) :: drain dirs' (tail l)
  | false :: dirs' => (inl <$> last l) :: drain dirs' (removelast l)
  end.

Section Entries.
Implicit Types (v : View) (lo hi : Bound bytes).

Lemma range_entries_head v lo hi k x :
  is_first v (fun j => above lo j = true) (Some (k, x)) -> below hi k = true ->
  range_entries v lo hi = (k, x) :: range_entries v (Excluded k) hi.
Proof.
  intros (Hk & Hlo & Hmin) Hhi. apply range_entries_unique.
  - apply bt_wf_cons. split; [apply range_entries_wf|]. apply Forall_forall.
    intros [j y] [Hj _]%range_entries_elem. unfold bounds_contains in Hj; simpl in *.
    destruct (bltb_spec k j); done.
  - intros j y. rewrite elem_of_cons, range_entries_elem. unfold bounds_contains; simpl.
    rewrite !andb_true_iff. split.
    + intros [?|[[Hkj ?] ?]]; [naive_solver|]. repeat split; auto.
      eapply above_mono; [exact Hlo|]. left. by destruct (bltb_spec k j).
    + intros [[H1 H2] H3]. destruct (bltb_spec k j) as [|Hn]; [auto|left].
      assert (j = k) as -> by (pose proof (Hmin _ _ H3 H1); border). congruence.
Qed.

Lemma range_entries_none v lo hi :
  is_first v (fun j => above lo j = true) None -> range_entries v lo hi = [].
Proof.
  intros Hn. apply range_entries_unique; [constructor|]. intros k x.
  rewrite elem_of_nil. unfold bounds_contains. rewrite andb_true_iff. naive_solver.
Qed.

Lemma range_entries_past v lo hi k x :
  is_first v (fun j => above lo j = true) (Some (k, x)) -> below hi k = false ->
  range_entries v lo hi = [].
Proof.
  intros (Hk & Hlo & Hmin) Hhi. apply range_entries_unique; [constructor|]. intros j y.
  rewrite elem_of_nil. unfold bounds_contains; simpl. rewrite andb_true_iff.
  split; [done|]. intros [[H1 H2] H3].
  pose proof (below_mono hi k j H2 (Hmin _ _ H3 H1)). congruence.
Qed.

Lemma bt_wf_app_last {V} (m : BTree V) k x :
  bt_wf m -> Forall (fun e => blt e.1 k) m -> bt_wf (m ++ [(k, x)]).
Proof.
  induction m as [|[k' x'] m IH]; simpl; [by repeat constructor|].
  intros [Hm Hf]%bt_wf_cons [Hk Hall]%Forall_cons. apply bt_wf_cons. split; [auto|].
  apply Forall_app; split; [done|]. by repeat constructor.
Qed.

Lemma range_entries_last v lo hi k x :
  is_last v (fun j => below hi j = true) (Some (k, x)) -> above lo k = true ->
  range_entries v lo hi = range_entries v lo (Excluded k) ++ [(k, x)].
Proof.
  intros (Hk & Hhi & Hmax) Hlo. apply range_entries_unique.
  - apply bt_wf_app_last; [apply range_entries_wf|]. apply Forall_forall.
    intros [j y] [Hj _]%range_entries_elem. unfold bounds_contains in Hj; simpl in *.
    apply andb_true_iff in Hj as [_ Hj]. by destruct (bltb_spec j k).
  - intros j y. rewrite elem_of_app, range_entries_elem, list_elem_of_singleton.
    unfold bounds_contains; simpl. rewrite !andb_true_iff. split.
    + intros [[[? Hkj] ?]|?]; [|naive_solver]. repeat split; auto.
      eapply below_mono; [exact Hhi|]. left. by destruct (bltb_spec j k).
    + intros [[H1 H2] H3]. destruct (bltb_spec j k) as [|Hn]; [auto|right].
      assert (j = k) as -> by (pose proof (Hmax _ _ H3 H2); border). congruence.
Qed.

Lemma range_entries_none_back v lo hi :
  is_last v (fun j => below hi j = true) None -> range_entries v lo hi = [].
Proof.
  intros Hn. apply range_entries_unique; [constructor|]. intros k x.
  rewrite elem_of_nil. unfold bounds_contains. rewrite andb_true_iff. naive_solver.
Qed.

Lemma range_entries_past_back v lo hi k x :
  is_last v (fun j => below hi j = true) (Some (k, x)) -> above lo k = false ->
  range_entries v lo hi = [].
Proof.
  intros (Hk & Hhi & Hmax) Hlo. apply range_entries_unique; [constructor|]. intros j y.
  rewrite elem_of_nil. unfold bounds_contains; simpl. rewrite andb_true_iff.
  split; [done|]. intros [[H1 H2] H3].
  pose proof (above_mono lo j k H1 (Hmax _ _ H3 H2)). congruence.
Qed.
End Entries.

Section IterSpec.
Context `{Read St}.
Implicit Types (s : St) (v : View) (it : Iter).

(** The entries an iterator has still to yield. *)
Definition Iter_rest v it : list KV :=
  if Iter_done it then []
  else range_entries v (Iter_bounds it).1 (Iter_bounds it).2.

Lemma seek_spec s v lo :
  reads_fwd s v ->
  exists r,
    match lo with
    | Unbounded => transpose (Read_get_next_inclusive s [])
    | Included key => transpose (Read_get_next_inclusive s key)
    | Excluded key => transpose (Read_get_next s key)
    end = Ok (inl <$> r) /\ is_first v (fun j => above lo j = true) r.
Proof.
  intros Hs. destruct lo as [k|k|]; simpl.
  - destruct (get_next_inclusive_spec s v k Hs) as (r & -> & Hr).
    exists r. split; [by destruct r|]. eapply is_first_ext, Hr.
    intros j. by destruct (bleb_spec k j).
  - destruct (proj2 Hs k) as (r & -> & Hr).
    exists r. split; [by destruct r|]. eapply is_first_ext, Hr.
    intros j. by destruct (bltb_spec k j).
  - destruct (get_next_inclusive_spec s v [] Hs) as (r & -> & Hr).
    exists r. split; [by destruct r|]. eapply is_first_ext, Hr. split; auto with orga.
Qed.

Lemma seek_back_spec s v hi :
  reads_fwd s v -> reads_back s v ->
  exists r,
    match hi with
    | Unbounded => transpose (Read_get_prev s None)
    | Included key => transpose (Read_get_prev_inclusive s (Some key))
    | Excluded key => transpose (Read_get_prev s (Some key))
    end = Ok (inl <$> r) /\ is_last v (fun j => below hi j = true) r.
Proof.
  intros Hs Hb. destruct hi as [k|k|]; simpl.
  - destruct (get_prev_inclusive_spec s v (Some k) Hs Hb) as (r & Hk & Hr).
    rewrite Hk. exists r. split; [by destruct r|]. eapply is_last_ext, Hr.
    intros j. simpl. by destruct (bleb_spec j k).
  - destruct (Hb (Some k)) as (r & -> & Hr).
    exists r. split; [by destruct r|]. eapply is_last_ext, Hr.
    intros j. simpl. by destruct (bltb_spec j k).
  - destruct (Hb None) as (r & -> & Hr).
    exists r. split; [by destruct r|]. eapply is_last_ext, Hr. done.
Qed.

Lemma Iter_next_spec s v it :
  reads_fwd s v ->
  exists it', Iter_next s it = (Ok (inl <$> head (Iter_rest v it)), it') /\
              Iter_rest v it' = tail (Iter_rest v it).
Proof.
  intros Hs. unfold Iter_next, Iter_rest. destruct it as [[lo hi] [|]]; simpl; [by eauto|].
  destruct (seek_spec s v lo Hs) as (r & -> & Hr). destruct r as [[k x]|]; simpl.
  - unfold bounds_contains; simpl. rewrite (proj1 (proj2 Hr)). simpl.
    destruct (below hi k) eqn:Hhi.
    + eexists. by rewrite (range_entries_head _ _ _ _ _ Hr Hhi).
    + eexists. by rewrite (range_entries_past _ _ _ _ _ Hr Hhi).
  - eexists. by rewrite (range_entries_none _ _ _ Hr).
Qed.

Lemma Iter_next_back_spec s v it :
  reads_fwd s v -> reads_back s v ->
  exists it', Iter_next_back s it = (Ok (inl <$> last (Iter_rest v it)), it') /\
              Iter_rest v it' = removelast (Iter_rest v it).
Proof.
  intros Hs Hb. unfold Iter_next_back, Iter_rest. destruct it as [[lo hi] [|]]; simpl; [by eauto|].
  destruct (seek_back_spec s v hi Hs Hb) as (r & -> & Hr). destruct r as [[k x]|]; simpl.
  - unfold bounds_contains; simpl. rewrite (proj1 (proj2 Hr)), andb_true_r.
    destruct (above lo k) eqn:Hlo.
    + eexists. rewrite (range_entries_last _ _ _ _ _ Hr Hlo). simpl.
      by rewrite last_snoc, removelast_last.
    + eexists. by rewrite (range_entries_past_back _ _ _ _ _ Hr Hlo).
  - eexists. by rewrite (range_entries_none_back _ _ _ Hr).
Qed.

Lemma Iter_steps_drain s v dirs it :
  reads_fwd s v -> reads_back s v -> (Iter_steps s dirs it).1 = Ok (drain dirs (Iter_rest v it)).
Proof.
  intros Hs Hb. revert it; induction dirs as [|d dirs IH]; intros it; [done|]. simpl.
  unfold bindM. destruct d.
  - destruct (Iter_next_spec s v it Hs) as (it' & -> & Hr).
    specialize (IH it'). destruct (Iter_steps s dirs it') as [q it'']. simpl in IH. subst q.
    simpl. by rewrite Hr.
  - destruct (Iter_next_back_spec s v it Hs Hb) as (it' & -> & Hr).
    specialize (IH it'). destruct (Iter_steps s dirs it') as [q it'']. simpl in IH. subst q.
    simpl. by rewrite Hr.
Qed.

Lemma Iter_take_spec s v n it :
  reads_fwd s v -> (Iter_take s n it).1 = Ok (take n (Iter_rest v it)).
Proof.
  intros Hs. revert it; induction n as [|n IH]; intros it; [done|]. simpl. unfold bindM.
  destruct (Iter_next_spec s v it Hs) as (it' & -> & Hr).
  destruct (Iter_rest v it) as [|kv l]; simpl; [done|].
  specialize (IH it'). destruct (Iter_take s n it') as [q it'']. simpl in IH. subst q.
  simpl. by rewrite Hr.
Qed.
End IterSpec.

Section Props.
Context `{RS : ReadSpec St}.

(** over a store that keeps its contract, any interleaving of [next] and
    [next_back] on one iterator yields the entries of the range, in key order,
    from the two ends of the sorted entry list, each exactly once, and then
    [None] forever. *)
Theorem Iter_interleaving_drains_range (s : St) (lo hi : Bound bytes) (dirs : list bool) :
  Read_inv s ->
  (Iter_steps s dirs (Iter_new (lo, hi))).1 = Ok (drain dirs (range_entries (view s) lo hi)).
Proof. intros Hs. apply (Iter_steps_drain s (view s) dirs (Iter_new (lo, hi))); auto with orga. Qed.
End Props.
