(* ===== verification/NullStore.v ===== *)
(** * The trivial stores and the read log

    [Empty] and [Unknown] ([src/store/null.rs]); [ReadLog]
    ([src/store/log.rs]), whose log is interior state that every read extends. *)

From stdpp Require Import base tactics numbers list strings gmap.
From Stdlib Require Import ZArith Lia.
From S2P Require Import Prelude Bytes StoreIface.

(** ** [Empty] *)

Inductive Empty := mkEmpty.

Definition Empty_get (s : Empty) (k : bytes) : res (option bytes) := Ok None.
Definition Empty_get_next (s : Empty) (k : bytes) : res (option KV) := Ok None.
Definition Empty_get_prev (s : Empty) (k : option bytes) : res (option KV) := Ok None.
Definition Empty_put (k v : bytes) : M Empty unit := panicM "not implemented".
Definition Empty_delete (k : bytes) : M Empty unit := panicM "not implemented".

#[export] Instance Empty_Read : Read Empty :=
  {| Read_get := Empty_get; Read_get_next := Empty_get_next; Read_get_prev := Empty_get_prev |}.
#[export] Instance Empty_Write : Write Empty :=
  {| Write_put := Empty_put; Write_delete := Empty_delete |}.

#[export] Program Instance Empty_ReadSpec : ReadSpec Empty :=
  {| Read_inv := fun _ => True; view := fun _ => ∅ |}.
Next Obligation. done. Qed.
Next Obligation. intros. exists None. split; [done|]. by intros j y. Qed.
Next Obligation. intros. exists None. split; [done|]. by intros j y. Qed.

(** ** [Unknown] *)

Inductive Unknown := mkUnknown.

Definition Unknown_get (s : Unknown) (k : bytes) : res (option bytes) :=
  Err (EStoreErr (GetUnknown k)).
Definition Unknown_get_next (s : Unknown) (k : bytes) : res (option KV) :=
  Err (EStoreErr (GetUnknown k)).
Definition Unknown_get_prev (s : Unknown) (k : option bytes) : res (option KV) :=
  let? k := unwrap k "called `Option::unwrap()` on a `None` value" in
  Err (EStoreErr (GetUnknown k)).
Definition Unknown_put (k v : bytes) : M Unknown unit := panicM "not implemented".
Definition Unknown_delete (k : bytes) : M Unknown unit := panicM "not implemented".

#[export] Instance Unknown_Read : Read Unknown :=
  {| Read_get := Unknown_get; Read_get_next := Unknown_get_next;
     Read_get_prev := Unknown_get_prev |}.
#[export] Instance Unknown_Write : Write Unknown :=
  {| Write_put := Unknown_put; Write_delete := Unknown_delete |}.

(** ** [ReadLog]

    Reads change the log behind a shared reference, so they are methods on the
    whole structure here. *)
Record ReadLog (T : Type) := mkReadLog { ReadLog_inner : T; ReadLog_reads : list bytes }.
Arguments mkReadLog {T} _ _.
Arguments ReadLog_inner {T} _.
Arguments ReadLog_reads {T} _.

Definition ReadLog_new {T} (inner : T) : ReadLog T := mkReadLog inner [].

Section ReadLog.
Context `{Read T} `{Write T}.

Definition ReadLog_push (key : bytes) : M (ReadLog T) unit :=
  fun l => (Ok tt, mkReadLog (ReadLog_inner l) (ReadLog_reads l ++ [key])).

Definition ReadLog_get (key : bytes) : M (ReadLog T) (option bytes) :=
  run ReadLog_push key;
  readM (fun l => Read_get (ReadLog_inner l) key).
Definition ReadLog_get_next (key : bytes) : M (ReadLog T) (option KV) :=
  run ReadLog_push key;
  readM (fun l => Read_get_next (ReadLog_inner l) key).
Definition ReadLog_get_prev (key : option bytes) : M (ReadLog T) (option KV) :=
  do k <- liftM (unwrap key "called `Option::unwrap()` on a `None` value");
  run ReadLog_push k;
  readM (fun l => Read_get_prev (ReadLog_inner l) key).
Definition ReadLog_put (key value : bytes) : M (ReadLog T) unit :=
  zoomM ReadLog_inner (fun t l => mkReadLog t (ReadLog_reads l)) (Write_put key value).
Definition ReadLog_delete (key : bytes) : M (ReadLog T) unit :=
  zoomM ReadLog_inner (fun t l => mkReadLog t (ReadLog_reads l)) (Write_delete key).
End ReadLog.
