(* ===== verification/BufStore.v ===== *)
(** * The write buffer ([src/store/bufstore.rs])

    A [BufStore] records writes in an in-memory map and answers reads from the
    map laid over the wrapped store. Its view is that overlay; the instances
    below show that the merge iteration implements it, and [flush] moves the
    buffer into the wrapped store without changing the view. *)

From stdpp Require Import base tactics numbers list strings gmap sorting.
From Stdlib Require Import ZArith Lia.
From S2P Require Import Prelude Bytes BTree StoreIface StoreIter NullStore.

(** ** [std::iter::Peekable] *)

Record Peekable (It : Type) := mkPeekable {
  Peekable_iter : It;
  Peekable_peeked : option Item
}.
Arguments mkPeekable {It} _ _.
Arguments Peekable_iter {It} _.
Arguments Peekable_peeked {It} _.

Definition peekable {It} (it : It) : Peekable It := mkPeekable it None.

Section Peekable.
Context {It : Type} (step : M It Item).

Definition Peekable_peek : M (Peekable It) Item := fun p =>
  match Peekable_peeked p with
  | Some i => (Ok i, p)
  | None =>
      match step (Peekable_iter p) with
      | (Ok i, it) => (Ok i, mkPeekable it (Some i))
      | (Err e, it) => (Err e, mkPeekable it None)
      | (Panic w, it) => (Panic w, mkPeekable it None)
      end
  end.

Definition Peekable_next : M (Peekable It) Item := fun p =>
  match Peekable_peeked p with
  | Some i => (Ok i, mkPeekable (Peekable_iter p) None)
  | None =>
      let '(r, it) := step (Peekable_iter p) in (r, mkPeekable it None)
  end.

(** [store_iter.next().transpose()?] *)
Definition emit_store : M (Peekable It) (option KV) :=
  do i <- Peekable_next;
  match i with
  | None => retM None
  | Some (inl entry) => retM (Some entry)
  | Some (inr e) => errM e
  end.

(** [iter_merge_next]. The loop consumes one map entry per turn, so it is
    structural on the entries left; the store iterator is behind [Peekable]. *)
Fixpoint iter_merge_next (map_iter : list (bytes * option bytes)) (increasing : bool)
  : M (Peekable It) (option KV) :=
  do store_peek <- Peekable_peek;
  match map_iter, store_peek with
  | [], None => retM None
  | (key, map_value) :: map_iter', None =>
      match map_value with
      | Some value => retM (Some (key, value))
      | None => iter_merge_next map_iter' increasing
      end
  | [], Some _ => emit_store
  | (map_key, map_value) :: map_iter', Some backing =>
      match backing with
      | inr _ => errM (EStore "Backing key does not exist")
      | inl (backing_key, _) =>
          let key_cmp := bcmp map_key backing_key in
          if (increasing && (if key_cmp is Gt then true else false))
             || (negb increasing && (if key_cmp is Lt then true else false))
          then emit_store
          else
            run (if key_cmp is Eq then Peekable_next else retM None);
            match map_value with
            | Some value => retM (Some (map_key, value))
            | None => iter_merge_next map_iter' increasing
            end
      end
  end.
End Peekable.

(** ** The store *)

Record BufStore (St : Type) := mkBufStore {
  BufStore_map : BTree (option bytes);
  BufStore_store : St
}.
Arguments mkBufStore {St} _ _.
Arguments BufStore_map {St} _.
Arguments BufStore_store {St} _.

Definition BufStore_wrap {St} (store : St) : BufStore St := mkBufStore [] store.
Definition BufStore_wrap_with_map {St} (store : St) (map : BTree (option bytes)) : BufStore St :=
  mkBufStore map store.
Definition BufStore_into_map {St} (b : BufStore St) : BTree (option bytes) := BufStore_map b.

Definition MapStore : Type := BufStore Empty.
Definition MapStore_new : MapStore := mkBufStore [] mkEmpty.

Definition exclusive_range_starting_from (start : bytes) : Bound bytes * Bound bytes :=
  (Excluded start, Unbounded).
Definition exclusive_range_ending_at (start : bytes) : Bound bytes * Bound bytes :=
  (Unbounded, Excluded start).

Section BufStore.
Context `{Read St}.

Definition BufStore_get (b : BufStore St) (key : bytes) : res (option bytes) :=
  match bt_get key (BufStore_map b) with
  | Some (Some value) => Ok (Some value)
  | Some None => Ok None
  | None => Read_get (BufStore_store b) key
  end.

Definition BufStore_get_next (b : BufStore St) (key : bytes) : res (option KV) :=
  let range := exclusive_range_starting_from key in
  let? map_iter := bt_range range.1 range.2 (BufStore_map b) in
  (iter_merge_next (Iter_next (BufStore_store b)) map_iter true
     (peekable (Iter_new range))).1.

Definition BufStore_get_prev (b : BufStore St) (key : option bytes) : res (option KV) :=
  let range := match key with
               | None => (Unbounded, Unbounded)
               | Some key => exclusive_range_ending_at key
               end in
  let? map_iter := bt_range range.1 range.2 (BufStore_map b) in
  (iter_merge_next (Iter_next_back (BufStore_store b)) (reverse map_iter) false
     (peekable (Iter_new range))).1.

Definition BufStore_put (key value : bytes) : M (BufStore St) unit := fun b =>
  (Ok tt, mkBufStore (bt_insert key (Some value) (BufStore_map b)) (BufStore_store b)).

Definition BufStore_delete (key : bytes) : M (BufStore St) unit := fun b =>
  (Ok tt, mkBufStore (bt_insert key None (BufStore_map b)) (BufStore_store b)).

#[export] Instance BufStore_Read : Read (BufStore St) :=
  {| Read_get := BufStore_get; Read_get_next := BufStore_get_next;
     Read_get_prev := BufStore_get_prev |}.
#[export] Instance BufStore_Write : Write (BufStore St) :=
  {| Write_put := BufStore_put; Write_delete := BufStore_delete |}.

(** [flush]: the entry at hand has already left the buffer when its write
    fails. *)
Context `{!Write St}.
Definition flush_entry (key : bytes) (value : option bytes) : M St unit :=
  match value with
  | Some value => Write_put key value
  | None => Write_delete key
  end.
Fixpoint BufStore_flush_loop (map : BTree (option bytes)) (store : St)
  : res unit * BufStore St :=
  match map with
  | [] => (Ok tt, mkBufStore [] store)
  | (key, value) :: map' =>
      match flush_entry key value store with
      | (Ok _, store') => BufStore_flush_loop map' store'
      | (Err e, store') => (Err e, mkBufStore map' store')
      | (Panic w, store') => (Panic w, mkBufStore map' store')
      end
  end.
Definition BufStore_flush : M (BufStore St) unit := fun b =>
  BufStore_flush_loop (BufStore_map b) (BufStore_store b).
End BufStore.

(** ** The merge yields the least entry of the overlay *)

(** The order an iteration in the given direction follows. *)
Definition dir (increasing : bool) (a b : bytes) : Prop :=
  if increasing then blt a b else blt b a.

Definition dir_sorted {V} (increasing : bool) (l : list (bytes * V)) : Prop :=
  StronglySorted (fun a b => dir increasing a.1 b.1) l.

(** Entries of [l] shadow those of [r]; a [None] in [l] is a deletion. *)
Definition shadow (l : list (bytes * option bytes)) (r : list KV) (k : bytes) : option bytes :=
  match bt_get k l with Some o => o | None => bt_get k r end.

Definition is_least (increasing : bool) (f : bytes -> option bytes) (r : option KV) : Prop :=
  match r with
  | Some (k, x) => f k = Some x /\ forall j y, f j = Some y -> j <> k -> dir increasing k j
  | None => forall j, f j = None
  end.

Section Merge.
Implicit Types (inc : bool).

Lemma dir_irrefl inc a : ~ dir inc a a.
Proof. destruct inc; apply blt_irrefl. Qed.
Lemma dir_trans inc a b c : dir inc a b -> dir inc b c -> dir inc a c.
Proof. destruct inc; simpl; intros; border. Qed.
Lemma dir_total inc a b : dir inc a b \/ a = b \/ dir inc b a.
Proof. destruct inc, (blt_total a b) as [|[|]]; simpl; auto. Qed.

Lemma bt_get_elem {V} (l : list (bytes * V)) k x : bt_get k l = Some x -> (k, x) ∈ l.
Proof.
  induction l as [|[k' x'] l IH]; simpl; [done|].
  destruct (beqb_spec k k') as [->|]; intros; simplify_eq; [left|right; auto].
Qed.

Lemma dir_sorted_cons {V} inc k (x : V) l :
  dir_sorted inc ((k, x) :: l) ->
  dir_sorted inc l /\ forall j y, bt_get j l = Some y -> dir inc k j.
Proof.
  intros Hs. inversion Hs as [|? ? Hl Hf]; subst. split; [done|].
  intros j y Hj%bt_get_elem. rewrite Forall_forall in Hf. exact (Hf _ Hj).
Qed.

Lemma is_least_ext inc f g r : (forall k, f k = g k) -> is_least inc f r -> is_least inc g r.
Proof.
  intros Hfg. destruct r as [[k x]|]; simpl; [|intros; by rewrite <- Hfg].
  intros [H1 H2]. rewrite <- Hfg. split; [done|]. intros j y. rewrite <- Hfg. apply H2.
Qed.

Lemma bt_get_eq {V} k (x : V) l : bt_get k ((k, x) :: l) = Some x.
Proof. simpl. by destruct (beqb_spec k k). Qed.
Lemma bt_get_ne {V} j k (x : V) l : j <> k -> bt_get j ((k, x) :: l) = bt_get j l.
Proof. simpl. by destruct (beqb_spec j k). Qed.

(** A map entry at or before the first store entry is the least of the
    overlay when it holds a value. *)
Lemma merge_emit_map inc k x l r :
  dir_sorted inc ((k, Some x) :: l) ->
  (forall j y, bt_get j r = Some y -> j <> k -> dir inc k j) ->
  is_least inc (shadow ((k, Some x) :: l) r) (Some (k, x)).
Proof.
  intros [_ Hl]%dir_sorted_cons Hr. split; unfold shadow; [by rewrite bt_get_eq|].
  intros j y Hj Hne. rewrite bt_get_ne in Hj by done.
  destruct (bt_get j l) eqn:E; eauto.
Qed.

Lemma merge_emit_store inc k x l r :
  dir_sorted inc ((k, x) :: r) ->
  (forall j o, bt_get j l = Some o -> dir inc k j) ->
  is_least inc (shadow l ((k, x) :: r)) (Some (k, x)).
Proof.
  intros [_ Hr]%dir_sorted_cons Hl. unfold shadow. split.
  - destruct (bt_get k l) eqn:E; [by destruct (dir_irrefl inc k); eauto|]. by rewrite bt_get_eq.
  - intros j y Hj Hne. destruct (bt_get j l) eqn:E; [eauto|].
    rewrite bt_get_ne in Hj by done. eauto.
Qed.

(** A deletion at the head of the map hides at most the head of the store. *)
Lemma merge_skip inc k l r r' :
  dir_sorted inc ((k, None) :: l) ->
  (forall j, j <> k -> bt_get j r' = bt_get j r) -> bt_get k r' = None ->
  forall j, shadow l r' j = shadow ((k, None) :: l) r j.
Proof.
  intros [_ Hl]%dir_sorted_cons Hr Hk j. unfold shadow.
  destruct (decide (j = k)) as [->|Hne].
  - rewrite bt_get_eq. destruct (bt_get k l) eqn:E; [|done].
    by destruct (dir_irrefl inc k); eauto.
  - rewrite bt_get_ne by done. destruct (bt_get j l); auto.
Qed.

Context {It : Type} (step : M It Item) (rest : It -> list KV).
Hypothesis step_spec : forall it,
  exists it', step it = (Ok (inl <$> head (rest it)), it') /\ rest it' = tail (rest it).

Definition peek_rest (p : Peekable It) (r : list KV) : Prop :=
  match Peekable_peeked p with
  | None => rest (Peekable_iter p) = r
  | Some i => i = inl <$> head r /\ rest (Peekable_iter p) = tail r
  end.

Lemma peek_spec p r :
  peek_rest p r ->
  exists p', Peekable_peek step p = (Ok (inl <$> head r), p') /\ peek_rest p' r.
Proof.
  destruct p as [it [i|]]; unfold peek_rest, Peekable_peek; simpl.
  - intros [-> Hr]. eexists; split; [done|]. done.
  - intros <-. destruct (step_spec it) as (it' & -> & Hr). eexists; split; [done|]. done.
Qed.

Lemma next_spec p r :
  peek_rest p r ->
  exists p', Peekable_next step p = (Ok (inl <$> head r), p') /\ peek_rest p' (tail r).
Proof.
  destruct p as [it [i|]]; unfold peek_rest, Peekable_next; simpl.
  - intros [-> Hr]. eexists; split; [done|]. done.
  - intros <-. destruct (step_spec it) as (it' & -> & Hr). eexists; split; [done|]. done.
Qed.

Lemma emit_store_spec p r :
  peek_rest p r -> exists p', emit_store step p = (Ok (head r), p').
Proof.
  intros Hp. unfold emit_store, bindM. destruct (next_spec p r Hp) as (p' & -> & _).
  destruct (head r); eauto.
Qed.

Lemma merge_cond inc a b :
  (inc && (if bcmp a b is Gt then true else false))
  || (negb inc && (if bcmp a b is Lt then true else false)) = true <-> dir inc b a.
Proof.
  unfold dir. destruct inc; simpl; destruct (bcmp_spec a b); subst;
    intuition (try done; border).
Qed.

Lemma store_absent inc k bk (bv : bytes) r :
  dir_sorted inc ((bk, bv) :: r) -> ~ dir inc bk k -> k <> bk ->
  bt_get k ((bk, bv) :: r) = None.
Proof.
  intros [_ Hr]%dir_sorted_cons Hd Hne. rewrite bt_get_ne by done.
  destruct (bt_get k r) eqn:E; [|done]. by destruct Hd; eauto.
Qed.

(** Skipping the shadowed store entry, when there is one. *)
Lemma merge_pop inc k bk bv r p :
  dir_sorted inc ((bk, bv) :: r) -> ~ dir inc bk k -> peek_rest p ((bk, bv) :: r) ->
  exists i p' r',
    (if bcmp k bk is Eq then Peekable_next step else retM None) p = (Ok i, p')
    /\ peek_rest p' r' /\ dir_sorted inc r'
    /\ (forall j, j <> k -> bt_get j r' = bt_get j ((bk, bv) :: r)) /\ bt_get k r' = None.
Proof.
  intros Hr Hd Hp. destruct (bcmp_spec k bk) as [->|Hlt|Hgt].
  - destruct (next_spec _ _ Hp) as (p2 & -> & Hp2). eexists _, p2, r.
    destruct (dir_sorted_cons _ _ _ _ Hr) as [Hr' Hkr]. repeat split; auto.
    + intros. by rewrite bt_get_ne.
    + destruct (bt_get bk r) eqn:E; [by destruct Hd; eauto|done].
  - eexists _, p, _. repeat split; eauto. eapply store_absent; eauto. intros ->; border.
  - eexists _, p, _. repeat split; eauto. eapply store_absent; eauto. intros ->; border.
Qed.

Lemma iter_merge_next_spec inc l : forall p r,
  dir_sorted inc l -> dir_sorted inc r -> peek_rest p r ->
  exists o p', iter_merge_next step l inc p = (Ok o, p') /\ is_least inc (shadow l r) o.
Proof.
  induction l as [|[k o] l IH]; intros p r Hl Hr Hp; simpl; unfold bindM.
  all: destruct (peek_spec p r Hp) as (p1 & -> & Hp1); destruct r as [|[bk bv] r]; simpl.
  - by exists None, p1.
  - destruct (emit_store_spec _ _ Hp1) as (p2 & ->). do 2 eexists; split; [done|].
    by apply merge_emit_store.
  - destruct o as [x|]; [do 2 eexists; split; [done|]; by apply merge_emit_map|].
    destruct (dir_sorted_cons _ _ _ _ Hl) as [Hl' _].
    destruct (IH p1 [] Hl' Hr Hp1) as (q & p2 & -> & Hq). do 2 eexists; split; [done|].
    by eapply is_least_ext, Hq; eapply merge_skip.
  - destruct (dir_sorted_cons _ _ _ _ Hl) as [Hl' Hkl].
    destruct (dir_sorted_cons _ _ _ _ Hr) as [Hr' Hkr].
    destruct (_ || _) eqn:Hc.
    { apply merge_cond in Hc. destruct (emit_store_spec _ _ Hp1) as (p2 & ->).
      do 2 eexists; split; [done|]. apply merge_emit_store; [done|].
      intros j o'. destruct (decide (j = k)) as [->|]; [done|]. rewrite bt_get_ne by done.
      intros Hj. eauto using dir_trans. }
    assert (Hnd : ~ dir inc bk k) by (rewrite <- merge_cond; congruence).
    destruct (merge_pop _ _ _ _ _ _ Hr Hnd Hp1) as (i & p2 & r2 & -> & Hp2 & Hr2 & Hne & Hnone).
    destruct o as [x|].
    + do 2 eexists; split; [done|]. apply merge_emit_map; [done|].
      intros j y Hj Hjk. destruct (dir_total inc k bk) as [Hd|[->|]]; [|..|done].
      * destruct (decide (j = bk)) as [->|]; [done|]. rewrite bt_get_ne in Hj by done.
        eauto using dir_trans.
      * rewrite bt_get_ne in Hj by done. eauto.
    + destruct (IH p2 r2 Hl' Hr2 Hp2) as (q & p3 & -> & Hq). do 2 eexists; split; [done|].
      by eapply is_least_ext, Hq; eapply merge_skip.
Qed.
End Merge.

(** ** The overlay *)

(** The view of a buffer over a view. *)
Definition overlay (m : gmap bytes (option bytes)) (v : View) : View :=
  merge (fun o b => match o with Some x => x | None => b end) m v.

Lemma overlay_lookup m v k :
  overlay m v !! k = match m !! k with Some x => x | None => v !! k end.
Proof. unfold overlay. rewrite lookup_merge. by destruct (m !! k), (v !! k). Qed.

Lemma overlay_empty v : overlay ∅ v = v.
Proof. apply map_eq. intros k. by rewrite overlay_lookup, lookup_empty. Qed.
Lemma overlay_insert_some m v k x : overlay (<[k := Some x]> m) v = <[k := x]> (overlay m v).
Proof.
  apply map_eq. intros j. rewrite overlay_lookup. destruct (decide (j = k)) as [->|].
  - by rewrite !lookup_insert_eq.
  - by rewrite !lookup_insert_ne, overlay_lookup.
Qed.
Lemma overlay_insert_none m v k : overlay (<[k := None]> m) v = delete k (overlay m v).
Proof.
  apply map_eq. intros j. rewrite overlay_lookup. destruct (decide (j = k)) as [->|].
  - by rewrite lookup_insert_eq, lookup_delete_eq.
  - by rewrite lookup_insert_ne, lookup_delete_ne, overlay_lookup.
Qed.

Lemma bt_filter_get {V} lo hi (m : BTree V) j :
  bt_wf m ->
  bt_get j (bt_filter lo hi m) = if bounds_contains (lo, hi) j then bt_map m !! j else None.
Proof.
  intros Hm. rewrite bt_get_lookup. apply option_eq. intros x.
  rewrite <- bt_elem, bt_filter_elem by auto with orga.
  destruct (bounds_contains _ _); naive_solver.
Qed.

Lemma bt_get_reverse {V} (m : BTree V) j : bt_wf m -> bt_get j (reverse m) = bt_get j m.
Proof.
  intros Hm. rewrite !bt_get_lookup. unfold bt_map. apply (f_equal (lookup j)).
  symmetry. apply list_to_map_proper; [by apply bt_wf_NoDup|]. by rewrite reverse_Permutation.
Qed.

Lemma dir_sorted_reverse {V} (m : BTree V) : bt_wf m -> dir_sorted false (reverse m).
Proof.
  induction m as [|[k x] m IH]; [constructor|]. intros [Hm Hf]%bt_wf_cons.
  rewrite reverse_cons. apply StronglySorted_app_2; [|by apply IH|by repeat constructor].
  intros a b Ha Hb. rewrite elem_of_reverse in Ha. apply list_elem_of_singleton in Hb as ->.
  rewrite Forall_forall in Hf. by apply Hf.
Qed.

Lemma exists_last_or_nil {A} (l : list A) : l = [] \/ exists l' x, l = l' ++ [x].
Proof. destruct l as [|y l]; [by left|right]. destruct (@exists_last _ (y :: l)) as (l' & x & ->); eauto. Qed.

Lemma tail_reverse {A} (l : list A) : tail (reverse l) = reverse (removelast l).
Proof.
  destruct (exists_last_or_nil l) as [->|(l' & x & ->)]; [done|].
  by rewrite reverse_app, removelast_last.
Qed.

(** The least entry of a range of the overlay is the next (previous) entry. *)
Lemma is_least_first v (P : bytes -> bool) f r :
  (forall j, f j = if P j then v !! j else None) ->
  is_least true f r -> is_first v (fun j => P j = true) r.
Proof.
  intros Hf. destruct r as [[k x]|]; simpl.
  - rewrite Hf. intros [H1 H2]. destruct (P k) eqn:E; [|done]. repeat split; auto.
    intros j y Hj HP. destruct (decide (j = k)) as [->|Hne]; [by right|left].
    apply (H2 j y); [|done]. by rewrite Hf, HP.
  - intros H j y Hj HP. specialize (H j). rewrite Hf, HP in H. congruence.
Qed.
Lemma is_least_last v (P : bytes -> bool) f r :
  (forall j, f j = if P j then v !! j else None) ->
  is_least false f r -> is_last v (fun j => P j = true) r.
Proof.
  intros Hf. destruct r as [[k x]|]; simpl.
  - rewrite Hf. intros [H1 H2]. destruct (P k) eqn:E; [|done]. repeat split; auto.
    intros j y Hj HP. destruct (decide (j = k)) as [->|Hne]; [by right|left].
    apply (H2 j y); [|done]. by rewrite Hf, HP.
  - intros H j y Hj HP. specialize (H j). rewrite Hf, HP in H. congruence.
Qed.

Lemma shadow_overlay m v lo hi j :
  bt_wf m ->
  shadow (bt_filter lo hi m) (range_entries v lo hi) j =
  if bounds_contains (lo, hi) j then overlay (bt_map m) v !! j else None.
Proof.
  intros Hm. unfold shadow, range_entries.
  rewrite !bt_filter_get, to_sorted_map, overlay_lookup by auto with orga.
  by destruct (bounds_contains _ _).
Qed.

Section BufStoreSpec.
Context `{RS : ReadSpec St}.
Implicit Types (b : BufStore St).

Definition BufStore_inv b : Prop := bt_wf (BufStore_map b) /\ Read_inv (BufStore_store b).
Definition BufStore_view b : View := overlay (bt_map (BufStore_map b)) (view (BufStore_store b)).

Lemma BufStore_get_spec b k : BufStore_inv b -> BufStore_get b k = Ok (BufStore_view b !! k).
Proof.
  intros [Hm Hs]. unfold BufStore_get, BufStore_view.
  rewrite overlay_lookup, bt_get_lookup.
  destruct (bt_map (BufStore_map b) !! k) as [[x|]|]; [done..|]. by apply Read_get_spec.
Qed.

Lemma BufStore_get_next_spec b k :
  BufStore_inv b ->
  exists r, BufStore_get_next b k = Ok r /\ is_first (BufStore_view b) (blt k) r.
Proof.
  intros [Hm Hs]. unfold BufStore_get_next, exclusive_range_starting_from. simpl.
  destruct (iter_merge_next_spec (Iter_next (BufStore_store b)) (Iter_rest (view (BufStore_store b)))
    (fun it => Iter_next_spec _ _ it (reads_fwd_view _ Hs)) true (bt_filter (Excluded k) Unbounded (BufStore_map b))
    (peekable (Iter_new (Excluded k, Unbounded)))
    (range_entries (view (BufStore_store b)) (Excluded k) Unbounded))
    as (r & p' & -> & Hr); [by apply bt_filter_wf|apply range_entries_wf|done|].
  exists r. split; [done|]. eapply is_first_ext, (is_least_first _ _ _ _ (fun j => shadow_overlay _ _ _ _ j Hm) Hr).
  intros j. unfold bounds_contains; simpl. rewrite andb_true_r. by destruct (bltb_spec k j).
Qed.

Lemma Iter_next_back_rev s it :
  Read_inv s ->
  exists it', Iter_next_back s it = (Ok (inl <$> head (reverse (Iter_rest (view s) it))), it') /\
              reverse (Iter_rest (view s) it') = tail (reverse (Iter_rest (view s) it)).
Proof.
  intros Hs. destruct (Iter_next_back_spec s (view s) it) as (it' & -> & Hr); [auto with orga..|].
  exists it'. by rewrite head_reverse, Hr, tail_reverse.
Qed.

Lemma BufStore_get_prev_spec b k :
  BufStore_inv b ->
  exists r, BufStore_get_prev b k = Ok r /\ is_last (BufStore_view b) (before k) r.
Proof.
  intros [Hm Hs]. unfold BufStore_get_prev.
  set (range := match k with None => _ | Some _ => _ end).
  assert (Hp : bt_range range.1 range.2 (BufStore_map b) = Ok (bt_filter range.1 range.2 (BufStore_map b)))
    by (by apply bt_range_ok; destruct k).
  rewrite Hp. simpl.
  destruct (iter_merge_next_spec (Iter_next_back (BufStore_store b))
    (fun it => reverse (Iter_rest (view (BufStore_store b)) it))
    (fun it => Iter_next_back_rev _ it Hs) false (reverse (bt_filter range.1 range.2 (BufStore_map b)))
    (peekable (Iter_new range))
    (reverse (range_entries (view (BufStore_store b)) range.1 range.2)))
    as (r & p' & -> & Hr);
    [by apply dir_sorted_reverse, bt_filter_wf|apply dir_sorted_reverse, range_entries_wf|done|].
  exists r. split; [done|].
  assert (Hsh : forall j, shadow (reverse (bt_filter range.1 range.2 (BufStore_map b)))
      (reverse (range_entries (view (BufStore_store b)) range.1 range.2)) j
    = if bounds_contains (range.1, range.2) j then BufStore_view b !! j else None).
  { intros j. unfold BufStore_view. rewrite <- shadow_overlay by done.
    unfold shadow. by rewrite !bt_get_reverse by auto with orga. }
  eapply is_last_ext, (is_least_last _ _ _ _ Hsh Hr).
  intros j. unfold bounds_contains. destruct k as [k|]; simpl; [|done].
  by destruct (bltb_spec j k).
Qed.

#[export] Instance BufStore_ReadSpec : ReadSpec (BufStore St) :=
  {| Read_inv := BufStore_inv; view := BufStore_view;
     Read_get_spec := BufStore_get_spec; Read_get_next_spec := BufStore_get_next_spec;
     Read_get_prev_spec := BufStore_get_prev_spec |}.

Lemma BufStore_put_spec b k x :
  BufStore_inv b -> True ->
  exists b', BufStore_put k x b = (Ok tt, b') /\ BufStore_inv b' /\
             BufStore_view b' = <[k := x]> (BufStore_view b) /\
             (bytes -> True -> True).
Proof.
  intros [Hm Hs] _. eexists. split; [done|]. split; [split; simpl; auto with orga|]. split; [|done].
  unfold BufStore_view; simpl. by rewrite bt_insert_map, overlay_insert_some.
Qed.
Lemma BufStore_delete_spec b k :
  BufStore_inv b ->
  exists b', BufStore_delete k b = (Ok tt, b') /\ BufStore_inv b' /\
             BufStore_view b' = delete k (BufStore_view b) /\
             (bytes -> True -> True).
Proof.
  intros [Hm Hs]. eexists. split; [done|]. split; [split; simpl; auto with orga|]. split; [|done].
  unfold BufStore_view; simpl. by rewrite bt_insert_map, overlay_insert_none.
Qed.

#[export] Instance BufStore_WriteSpec : WriteSpec (BufStore St).
Proof.
  refine {| writable := fun _ _ => True |}.
  - exact BufStore_put_spec.
  - exact BufStore_delete_spec.
Defined.
End BufStoreSpec.

(** ** [flush] *)

Section FlushSpec.
Context `{WS : WriteSpec St}.

Lemma overlay_push_some m v k x :
  m !! k = None -> overlay (<[k := Some x]> m) v = overlay m (<[k := x]> v).
Proof.
  intros Hk. apply map_eq. intros j. rewrite !overlay_lookup.
  destruct (decide (j = k)) as [->|].
  - by rewrite Hk, !lookup_insert_eq.
  - by rewrite !lookup_insert_ne.
Qed.
Lemma overlay_push_none m v k :
  m !! k = None -> overlay (<[k := None]> m) v = overlay m (delete k v).
Proof.
  intros Hk. apply map_eq. intros j. rewrite !overlay_lookup.
  destruct (decide (j = k)) as [->|].
  - by rewrite Hk, lookup_insert_eq, lookup_delete_eq.
  - by rewrite lookup_insert_ne, lookup_delete_ne.
Qed.

(** The keys of the values in the buffer are within the wrapped store's limit. *)
Definition all_writable (s : St) (m : BTree (option bytes)) : Prop :=
  Forall (fun e => is_Some e.2 -> writable s e.1) m.

Lemma all_writable_mono s s' m :
  (forall j, writable s j -> writable s' j) -> all_writable s m -> all_writable s' m.
Proof. intros Hj Hm. eapply Forall_impl; [exact Hm|]. simpl. auto. Qed.

Lemma flush_loop_spec m : forall s : St,
  bt_wf m -> Read_inv s -> all_writable s m ->
  exists s', BufStore_flush_loop m s = (Ok tt, mkBufStore [] s') /\ Read_inv s' /\
             view s' = overlay (bt_map m) (view s).
Proof.
  induction m as [|[k [x|]] m IH]; intros s Hm Hs Hw; simpl.
  - exists s. by rewrite overlay_empty.
  - apply Forall_cons in Hw as [Hk Hw]. pose proof (bt_map_head _ _ _ Hm) as Hnone.
    destruct (Write_put_spec s k x) as (s1 & -> & Hs1 & Hv1 & Hw1); [done|by apply Hk|].
    destruct (IH s1) as (s' & -> & Hs' & Hv'); [by apply bt_wf_cons in Hm as []|done|by eapply all_writable_mono|].
    exists s'. by rewrite Hv', Hv1, <- overlay_push_some.
  - apply Forall_cons in Hw as [Hk Hw]. pose proof (bt_map_head _ _ _ Hm) as Hnone.
    destruct (Write_delete_spec s k) as (s1 & -> & Hs1 & Hv1 & Hw1); [done|].
    destruct (IH s1) as (s' & -> & Hs' & Hv'); [by apply bt_wf_cons in Hm as []|done|by eapply all_writable_mono|].
    exists s'. by rewrite Hv', Hv1, <- overlay_push_none.
Qed.

Lemma BufStore_flush_spec (b : BufStore St) :
  BufStore_inv b -> all_writable (BufStore_store b) (BufStore_map b) ->
  exists s', BufStore_flush b = (Ok tt, mkBufStore [] s') /\ Read_inv s' /\
             view s' = BufStore_view b.
Proof. intros [Hm Hs] Hw. by apply flush_loop_spec. Qed.
End FlushSpec.

(** ** Properties *)

Section Props.
Context `{WS : WriteSpec St}.

(** C30: a [BufStore] over a store that keeps its contract keeps the contract:
    every read succeeds and answers from the buffer laid over the wrapped
    store, deletions included. [get] returns the overlay's value, [get_next]
    the least entry after the key and [get_prev] the greatest entry before it,
    so the two merged iterators neither lose, duplicate nor reorder entries. *)
Theorem BufStore_reads_overlay (b : BufStore St) :
  BufStore_inv b ->
  (forall k, BufStore_get b k = Ok (BufStore_view b !! k)) /\
  (forall k, exists r, BufStore_get_next b k = Ok r /\ is_first (BufStore_view b) (blt k) r) /\
  (forall k, exists r, BufStore_get_prev b k = Ok r /\ is_last (BufStore_view b) (before k) r).
Proof.
  intros Hb. split_and!; intros k.
  - by apply BufStore_get_spec.
  - by apply BufStore_get_next_spec.
  - by apply BufStore_get_prev_spec.
Qed.

(** C31: [flush] succeeds when the wrapped store accepts the buffered keys; it
    empties the buffer, and the wrapped store then reads exactly as the buffer
    over it read before, so a later read cannot tell that the flush happened. *)
Theorem BufStore_flush_preserves_view (b : BufStore St) :
  BufStore_inv b -> all_writable (BufStore_store b) (BufStore_map b) ->
  exists s', BufStore_flush b = (Ok tt, mkBufStore [] s') /\ Read_inv s' /\
    view s' = BufStore_view b /\ BufStore_view (mkBufStore [] s') = BufStore_view b.
Proof.
  intros Hb Hw. destruct (BufStore_flush_spec b Hb Hw) as (s' & Hf & Hs' & Hv).
  exists s'. split_and!; [done..|]. unfold BufStore_view at 1; simpl. by rewrite overlay_empty.
Qed.
End Props.

(** when a write of the wrapped store fails in the middle of [flush], the
    entries before the failing one have been written in key order, the failing
    entry itself has left the buffer, and exactly the entries after it remain. *)
Theorem BufStore_flush_error_drops_entry `{Read St} `{!Write St} (b b' : BufStore St) e :
  BufStore_flush b = (Err e, b') ->
  exists m1 k v s1,
    BufStore_map b = m1 ++ (k, v) :: BufStore_map b' /\
    BufStore_flush (mkBufStore m1 (BufStore_store b)) = (Ok tt, mkBufStore [] s1) /\
    flush_entry k v s1 = (Err e, BufStore_store b').
Proof.
  unfold BufStore_flush. destruct b as [m s]; simpl. revert s.
  induction m as [|[k v] m IH]; intros s; simpl; [done|].
  destruct (flush_entry k v s) as [[[]|e'|w] s'] eqn:E; intros Hf.
  - destruct (IH _ Hf) as (m1 & k' & v' & s1 & -> & H1 & H2).
    exists ((k, v) :: m1), k', v', s1. split; [done|]. split; [|done]. simpl. by rewrite E.
  - injection Hf as -> <-. by exists [], k, v, s.
  - done.
Qed.

(** *** Witnesses: a buffer over an in-memory store, with one pending write and
    one pending deletion. *)
Definition ex_store : MapStore := (BufStore_put [3]%Z [30]%Z MapStore_new).2.
Definition ex_buf : BufStore MapStore :=
  (BufStore_delete [3]%Z (BufStore_put [1]%Z [10]%Z (BufStore_wrap ex_store)).2).2.

Lemma ex_store_inv : BufStore_inv ex_store.
Proof. split; [|done]. by repeat constructor. Qed.
Lemma ex_buf_inv : BufStore_inv ex_buf.
Proof. split; [by repeat constructor|apply ex_store_inv]. Qed.
Lemma ex_buf_writable : all_writable (BufStore_store ex_buf) (BufStore_map ex_buf).
Proof. by repeat constructor. Qed.

Lemma BufStore_reads_overlay_witness :
  Read_get_next ex_buf [] = Ok (Some ([1], [10])%Z) /\
  exists r, BufStore_get_prev ex_buf None = Ok r /\ is_last (BufStore_view ex_buf) (before None) r.
Proof. split; [vm_compute; done|]. apply (BufStore_reads_overlay ex_buf ex_buf_inv). Defined.

Lemma BufStore_flush_preserves_view_witness :
  exists s', BufStore_flush ex_buf = (Ok tt, mkBufStore [] s') /\ Read_inv s' /\
    view s' = BufStore_view ex_buf /\ BufStore_view (mkBufStore [] s') = BufStore_view ex_buf.
Proof. apply (BufStore_flush_preserves_view ex_buf ex_buf_inv ex_buf_writable). Defined.

Lemma Iter_interleaving_drains_range_witness :
  (Iter_steps ex_store [false; true] (Iter_new (Unbounded, Unbounded))).1
    = Ok [Some (inl ([3], [30])%Z); None] /\
  (Iter_steps ex_store [false; true] (Iter_new (Unbounded, Unbounded))).1
    = Ok (drain [false; true] (range_entries (view ex_store) Unbounded Unbounded)).
Proof.
  split; [vm_compute; done|].
  apply (Iter_interleaving_drains_range ex_store Unbounded Unbounded [false; true]).
  exact ex_store_inv.
Defined.
