(* ===== verification/PrefixStore.v ===== *)
(** * Prefixed stores ([src/store/store.rs])

    A [Store] is a handle: a key prefix and a shared reference to the backing
    store. Handles made by [sub] and [clone] point to the same cell, so the
    backing store is passed to every operation (and threaded by [M St] through
    the writing ones) and a handle is its prefix. [StoreAt] pairs a handle with
    the cell's contents where a single value that implements [Read] is needed,
    which is what [range] iterates over. *)

From stdpp Require Import base tactics numbers list strings gmap.
From Stdlib Require Import ZArith Lia.
From S2P Require Import Prelude Bytes BTree StoreIface StoreIter NullStore BufStore.

Record Store := mkStore { Store_prefix : bytes }.

Definition Store_new : Store := mkStore [].
Definition Store_sub (s : Store) (prefix : bytes) : Store :=
  mkStore (Store_prefix s ++ prefix).
Definition Store_with_prefix (s : Store) (prefix : bytes) : Store := mkStore prefix.

(** [.filter(|(k, _)| k.starts_with(prefix)).map(|(k, v)| (k[prefix.len()..], v))] *)
Definition unprefix (p : bytes) (o : option KV) : option KV :=
  match o with
  | Some (k, v) => if starts_with p k then Some (drop (length p) k, v) else None
  | None => None
  end.

Section Ops.
Context `{Read St} `{Write St}.

Definition Store_get (s : Store) (backing : St) (key : bytes) : res (option bytes) :=
  Read_get backing (Store_prefix s ++ key).

Definition Store_get_next (s : Store) (backing : St) (key : bytes) : res (option KV) :=
  let? maybe_kv := Read_get_next backing (Store_prefix s ++ key) in
  Ok (unprefix (Store_prefix s) maybe_kv).

Definition Store_get_prev (s : Store) (backing : St) (key : option bytes) : res (option KV) :=
  match key with
  | Some key =>
      let? maybe_kv := Read_get_prev backing (Some (Store_prefix s ++ key)) in
      Ok (unprefix (Store_prefix s) maybe_kv)
  | None =>
      let incremented := increment_bytes (Store_prefix s) in
      let end_key := match Store_prefix s with
                     | [] => None
                     | _ => Some incremented
                     end in
      let? maybe_kv := Read_get_prev backing end_key in
      Ok (unprefix (Store_prefix s) maybe_kv)
  end.

Definition Store_put (s : Store) (key value : bytes) : M St unit :=
  if (256 <=? length key + length (Store_prefix s)) then
    errM (EStore "Store keys must be < 256 bytes")
  else Write_put (Store_prefix s ++ key) value.

Definition Store_delete (s : Store) (key : bytes) : M St unit :=
  Write_delete (Store_prefix s ++ key).

(** A handle together with the contents of the cell it points to. *)
Definition StoreAt : Type := Store * St.

#[export] Instance StoreAt_Read : Read StoreAt :=
  {| Read_get := fun sa => Store_get sa.1 sa.2;
     Read_get_next := fun sa => Store_get_next sa.1 sa.2;
     Read_get_prev := fun sa => Store_get_prev sa.1 sa.2 |}.
#[export] Instance StoreAt_Write : Write StoreAt :=
  {| Write_put := fun k v => fun sa => let '(r, b) := Store_put sa.1 k v sa.2 in (r, (sa.1, b));
     Write_delete := fun k => fun sa => let '(r, b) := Store_delete sa.1 k sa.2 in (r, (sa.1, b)) |}.

(** The [#[query]] methods. *)
Definition Store_get_query (s : Store) (backing : St) (key : bytes) : res (option bytes) :=
  Read_get backing key.

Definition Store_page (s : Store) (backing : St) (start : bytes) (end_ : option bytes)
    (limit : Z) : res (list KV) :=
  let limit := Z.min limit 100 in
  let lo := Included start in
  let hi := match end_ with Some e => Included e | None => Unbounded end in
  (Iter_take (s, backing) (Z.to_nat limit) (Iter_new (lo, hi))).1.

(** [remove_range]: the iterator reads the cell the loop deletes from. The
    fuel bounds the number of turns; running out of it is not an outcome of the
    code. *)
Fixpoint remove_range_loop (fuel : nat) (s : Store) (it : Iter) : M St unit :=
  match fuel with
  | O => panicM "out of fuel"
  | S fuel' => fun backing =>
      match Iter_next (s, backing) it with
      | (Ok None, _) => (Ok tt, backing)
      | (Ok (Some (inr e)), _) => (Err e, backing)
      | (Ok (Some (inl (k, _))), it') =>
          (run Store_delete s k; remove_range_loop fuel' s it') backing
      | (Err e, _) => (Err e, backing)
      | (Panic w, _) => (Panic w, backing)
      end
  end.
Definition Store_remove_range (fuel : nat) (s : Store) (bounds : Bound bytes * Bound bytes)
  : M St unit :=
  remove_range_loop fuel s (Iter_new bounds).
End Ops.
Arguments StoreAt St : clear implicits.

(** ** The view under a prefix *)

Definition strip_prefix (p k : bytes) : option bytes :=
  if starts_with p k then Some (drop (length p) k) else None.

Definition strip (p : bytes) (v : View) : View :=
  list_to_map (omap (fun e => (fun k => (k, e.2)) <$> strip_prefix p e.1) (map_to_list v)).

Lemma strip_prefix_spec p k r : strip_prefix p k = Some r <-> k = p ++ r.
Proof.
  unfold strip_prefix. destruct (starts_with p k) eqn:E.
  - apply starts_with_spec in E as [r' ->]. rewrite drop_app_length.
    split; [by intros [= ->]|]. by intros ->%app_inv_head.
  - split; [done|]. intros ->. by rewrite starts_with_app in E.
Qed.

Lemma strip_lookup p v k : strip p v !! k = v !! (p ++ k).
Proof.
  apply option_eq. intros x. unfold strip. rewrite <- elem_of_list_to_map.
  - rewrite list_elem_of_omap. split.
    + intros ([k' x'] & Hin & Hk). simpl in Hk.
      destruct (strip_prefix p k') as [r|] eqn:E; simplify_eq/=.
      apply strip_prefix_spec in E as ->. by apply elem_of_map_to_list.
    + intros Hv. exists (p ++ k, x). split; [by apply elem_of_map_to_list|]. simpl.
      by rewrite (proj2 (strip_prefix_spec p (p ++ k) k) eq_refl).
  - pose proof (NoDup_fst_map_to_list v) as Hnd.
    induction (map_to_list v) as [|[k' x'] l IH]; [constructor|].
    simpl in *. apply NoDup_cons in Hnd as [Hk' Hnd].
    destruct (strip_prefix p k') as [r|] eqn:E; simpl; [|auto].
    constructor; [|auto]. intros ([r' x''] & Hr & ([k2 x2] & Hin & Hk2)%list_elem_of_omap)%list_elem_of_fmap.
    simpl in *. destruct (strip_prefix p k2) as [r2|] eqn:E2; simplify_eq/=.
    apply strip_prefix_spec in E as ->, E2 as ->. apply Hk'.
    apply list_elem_of_fmap. by exists (p ++ r', x'').
Qed.

Section StripFacts.
Implicit Types (p k : bytes) (v : View).

Lemma strip_insert p v k x : strip p (<[p ++ k := x]> v) = <[k := x]> (strip p v).
Proof.
  apply map_eq. intros j. rewrite strip_lookup. destruct (decide (j = k)) as [->|Hne].
  - by rewrite !lookup_insert_eq.
  - rewrite !lookup_insert_ne, strip_lookup; auto. by intros ?%app_inv_head.
Qed.
Lemma strip_delete p v k : strip p (delete (p ++ k) v) = delete k (strip p v).
Proof.
  apply map_eq. intros j. rewrite strip_lookup. destruct (decide (j = k)) as [->|Hne].
  - by rewrite !lookup_delete_eq.
  - rewrite !lookup_delete_ne, strip_lookup; auto. by intros ?%app_inv_head.
Qed.
Lemma strip_insert_other p v k x :
  starts_with p k = false -> strip p (<[k := x]> v) = strip p v.
Proof.
  intros Hk. apply map_eq. intros j. rewrite !strip_lookup, lookup_insert_ne; [done|].
  intros ->. by rewrite starts_with_app in Hk.
Qed.
Lemma strip_delete_other p v k :
  starts_with p k = false -> strip p (delete k v) = strip p v.
Proof.
  intros Hk. apply map_eq. intros j. rewrite !strip_lookup, lookup_delete_ne; [done|].
  intros ->. by rewrite starts_with_app in Hk.
Qed.
Lemma strip_strip p q v : strip q (strip p v) = strip (p ++ q) v.
Proof. apply map_eq. intros j. by rewrite !strip_lookup, app_assoc. Qed.
Lemma strip_nil v : strip [] v = v.
Proof. apply map_eq. intros j. by rewrite strip_lookup. Qed.

Lemma unprefix_app p r x : unprefix p (Some (p ++ r, x)) = Some (r, x).
Proof. simpl. by rewrite starts_with_app, drop_app_length. Qed.

Lemma unprefix_first p v k r :
  is_first v (blt (p ++ k)) r -> is_first (strip p v) (blt k) (unprefix p r).
Proof.
  destruct r as [[k' x]|].
  - intros (Hv & Hk & Hmin). destruct (starts_with p k') eqn:E.
    + apply starts_with_spec in E as [r ->]. rewrite unprefix_app. simpl.
      rewrite strip_lookup. apply blt_app in Hk. split_and!; [done..|].
      intros j y Hj Hkj. rewrite strip_lookup in Hj.
      destruct (Hmin _ _ Hj) as [Hr|Hr]; [by apply blt_app| |].
      * left. by eapply blt_app.
      * right. by eapply app_inv_head.
    + simpl. rewrite E. simpl. intros j y Hj Hkj. rewrite strip_lookup in Hj.
      rewrite (starts_with_convex p k k' j) in E; [done|by left|].
      apply (Hmin _ _ Hj). by apply blt_app.
  - simpl. intros Hn j y Hj Hkj. rewrite strip_lookup in Hj.
    apply (Hn _ _ Hj). by apply blt_app.
Qed.

Lemma unprefix_last p v (P : bytes -> Prop) Q r :
  (forall j, P j <-> Q (p ++ j)) ->
  (forall j k, P j -> ble (p ++ j) k -> Q k -> starts_with p k = true) ->
  is_last v Q r -> is_last (strip p v) P (unprefix p r).
Proof.
  intros HPQ Hconv. destruct r as [[k' x]|].
  - intros (Hv & Hk & Hmax). destruct (starts_with p k') eqn:E.
    + apply starts_with_spec in E as [r ->]. rewrite unprefix_app. simpl.
      rewrite strip_lookup. apply HPQ in Hk. split_and!; [done..|].
      intros j y Hj Hkj. rewrite strip_lookup in Hj.
      destruct (Hmax _ _ Hj) as [Hr|Hr]; [by apply HPQ| |].
      * left. by eapply blt_app.
      * right. by eapply app_inv_head.
    + simpl. rewrite E. simpl. intros j y Hj Hkj. rewrite strip_lookup in Hj.
      rewrite (Hconv j k') in E; [done..| |done].
      apply (Hmax _ _ Hj). by apply HPQ.
  - simpl. intros Hn j y Hj Hkj. rewrite strip_lookup in Hj.
    apply (Hn _ _ Hj). by apply HPQ.
Qed.
End StripFacts.

(** [increment_bytes] bounds the keys under a prefix only when it does not
    carry: the prefix is empty or its last byte is below 255. *)
Definition no_carry (p : bytes) : Prop := p = [] \/ exists q b, p = q ++ [b] /\ b <> 255%Z.

Section StoreSpec.
Context `{WS : WriteSpec St}.
Implicit Types (s : Store) (b : St).

Definition Store_view s b : View := strip (Store_prefix s) (view b).

Lemma Store_get_spec s b k : Read_inv b -> Store_get s b k = Ok (Store_view s b !! k).
Proof. intros Hb. unfold Store_get, Store_view. by rewrite strip_lookup, Read_get_spec. Qed.

Lemma Store_get_next_spec s b k :
  Read_inv b ->
  exists r, Store_get_next s b k = Ok r /\ is_first (Store_view s b) (blt k) r.
Proof.
  intros Hb. unfold Store_get_next.
  destruct (Read_get_next_spec b (Store_prefix s ++ k) Hb) as (r & -> & Hr).
  eexists; split; [done|]. by apply unprefix_first.
Qed.

Lemma Store_get_prev_some_spec s b k :
  Read_inv b ->
  exists r, Store_get_prev s b (Some k) = Ok r /\ is_last (Store_view s b) (before (Some k)) r.
Proof.
  intros Hb. simpl.
  destruct (Read_get_prev_spec b (Some (Store_prefix s ++ k)) Hb) as (r & -> & Hr).
  eexists; split; [done|]. eapply unprefix_last, Hr; simpl; intros.
  - by rewrite blt_app.
  - by eapply starts_with_convex; [|left].
Qed.

Lemma Store_get_prev_none_spec s b :
  Read_inv b -> no_carry (Store_prefix s) ->
  exists r, Store_get_prev s b None = Ok r /\ is_last (Store_view s b) (before None) r.
Proof.
  intros Hb. unfold Store_view. destruct s as [p]; simpl. intros [->|(q & c & -> & Hc)].
  - destruct (Read_get_prev_spec b None Hb) as (r & -> & Hr). eexists; split; [done|].
    by eapply unprefix_last, Hr.
  - rewrite increment_bytes_last by done.
    assert (Hm : match q ++ [c] with [] => None | _ => Some (q ++ [(c + 1)%Z]) end
                 = Some (q ++ [(c + 1)%Z])) by by destruct q.
    rewrite Hm. destruct (Read_get_prev_spec b (Some (q ++ [(c + 1)%Z])) Hb) as (r & -> & Hr).
    eexists; split; [done|]. eapply unprefix_last, Hr; simpl.
    + intros j. split; [|done]. intros _. apply increment_bytes_above.
    + intros j k _ H1 H2. eapply increment_bytes_bound; [done|].
      pose proof (ble_app_r (q ++ [c]) j). border.
Qed.

Definition StoreAt_inv (sa : StoreAt St) : Prop := Read_inv sa.2 /\ no_carry (Store_prefix sa.1).

#[export] Instance StoreAt_ReadSpec : ReadSpec (StoreAt St).
Proof.
  refine {| Read_inv := StoreAt_inv; view := fun sa => Store_view sa.1 sa.2 |}.
  - intros [s b] k [Hb _]. by apply Store_get_spec.
  - intros [s b] k [Hb _]. by apply Store_get_next_spec.
  - intros [s b] [k|] [Hb Hp]; [by apply Store_get_prev_some_spec|by apply Store_get_prev_none_spec].
Defined.

Definition Store_writable s b (k : bytes) : Prop :=
  length k + length (Store_prefix s) < 256 /\ writable b (Store_prefix s ++ k).

Lemma Store_put_spec s b k x :
  Read_inv b -> Store_writable s b k ->
  exists b', Store_put s k x b = (Ok tt, b') /\ Read_inv b' /\
    view b' = <[Store_prefix s ++ k := x]> (view b) /\
    (forall j, writable b j -> writable b' j).
Proof.
  intros Hb [Hl Hw]. unfold Store_put. destruct (Nat.leb_spec 256 (length k + length (Store_prefix s))); [lia|].
  by apply Write_put_spec.
Qed.
Lemma Store_delete_spec s b k :
  Read_inv b ->
  exists b', Store_delete s k b = (Ok tt, b') /\ Read_inv b' /\
    view b' = delete (Store_prefix s ++ k) (view b) /\
    (forall j, writable b j -> writable b' j).
Proof. intros Hb. by apply Write_delete_spec. Qed.

#[export] Instance StoreAt_WriteSpec : WriteSpec (StoreAt St).
Proof.
  refine {| writable := fun sa k => Store_writable sa.1 sa.2 k |}.
  - intros [s b] k x [Hb Hp] Hw. simpl in *.
    destruct (Store_put_spec s b k x Hb Hw) as (b' & -> & Hb' & Hv & Hm).
    exists (s, b'). split_and!; [done..| |].
    + simpl. unfold Store_view. by rewrite Hv, strip_insert.
    + intros j [??]. split; auto.
  - intros [s b] k [Hb Hp]. simpl in *.
    destruct (Store_delete_spec s b k Hb) as (b' & -> & Hb' & Hv & Hm).
    exists (s, b'). split_and!; [done..| |].
    + simpl. unfold Store_view. by rewrite Hv, strip_delete.
    + intros j [??]. split; auto.
Defined.
End StoreSpec.

(** ** Removing a range *)

Section RemoveRange.
Context `{WS : WriteSpec St}.
Implicit Types (s : Store) (b : St).

Lemma Store_reads_fwd s b : Read_inv b -> reads_fwd (s, b) (Store_view s b).
Proof.
  intros Hb. split; intros k; [by apply Store_get_spec|by apply Store_get_next_spec].
Qed.

(** The view without the keys of a list of entries. *)
Definition delete_keys (l : list KV) (v : View) : View := foldr (fun e => delete e.1) v l.

Lemma delete_keys_lookup l v k x :
  delete_keys l v !! k = Some x <-> v !! k = Some x /\ k ∉ l.*1.
Proof.
  induction l as [|[k' x'] l IH]; simpl; [set_solver|].
  rewrite lookup_delete_Some, IH. set_solver.
Qed.

Lemma delete_keys_delete (l : list KV) (v : View) (k : bytes) : delete_keys l (delete k v) = delete k (delete_keys l v).
Proof. induction l as [|e l IH]; simpl; [done|]. by rewrite IH, delete_delete. Qed.

(** Deleting an entry already visited does not change what is left. *)
Lemma range_entries_delete (v : View) k hi :
  range_entries (delete k v) (Excluded k) hi = range_entries v (Excluded k) hi.
Proof.
  apply range_entries_unique; [apply range_entries_wf|]. intros j y.
  rewrite range_entries_elem. unfold bounds_contains; simpl.
  destruct (bltb_spec k j) as [Hkj|]; [|naive_solver].
  rewrite lookup_delete_ne; [done|]. intros ->. border.
Qed.

Lemma Iter_next_advance `{Read T} (t : T) v it k x it' :
  reads_fwd t v -> Iter_next t it = (Ok (Some (inl (k, x))), it') ->
  it' = mkIter (Excluded k, (Iter_bounds it).2) false /\
  Iter_rest v it = (k, x) :: range_entries v (Excluded k) (Iter_bounds it).2.
Proof.
  intros Ht Hn. destruct (Iter_next_spec t v it Ht) as (it2 & Hn2 & Hr).
  rewrite Hn in Hn2. destruct (Iter_rest v it) as [|e l] eqn:El; simplify_eq/=.
  assert (it2 = mkIter (Excluded k, (Iter_bounds it).2) false) as ->.
  { revert Hn. unfold Iter_next. repeat case_match; intros; simplify_eq; done. }
  done.
Qed.

Lemma remove_range_loop_spec s fuel : forall it b,
  Read_inv b -> length (Iter_rest (Store_view s b) it) < fuel ->
  exists b', remove_range_loop fuel s it b = (Ok tt, b') /\ Read_inv b' /\
    Store_view s b' = delete_keys (Iter_rest (Store_view s b) it) (Store_view s b) /\
    forall q, starts_with (Store_prefix s) q = false -> view b' !! q = view b !! q.
Proof.
  induction fuel as [|fuel IH]; intros it b Hb Hf; [lia|]. simpl.
  pose proof (Store_reads_fwd s b Hb) as Hfwd.
  destruct (Iter_next_spec (s, b) _ it Hfwd) as (it' & Hn & Hr). rewrite Hn.
  destruct (Iter_rest (Store_view s b) it) as [|[k x] l] eqn:El; simpl; [by eauto|].
  destruct (Iter_next_advance _ _ _ _ _ _ Hfwd Hn) as [-> Hrest]. rewrite El in Hrest.
  injection Hrest as Hl. unfold bindM.
  destruct (Store_delete_spec s b k Hb) as (b1 & -> & Hb1 & Hv1 & _).
  assert (Hsv : Store_view s b1 = delete k (Store_view s b)).
  { unfold Store_view. by rewrite Hv1, strip_delete. }
  destruct (IH (mkIter (Excluded k, (Iter_bounds it).2) false) b1 Hb1) as (b' & -> & Hb' & Hv' & Hq).
  { unfold Iter_rest; simpl. rewrite Hsv, range_entries_delete, <- Hl. simpl in Hf. lia. }
  exists b'. split_and!; [done..| |].
  - rewrite Hv', Hsv. unfold Iter_rest; simpl. rewrite range_entries_delete, <- Hl.
    apply delete_keys_delete.
  - intros q Hpq. rewrite Hq, Hv1 by done. apply lookup_delete_ne.
    intros <-. by rewrite starts_with_app in Hpq.
Qed.
End RemoveRange.

(** ** Properties *)

Definition disjoint_prefixes (p q : bytes) : Prop :=
  starts_with p q = false /\ starts_with q p = false.

Lemma disjoint_prefixes_app p q k :
  disjoint_prefixes p q -> starts_with p (q ++ k) = false.
Proof.
  unfold disjoint_prefixes. revert q; induction p as [|x p IH]; intros [|y q]; simpl; try (intuition done).
  rewrite (Z.eqb_sym y x). destruct (x =? y)%Z; simpl; auto.
Qed.

Lemma incr_loop_ff n : incr_loop (replicate n 255%Z) = (replicate n 0%Z, false).
Proof. induction n as [|n IH]; simpl; [done|]. by rewrite IH. Qed.

Lemma increment_bytes_ff n :
  increment_bytes (replicate (S n) 255%Z) = 1%Z :: replicate (S n) 0%Z.
Proof.
  assert (Hrev : forall m (x : Z), rev (replicate m x) = replicate m x).
  { intros. rewrite rev_alt. apply reverse_replicate. }
  unfold increment_bytes. rewrite Hrev, incr_loop_ff, Hrev. simpl.
  by rewrite <- replicate_cons_app.
Qed.

Section Props.
Context `{WS : WriteSpec St}.
Implicit Types (s t : Store) (b : St).

(** C32: a prefixed handle reads exactly the part of the backing store under its
    prefix, with the prefix removed from the keys: [get], [get_next] and
    [get_prev] from a key, for every prefix, and [get_prev] from the end
    whenever incrementing the prefix does not carry. *)
Theorem Store_reads_under_prefix s b :
  Read_inv b ->
  (forall k, Store_get s b k = Ok (view b !! (Store_prefix s ++ k))) /\
  (forall k, exists r, Store_get_next s b k = Ok r /\ is_first (Store_view s b) (blt k) r) /\
  (forall k, exists r, Store_get_prev s b (Some k) = Ok r /\
                       is_last (Store_view s b) (before (Some k)) r) /\
  (no_carry (Store_prefix s) ->
   exists r, Store_get_prev s b None = Ok r /\ is_last (Store_view s b) (before None) r).
Proof.
  intros Hb. split_and!.
  - intros k. rewrite Store_get_spec by done. unfold Store_view. by rewrite strip_lookup.
  - intros k. by apply Store_get_next_spec.
  - intros k. by apply Store_get_prev_some_spec.
  - by apply Store_get_prev_none_spec.
Qed.

(** writes through one handle never change what a handle with an unrelated
    prefix reads; they change their own view at the written key only. *)
Theorem Store_writes_isolated s t b k x :
  Read_inv b -> Store_writable s b k ->
  disjoint_prefixes (Store_prefix t) (Store_prefix s) ->
  exists b1 b2,
    Store_put s k x b = (Ok tt, b1) /\ Store_delete s k b = (Ok tt, b2) /\
    Read_inv b1 /\ Read_inv b2 /\
    Store_view s b1 = <[k := x]> (Store_view s b) /\ Store_view t b1 = Store_view t b /\
    Store_view s b2 = delete k (Store_view s b) /\ Store_view t b2 = Store_view t b.
Proof.
  intros Hb Hw Hd.
  destruct (Store_put_spec s b k x Hb Hw) as (b1 & H1 & Hb1 & Hv1 & _).
  destruct (Store_delete_spec s b k Hb) as (b2 & H2 & Hb2 & Hv2 & _).
  exists b1, b2. unfold Store_view. rewrite Hv1, Hv2.
  rewrite strip_insert, strip_delete, strip_insert_other, strip_delete_other
    by auto using disjoint_prefixes_app.
  by split_and!.
Qed.

(** [remove_range] returns once it has visited the entries of the range
    (one turn per entry and one more to see the end), although it deletes from
    the store its iterator reads; it removes exactly the entries in range and
    nothing outside the handle's prefix. *)
Theorem Store_remove_range_exact s b lo hi fuel :
  Read_inv b -> length (range_entries (Store_view s b) lo hi) < fuel ->
  exists b', Store_remove_range fuel s (lo, hi) b = (Ok tt, b') /\ Read_inv b' /\
    (forall k x, Store_view s b' !! k = Some x <->
                 Store_view s b !! k = Some x /\ bounds_contains (lo, hi) k = false) /\
    (forall q, starts_with (Store_prefix s) q = false -> view b' !! q = view b !! q).
Proof.
  intros Hb Hf.
  destruct (remove_range_loop_spec s fuel (Iter_new (lo, hi)) b Hb Hf) as (b' & H1 & Hb' & Hv & Hq).
  exists b'. split_and!; [done..| |done]. intros k x.
  rewrite Hv, delete_keys_lookup. unfold Iter_rest; simpl. split; intros [H2 H3].
  - split; [done|]. destruct (bounds_contains (lo, hi) k) eqn:E; [|done].
    destruct H3. apply list_elem_of_fmap. exists (k, x). by rewrite range_entries_elem.
  - split; [done|]. intros ([k' x'] & -> & Hin)%list_elem_of_fmap.
    apply range_entries_elem in Hin as [Hin _]. simpl in H3. congruence.
Qed.

(** [page] returns the first [min limit 100] entries of the inclusive range,
    in key order. *)
Theorem Store_page_spec s b start end_ limit :
  Read_inv b ->
  Store_page s b start end_ limit =
    Ok (take (Z.to_nat (Z.min limit 100))
          (range_entries (Store_view s b) (Included start)
             (match end_ with Some e => Included e | None => Unbounded end))).
Proof.
  intros Hb. unfold Store_page.
  rewrite (Iter_take_spec (s, b) (Store_view s b)) by by apply Store_reads_fwd.
  done.
Qed.

(** reading the last entry through a handle whose prefix is a run of 0xff
    bytes finds nothing, whatever the store holds under that prefix:
    [increment_bytes] wraps such a prefix around to a smaller key. *)
Theorem Store_get_prev_end_blind_at_ff n b :
  Read_inv b -> Store_get_prev (mkStore (replicate (S n) 255%Z)) b None = Ok None.
Proof.
  intros Hb. unfold Store_get_prev. cbn [Store_prefix].
  rewrite increment_bytes_ff. cbn [replicate].
  destruct (Read_get_prev_spec b (Some (1 :: 0 :: replicate n 0)%Z) Hb) as (r & -> & Hr).
  cbn [res_bind]. f_equal. destruct r as [[k x]|]; [|done]. destruct Hr as (_ & Hk & _).
  destruct k as [|c k]; [done|]. cbn [before] in Hk. apply blt_cons in Hk.
  cbn [unprefix starts_with replicate]. by rewrite (proj2 (Z.eqb_neq 255 c)) by lia.
Qed.
End Props.

(** *** Witnesses *)

Definition ex_back : MapStore :=
  mkBufStore [([1; 5], Some [50]); ([1; 6], Some [60]); ([2], Some [7])]%Z mkEmpty.
Lemma ex_back_inv : BufStore_inv ex_back.
Proof. split; [by repeat constructor|done]. Qed.
Lemma ex_back_writable : Store_writable (mkStore [1]%Z) ex_back [9]%Z.
Proof. split; [simpl; lia|done]. Qed.
Lemma ex_back_ff_inv : BufStore_inv (mkBufStore [([255; 7], Some [1])]%Z mkEmpty).
Proof. split; [by repeat constructor|done]. Qed.

Lemma Store_reads_under_prefix_witness :
  Store_get_prev (mkStore [1]%Z) ex_back None = Ok (Some ([6], [60])%Z) /\
  Store_get (mkStore [1]%Z) ex_back [5]%Z = Ok (view ex_back !! [1; 5]%Z).
Proof.
  split; [vm_compute; done|].
  by apply (Store_reads_under_prefix (mkStore [1]%Z) ex_back), ex_back_inv.
Defined.

Lemma Store_writes_isolated_witness :
  exists b1 b2,
    Store_put (mkStore [1]%Z) [9]%Z [90]%Z ex_back = (Ok tt, b1) /\
    Store_delete (mkStore [1]%Z) [9]%Z ex_back = (Ok tt, b2) /\
    Read_inv b1 /\ Read_inv b2 /\
    Store_view (mkStore [1]%Z) b1 = <[[9]%Z := [90]%Z]> (Store_view (mkStore [1]%Z) ex_back) /\
    Store_view (mkStore [2]%Z) b1 = Store_view (mkStore [2]%Z) ex_back /\
    Store_view (mkStore [1]%Z) b2 = delete [9]%Z (Store_view (mkStore [1]%Z) ex_back) /\
    Store_view (mkStore [2]%Z) b2 = Store_view (mkStore [2]%Z) ex_back.
Proof.
  apply (Store_writes_isolated (mkStore [1]%Z) (mkStore [2]%Z) ex_back [9]%Z [90]%Z).
  - exact ex_back_inv.
  - exact ex_back_writable.
  - by split.
Defined.

Lemma Store_remove_range_exact_witness :
  exists b', Store_remove_range 3 (mkStore [1]%Z) (Unbounded, Unbounded) ex_back = (Ok tt, b') /\
    Read_inv b' /\
    (forall k x, Store_view (mkStore [1]%Z) b' !! k = Some x <->
       Store_view (mkStore [1]%Z) ex_back !! k = Some x /\
       bounds_contains (Unbounded, Unbounded) k = false) /\
    (forall q, starts_with [1]%Z q = false -> view b' !! q = view ex_back !! q).
Proof.
  apply (Store_remove_range_exact (mkStore [1]%Z) ex_back Unbounded Unbounded 3).
  - exact ex_back_inv.
  - vm_compute. lia.
Defined.

Lemma Store_page_spec_witness :
  Store_page (mkStore [1]%Z) ex_back [] None 1 = Ok [([5], [50])]%Z /\
  Store_page (mkStore [1]%Z) ex_back [] None 1 =
    Ok (take 1 (range_entries (Store_view (mkStore [1]%Z) ex_back) (Included []) Unbounded)).
Proof.
  split; [vm_compute; done|].
  apply (Store_page_spec (mkStore [1]%Z) ex_back [] None 1).
  exact ex_back_inv.
Defined.

Lemma Store_get_prev_end_blind_at_ff_witness :
  Store_get (mkStore [255]%Z) (mkBufStore [([255; 7], Some [1])]%Z mkEmpty) [7]%Z = Ok (Some [1]%Z) /\
  Store_get_prev (mkStore [255]%Z) (mkBufStore [([255; 7], Some [1])]%Z mkEmpty) None = Ok None.
Proof.
  split; [vm_compute; done|].
  apply (Store_get_prev_end_blind_at_ff 0).
  exact ex_back_ff_inv.
Defined.

Lemma BufStore_flush_error_drops_entry_witness :
  let sa : StoreAt MapStore := (mkStore [1]%Z, ex_back) in
  let b := mkBufStore [(replicate 255 0%Z, Some []); ([3]%Z, Some [])] sa in
  BufStore_map (BufStore_flush b).2 = [([3]%Z, Some [])] /\
  exists m1 k v s1,
    BufStore_map b = m1 ++ (k, v) :: BufStore_map (mkBufStore [([3]%Z, Some [])] sa) /\
    BufStore_flush (mkBufStore m1 sa) = (Ok tt, mkBufStore [] s1) /\
    flush_entry k v s1 = (Err (EStore "Store keys must be < 256 bytes"), sa).
Proof.
  split; [vm_compute; done|].
  apply (BufStore_flush_error_drops_entry
    (mkBufStore [(replicate 255 0%Z, Some []); ([3]%Z, Some [])] ((mkStore [1]%Z, ex_back) : StoreAt MapStore))
    (mkBufStore [([3]%Z, Some [])] ((mkStore [1]%Z, ex_back) : StoreAt MapStore))).
  vm_compute. done.
Defined.
