(* ===== verification/PartialMap.v ===== *)
(** * Partial maps ([src/store/partialmap.rs])

    A [PartialMapStore] holds some of the entries of a store it has never seen in
    full (a light client builds one from a proof). Each entry says whether it
    directly follows the entry before it in the map, and [right_edge] whether
    nothing follows the last one. [pm_describes pm v] is that reading of the
    flags, for the full contents [v]; under it every answer the store gives is
    the full store's answer, and what it does not know it reports as an error. *)

From stdpp Require Import base tactics numbers list strings gmap sorting.
From Stdlib Require Import ZArith Lia.
From S2P Require Import Prelude Bytes BTree StoreIface StoreIter BufStore.

Record PartialMapStore := mkPartialMapStore {
  PartialMapStore_map : BTree (bool * bytes);
  PartialMapStore_right_edge : bool
}.

Definition PartialMapStore_new : PartialMapStore := mkPartialMapStore [] false.
Definition PartialMapStore_from_map (map : BTree (bool * bytes)) (right_edge : bool)
  : PartialMapStore := mkPartialMapStore map right_edge.

(** [join]: the loop over [other.map]. *)
Fixpoint join_loop (other map : BTree (bool * bytes)) : res (BTree (bool * bytes)) :=
  match other with
  | [] => Ok map
  | (k, (c, v)) :: other' =>
      match bt_get k map with
      | Some (c2, v2) =>
          let c := c || c2 in
          if beqb v v2 then join_loop other' (bt_insert k (c, v) map)
          else Panic "conflicting values for key"
      | None => join_loop other' (bt_insert k (c, v) map)
      end
  end.

Definition PartialMapStore_join (self other : PartialMapStore) : res PartialMapStore :=
  let? map := join_loop (PartialMapStore_map other) (PartialMapStore_map self) in
  Ok (mkPartialMapStore map
        (PartialMapStore_right_edge self || PartialMapStore_right_edge other)).

Definition PartialMapStore_get (s : PartialMapStore) (key : bytes) : res (option bytes) :=
  match bt_get key (PartialMapStore_map s) with
  | Some (_, v) => Ok (Some v)
  | None =>
      let range := exclusive_range_starting_from key in
      let? l := bt_range range.1 range.2 (PartialMapStore_map s) in
      match head l with
      | Some (_, (c, _)) => if c : bool then Ok None else Err (EStoreErr (GetUnknown key))
      | None =>
          if PartialMapStore_right_edge s then Ok None else Err (EStoreErr (GetUnknown key))
      end
  end.

Definition PartialMapStore_get_next (s : PartialMapStore) (key : bytes) : res (option KV) :=
  let range := exclusive_range_starting_from key in
  let? l := bt_range range.1 range.2 (PartialMapStore_map s) in
  match head l with
  | Some (k, (c, v)) => if c : bool then Ok (Some (k, v)) else Err (EStoreErr (GetNextUnknown key))
  | None =>
      if PartialMapStore_right_edge s then Ok None else Err (EStoreErr (GetNextUnknown key))
  end.

Definition PartialMapStore_get_prev (s : PartialMapStore) (key : option bytes) : res (option KV) :=
  let range := match key with
               | None => (Unbounded, Unbounded)
               | Some key => exclusive_range_ending_at key
               end in
  let? l := bt_range range.1 range.2 (PartialMapStore_map s) in
  let prev := last l in
  let prev_key := match prev with Some (k, _) => k | None => [] end in
  let range := exclusive_range_starting_from prev_key in
  let? l := bt_range range.1 range.2 (PartialMapStore_map s) in
  let found := match prev with Some (k, (_, v)) => Some (k, v) | None => None end in
  match head l with
  | Some (_, (c, _)) => if c : bool then Ok found else Err (EStoreErr (GetPrevUnknown key))
  | None =>
      if PartialMapStore_right_edge s then Ok found else Err (EStoreErr (GetPrevUnknown key))
  end.

#[export] Instance PartialMapStore_Read : Read PartialMapStore :=
  {| Read_get := PartialMapStore_get; Read_get_next := PartialMapStore_get_next;
     Read_get_prev := PartialMapStore_get_prev |}.

(** ** What the flags mean *)

Definition pm_map (s : PartialMapStore) : gmap bytes (bool * bytes) :=
  bt_map (PartialMapStore_map s).

(** A contiguous entry: every key of the full store before it is at or before
    another known entry. *)
Definition pm_contiguous (m : gmap bytes (bool * bytes)) (v : View) (k : bytes) : Prop :=
  forall j y, v !! j = Some y -> blt j k -> exists k' e, m !! k' = Some e /\ ble j k' /\ blt k' k.

Record pm_ok (m : gmap bytes (bool * bytes)) (right_edge : bool) (v : View) : Prop := {
  pm_entries : forall k c x, m !! k = Some (c, x) -> v !! k = Some x;
  pm_gaps : forall k x, m !! k = Some (true, x) -> pm_contiguous m v k;
  pm_edge : right_edge = true ->
    forall j y, v !! j = Some y -> exists k' e, m !! k' = Some e /\ ble j k'
}.

Definition pm_describes (s : PartialMapStore) (v : View) : Prop :=
  bt_wf (PartialMapStore_map s) /\ pm_ok (pm_map s) (PartialMapStore_right_edge s) v.

(** [r] may be returned for the full store's answer [P]: it is that answer or an
    error that says the answer is not known. *)
Definition sound {A} (r : res A) (P : A -> Prop) : Prop :=
  match r with
  | Ok a => P a
  | Err (EStoreErr _) => True
  | _ => False
  end.

(** ** Facts about the first and last entries of a range *)

Section Ends.
Context {V : Type}.
Implicit Types (m : BTree V).

Lemma head_filter_some lo m e :
  bt_wf m -> head (bt_filter lo Unbounded m) = Some e ->
  bt_map m !! e.1 = Some e.2 /\ above lo e.1 = true /\
  forall j y, bt_map m !! j = Some y -> above lo j = true -> ble e.1 j.
Proof.
  intros Hm He. pose proof (bt_filter_wf lo Unbounded m Hm) as Hw.
  pose proof (fun j y => bt_filter_elem lo Unbounded m j y Hm) as Hin.
  unfold bounds_contains in Hin; simpl in Hin. setoid_rewrite andb_true_r in Hin.
  destruct (bt_filter lo Unbounded m) as [|[k' x'] l]; simplify_eq/=.
  destruct (proj1 (Hin k' x')) as [H1 H2]; [by left|]. split_and!; [done..|].
  intros j y Hj Hkj. apply bt_wf_cons in Hw as [_ Hf]. rewrite Forall_forall in Hf.
  pose proof (proj2 (Hin j y) (conj Hkj Hj)) as [|Hl]%elem_of_cons; simplify_eq; [by right|].
  left. exact (Hf _ Hl).
Qed.

Lemma head_filter_none lo m :
  bt_wf m -> head (bt_filter lo Unbounded m) = None ->
  forall j y, bt_map m !! j = Some y -> above lo j = true -> False.
Proof.
  intros Hm He j y Hj Hkj. destruct (bt_filter lo Unbounded m) eqn:E; [|done].
  assert (Hin : (j, y) ∈ bt_filter lo Unbounded m).
  { apply bt_filter_elem; [done|]. unfold bounds_contains; simpl. by rewrite Hkj. }
  rewrite E in Hin. by apply elem_of_nil in Hin.
Qed.

Lemma last_filter_some hi m e :
  bt_wf m -> last (bt_filter Unbounded hi m) = Some e ->
  bt_map m !! e.1 = Some e.2 /\ below hi e.1 = true /\
  forall j y, bt_map m !! j = Some y -> below hi j = true -> ble j e.1.
Proof.
  intros Hm He. pose proof (bt_filter_wf Unbounded hi m Hm) as Hw.
  pose proof (fun j y => bt_filter_elem Unbounded hi m j y Hm) as Hin.
  unfold bounds_contains in Hin; simpl in Hin.
  apply last_Some in He as [l He]. rewrite He in *. destruct e as [k x].
  destruct (proj1 (Hin k x)) as [H1 H2]; [apply elem_of_app; right; by left|].
  split_and!; [done..|]. intros j y Hj Hkj.
  pose proof (proj2 (Hin j y) (conj Hkj Hj)) as [Hl|Hl]%elem_of_app.
  - left. apply (StronglySorted_app_1_elem_of key_lt l [(k, x)] (j, y) (k, x)); [done..|by left].
  - apply list_elem_of_singleton in Hl. simplify_eq. by right.
Qed.

Lemma last_filter_none hi m :
  bt_wf m -> last (bt_filter Unbounded hi m) = None ->
  forall j y, bt_map m !! j = Some y -> below hi j = true -> False.
Proof.
  intros Hm He%last_None j y Hj Hkj.
  assert (Hin : (j, y) ∈ bt_filter Unbounded hi m) by (by apply bt_filter_elem).
  rewrite He in Hin. by apply elem_of_nil in Hin.
Qed.
End Ends.

(** ** The partial store never lies *)

Section Sound.
Implicit Types (s : PartialMapStore) (v : View).

(** Whether the gap after [k] is known: the flag of the next entry, or the right
    edge when there is none. *)
Definition pm_succ_known s (k : bytes) : bool :=
  match head (bt_filter (Excluded k) Unbounded (PartialMapStore_map s)) with
  | Some (_, (c, _)) => c
  | None => PartialMapStore_right_edge s
  end.

(** Over a known gap, the keys of the full store at or after [k] are [k] itself,
    when the map has it, and those from the map's next entry on. *)
Lemma pm_gap s v k j y :
  pm_describes s v -> pm_succ_known s k = true -> v !! j = Some y -> ble k j ->
  (j = k /\ exists e, pm_map s !! k = Some e) \/
  exists e, head (bt_filter (Excluded k) Unbounded (PartialMapStore_map s)) = Some e /\
            pm_map s !! e.1 = Some e.2 /\ blt k e.1 /\ ble e.1 j.
Proof.
  intros [Hm Hok] Hs Hj Hkj. unfold pm_succ_known in Hs.
  assert (Hnear : forall k' e, pm_map s !! k' = Some e -> ble j k' -> ~ blt k k' ->
                  j = k /\ exists e, pm_map s !! k = Some e).
  { intros k' e Hk' Hjk' Hn. assert (k' = k) as -> by border. split; [border|eauto]. }
  destruct (head _) as [[k1 [c x1]]|] eqn:E.
  - destruct (head_filter_some _ _ _ Hm E) as (H1 & H2 & H3). cbn [fst snd above] in *. subst c.
    destruct (bltb_spec k k1) as [Hk1|]; [|done].
    destruct (blt_total j k1) as [Hlt|Hge].
    + destruct (pm_gaps _ _ _ Hok k1 x1 H1 j y Hj Hlt) as (k' & e & H4 & H5 & H6).
      left. apply (Hnear k' e); [done..|]. intros Hk'. specialize (H3 k' e H4).
      destruct (bltb_spec k k'); [|done]. specialize (H3 eq_refl). border.
    + right. eexists. split; [done|]. split_and!; [done..|]. cbn [fst]. destruct Hge as [->|]; [by right|by left].
  - destruct (pm_edge _ _ _ Hok Hs j y Hj) as (k' & e & H4 & H5).
    left. apply (Hnear k' e); [done..|]. intros Hk'.
    eapply (head_filter_none _ _ Hm E k' e); [done|]. simpl. by destruct (bltb_spec k k').
Qed.

(** The three reads share their tail: answer when the gap is known. *)
Lemma succ_known_case {A} s k (a b : A) (e1 e2 : Error) (f : bytes -> bytes -> A) :
  match head (bt_filter (Excluded k) Unbounded (PartialMapStore_map s)) with
  | Some (k', (c, x)) => if c : bool then Ok (f k' x) else Err e1
  | None => if PartialMapStore_right_edge s then Ok b else Err e2
  end =
  if pm_succ_known s k then
    Ok (match head (bt_filter (Excluded k) Unbounded (PartialMapStore_map s)) with
        | Some (k', (_, x)) => f k' x
        | None => b
        end)
  else Err (if head (bt_filter (Excluded k) Unbounded (PartialMapStore_map s)) is Some _
            then e1 else e2).
Proof.
  unfold pm_succ_known. destruct (head _) as [[k' [[] x]]|]; [done..|].
  by destruct (PartialMapStore_right_edge s).
Qed.

Lemma PartialMapStore_get_sound s v k :
  pm_describes s v -> sound (PartialMapStore_get s k) (fun r => r = v !! k).
Proof.
  intros Hd. pose proof Hd as [Hm Hok]. unfold PartialMapStore_get.
  rewrite bt_get_lookup. destruct (bt_map (PartialMapStore_map s) !! k) as [[c x]|] eqn:E.
  - simpl. symmetry. by eapply (pm_entries _ _ _ Hok).
  - cbn -[bt_filter]. rewrite (succ_known_case s k None None _ _ (fun _ _ => None)).
    destruct (pm_succ_known s k) eqn:Hs; [|by destruct (head _)]. simpl.
    destruct (v !! k) as [y|] eqn:Hv; [|by destruct (head _) as [[? []]|]].
    destruct (pm_gap s v k k y Hd Hs Hv (ble_refl k)) as [[_ [e He]]|(e & _ & _ & H1 & H2)].
    + unfold pm_map in He. congruence.
    + border.
Qed.

Lemma PartialMapStore_get_next_sound s v k :
  pm_describes s v -> sound (PartialMapStore_get_next s k) (is_first v (blt k)).
Proof.
  intros Hd. pose proof Hd as [Hm Hok]. unfold PartialMapStore_get_next.
  cbn -[bt_filter]. rewrite (succ_known_case s k None None _ _ (fun k x => Some (k, x))).
  destruct (pm_succ_known s k) eqn:Hs; [|by destruct (head _)]. simpl.
  assert (Hgap : forall j y, v !! j = Some y -> blt k j -> exists e,
    head (bt_filter (Excluded k) Unbounded (PartialMapStore_map s)) = Some e /\
    pm_map s !! e.1 = Some e.2 /\ blt k e.1 /\ ble e.1 j).
  { intros j y Hj Hkj. destruct (pm_gap s v k j y Hd Hs Hj) as [[-> _]|?]; [by left|border|done]. }
  destruct (head _) as [[k1 [c x]]|] eqn:E; simpl.
  - destruct (head_filter_some _ _ _ Hm E) as (H1 & H2 & H3). simpl in *.
    destruct (bltb_spec k k1); [|done]. split_and!; [by eapply (pm_entries _ _ _ Hok)|done|].
    intros j y Hj Hkj. by destruct (Hgap j y Hj Hkj) as (e & [= <-] & _ & _ & ?).
  - intros j y Hj Hkj. by destruct (Hgap j y Hj Hkj) as (e & [=] & _).
Qed.

Lemma PartialMapStore_get_prev_sound s v k :
  pm_describes s v -> sound (PartialMapStore_get_prev s k) (is_last v (before k)).
Proof.
  intros Hd. pose proof Hd as [Hm Hok]. unfold PartialMapStore_get_prev.
  set (hi := match k with None => Unbounded | Some k => Excluded k end).
  assert (Hbelow : forall j, below hi j = true <-> before k j).
  { intros j. subst hi. destruct k as [k|]; simpl; [by destruct (bltb_spec j k)|done]. }
  replace (match k with None => _ | Some _ => _ end) with (Unbounded : Bound bytes, hi) by by destruct k.
  cbn -[bt_filter]. replace (bt_range Unbounded hi (PartialMapStore_map s))
    with (Ok (bt_filter Unbounded hi (PartialMapStore_map s))) by by subst hi; destruct k.
  cbn -[bt_filter]. destruct (last (bt_filter Unbounded hi _)) as [[p [c x]]|] eqn:El.
  - destruct (last_filter_some _ _ _ Hm El) as (H1 & H2 & H3). cbn [fst snd] in *.
    rewrite (succ_known_case s p None (Some (p, x)) _ _ (fun _ _ => Some (p, x))).
    destruct (pm_succ_known s p) eqn:Hs; [|by destruct (head _)].
    enough (Hl : is_last v (before k) (Some (p, x))) by by simpl; destruct (head _) as [[? []]|].
    simpl. split_and!; [by eapply (pm_entries _ _ _ Hok)|by apply Hbelow|].
    intros j y Hj Hjk. destruct (blt_total j p) as [|[->|Hpj]]; [by left|by right|].
    destruct (pm_gap s v p j y Hd Hs Hj) as [[-> _]|(e & _ & He & Hpe & Hej)]; [by left|by right|].
    assert (below hi j = true) as Hj' by by apply Hbelow.
    pose proof (H3 e.1 e.2 He (below_mono _ _ _ Hj' Hej)). border.
  - rewrite (succ_known_case s [] None None _ _ (fun _ _ => None)).
    destruct (pm_succ_known s []) eqn:Hs; [|by destruct (head _)].
    enough (Hl : is_last v (before k) None) by by simpl; destruct (head _) as [[? []]|].
    simpl. intros j y Hj Hjk. apply Hbelow in Hjk.
    destruct (pm_gap s v [] j y Hd Hs Hj (ble_nil j)) as [[-> [e He]]|(e & _ & He & _ & Hej)].
    + by eapply (last_filter_none _ _ Hm El).
    + eapply (last_filter_none _ _ Hm El); [done|]. by eapply below_mono.
Qed.
End Sound.

(** ** [join] *)

(** An entry known to both sides is contiguous when either side says so. *)
Definition join_entry (o o2 : option (bool * bytes)) : option (bool * bytes) :=
  match o, o2 with
  | Some (c, x), Some (c2, _) => Some (c || c2, x)
  | Some e, None | None, Some e => Some e
  | None, None => None
  end.

Lemma join_loop_spec other : forall map,
  bt_wf other -> bt_wf map ->
  (forall k c x c2 x2, bt_map other !! k = Some (c, x) -> bt_map map !! k = Some (c2, x2) -> x = x2) ->
  exists m, join_loop other map = Ok m /\ bt_wf m /\
    forall k, bt_map m !! k = join_entry (bt_map other !! k) (bt_map map !! k).
Proof.
  induction other as [|[k [c x]] other IH]; intros map Ho Hm Hag; simpl.
  { exists map. split_and!; [done..|]. intros k. by destruct (bt_map map !! k) as [[]|]. }
  pose proof (bt_map_head _ _ _ Ho) as Hk. pose proof Ho as [Ho' _]%bt_wf_cons.
  assert (Hag' : forall c', forall j d y d2 y2, bt_map other !! j = Some (d, y) ->
            bt_map (bt_insert k (c', x) map) !! j = Some (d2, y2) -> y = y2).
  { intros c' j d y d2 y2 Hj. rewrite bt_insert_map. destruct (decide (j = k)) as [->|Hne]; [congruence|].
    rewrite lookup_insert_ne by done. apply (Hag j d y d2 y2). rewrite bt_map_cons.
    by rewrite lookup_insert_ne. }
  assert (Hfin : forall c' m, (forall j, bt_map m !! j =
             join_entry (bt_map other !! j) (bt_map (bt_insert k (c', x) map) !! j)) ->
           join_entry (Some (c, x)) (bt_map map !! k) = Some (c', x) ->
           forall j, bt_map m !! j = join_entry (bt_map ((k, (c, x)) :: other) !! j) (bt_map map !! j)).
  { intros c' m Hl Hk' j. rewrite Hl, bt_map_cons, bt_insert_map.
    destruct (decide (j = k)) as [->|]; [|by rewrite !lookup_insert_ne].
    by rewrite !lookup_insert_eq, Hk, Hk'. }
  rewrite bt_get_lookup. destruct (bt_map map !! k) as [[c2 x2]|] eqn:Emap.
  - assert (x = x2) as <- by (eapply (Hag k c x c2); [by rewrite bt_map_cons, lookup_insert_eq|done]).
    destruct (beqb_spec x x); [|done].
    destruct (IH (bt_insert k (c || c2, x) map) Ho') as (m & -> & Hwm & Hl); [auto with orga|eauto|].
    exists m. split_and!; [done..|]. by apply (Hfin (c || c2)).
  - destruct (IH (bt_insert k (c, x) map) Ho') as (m & -> & Hwm & Hl); [auto with orga|eauto|].
    exists m. split_and!; [done..|]. by apply (Hfin c).
Qed.

Lemma join_entry_some o o2 e :
  join_entry o o2 = Some e -> (exists c, o = Some (c, e.2)) \/ o2 = Some e.
Proof. destruct o as [[c x]|], o2 as [[c2 x2]|]; simpl; intros; simplify_eq; eauto. Qed.

(** More known entries keep a known gap known. *)
Lemma pm_contiguous_mono (m m' : gmap bytes (bool * bytes)) v k :
  (forall j, is_Some (m !! j) -> is_Some (m' !! j)) ->
  pm_contiguous m v k -> pm_contiguous m' v k.
Proof.
  intros Hsub Hc j y Hj Hjk. destruct (Hc j y Hj Hjk) as (k' & e & Hk' & H1 & H2).
  destruct (Hsub k') as [e' He']; eauto.
Qed.

Lemma pm_ok_join (m1 m2 m : gmap bytes (bool * bytes)) e1 e2 v :
  pm_ok m1 e1 v -> pm_ok m2 e2 v -> (forall k, m !! k = join_entry (m2 !! k) (m1 !! k)) ->
  pm_ok m (e1 || e2) v.
Proof.
  intros H1 H2 Hm.
  assert (Hs1 : forall j, is_Some (m1 !! j) -> is_Some (m !! j)).
  { intros j [[c x] Hj]. rewrite Hm, Hj. by destruct (m2 !! j) as [[]|]. }
  assert (Hs2 : forall j, is_Some (m2 !! j) -> is_Some (m !! j)).
  { intros j [[c x] Hj]. rewrite Hm, Hj. by destruct (m1 !! j) as [[]|]. }
  split.
  - intros k c x. rewrite Hm. intros [[c' Hk]|Hk]%join_entry_some.
    + by eapply (pm_entries _ _ _ H2).
    + by eapply (pm_entries _ _ _ H1).
  - intros k x Hk. rewrite Hm in Hk.
    destruct (m2 !! k) as [[c2 x2]|] eqn:E2, (m1 !! k) as [[c1 x1]|] eqn:E1; simplify_eq/=.
    + destruct c2; simplify_eq/=.
      * eapply pm_contiguous_mono, (pm_gaps _ _ _ H2); eauto.
      * eapply pm_contiguous_mono, (pm_gaps _ _ _ H1); eauto.
    + eapply pm_contiguous_mono, (pm_gaps _ _ _ H2); eauto.
    + eapply pm_contiguous_mono, (pm_gaps _ _ _ H1); eauto.
  - intros [He|He]%orb_true_iff j y Hj.
    + destruct (pm_edge _ _ _ H1 He j y Hj) as (k' & e & Hk' & Hle).
      destruct (Hs1 k') as [e' ?]; eauto.
    + destruct (pm_edge _ _ _ H2 He j y Hj) as (k' & e & Hk' & Hle).
      destruct (Hs2 k') as [e' ?]; eauto.
Qed.

(** ** Properties *)

(** C39: whatever a partial store answers is the full store's answer: for any
    contents its entries and flags describe, [get], [get_next] and [get_prev]
    either return what the full store would return or report a store error; they
    never return a wrong entry or a wrong absence. *)
Theorem PartialMapStore_never_lies (s : PartialMapStore) (v : View) :
  pm_describes s v ->
  (forall k, sound (PartialMapStore_get s k) (fun r => r = v !! k)) /\
  (forall k, sound (PartialMapStore_get_next s k) (is_first v (blt k))) /\
  (forall k, sound (PartialMapStore_get_prev s k) (is_last v (before k))).
Proof.
  intros Hs. split_and!; intros k.
  - by apply PartialMapStore_get_sound.
  - by apply PartialMapStore_get_next_sound.
  - by apply PartialMapStore_get_prev_sound.
Qed.

(** joining two partial stores of the same full store never panics, the
    result still describes that store, and it knows every entry either side
    knew. *)
Theorem PartialMapStore_join_sound (s1 s2 : PartialMapStore) (v : View) :
  pm_describes s1 v -> pm_describes s2 v ->
  exists s, PartialMapStore_join s1 s2 = Ok s /\ pm_describes s v /\
    forall k, is_Some (pm_map s !! k) <-> is_Some (pm_map s1 !! k) \/ is_Some (pm_map s2 !! k).
Proof.
  intros [Hw1 Hok1] [Hw2 Hok2].
  destruct (join_loop_spec (PartialMapStore_map s2) (PartialMapStore_map s1) Hw2 Hw1) as (m & Hj & Hwm & Hl).
  { intros k c x c2 x2 Hk2 Hk1. apply (pm_entries _ _ _ Hok2) in Hk2.
    apply (pm_entries _ _ _ Hok1) in Hk1. congruence. }
  unfold PartialMapStore_join. rewrite Hj. eexists. split; [done|]. split; [split|].
  - done.
  - eapply pm_ok_join; [exact Hok1|exact Hok2|exact Hl].
  - intros k. unfold pm_map. simpl. rewrite Hl.
    destruct (bt_map (PartialMapStore_map s2) !! k) as [[]|], (bt_map (PartialMapStore_map s1) !! k) as [[]|];
      simpl; split; intros; eauto; naive_solver.
Qed.

(** *** Witnesses: two overlapping parts of a three-entry store. *)

Definition ex_full : View := list_to_map [([1], [10]); ([2], [20]); ([3], [30])]%Z.
Definition ex_left : PartialMapStore :=
  mkPartialMapStore [([1], (true, [10])); ([2], (true, [20]))]%Z false.
Definition ex_right : PartialMapStore :=
  mkPartialMapStore [([2], (false, [20])); ([3], (true, [30]))]%Z true.

Lemma ex_full_inv j y : ex_full !! j = Some y -> (j, y) ∈ [([1], [10]); ([2], [20]); ([3], [30])]%Z.
Proof. intros H. apply elem_of_list_to_map_2 in H. exact H. Qed.

Lemma ex_left_ok : pm_describes ex_left ex_full.
Proof.
  split; [by repeat constructor|]. split.
  - intros k c x Hk%elem_of_list_to_map_2. cbn [PartialMapStore_map ex_left ex_right] in Hk.
    rewrite !elem_of_cons in Hk. destruct Hk as [|[|Hk%elem_of_nil]]; simplify_eq; done.
  - intros k x Hk%elem_of_list_to_map_2 j y Hj%ex_full_inv Hlt.
    cbn [PartialMapStore_map ex_left ex_right] in Hk.
    rewrite !elem_of_cons in Hk. rewrite !elem_of_cons in Hj.
    destruct Hk as [|[|Hk%elem_of_nil]], Hj as [|[|[|Hj%elem_of_nil]]]; simplify_eq; try done.
    exists [1]%Z, (true, [10]%Z). split; [done|]. split; [by right|done].
  - done.
Qed.

Lemma ex_right_ok : pm_describes ex_right ex_full.
Proof.
  split; [by repeat constructor|]. split.
  - intros k c x Hk%elem_of_list_to_map_2. cbn [PartialMapStore_map ex_left ex_right] in Hk.
    rewrite !elem_of_cons in Hk. destruct Hk as [|[|Hk%elem_of_nil]]; simplify_eq; done.
  - intros k x Hk%elem_of_list_to_map_2 j y Hj%ex_full_inv Hlt.
    cbn [PartialMapStore_map ex_left ex_right] in Hk.
    rewrite !elem_of_cons in Hk. rewrite !elem_of_cons in Hj.
    destruct Hk as [|[|Hk%elem_of_nil]], Hj as [|[|[|Hj%elem_of_nil]]]; simplify_eq; try done.
    + exists [2]%Z, (false, [20]%Z). split; [done|]. split; [by left|done].
    + exists [2]%Z, (false, [20]%Z). split; [done|]. split; [by right|done].
  - intros _ j y Hj%ex_full_inv. exists [3]%Z, (true, [30]%Z). split; [done|].
    rewrite !elem_of_cons in Hj. destruct Hj as [|[|[|Hj%elem_of_nil]]]; simplify_eq; [by left|by left|by right|done].
Qed.

Lemma PartialMapStore_never_lies_witness :
  PartialMapStore_get_prev ex_right None = Ok (Some ([3], [30])%Z) /\
  PartialMapStore_get ex_right [1]%Z = Err (EStoreErr (GetUnknown [1]%Z)) /\
  forall k, sound (PartialMapStore_get ex_right k) (fun r => r = ex_full !! k).
Proof.
  split; [vm_compute; done|]. split; [vm_compute; done|].
  apply (PartialMapStore_never_lies ex_right ex_full ex_right_ok).
Defined.

Lemma PartialMapStore_join_sound_witness :
  exists s, PartialMapStore_join ex_left ex_right = Ok s /\ pm_describes s ex_full /\
    forall k, is_Some (pm_map s !! k) <-> is_Some (pm_map ex_left !! k) \/ is_Some (pm_map ex_right !! k).
Proof. apply (PartialMapStore_join_sound ex_left ex_right ex_full ex_left_ok ex_right_ok). Defined.
