(* ===== verification/BackingStore.v ===== *)
(** * Shared handles and the backing-store dispatch ([src/store/share.rs], [backingstore.rs])

    An enum over the store implementations. [MapStore], [PartialMapStore] and
    [Empty] are the ones of this development; the Merk-based stores and the
    dynamically dispatched one are parameters, each with the traits the source
    uses it through. [Shared] wrappers are transparent in the enum. *)

From stdpp Require Import base tactics numbers list strings gmap.
From Stdlib Require Import ZArith Lia.
From S2P Require Import Prelude Bytes BTree StoreIface StoreIter NullStore BufStore PartialMap.

(** ** Shared references to stores ([src/store/share.rs])

    [Shared<T>] is an [Arc<RwLock<T>>]: a handle to a reference-counted cell. The
    heap maps a cell to its count and contents. Each operation of the source
    takes the lock for the length of one call, so no guard is held between two
    operations and locking never blocks; a lock is not poisoned unless a thread
    has panicked while holding it, after which the model makes no claim. *)

Abbreviation Heap T := (gmap nat (nat * T)).

Record Shared := mkShared { Shared_cell : nat }.

Section Shared.
Context {T : Type}.

Definition Shared_new (inner : T) : M (Heap T) Shared := fun h =>
  let l := fresh (dom h) in (Ok (mkShared l), <[l := (1, inner)]> h).

Definition Shared_clone (s : Shared) : M (Heap T) Shared := fun h =>
  match h !! Shared_cell s with
  | Some (n, t) => (Ok s, <[Shared_cell s := (S n, t)]> h)
  | None => (Panic "dangling reference", h)
  end.

(** Leaving scope. *)
Definition Shared_drop (s : Shared) : M (Heap T) unit := fun h =>
  match h !! Shared_cell s with
  | Some (S (S n), t) => (Ok tt, <[Shared_cell s := (S n, t)]> h)
  | Some _ => (Ok tt, delete (Shared_cell s) h)
  | None => (Panic "dangling reference", h)
  end.

(** [Arc::try_unwrap] succeeds on the only reference; otherwise the handle is
    dropped by the panic. *)
Definition Shared_into_inner (s : Shared) : M (Heap T) T := fun h =>
  match h !! Shared_cell s with
  | Some (1, t) => (Ok t, delete (Shared_cell s) h)
  | Some _ => (Panic "Store is already borrowed", (Shared_drop s h).2)
  | None => (Panic "dangling reference", h)
  end.

Definition Shared_borrow {A} (s : Shared) (f : T -> res A) : M (Heap T) A := fun h =>
  match h !! Shared_cell s with
  | Some (_, t) => (f t, h)
  | None => (Panic "dangling reference", h)
  end.

Definition Shared_borrow_mut {A} (s : Shared) (f : M T A) : M (Heap T) A := fun h =>
  match h !! Shared_cell s with
  | Some (n, t) => let '(r, t') := f t in (r, <[Shared_cell s := (n, t')]> h)
  | None => (Panic "dangling reference", h)
  end.

Context `{Read T} `{!Write T}.
Definition Shared_get (s : Shared) (key : bytes) : M (Heap T) (option bytes) :=
  Shared_borrow s (fun t => Read_get t key).
Definition Shared_get_next (s : Shared) (key : bytes) : M (Heap T) (option KV) :=
  Shared_borrow s (fun t => Read_get_next t key).
Definition Shared_get_prev (s : Shared) (key : option bytes) : M (Heap T) (option KV) :=
  Shared_borrow s (fun t => Read_get_prev t key).
Definition Shared_put (s : Shared) (key value : bytes) : M (Heap T) unit :=
  Shared_borrow_mut s (Write_put key value).
Definition Shared_delete (s : Shared) (key : bytes) : M (Heap T) unit :=
  Shared_borrow_mut s (Write_delete key).
End Shared.

(** ** Aliasing and ownership *)

Lemma Shared_borrow_mut_cell {T A} (s : Shared) (f : M T A) (h : Heap T) n t :
  h !! Shared_cell s = Some (n, t) ->
  Shared_borrow_mut s f h = ((f t).1, <[Shared_cell s := (n, (f t).2)]> h).
Proof. intros Hc. unfold Shared_borrow_mut. rewrite Hc. by destruct (f t). Qed.

(** a write through one handle is seen by every clone of it and by nothing
    else: after cloning a handle, a [put] through the clone is what [get] through
    the original returns, and every other cell is untouched; and the original
    cannot be unwrapped while the clone is alive. *)
Theorem Shared_clones_alias `{WS : WriteSpec T} (s : Shared) (h : Heap T) n t k x :
  h !! Shared_cell s = Some (S n, t) -> Read_inv t -> writable t k ->
  exists h1 h2,
    Shared_clone s h = (Ok s, h1) /\ Shared_put s k x h1 = (Ok tt, h2) /\
    (Shared_get s k h2).1 = Ok (Some x) /\
    (forall c, c <> Shared_cell s -> h2 !! c = h !! c) /\
    (Shared_into_inner s h2).1 = Panic "Store is already borrowed" /\
    (exists t', (do _ <- Shared_drop s; Shared_into_inner s) h2 =
       match n with
       | O => (Ok t', delete (Shared_cell s) h)
       | S _ => (Panic "Store is already borrowed", (Shared_drop s (<[Shared_cell s := (S n, t')]> h)).2)
       end).
Proof.
  intros Hc Ht Hw. destruct (Write_put_spec t k x Ht Hw) as (t' & Hp & Ht' & Hv & _).
  exists (<[Shared_cell s := (S (S n), t)]> h), (<[Shared_cell s := (S (S n), t')]> h).
  split_and!.
  - unfold Shared_clone. by rewrite Hc.
  - unfold Shared_put. rewrite (Shared_borrow_mut_cell _ _ _ (S (S n)) t) by apply lookup_insert_eq.
    by rewrite Hp, insert_insert_eq.
  - unfold Shared_get, Shared_borrow. rewrite lookup_insert_eq. cbn [fst].
    by rewrite Read_get_spec, Hv, lookup_insert_eq.
  - intros c Hne. by rewrite lookup_insert_ne.
  - unfold Shared_into_inner. by rewrite lookup_insert_eq.
  - exists t'. unfold bindM, Shared_drop at 1. rewrite lookup_insert_eq, insert_insert_eq.
    unfold Shared_into_inner. rewrite lookup_insert_eq. destruct n; [|done].
    by rewrite delete_insert_eq.
Qed.

Lemma Shared_clones_alias_witness :
  exists h1 h2 : Heap MapStore,
    Shared_clone (mkShared 0) {[ 0 := (1, MapStore_new) ]} = (Ok (mkShared 0), h1) /\
    Shared_put (mkShared 0) [7]%Z [8]%Z h1 = (Ok tt, h2) /\
    (Shared_get (mkShared 0) [7]%Z h2).1 = Ok (Some [8]%Z).
Proof.
  destruct (Shared_clones_alias (mkShared 0) {[ 0 := (1, MapStore_new) ]} 0 MapStore_new [7]%Z [8]%Z)
    as (h1 & h2 & H1 & H2 & H3 & _).
  - done.
  - split; [constructor|done].
  - done.
  - exists h1, h2. split; [exact H1|]. split; [exact H2|exact H3].
Defined.

Section BackingStore.
Context {Other WrappedMerkStore ProofBuilderMerk ProofBuilderSnapshot ProofBuilderMemSnapshot
         MerkStore Snapshot MemSnapshot ProofStore : Type}.
Context `{Read Other} `{!Write Other} `{Read WrappedMerkStore} `{!Write WrappedMerkStore}.
Context `{Read ProofBuilderMerk} `{Read ProofBuilderSnapshot} `{Read ProofBuilderMemSnapshot}.
Context `{Read MerkStore} `{!Write MerkStore} `{Read Snapshot} `{Read MemSnapshot} `{Read ProofStore}.

Inductive BackingStore :=
| BSMapStore (store : MapStore)
| BSPartialMapStore (store : PartialMapStore)
| BSNull (store : Empty)
| BSOther (store : Other)
| BSWrappedMerk (store : WrappedMerkStore)
| BSProofBuilder (builder : ProofBuilderMerk)
| BSProofBuilderSnapshot (builder : ProofBuilderSnapshot)
| BSProofBuilderMemSnapshot (builder : ProofBuilderMemSnapshot)
| BSMerk (store : MerkStore)
| BSSnapshot (store : Snapshot)
| BSMemSnapshot (store : MemSnapshot)
| BSProofMap (map : ProofStore).

Definition BackingStore_default : BackingStore := BSNull mkEmpty.

Definition BackingStore_get (b : BackingStore) (key : bytes) : res (option bytes) :=
  match b with
  | BSMapStore store => Read_get store key
  | BSPartialMapStore store => Read_get store key
  | BSNull null => Read_get null key
  | BSOther store => Read_get store key
  | BSWrappedMerk store => Read_get store key
  | BSProofBuilder builder => Read_get builder key
  | BSProofBuilderSnapshot builder => Read_get builder key
  | BSProofBuilderMemSnapshot builder => Read_get builder key
  | BSMerk store => Read_get store key
  | BSSnapshot store => Read_get store key
  | BSMemSnapshot store => Read_get store key
  | BSProofMap map => Read_get map key
  end.

Definition BackingStore_get_next (b : BackingStore) (key : bytes) : res (option KV) :=
  match b with
  | BSMapStore store => Read_get_next store key
  | BSPartialMapStore store => Read_get_next store key
  | BSNull null => Read_get_next null key
  | BSOther store => Read_get_next store key
  | BSWrappedMerk store => Read_get_next store key
  | BSProofBuilder builder => Read_get_next builder key
  | BSProofBuilderSnapshot builder => Read_get_next builder key
  | BSProofBuilderMemSnapshot builder => Read_get_next builder key
  | BSMerk store => Read_get_next store key
  | BSSnapshot store => Read_get_next store key
  | BSMemSnapshot store => Read_get_next store key
  | BSProofMap map => Read_get_next map key
  end.

Definition BackingStore_get_prev (b : BackingStore) (key : option bytes) : res (option KV) :=
  match b with
  | BSMapStore store => Read_get_prev store key
  | BSPartialMapStore store => Read_get_prev store key
  | BSNull null => Read_get_prev null key
  | BSOther store => Read_get_prev store key
  | BSWrappedMerk store => Read_get_prev store key
  | BSProofBuilder builder => Read_get_prev builder key
  | BSProofBuilderSnapshot builder => Read_get_prev builder key
  | BSProofBuilderMemSnapshot builder => Read_get_prev builder key
  | BSMerk store => Read_get_prev store key
  | BSSnapshot store => Read_get_prev store key
  | BSMemSnapshot store => Read_get_prev store key
  | BSProofMap map => Read_get_prev map key
  end.

(** Running a write of a variant's store and rewrapping what it leaves. *)
Definition in_variant {T} (wrap : T -> BackingStore) (store : T) (f : M T unit) : res unit * BackingStore :=
  let '(r, store') := f store in (r, wrap store').

Definition BackingStore_put (key value : bytes) : M BackingStore unit := fun b =>
  match b with
  | BSMapStore store => in_variant BSMapStore store (Write_put key value)
  | BSPartialMapStore _ => (Panic "put() is not implemented for PartialMapStore", b)
  | BSNull store => in_variant BSNull store (Write_put key value)
  | BSOther store => in_variant BSOther store (Write_put key value)
  | BSWrappedMerk store => in_variant BSWrappedMerk store (Write_put key value)
  | BSMerk store => in_variant BSMerk store (Write_put key value)
  | BSSnapshot _ => (Panic "put() is not implemented for Snapshot", b)
  | BSMemSnapshot _ => (Panic "put() is not implemented for MemSnapshot", b)
  | BSProofBuilder _ => (Panic "put() is not implemented for ProofBuilder", b)
  | BSProofBuilderSnapshot _ => (Panic "put() is not implemented for ProofBuilderSnapshot", b)
  | BSProofBuilderMemSnapshot _ => (Panic "put() is not implemented for ProofBuilderMemSnapshot", b)
  | BSProofMap _ => (Panic "put() is not implemented for ProofMap", b)
  end.

Definition BackingStore_delete (key : bytes) : M BackingStore unit := fun b =>
  match b with
  | BSMapStore store => in_variant BSMapStore store (Write_delete key)
  | BSPartialMapStore _ => (Panic "delete() is not implemented for PartialMapStore", b)
  | BSNull store => in_variant BSNull store (Write_delete key)
  | BSOther store => in_variant BSOther store (Write_delete key)
  | BSWrappedMerk store => in_variant BSWrappedMerk store (Write_delete key)
  | BSMerk store => in_variant BSMerk store (Write_delete key)
  | BSProofBuilder _ => (Panic "delete() is not implemented for ProofBuilder", b)
  | BSProofBuilderSnapshot _ => (Panic "delete() is not implemented for ProofBuilderSnapshot", b)
  | BSProofBuilderMemSnapshot _ => (Panic "delete() is not implemented for ProofBuilderMemSnapshot", b)
  | BSSnapshot _ => (Panic "delete() is not implemented for Snapshot", b)
  | BSMemSnapshot _ => (Panic "delete() is not implemented for MemSnapshot", b)
  | BSProofMap _ => (Panic "delete() is not implemented for ProofMap", b)
  end.

#[export] Instance BackingStore_Read : Read BackingStore :=
  {| Read_get := BackingStore_get; Read_get_next := BackingStore_get_next;
     Read_get_prev := BackingStore_get_prev |}.
#[export] Instance BackingStore_Write : Write BackingStore :=
  {| Write_put := BackingStore_put; Write_delete := BackingStore_delete |}.

(** *** Downcasts *)

Definition into_proof_builder (b : BackingStore) : res ProofBuilderMerk :=
  match b with
  | BSProofBuilder builder => Ok builder
  | _ => Err (EDowncast "Failed to downcast backing store to proof builder")
  end.
Definition into_proof_builder_snapshot (b : BackingStore) : res ProofBuilderSnapshot :=
  match b with
  | BSProofBuilderSnapshot builder => Ok builder
  | _ => Err (EDowncast "Failed to downcast backing store to proof builder snapshot")
  end.
Definition into_memsnapshot (b : BackingStore) : res MemSnapshot :=
  match b with
  | BSMemSnapshot ss => Ok ss
  | _ => Err (EDowncast "Failed to downcast backing store to memsnapshot")
  end.
Definition into_proof_builder_memsnapshot (b : BackingStore) : res ProofBuilderMemSnapshot :=
  match b with
  | BSProofBuilderMemSnapshot builder => Ok builder
  | _ => Err (EDowncast "Failed to downcast backing store to proof builder memsnapshot")
  end.
Definition into_wrapped_merk (b : BackingStore) : res WrappedMerkStore :=
  match b with
  | BSWrappedMerk store => Ok store
  | _ => Err (EDowncast "Failed to downcast backing store to wrapped merk")
  end.
Definition into_map_store (b : BackingStore) : res MapStore :=
  match b with
  | BSMapStore store => Ok store
  | _ => Err (EDowncast "Failed to downcast backing store to map store")
  end.
Definition into_other (b : BackingStore) : res Other :=
  match b with
  | BSOther store => Ok store
  | _ => Err (EDowncast "Failed to downcast backing store to map store")
  end.

(** ** The variants that state trees run on keep the store laws *)

Context `{!ReadSpec Other} `{!WriteSpec Other} `{!ReadSpec WrappedMerkStore} `{!WriteSpec WrappedMerkStore}.
Context `{!ReadSpec MerkStore} `{!WriteSpec MerkStore}.

(** Writable variants, with their own invariant; the others are read-only. *)
Definition BackingStore_inv (b : BackingStore) : Prop :=
  match b with
  | BSMapStore store => Read_inv store
  | BSOther store => Read_inv store
  | BSWrappedMerk store => Read_inv store
  | BSMerk store => Read_inv store
  | _ => False
  end.
Definition BackingStore_view (b : BackingStore) : View :=
  match b with
  | BSMapStore store => view store
  | BSOther store => view store
  | BSWrappedMerk store => view store
  | BSMerk store => view store
  | _ => ∅
  end.
Definition BackingStore_writable (b : BackingStore) (k : bytes) : Prop :=
  match b with
  | BSMapStore store => writable store k
  | BSOther store => writable store k
  | BSWrappedMerk store => writable store k
  | BSMerk store => writable store k
  | _ => False
  end.

#[export] Instance BackingStore_ReadSpec : ReadSpec BackingStore.
Proof.
  refine {| Read_inv := BackingStore_inv; view := BackingStore_view |}.
  - intros [s| | |s|s| | | |s| | |] k Hb; try done; exact (Read_get_spec s k Hb).
  - intros [s| | |s|s| | | |s| | |] k Hb; try done; exact (Read_get_next_spec s k Hb).
  - intros [s| | |s|s| | | |s| | |] k Hb; try done; exact (Read_get_prev_spec s k Hb).
Defined.

Lemma in_variant_spec {T} (wrap : T -> BackingStore) store f (store' : T) :
  f store = (Ok tt, store') -> in_variant wrap store f = (Ok tt, wrap store').
Proof. unfold in_variant. by intros ->. Qed.

#[export] Instance BackingStore_WriteSpec : WriteSpec BackingStore.
Proof.
  refine {| writable := BackingStore_writable |}.
  - intros [s| | |s|s| | | |s| | |] k x Hb Hw; try done;
      (destruct (Write_put_spec s k x) as (s' & Hp & ? & ? & ?); [exact Hb|exact Hw|]);
      eexists; (split; [by apply in_variant_spec, Hp|done]).
  - intros [s| | |s|s| | | |s| | |] k Hb; try done;
      (destruct (Write_delete_spec s k) as (s' & Hp & ? & ? & ?); [exact Hb|]);
      eexists; (split; [by apply in_variant_spec, Hp|done]).
Defined.
End BackingStore.
