(* ===== verification/Codec.v ===== *)
(** * Encoding interfaces

    [Encode] and [Decode] are the traits of the [ed] crate, which the source
    uses but does not contain: they are classes here, and what the collections
    rely on is the law class [KeySpec] (a terminated encoding: decoding an
    encoded value followed by anything gives the value back and leaves the rest).
    The fixed-width unsigned integers, which [ed] encodes big-endian, are an
    instance and show that the laws can be met. *)

From stdpp Require Import base tactics numbers list strings.
From Stdlib Require Import ZArith Lia Eqdep_dec.
From S2P Require Import Prelude Bytes.

Class Encode (K : Type) := { Encode_encode : K -> res bytes }.
(** [decode] reads from the front and leaves the rest of the input. *)
Class Decode (K : Type) := { Decode_decode : bytes -> res (K * bytes) }.

(** A total encoding with a left inverse; [codec_terminated] is the [Terminated]
    marker: the encoding tells where it ends. *)
Class CodecSpec (K : Type) `{Encode K} `{Decode K} := {
  enc : K -> bytes;
  codec_terminated : Prop;
  encode_enc k : Encode_encode k = Ok (enc k);
  decode_enc k r : codec_terminated \/ r = [] -> Decode_decode (enc k ++ r) = Ok (k, r)
}.

(** What a [Map] needs of its key type: terminated, canonical and never empty. *)
Class KeySpec (K : Type) `{CS : CodecSpec K} := {
  key_terminated : codec_terminated (K := K);
  enc_nonempty (k : K) : enc k <> [];
  decode_canonical bs (k : K) r : Decode_decode bs = Ok (k, r) -> bs = enc k ++ r
}.

Section KeyFacts.
Context `{KS : KeySpec K}.
Implicit Types (j k : K).

Lemma decode_key k r : Decode_decode (enc k ++ r) = Ok (k, r).
Proof. apply decode_enc. left. apply key_terminated. Qed.

(** Encodings are prefix-free. *)
Lemma enc_app_inj j k r r' : enc j ++ r = enc k ++ r' -> j = k /\ r = r'.
Proof. intros Heq. pose proof (decode_key j r) as H1. rewrite Heq, decode_key in H1. by simplify_eq. Qed.
Lemma enc_inj j k : enc j = enc k -> j = k.
Proof. intros Heq. apply (enc_app_inj j k [] []). by rewrite !app_nil_r. Qed.
Lemma enc_prefix_free j k r : starts_with (enc j) (enc k ++ r) = true -> j = k.
Proof. intros [r' Hr]%starts_with_spec. by destruct (enc_app_inj k j r r'). Qed.
End KeyFacts.

(** ** Fixed-width unsigned integers, big-endian *)

(** [z.to_be_bytes()] for an [n]-byte integer, and its inverse. *)
Fixpoint to_be_bytes (n : nat) (z : Z) : bytes :=
  match n with
  | O => []
  | S n' => to_be_bytes n' (z / 256) ++ [(z mod 256)%Z]
  end.
Definition from_be_bytes (bs : bytes) : Z := fold_left (fun acc b => (acc * 256 + b)%Z) bs 0%Z.

Definition uint_range (n : nat) (z : Z) : bool := ((0 <=? z) && (z <? 256 ^ Z.of_nat n))%Z.

Lemma uint_range_spec n z : uint_range n z = true <-> (0 <= z < 256 ^ Z.of_nat n)%Z.
Proof. unfold uint_range. rewrite andb_true_iff, Z.leb_le, Z.ltb_lt. done. Qed.

Lemma to_be_bytes_length n z : length (to_be_bytes n z) = n.
Proof. revert z; induction n as [|n IH]; intros z; simpl; [done|]. rewrite length_app, IH. simpl. lia. Qed.

Lemma from_be_bytes_snoc bs b : from_be_bytes (bs ++ [b]) = (from_be_bytes bs * 256 + b)%Z.
Proof. unfold from_be_bytes. by rewrite fold_left_app. Qed.

Lemma uint_range_S n z :
  uint_range (S n) z = true -> uint_range n (z / 256) = true.
Proof.
  rewrite !uint_range_spec, Nat2Z.inj_succ, Z.pow_succ_r by lia. intros Hz.
  split; [apply Z.div_pos; lia|apply Z.div_lt_upper_bound; lia].
Qed.

Lemma from_to_be_bytes n z : uint_range n z = true -> from_be_bytes (to_be_bytes n z) = z.
Proof.
  revert z; induction n as [|n IH]; intros z Hz.
  - apply uint_range_spec in Hz. simpl in *. unfold from_be_bytes. simpl. lia.
  - simpl. rewrite from_be_bytes_snoc, IH by by apply uint_range_S.
    pose proof (Z.div_mod z 256). lia.
Qed.

Lemma to_from_be_bytes bs :
  is_bytes bs -> uint_range (length bs) (from_be_bytes bs) = true /\
  to_be_bytes (length bs) (from_be_bytes bs) = bs.
Proof.
  induction bs as [|b bs IH] using rev_ind; intros Hb; [done|].
  apply Forall_app in Hb as [Hbs [Hb _]%Forall_cons]. destruct (IH Hbs) as [H1 H2].
  unfold is_u8 in Hb. rewrite from_be_bytes_snoc, length_app. simpl. rewrite Nat.add_1_r. simpl.
  assert (Hd : ((from_be_bytes bs * 256 + b) / 256 = from_be_bytes bs)%Z)
    by (rewrite Z.div_add_l by lia; rewrite Z.div_small; lia).
  assert (Hm : ((from_be_bytes bs * 256 + b) mod 256 = b)%Z)
    by (rewrite Z.add_comm, Z.mod_add by lia; apply Z.mod_small; lia).
  rewrite Hd, Hm, H2. split; [|done]. rewrite uint_range_spec in *.
  rewrite Nat2Z.inj_succ, Z.pow_succ_r by lia. lia.
Qed.

(** The byte order of the encodings is the numeric order. *)
Lemma bcmp_snoc a b x y :
  length a = length b -> bcmp (a ++ [x]) (b ++ [y]) = match bcmp a b with Eq => Z.compare x y | c => c end.
Proof.
  revert b; induction a as [|u a IH]; intros [|w b] Hl; simplify_eq/=; [by destruct (x ?= y)%Z|].
  destruct (u ?= w)%Z; auto.
Qed.

Lemma to_be_bytes_order n a b :
  uint_range n a = true -> uint_range n b = true ->
  bcmp (to_be_bytes n a) (to_be_bytes n b) = Z.compare a b.
Proof.
  revert a b; induction n as [|n IH]; intros a b Ha Hb.
  - rewrite uint_range_spec in *. simpl in *. symmetry. apply Z.compare_eq_iff. lia.
  - simpl. rewrite bcmp_snoc by by rewrite !to_be_bytes_length.
    rewrite IH by by apply uint_range_S.
    pose proof (Z.div_mod a 256). pose proof (Z.div_mod b 256).
    pose proof (Z.mod_pos_bound a 256). pose proof (Z.mod_pos_bound b 256).
    destruct (Z.compare_spec (a / 256) (b / 256)), (Z.compare_spec a b), (Z.compare_spec (a mod 256) (b mod 256));
      try done; lia.
Qed.

(** An [n]-byte unsigned integer. *)
Record uint (n : nat) := mkUint { uint_val : Z; uint_ok : uint_range n uint_val = true }.
Arguments mkUint {n} _ _.
Arguments uint_val {n} _.

Lemma uint_eq n (a b : uint n) : uint_val a = uint_val b -> a = b.
Proof.
  destruct a as [a Ha], b as [b Hb]. simpl. intros ->. f_equal.
  apply UIP_dec. decide equality.
Qed.
#[export] Instance uint_eq_dec n : EqDecision (uint n).
Proof.
  intros a b. destruct (decide (uint_val a = uint_val b)) as [He|Hn].
  - left. by apply uint_eq.
  - right. by intros ->.
Defined.

(** The value of an integer literal or of a wrapped computation. *)
Definition uint_wrap (n : nat) (z : Z) : Z := (z mod 256 ^ Z.of_nat n)%Z.
Lemma uint_wrap_range n z : uint_range n (uint_wrap n z) = true.
Proof.
  apply uint_range_spec. unfold uint_wrap. apply Z.mod_pos_bound. lia.
Qed.
Definition to_uint (n : nat) (z : Z) : uint n := mkUint (uint_wrap n z) (uint_wrap_range n z).

#[export] Instance uint_Encode n : Encode (uint n) :=
  {| Encode_encode := fun z => Ok (to_be_bytes n (uint_val z)) |}.

Definition is_byteb (b : Z) : bool := ((0 <=? b) && (b <? 256))%Z.
Definition uint_decode n (bs : bytes) : res (uint n * bytes) :=
  if (length bs <? n) || negb (forallb is_byteb (take n bs)) then Err (EEd "failed to fill whole buffer")
  else Ok (to_uint n (from_be_bytes (take n bs)), drop n bs).
#[export] Instance uint_Decode n : Decode (uint n) := {| Decode_decode := uint_decode n |}.

Lemma is_byteb_spec b : is_byteb b = true <-> is_u8 b.
Proof. unfold is_byteb, is_u8. rewrite andb_true_iff, Z.leb_le, Z.ltb_lt. done. Qed.
Lemma to_be_bytes_is_bytes n z : is_bytes (to_be_bytes n z).
Proof.
  revert z; induction n as [|n IH]; intros z; [constructor|]. apply Forall_app; split; [apply IH|].
  repeat constructor; pose proof (Z.mod_pos_bound z 256); lia.
Qed.
Lemma forallb_bytes bs : forallb is_byteb bs = true <-> is_bytes bs.
Proof.
  unfold is_bytes. rewrite forallb_forall, Forall_forall. split; intros Hb b Hin.
  - apply is_byteb_spec, Hb. by apply list_elem_of_In.
  - apply is_byteb_spec, Hb. by apply list_elem_of_In.
Qed.
Lemma to_uint_val n (z : uint n) : to_uint n (uint_val z) = z.
Proof.
  apply uint_eq. simpl. unfold uint_wrap. apply Z.mod_small.
  apply uint_range_spec, uint_ok.
Qed.

Lemma uint_val_to n z : (0 <= z < 256 ^ Z.of_nat n)%Z -> uint_val (to_uint n z) = z.
Proof. intros. simpl. unfold uint_wrap. by apply Z.mod_small. Qed.

#[export] Instance uint_CodecSpec n : CodecSpec (uint n).
Proof.
  refine {| enc := fun z => to_be_bytes n (uint_val z); codec_terminated := True |}; [done|].
  intros z r _. simpl. unfold uint_decode.
  assert (Ht : take n (to_be_bytes n (uint_val z) ++ r) = to_be_bytes n (uint_val z)).
  { rewrite take_app_length'; [done|]. by rewrite to_be_bytes_length. }
  rewrite Ht, length_app, to_be_bytes_length.
  rewrite (proj2 (forallb_bytes _)) by apply to_be_bytes_is_bytes.
  destruct (Nat.ltb_spec (n + length r) n); [lia|]. simpl.
  rewrite from_to_be_bytes by apply uint_ok.
  rewrite to_uint_val, drop_app_length'; [done|]. by rewrite to_be_bytes_length.
Defined.

#[export] Instance uint_KeySpec n : KeySpec (uint (S n)).
Proof.
  split; [done| |].
  - intros z He. apply (f_equal length) in He.
    change (length (to_be_bytes (S n) (uint_val z)) = 0) in He.
    rewrite to_be_bytes_length in He. done.
  - intros bs z r. unfold Decode_decode, uint_Decode, uint_decode, enc, uint_CodecSpec.
    destruct (Nat.ltb_spec (length bs) (S n)); [done|].
    destruct (forallb is_byteb (take (S n) bs)) eqn:Hb; [|done].
    apply forallb_bytes in Hb. intros [= <- <-].
    destruct (to_from_be_bytes _ Hb) as [H1 H2].
    assert (Hl : length (take (S n) bs) = S n) by (rewrite length_take; lia).
    rewrite Hl in H1, H2. cbn [to_uint uint_val]. unfold uint_wrap.
    rewrite Z.mod_small by by apply uint_range_spec. by rewrite H2, take_drop.
Qed.

Abbreviation u8 := (uint 1).
Abbreviation u16 := (uint 2).
Abbreviation u32 := (uint 4).
Abbreviation u64 := (uint 8).
