(* ===== verification/StateIface.v ===== *)
(** * The [State] trait ([src/state/mod.rs])

    A [State] value maps a type onto the store: [attach] gives it its part of the
    key space, [flush] writes its changes to the store and its own bytes to a
    writer, [load] rebuilds it from both. Instances are given for the types whose
    state is their encoding ([state_impl!]), for [Option], for pairs (the
    tuple macro at arity two), and for arrays and [Vec].

    [StateSpec] is what one component promises another: the value stands for an
    abstract content ([abs]), which depends only on the store strictly under the
    value's prefix, and flushing then loading gives the same content back. *)

From stdpp Require Import base tactics numbers list strings gmap.
From Stdlib Require Import ZArith Lia.
From S2P Require Import Prelude Bytes BTree StoreIface StoreIter NullStore BufStore PrefixStore Codec.

(** ** The trait *)

(** [St] is the type of the backing store behind the handles. [flush] returns
    the bytes it writes to its output; [load] returns the input it leaves. *)
Class State (St V : Type) := {
  State_attach : Store -> M V unit;
  State_flush : V -> M St bytes;
  State_load : Store -> bytes -> St -> res (V * bytes)
}.

(** *** [state_impl!]: types fully represented by their encoding *)
Section Leaf.
Context {St V : Type} `{Encode V} `{Decode V}.
Definition leaf_attach (_ : Store) : M V unit := retM tt.
Definition leaf_flush (v : V) : M St bytes := liftM (Encode_encode v).
Definition leaf_load (_ : Store) (bs : bytes) (_ : St) : res (V * bytes) := Decode_decode bs.
Definition leaf_State : State St V :=
  {| State_attach := leaf_attach; State_flush := leaf_flush; State_load := leaf_load |}.
End Leaf.

(** *** [Option<T>] *)
Section OptionState.
Context {St T : Type} `{State St T}.
Definition option_attach (s : Store) : M (option T) unit := fun o =>
  match o with
  | Some t => let '(r, t') := State_attach s t in (r, Some t')
  | None => (Ok tt, None)
  end.
Definition option_flush (o : option T) : M St bytes :=
  match o with
  | Some inner => do bs <- State_flush inner; retM (1%Z :: bs)
  | None => retM [0%Z]
  end.
Definition option_load (s : Store) (bs : bytes) (b : St) : res (option T * bytes) :=
  match bs with
  | [] => Err (EEd "failed to fill whole buffer")
  | variant_byte :: bs' =>
      if (variant_byte =? 0)%Z then Ok (None, bs')
      else let? r := State_load s bs' b in Ok (Some r.1, r.2)
  end.
#[export] Instance option_State : State St (option T) :=
  {| State_attach := option_attach; State_flush := option_flush; State_load := option_load |}.
End OptionState.

(** *** [state_tuple_impl!(A; B; 0, 1)] *)
Section PairState.
Context {St A B : Type} `{State St A} `{State St B}.
Definition pair_attach (s : Store) : M (A * B) unit :=
  run zoomM fst (fun a p => (a, p.2)) (State_attach (Store_sub s [0%Z]));
  zoomM snd (fun b p => (p.1, b)) (State_attach (Store_sub s [1%Z])).
Definition pair_flush (p : A * B) : M St bytes :=
  do bs0 <- State_flush p.1;
  do bs1 <- State_flush p.2;
  retM (bs0 ++ bs1).
Definition pair_load (s : Store) (bs : bytes) (b : St) : res ((A * B) * bytes) :=
  let? r0 := State_load (Store_sub s [0%Z]) bs b in
  let? r1 := State_load (Store_sub s [1%Z]) r0.2 b in
  Ok ((r0.1, r1.1), r1.2).
#[export] Instance pair_State : State St (A * B) :=
  {| State_attach := pair_attach; State_flush := pair_flush; State_load := pair_load |}.
End PairState.

(** *** [Store] itself: the handle (src/store/store.rs) *)
Definition Store_attach (s : Store) : M Store unit := fun _ => (Ok tt, s).
Definition Store_load {St} (s : Store) (bs : bytes) (_ : St) : res (Store * bytes) := Ok (s, bs).
#[export] Instance Store_State {St} : State St Store :=
  {| State_attach := Store_attach; State_flush := fun _ => retM []; State_load := Store_load |}.

(** *** [[T; N]] and [Vec<T>] *)
Definition varint (n max : Z) : bytes :=
  (if max <? 255 then [n mod 256]
   else if max <? 65535 then to_be_bytes 2 n
   else if max <? 4294967295 then to_be_bytes 4 n
   else to_be_bytes 8 n)%Z.
Section SeqState.
Context {St T : Type} `{State St T}.
(** The element at position [i] lives under the prefix [pre i]. *)
Fixpoint seq_attach (pre : Z -> bytes) (i : Z) (s : Store) (l : list T) : res unit * list T :=
  match l with
  | [] => (Ok tt, [])
  | v :: l =>
      match State_attach (Store_sub s (pre i)) v with
      | (Ok _, v') => let '(r, l') := seq_attach pre (i + 1) s l in (r, v' :: l')
      | (Err e, v') => (Err e, v' :: l)
      | (Panic w, v') => (Panic w, v' :: l)
      end
  end.
Fixpoint seq_flush (l : list T) : M St bytes :=
  match l with
  | [] => retM []
  | v :: l => do bs <- State_flush v; do rest <- seq_flush l; retM (bs ++ rest)
  end.
Fixpoint array_load_loop (N : Z) (count : nat) (i : Z) (s : Store) (bs : bytes) (b : St) : res (list T * bytes) :=
  match count with
  | O => Ok ([], bs)
  | S count =>
      let? r := State_load (Store_sub s (varint i N)) bs b in
      let? rs := array_load_loop N count (i + 1) s r.2 b in
      Ok (r.1 :: rs.1, rs.2)
  end.
(** Until the bytes are used up; an element takes at least one. *)
Fixpoint vec_load_loop (fuel : nat) (i : Z) (s : Store) (bs : bytes) (b : St) : res (list T * bytes) :=
  match bs with
  | [] => Ok ([], [])
  | _ =>
      match fuel with
      | O => Panic "out of fuel"
      | S fuel =>
          let? r := State_load (Store_sub s (to_be_bytes 8 i)) bs b in
          let? rs := vec_load_loop fuel (i + 1) s r.2 b in
          Ok (r.1 :: rs.1, rs.2)
      end
  end.
Definition array_attach (N : nat) (s : Store) : M (list T) unit := seq_attach (fun i => varint i (Z.of_nat N)) 0 s.
Definition array_load (N : nat) (s : Store) (bs : bytes) (b : St) : res (list T * bytes) :=
  array_load_loop (Z.of_nat N) N 0 s bs b.
(** An array, as the list of its [N] elements. *)
Definition array_State (N : nat) : State St (list T) :=
  {| State_attach := array_attach N; State_flush := seq_flush; State_load := array_load N |}.
Definition vec_attach (s : Store) : M (list T) unit := seq_attach (fun i => to_be_bytes 8 i) 0 s.
Definition vec_load (s : Store) (bs : bytes) (b : St) : res (list T * bytes) := vec_load_loop (length bs) 0 s bs b.
#[export] Instance vec_State : State St (list T) :=
  {| State_attach := vec_attach; State_flush := seq_flush; State_load := vec_load |}.
End SeqState.

(** ** The laws *)

(** The stores agree on the keys strictly under the prefix of [s]. *)
Definition agree_under `{ReadSpec St} (s : Store) (b b' : St) : Prop :=
  forall r, r <> [] -> view b !! (Store_prefix s ++ r) = view b' !! (Store_prefix s ++ r).

(** [b'] differs from [b] at most strictly under the prefix of [s]. *)
Definition only_under `{ReadSpec St} (s : Store) (b b' : St) : Prop :=
  forall k, (forall r, r <> [] -> k <> Store_prefix s ++ r) -> view b' !! k = view b !! k.

Definition keeps_writable `{WriteSpec St} (b b' : St) : Prop :=
  forall k, writable b k -> writable b' k.

Class StateSpec (St V : Type) `{WS : WriteSpec St} `{ST : State St V} := {
  model : Type;
  (** the representation invariant *)
  valid : V -> Prop;
  (** the value has its part of the key space *)
  attached : Store -> V -> Prop;
  abs : St -> V -> model -> Prop;
  (** its encoding tells where it ends *)
  State_terminated : Prop;
  (** the keys it will write are within the store's limits *)
  flushable : Store -> St -> V -> Prop;
  attached_valid s v : attached s v -> valid v;
  attach_spec s v : valid v -> exists v', State_attach s v = (Ok tt, v') /\ attached s v';
  reattach_spec s v : attached s v ->
    exists v', State_attach s v = (Ok tt, v') /\ attached s v' /\ forall b x, abs b v x -> abs b v' x;
  abs_frame s b b' v x : attached s v -> agree_under s b b' -> abs b v x -> abs b' v x;
  flushable_mono s b b' v : keeps_writable b b' -> flushable s b v -> flushable s b' v;
  flush_spec s b v x :
    attached s v -> Read_inv b -> flushable s b v -> abs b v x ->
    exists bs b', State_flush v b = (Ok bs, b') /\ Read_inv b' /\ only_under s b b' /\
      keeps_writable b b' /\
      forall b2 rest, Read_inv b2 -> agree_under s b' b2 -> State_terminated \/ rest = [] ->
        exists v', State_load s (bs ++ rest) b2 = Ok (v', rest) /\ attached s v' /\ abs b2 v' x
}.

(** [bs] at a value's key stands for the content [x], and goes on doing so while
    the store strictly under the key does not change. *)
Definition loads `{StateSpec St V} (s : Store) (b : St) (bs : bytes) (x : model) : Prop :=
  forall b2 rest, Read_inv b2 -> agree_under s b b2 -> State_terminated \/ rest = [] ->
    exists v, State_load s (bs ++ rest) b2 = Ok (v, rest) /\ attached s v /\ abs b2 v x.

Section AgreeFacts.
Context `{WS : WriteSpec St}.
Implicit Types (s : Store) (b : St).

Lemma agree_under_refl s b : agree_under s b b.
Proof. by intros r. Qed.
Lemma agree_under_sym s b b' : agree_under s b b' -> agree_under s b' b.
Proof. intros Hb r Hr. symmetry. auto. Qed.
Lemma agree_under_trans s b b1 b2 : agree_under s b b1 -> agree_under s b1 b2 -> agree_under s b b2.
Proof. intros H1 H2 r Hr. rewrite H1; auto. Qed.
Lemma agree_under_sub s p b b' : agree_under s b b' -> agree_under (Store_sub s p) b b'.
Proof.
  intros Hb r Hr. simpl. rewrite <- !app_assoc. apply Hb.
  intros [_ ?]%app_eq_nil. done.
Qed.
Lemma only_under_refl s b : only_under s b b.
Proof. by intros k. Qed.
Lemma only_under_trans s b b1 b2 : only_under s b b1 -> only_under s b1 b2 -> only_under s b b2.
Proof. intros H1 H2 k Hk. rewrite H2; auto. Qed.
Lemma only_under_sub s p b b' : only_under (Store_sub s p) b b' -> only_under s b b'.
Proof.
  intros Hb k Hk. apply Hb. intros r Hr. simpl. rewrite <- app_assoc. apply Hk.
  intros [_ ?]%app_eq_nil. done.
Qed.
(** A change under one prefix is not seen under a prefix that is not related. *)
Lemma only_under_agree s t b b' :
  disjoint_prefixes (Store_prefix s) (Store_prefix t) -> only_under s b b' -> agree_under t b b'.
Proof.
  intros Hd Hb r Hr. symmetry. apply Hb. intros r' _ Heq.
  pose proof (disjoint_prefixes_app _ _ r Hd) as Hsw. by rewrite Heq, starts_with_app in Hsw.
Qed.
Lemma keeps_writable_refl b : keeps_writable b b.
Proof. by intros k. Qed.
Lemma keeps_writable_trans b b1 b2 : keeps_writable b b1 -> keeps_writable b1 b2 -> keeps_writable b b2.
Proof. intros H1 H2 k Hk. auto. Qed.
End AgreeFacts.
#[export] Hint Resolve agree_under_refl agree_under_sym agree_under_sub only_under_refl
  keeps_writable_refl only_under_sub : orga.
#[export] Hint Resolve agree_under_trans only_under_trans keeps_writable_trans : orga.

Lemma loads_agree `{StateSpec St V} (s : Store) (b b' : St) bs x :
  agree_under s b b' -> loads s b bs x -> loads s b' bs x.
Proof. intros Hb Hl b2 rest Hb2 Ha Hr. eauto using agree_under_trans. Qed.

(** ** Instances *)

Lemma starts_with_sub p a b : starts_with (p ++ a) (p ++ b) = starts_with a b.
Proof. induction p as [|x p IH]; simpl; [done|]. by rewrite Z.eqb_refl. Qed.
Lemma disjoint_sub s p q :
  disjoint_prefixes p q ->
  disjoint_prefixes (Store_prefix (Store_sub s p)) (Store_prefix (Store_sub s q)).
Proof. unfold disjoint_prefixes. simpl. by rewrite !starts_with_sub. Qed.

Section Instances.
Context `{WS : WriteSpec St}.

(** Encoded values: the content is the value. Not registered: a type that is an
    encoded leaf says so. *)
Definition leaf_StateSpec V `{CS : CodecSpec V} : StateSpec (ST := leaf_State) St V.
Proof.
  refine {| model := V; valid := fun _ => True; attached := fun _ _ => True; abs := fun _ v x => v = x;
            State_terminated := codec_terminated (K := V); flushable := fun _ _ _ => True |}.
  - done.
  - intros s v. by exists v.
  - intros s v. by exists v.
  - done.
  - done.
  - intros s b v x _ Hb _ <-. simpl. unfold leaf_flush, liftM. rewrite encode_enc.
    exists (enc v), b. split_and!; auto with orga.
    intros b2 rest _ _ Hr. exists v. split_and!; [|done..]. by apply decode_enc.
Defined.

Context {T : Type} {STt : State St T} `{!StateSpec St T}.

#[export] Instance option_StateSpec : StateSpec St (option T).
Proof.
  refine {| model := option (model (V := T));
            valid := fun o => match o with Some t => valid t | None => True end;
            attached := fun s o => match o with Some t => attached s t | None => True end;
            abs := fun b o x => match o, x with
                                | Some t, Some y => abs b t y
                                | None, None => True
                                | _, _ => False
                                end;
            State_terminated := State_terminated (V := T);
            flushable := fun s b o => match o with Some t => flushable s b t | None => True end |}.
  - intros s [t|]; [apply attached_valid|done].
  - intros s [t|]; simpl; [|by exists None]. intros Hv.
    destruct (attach_spec s t Hv) as (t' & -> & Ht). by exists (Some t').
  - intros s [t|]; simpl; [|by exists None]. intros Hv.
    destruct (reattach_spec s t Hv) as (t' & -> & Ht & Hx). exists (Some t'). split_and!; [done..|].
    intros b [x|]; [apply Hx|done].
  - intros s b b' [t|] [x|] Hv Ha; try done. by eapply abs_frame.
  - intros s b b' [t|] Hk; [|done]. by apply flushable_mono.
  - intros s b [t|] [x|] Hv Hb Hf Ha; try done; simpl.
    + unfold bindM. destruct (flush_spec s b t x Hv Hb Hf Ha) as (bs & b' & -> & Hb' & Hu & Hk & Hl).
      exists (1%Z :: bs), b'. split_and!; [done..|]. intros b2 rest Hb2 Hag Hr.
      destruct (Hl b2 rest Hb2 Hag Hr) as (t' & Ht & ? & ?). exists (Some t'). simpl. by rewrite Ht.
    + exists [0%Z], b. split_and!; auto with orga. intros b2 rest _ _ _. by exists None.
Defined.

Context {U : Type} {STu : State St U} `{!StateSpec St U}.

Lemma disjoint_01 s : disjoint_prefixes (Store_prefix (Store_sub s [0%Z])) (Store_prefix (Store_sub s [1%Z])).
Proof. by apply disjoint_sub. Qed.
Lemma disjoint_10 s : disjoint_prefixes (Store_prefix (Store_sub s [1%Z])) (Store_prefix (Store_sub s [0%Z])).
Proof. by apply disjoint_sub. Qed.

(** The first component's encoding must tell where it ends, which the source
    demands of all but the last. *)
Definition pair_StateSpec (Hterm : State_terminated (V := T)) : StateSpec St (T * U).
Proof.
  refine {| model := model (V := T) * model (V := U);
            valid := fun p => valid p.1 /\ valid p.2;
            attached := fun s p => attached (Store_sub s [0%Z]) p.1 /\ attached (Store_sub s [1%Z]) p.2;
            abs := fun b p x => abs b p.1 x.1 /\ abs b p.2 x.2;
            State_terminated := State_terminated (V := U);
            flushable := fun s b p =>
              flushable (Store_sub s [0%Z]) b p.1 /\ flushable (Store_sub s [1%Z]) b p.2 |}.
  - intros s [t u] [??]. split; by eapply attached_valid.
  - intros s [t u] [Hvt Hvu]. simpl. unfold pair_attach, bindM, zoomM. simpl.
    destruct (attach_spec (Store_sub s [0%Z]) t Hvt) as (t' & -> & Ht). simpl.
    destruct (attach_spec (Store_sub s [1%Z]) u Hvu) as (u' & -> & Hu). by exists (t', u').
  - intros s [t u] [Hvt Hvu]. simpl in *. unfold pair_attach, bindM, zoomM. simpl.
    destruct (reattach_spec _ t Hvt) as (t' & -> & Ht & Hxt). simpl.
    destruct (reattach_spec _ u Hvu) as (u' & -> & Hu & Hxu). exists (t', u').
    split_and!; [done..|]. intros b [x y] [??]. simpl in *. split; auto.
  - intros s b b' [t u] [x y] [Ht Hu] Hag [Hx Hy]. simpl in *.
    split; [apply (abs_frame (Store_sub s [0%Z]) b)|apply (abs_frame (Store_sub s [1%Z]) b)];
      auto with orga.
  - intros s b b' [t u] Hk [H1 H2']. split; by eapply flushable_mono.
  - intros s b [t u] [x y] [Ht Hu] Hb [Hft Hfu] [Hx Hy]. simpl in *. unfold pair_flush, bindM. simpl.
    destruct (flush_spec _ b t x Ht Hb Hft Hx) as (bs0 & b0 & -> & Hb0 & Hu0 & Hk0 & Hl0).
    destruct (flush_spec (Store_sub s [1%Z]) b0 u y) as (bs1 & b1 & -> & Hb1 & Hu1 & Hk1 & Hl1);
      [done..|by eapply flushable_mono|eapply abs_frame, Hy; eauto using only_under_agree, disjoint_01|].
    exists (bs0 ++ bs1), b1. split_and!; [done..| | |]; [eauto with orga..|].
    intros b2 rest Hb2 Hag Hr. unfold pair_load. rewrite <- app_assoc.
    destruct (Hl0 b2 (bs1 ++ rest) Hb2) as (t' & -> & Ht' & Hxt); [|by left|].
    { eapply agree_under_trans; [eapply only_under_agree; [apply disjoint_10|exact Hu1]|]. auto with orga. }
    simpl. destruct (Hl1 b2 rest Hb2) as (u' & -> & Hu' & Hyu); [by auto with orga|done|].
    by exists (t', u').
Defined.
End Instances.
