(* ===== verification/Next.v ===== *)
(** * The [Next] trait (src/collections/mod.rs) and its derive macro

    [next] is the successor of a key in its domain. A type is given with the
    position of each of its values, and the instances are shown to move by exactly
    one position: integers, [bool], tuples, arrays and derived structs of such types
    are then enumerated from their default value. *)

From stdpp Require Import base tactics numbers list.
From Stdlib Require Import ZArith Lia.
From S2P Require Import Prelude Bytes Codec.

Class Next (T : Type) := { next : T -> option T }.
(** [Default::default()] of the types [Next] is implemented for. *)
Class Default (T : Type) := default : T.

Lemma uint_zero_range n : uint_range n 0 = true.
Proof. apply uint_range_spec. split; [lia|]. apply Z.pow_pos_nonneg; lia. Qed.
#[export] Instance bool_Default : Default bool := false.
#[export] Instance uint_Default n : Default (uint n) := mkUint 0 (uint_zero_range n).
#[export] Instance pair_Default `{Default A, Default B} : Default (A * B) := (default, default).

Definition bool_next (self : bool) : option bool :=
  match self with false => Some true | true => None end.
#[export] Instance bool_Next : Next bool := {| next := bool_next |}.

(** [impl_next!]: [self.checked_add(1)]. *)
Definition uint_next {n} (self : uint n) : option (uint n) :=
  if uint_range n (uint_val self + 1) then Some (to_uint n (uint_val self + 1)) else None.
#[export] Instance uint_Next n : Next (uint n) := {| next := uint_next |}.

(** The signed integers of [n] bytes, by value. *)
Record sint (n : nat) := mkSint { sint_val : Z }.
Arguments mkSint {n} _.
Arguments sint_val {n} _.
Definition sint_max (n : nat) : Z := (256 ^ Z.of_nat n / 2 - 1)%Z.
Definition sint_min (n : nat) : Z := (- (256 ^ Z.of_nat n / 2))%Z.
Definition sint_next {n} (self : sint n) : option (sint n) :=
  if (sint_val self <? sint_max n)%Z then Some (mkSint (sint_val self + 1)) else None.
#[export] Instance sint_Next n : Next (sint n) := {| next := sint_next |}.
#[export] Instance sint_Default n : Default (sint n) := mkSint 0.

(** [tuple_next!]: the components are tried from the last; each that is at its end
    is reset. *)
Section Tuples.
Context `{Next A} `{Default A} `{Next B} `{Default B} `{Next C} `{Default C}.

Definition pair_next (self : A * B) : option (A * B) :=
  let '(a, b) := self in
  match next b with
  | Some value => Some (a, value)
  | None =>
      let b := default in
      match next a with
      | Some value => Some (value, b)
      | None => None
      end
  end.
Definition triple_next (self : A * B * C) : option (A * B * C) :=
  let '(a, b, c) := self in
  match next c with
  | Some value => Some (a, b, value)
  | None =>
      let c := default in
      match next b with
      | Some value => Some (a, value, c)
      | None =>
          let b := default in
          match next a with
          | Some value => Some (value, b, c)
          | None => None
          end
      end
  end.
End Tuples.
#[export] Instance pair_Next `{Next A, Default A, Next B, Default B} : Next (A * B) := {| next := pair_next |}.

(** Arrays: the loop over the indices from the last, writing into [return_key]. *)
Fixpoint array_next_loop `{Next T} `{Default T} (self : list T) (i : nat) (return_key : list T) : option (list T) :=
  match i with
  | O => None
  | S i' =>
      match self !! i' with
      | None => None
      | Some value =>
          match next value with
          | Some new_value => Some (<[i' := new_value]> return_key)
          | None => array_next_loop self i' (<[i' := default]> return_key)
          end
      end
  end.
Definition array_next `{Next T} `{Default T} (self : list T) : option (list T) :=
  array_next_loop self (length self) self.

(** [derive(Next)] for a struct of named fields: the same over the fields, each with
    its own type; a field is its [next] at that type and its default. *)
Section Derived.
Context {D : Type}.
Record FieldType := mkFieldType { ft_next : D -> option D; ft_default : D }.

Fixpoint match_blocks (fields : list (FieldType * nat)) (self return_struct : list D) : option (list D) :=
  match fields with
  | [] => None
  | (ty, name) :: fields' =>
      match self !! name with
      | None => None
      | Some value =>
          match ft_next ty value with
          | Some new_value => Some (<[name := new_value]> return_struct)
          | None => match_blocks fields' self (<[name := ft_default ty]> return_struct)
          end
      end
  end.
(** The fields are [(type, position)] in declaration order. *)
Definition derived_next (types : list FieldType) (self : list D) : option (list D) :=
  match_blocks (rev (zip types (seq 0 (length types)))) self self.
End Derived.

(** ** The position of a value in its domain *)

Class NextSpec (T : Type) `{Next T} `{Default T} := {
  rank : T -> Z;
  card : Z;
  rank_range x : (0 <= rank x < card)%Z;
  rank_inj x y : rank x = rank y -> x = y;
  rank_default : rank default = 0%Z;
  next_rank x : match next x with Some y => rank y = rank x + 1 | None => rank x = card - 1 end%Z
}.
Arguments card _ {_ _ _}.

#[export] Instance bool_NextSpec : NextSpec bool.
Proof.
  refine {| rank := fun x : bool => if x then 1%Z else 0%Z; card := 2 |}.
  - by intros []; lia.
  - by intros [] []; intros ?.
  - done.
  - by intros [].
Defined.

#[export] Instance uint_NextSpec n : NextSpec (uint n).
Proof.
  refine {| rank := uint_val; card := 256 ^ Z.of_nat n |}.
  - intros x. apply uint_range_spec, uint_ok.
  - apply uint_eq.
  - done.
  - intros x. simpl. unfold uint_next. destruct (uint_range n (uint_val x + 1)) eqn:E.
    + simpl. unfold uint_wrap. apply uint_range_spec in E. by rewrite Z.mod_small.
    + pose proof (uint_ok _ x) as Hx. rewrite uint_range_spec in Hx.
      assert (~ (0 <= uint_val x + 1 < 256 ^ Z.of_nat n)%Z) by (rewrite <- uint_range_spec, E; done). lia.
Defined.

Lemma digits_unique (c q r q' r' : Z) :
  (0 <= r < c -> 0 <= r' < c -> q * c + r = q' * c + r' -> q = q' /\ r = r')%Z.
Proof. intros R1 R2 He. destruct (Z.lt_trichotomy q q') as [|[->|]]; [nia|lia|nia]. Qed.

#[export] Instance pair_NextSpec `{NextSpec A} `{NextSpec B} : NextSpec (A * B).
Proof.
  refine {| rank := fun x : A * B => rank x.1 * card B + rank x.2; card := card A * card B |}%Z.
  - intros [a b]. simpl. pose proof (rank_range a). pose proof (rank_range b). nia.
  - intros [a b] [a' b']. simpl. intros He.
    apply digits_unique in He as [?%rank_inj ?%rank_inj]; [by subst|apply rank_range..].
  - change (rank (default (T := A)) * card B + rank (default (T := B)) = 0)%Z. by rewrite !rank_default.
  - intros [a b]. simpl. unfold pair_next. pose proof (next_rank b) as Hb. destruct (next b); simpl; [lia|].
    pose proof (next_rank a) as Ha. destruct (next a); simpl; [|nia]. rewrite rank_default. nia.
Defined.

(** The twelve tuple instances are nested pairs: the triple is. *)
Lemma triple_next_pairs `{Next A, Default A, Next B, Default B, Next C, Default C} (x : A * B * C) :
  triple_next x = next x.
Proof. destruct x as [[a b] c]. simpl. unfold pair_next, triple_next. destruct (next c); [done|]. simpl. unfold pair_next. destruct (next b); [done|]. by destruct (next a). Qed.

(** *** Arrays *)

Section Arrays.
Context `{NextSpec T}.
Implicit Types (l r : list T).

(** The number written by a list of digits. *)
Fixpoint list_rank l : Z :=
  match l with [] => 0%Z | x :: l' => (rank x * card T ^ Z.of_nat (length l') + list_rank l')%Z end.

Lemma card_pos : (0 < card T)%Z.
Proof. pose proof (rank_range default). lia. Qed.

Lemma list_rank_range l : (0 <= list_rank l < card T ^ Z.of_nat (length l))%Z.
Proof.
  induction l as [|x l IH]; [simpl; lia|]. cbn [list_rank length]. pose proof (rank_range x).
  rewrite Nat2Z.inj_succ, Z.pow_succ_r by lia. nia.
Qed.
Lemma list_rank_app l r : list_rank (l ++ r) = (list_rank l * card T ^ Z.of_nat (length r) + list_rank r)%Z.
Proof.
  induction l as [|x l IH]; [done|]. simpl. rewrite IH, length_app, Nat2Z.inj_add, Z.pow_add_r by lia. ring.
Qed.
Lemma list_rank_inj l r : length l = length r -> list_rank l = list_rank r -> l = r.
Proof.
  revert r. induction l as [|x l IH]; intros [|y r]; try done. intros [= Hl] He. cbn [list_rank] in He.
  rewrite Hl in He. apply digits_unique in He as [?%rank_inj ?%IH]; [by subst|done| |apply list_rank_range].
  rewrite <- Hl. apply list_rank_range.
Qed.

Lemma list_rank_defaults n : list_rank (replicate n default) = 0%Z.
Proof. induction n as [|n IH]; [done|]. simpl. by rewrite rank_default, IH. Qed.

(** The loop, when everything after the first [i] elements is at its end and has
    been reset. *)
Lemma array_next_loop_rank (l r : list T) :
  list_rank r = (card T ^ Z.of_nat (length r) - 1)%Z ->
  match array_next_loop (l ++ r) (length l) (l ++ replicate (length r) default) with
  | Some y => length y = length (l ++ r) /\ list_rank y = (list_rank (l ++ r) + 1)%Z
  | None => list_rank (l ++ r) = (card T ^ Z.of_nat (length (l ++ r)) - 1)%Z
  end.
Proof.
  revert r. induction l as [|x l IH] using rev_ind; intros r Hr; [done|].
  rewrite length_app, Nat.add_1_r, <- !app_assoc. cbn [array_next_loop app].
  rewrite list_lookup_middle by done. pose proof (next_rank x) as Hx. destruct (next x) as [y|].
  - rewrite insert_app_r_alt by lia. rewrite Nat.sub_diag. simpl. rewrite !length_app, !length_cons, !length_replicate.
    split; [done|]. rewrite !list_rank_app. simpl. rewrite list_rank_defaults, !length_replicate, Hx, Hr. ring.
  - rewrite insert_app_r_alt by lia. rewrite Nat.sub_diag. simpl.
    apply (IH (x :: r)). simpl. rewrite Hx, Hr. rewrite Nat2Z.inj_succ, Z.pow_succ_r by lia. ring.
Qed.

Lemma array_next_rank l :
  match array_next l with
  | Some y => length y = length l /\ list_rank y = (list_rank l + 1)%Z
  | None => list_rank l = (card T ^ Z.of_nat (length l) - 1)%Z
  end.
Proof. pose proof (array_next_loop_rank l [] eq_refl) as Hl. by rewrite !app_nil_r in Hl. Qed.
End Arrays.

(** *** Derived structs *)

(** The struct's fields all have one type: the generated code is the loop of the
    array. *)
Lemma derived_next_array `{Next T} `{Default T} (l : list T) :
  derived_next (replicate (length l) (mkFieldType next default)) l = array_next l.
Proof.
  unfold derived_next, array_next. rewrite length_replicate.
  assert (Hg : forall n r, n <= length l -> match_blocks (rev (zip (replicate n (mkFieldType (D := T) next default)) (seq 0 n))) l r
      = array_next_loop l n r).
  { induction n as [|n IH]; intros r Hn; [done|].
    rewrite seq_S, replicate_S_end, zip_with_app, rev_app_distr by by rewrite length_replicate, length_seq.
    simpl. destruct (l !! n) as [x|]; [|done]. destruct (next x); [done|]. apply IH. lia. }
  by apply Hg.
Qed.

(** ** Enumeration *)

(** [n] applications of [next]. *)
Fixpoint next_n {T} (f : T -> option T) (n : nat) (x : T) : option T :=
  match n with O => Some x | S n' => match next_n f n' x with Some y => f y | None => None end end.

(** A step function that moves by one position reaches every position once. *)
Lemma next_n_reaches {T} (f : T -> option T) (rk : T -> Z) (c : Z) (ok : T -> Prop) (x0 : T) :
  ok x0 -> rk x0 = 0%Z -> (forall x, ok x -> 0 <= rk x < c)%Z ->
  (forall x, ok x -> match f x with Some y => ok y /\ rk y = rk x + 1 | None => rk x = c - 1 end%Z) ->
  forall n, (Z.of_nat n < c)%Z -> exists y, next_n f n x0 = Some y /\ ok y /\ rk y = Z.of_nat n.
Proof.
  intros H0 Hr0 Hrg Hf. induction n as [|n IH]; intros Hn; [by exists x0|].
  destruct IH as (y & Hy & Hok & Hrk); [lia|]. simpl. rewrite Hy. specialize (Hf y Hok).
  destruct (f y) as [z|]; [|lia]. exists z. destruct Hf. split; [done|]. split; [done|]. lia.
Qed.
Lemma next_n_ends {T} (f : T -> option T) (rk : T -> Z) (c : Z) (ok : T -> Prop) (x0 : T) :
  ok x0 -> rk x0 = 0%Z -> (forall x, ok x -> 0 <= rk x < c)%Z ->
  (forall x, ok x -> match f x with Some y => ok y /\ rk y = rk x + 1 | None => rk x = c - 1 end%Z) ->
  next_n f (Z.to_nat c) x0 = None.
Proof.
  intros H0 Hr0 Hrg Hf. pose proof (Hrg _ H0) as Hc. replace (Z.to_nat c) with (S (Z.to_nat (c - 1))) by lia.
  destruct (next_n_reaches f rk c ok x0 H0 Hr0 Hrg Hf (Z.to_nat (c - 1))) as (y & Hy & Hok & Hrk); [lia|].
  simpl. rewrite Hy. specialize (Hf y Hok). destruct (f y) as [z|]; [|done]. pose proof (Hrg z). destruct Hf as [Hz ?].
  apply Hrg in Hz. lia.
Qed.

(** starting at the default value and applying [next], a pair and an array of
    [k] elements run through every value of their type exactly once: the value at
    position [p] of the lexicographic order is reached after exactly [p] steps, and
    after as many steps as the type has values [next] answers [None]. This is for
    component types that are themselves enumerated from their default, such as the
    unsigned integers, [bool] and tuples of these. *)
Theorem Next_enumerates `{NextSpec A} `{NextSpec B} (k : nat) :
  (forall (x : A * B) n, (Z.of_nat n < card A * card B)%Z ->
     next_n pair_next n default = Some x <-> (rank x.1 * card B + rank x.2 = Z.of_nat n)%Z) /\
  next_n (pair_next (A := A) (B := B)) (Z.to_nat (card A * card B)) default = None /\
  (forall (l : list A) n, length l = k -> (Z.of_nat n < card A ^ Z.of_nat k)%Z ->
     next_n array_next n (replicate k default) = Some l <-> list_rank l = Z.of_nat n) /\
  next_n (array_next (T := A)) (Z.to_nat (card A ^ Z.of_nat k)) (replicate k default) = None.
Proof.
  assert (Hp : forall x : A * B, True -> match pair_next x with Some y => True /\ rank y = rank x + 1 | None => rank x = card (A * B) - 1 end%Z).
  { intros x _. pose proof (next_rank x) as Hx. change (next x) with (pair_next x) in Hx. by destruct (pair_next x). }
  assert (Ha : forall l : list A, length l = k -> match array_next l with
     | Some y => length y = k /\ list_rank y = list_rank l + 1 | None => list_rank l = card A ^ Z.of_nat k - 1 end%Z).
  { intros l <-. apply array_next_rank. }
  assert (Hrg : forall l : list A, length l = k -> (0 <= list_rank l < card A ^ Z.of_nat k)%Z).
  { intros l <-. apply list_rank_range. }
  split_and!.
  - intros x n Hn. destruct (next_n_reaches pair_next rank (card (A * B)) (fun _ => True) default I rank_default
      (fun x _ => rank_range x) Hp n Hn) as (y & Hy & _ & Hrk). rewrite Hy. split.
    + intros [= ->]. exact Hrk.
    + intros He. f_equal. apply rank_inj. rewrite Hrk. by symmetry.
  - apply (next_n_ends pair_next rank (card (A * B)) (fun _ => True) default I rank_default (fun x _ => rank_range x) Hp).
  - intros l n Hl Hn. destruct (next_n_reaches array_next list_rank (card A ^ Z.of_nat k) (fun l => length l = k) (replicate k default)
      (length_replicate _ _) (list_rank_defaults k) Hrg Ha n Hn) as (y & Hy & Hyl & Hrk).
    rewrite Hy. split; [by intros [= ->]|]. intros He. f_equal. apply list_rank_inj; congruence.
  - apply (next_n_ends array_next list_rank (card A ^ Z.of_nat k) (fun l => length l = k) (replicate k default)
      (length_replicate _ _) (list_rank_defaults k) Hrg Ha).
Qed.

(** a pair whose last component is a signed integer is not enumerated: past the
    largest value the component is reset to its default 0, not to its smallest
    value, so starting at the default no pair with a negative component is ever
    reached, however many steps are taken, although those pairs are values of the
    type and [next] steps on from them. *)
Theorem signed_pair_next_skips {n} `{Next A} `{Default A} :
  (forall (a a' : A), next a = Some a' -> pair_next (a, mkSint (n := n) (sint_max n)) = Some (a', mkSint 0)) /\
  (forall m (x : A * sint n), next_n pair_next m default = Some x -> (0 <= sint_val x.2)%Z) /\
  (forall (a : A) z, (sint_min n <= z < 0)%Z -> pair_next (a, mkSint (n := n) z) = Some (a, mkSint (z + 1))).
Proof.
  split_and!.
  - intros a a' Ha. unfold pair_next. simpl. unfold sint_next. simpl. rewrite Z.ltb_irrefl. by rewrite Ha.
  - induction m as [|m IH]; intros x; simpl; [by intros [= <-]|]. destruct (next_n pair_next m default) as [[a [z]]|]; [|done].
    specialize (IH _ eq_refl). simpl in IH. unfold pair_next. simpl. unfold sint_next. simpl.
    destruct (z <? sint_max n)%Z; [intros [= <-]; simpl; lia|]. by destruct (next a); intros [= <-].
  - intros a z Hz. unfold pair_next. simpl. unfold sint_next. simpl.
    replace (z <? sint_max n)%Z with true; [done|]. symmetry. apply Z.ltb_lt. unfold sint_max, sint_min in *. lia.
Qed.

(** *** Witnesses *)

Example array_next_test : map uint_val <$> array_next (map (to_uint 1) [2; 3; 255]%Z) = Some [2; 4; 0]%Z.
Proof. by vm_compute. Qed.

Lemma Next_enumerates_witness :
  next_n pair_next 300 (default : uint 1 * uint 1) = Some (to_uint 1 1, to_uint 1 44) /\
  next_n array_next 300 (replicate 3 (default : uint 1)) = Some (map (to_uint 1) [0; 1; 44]%Z).
Proof.
  pose proof (Next_enumerates (A := uint 1) (B := uint 1) 3) as (Hthm & _ & Harr & _).
  split; [apply Hthm; by vm_compute|apply Harr; by vm_compute].
Defined.

Lemma signed_pair_next_skips_witness :
  pair_next (false, mkSint (n := 1) 127) = Some (true, mkSint 0) /\ pair_next (true, mkSint (n := 1) (-128)) = Some (true, mkSint (-127)).
Proof.
  destruct (signed_pair_next_skips (n := 1) (A := bool)) as (Hmax & _ & Hneg).
  split; [apply (Hmax false true eq_refl)|apply Hneg; by vm_compute].
Defined.
