(* ===== verification/StructState.v ===== *)
(** * Derived [State] implementations ([src/state/attach.rs], [flush.rs], [load.rs])

    [derive(State)] attaches, flushes and loads a struct field by field through
    the helpers [Attacher], [Flusher] and [Loader]: field [i] lives under the
    prefix byte [i], and the encoding starts with the struct's version byte
    unless compatibility mode is on ([src/compat.rs], a thread-local flag, here a
    parameter). The derived methods are given for structs of no, of two and (at the
    end) of one plain field, as the macro ([macros/src/state.rs]) writes them out: it gives the
    field with no prefix of its own the relative prefix [[i]]. *)

From stdpp Require Import base tactics numbers list strings gmap.
From Stdlib Require Import ZArith Lia.
From S2P Require Import Prelude Bytes BTree StoreIface StoreIter NullStore BufStore PrefixStore Codec StateIface.

Class CompatMode := { compat_mode : bool }.

(** ** The helpers *)

Record Attacher := mkAttacher { Attacher_store : Store; Attacher_field_count : Z }.
Definition Attacher_new (s : Store) : Attacher := mkAttacher s 0.

Record Loader := mkLoader {
  Loader_version : Z;
  Loader_field_count : Z;
  Loader_store : Store;
  Loader_bytes : bytes
}.
Definition Loader_new (s : Store) (bs : bytes) (version : Z) : Loader := mkLoader version 0 s bs.

Section Helpers.
Context `{Profile} `{CompatMode} {St U : Type} {SU : State St U}.

(** [self] is consumed and returned; the child is the state. *)
Definition Attacher_attach_child (a : Attacher) : M U Attacher :=
  run State_attach (Store_sub (Attacher_store a) [Attacher_field_count a]);
  do n <- liftM (u8_op (Attacher_field_count a + 1));
  retM (mkAttacher (Attacher_store a) n).
Definition Attacher_attach_child_with_relative_prefix (a : Attacher) (prefix : bytes) : M U Attacher :=
  run State_attach (Store_sub (Attacher_store a) prefix);
  do n <- liftM (u8_op (Attacher_field_count a + 1));
  retM (mkAttacher (Attacher_store a) n).
Definition Attacher_attach_child_with_absolute_prefix (a : Attacher) (prefix : bytes) : M U Attacher :=
  run State_attach (Store_with_prefix (Attacher_store a) prefix);
  do n <- liftM (u8_op (Attacher_field_count a + 1));
  retM (mkAttacher (Attacher_store a) n).
Definition Attacher_attach_child_as (a : Attacher) : M U Attacher :=
  do n <- liftM (u8_op (Attacher_field_count a + 1));
  retM (mkAttacher (Attacher_store a) n).
Definition Attacher_attach_skipped_child (a : Attacher) : M U Attacher := retM a.
Definition Attacher_attach_transparent_child (a : Attacher) : M U Attacher :=
  run State_attach (Attacher_store a);
  retM a.

(** A [Flusher] is its output so far. *)
Definition Flusher_flush_child (out : bytes) (value : U) : M St bytes :=
  do bs <- State_flush value;
  retM (out ++ bs).
Definition Flusher_flush_child_as {T} `{!State St T} (into : U -> T) (out : bytes) (value : U) : M St bytes :=
  do bs <- State_flush (into value);
  retM (out ++ bs).
Definition Flusher_flush_skipped_child (out : bytes) (value : U) : M St bytes := retM out.
Definition Flusher_flush_transparent_child (out : bytes) (value : U) : M St bytes :=
  Flusher_flush_child out value.
Definition Flusher_version (out : bytes) (version : Z) : M St bytes :=
  if compat_mode then retM out else retM (out ++ [version]).

(** The version byte is read with the first child. *)
Definition Loader_read_version : M Loader unit := fun l =>
  if negb compat_mode && (Loader_field_count l =? 0)%Z then
    match Loader_bytes l with
    | [] => (Err (EState "Unexpected EOF"), l)
    | v :: bs =>
        if (v =? Loader_version l)%Z
        then (Ok tt, mkLoader (Loader_version l) (Loader_field_count l) (Loader_store l) bs)
        else (Err (EState "Expected version"), l)
    end
  else (Ok tt, l).
Definition Loader_load_child (b : St) : M Loader U :=
  run Loader_read_version;
  fun l =>
    let '(r, bs) := match State_load (Store_sub (Loader_store l) [Loader_field_count l]) (Loader_bytes l) b with
                    | Ok (u, rest) => (Ok u, rest)
                    | Err e => (Err e, Loader_bytes l)
                    | Panic w => (Panic w, Loader_bytes l)
                    end in
    match u8_op (Loader_field_count l + 1) with
    | Ok n => (r, mkLoader (Loader_version l) n (Loader_store l) bs)
    | Err e => (Err e, l)
    | Panic w => (Panic w, l)
    end.
Definition Loader_load_skipped_child (default : U) : M Loader U := retM default.
Definition Loader_load_transparent_child_inner (b : St) : M Loader U :=
  run (if compat_mode then retM tt else fun l =>
    match Loader_bytes l with
    | [] => (Panic "range start index 1 out of range for slice of length 0", l)
    | _ :: bs => (Ok tt, mkLoader (Loader_version l) (Loader_field_count l) (Loader_store l) bs)
    end);
  fun l =>
    match State_load (Loader_store l) (Loader_bytes l) b with
    | Ok (u, rest) => (Ok u, mkLoader (Loader_version l) (Loader_field_count l) (Loader_store l) rest)
    | Err e => (Err e, l)
    | Panic w => (Panic w, l)
    end.
Definition Loader_load_transparent_child_other (default : U) : M Loader U := retM default.
End Helpers.

Definition Loader_load_child_as `{Profile} `{CompatMode} {St T U : Type} {SU : State St T} (into : T -> U) (b : St)
  : M Loader U :=
  do value <- Loader_load_child (U := T) b;
  retM (into value).

(** ** What the macro writes for a struct *)

(** Version [ver], no fields. *)
Inductive Struct0 (ver : Z) := mkStruct0.
Arguments mkStruct0 {ver}.
Record Struct2 (ver : Z) (A B : Type) := mkStruct2 { field0 : A; field1 : B }.
Arguments mkStruct2 {ver A B} _ _.
Arguments field0 {ver A B} _.
Arguments field1 {ver A B} _.

Section Derived.
Context `{Profile} `{CompatMode} {St : Type} {ver : Z}.

Definition Struct0_attach (s : Store) : M (Struct0 ver) unit := retM tt.
Definition Struct0_flush (v : Struct0 ver) : M St bytes := Flusher_version [] ver.
Definition Struct0_load (s : Store) (bs : bytes) (b : St) : res (Struct0 ver * bytes) :=
  let loader := Loader_new s bs ver in
  Ok (mkStruct0, Loader_bytes loader).
#[export] Instance Struct0_State : State St (Struct0 ver) :=
  {| State_attach := Struct0_attach; State_flush := Struct0_flush; State_load := Struct0_load |}.

Context {A B : Type} {SA : State St A} {SB : State St B}.
Definition Struct2_attach (s : Store) : M (Struct2 ver A B) unit :=
  do a0 <- zoomM field0 (fun x v => mkStruct2 x (field1 v))
             (Attacher_attach_child_with_relative_prefix (Attacher_new s) [0%Z]);
  do a1 <- zoomM field1 (fun x v => mkStruct2 (field0 v) x)
             (Attacher_attach_child_with_relative_prefix a0 [1%Z]);
  retM tt.
Definition Struct2_flush (v : Struct2 ver A B) : M St bytes :=
  do out <- Flusher_version [] ver;
  do out <- Flusher_flush_child out (field0 v);
  do out <- Flusher_flush_child out (field1 v);
  retM out.
Definition Struct2_load (s : Store) (bs : bytes) (b : St) : res (Struct2 ver A B * bytes) :=
  match (do x <- Loader_load_child b;
         do y <- Loader_load_child b;
         retM (mkStruct2 x y)) (Loader_new s bs ver) with
  | (Ok value, loader) =>
      match Struct2_attach s value with
      | (Ok _, value') => Ok (value', Loader_bytes loader)
      | (Err e, _) => Err e
      | (Panic w, _) => Panic w
      end
  | (Err e, _) => Err e
  | (Panic w, _) => Panic w
  end.
#[export] Instance Struct2_State : State St (Struct2 ver A B) :=
  {| State_attach := Struct2_attach; State_flush := Struct2_flush; State_load := Struct2_load |}.
End Derived.

(** ** The laws *)

Section DerivedSpec.
Context `{Profile} `{CompatMode} `{WS : WriteSpec St} {ver : Z}.
Context {A B : Type} {SA : State St A} `{!StateSpec St A} {SB : State St B} `{!StateSpec St B}.
Implicit Types (s : Store) (b : St).

Definition Struct2_attached s (v : Struct2 ver A B) : Prop :=
  attached (Store_sub s [0%Z]) (field0 v) /\ attached (Store_sub s [1%Z]) (field1 v).
Definition Struct2_abs b (v : Struct2 ver A B) (x : model (V := A) * model (V := B)) : Prop :=
  abs b (field0 v) x.1 /\ abs b (field1 v) x.2.
Definition Struct2_valid (v : Struct2 ver A B) : Prop := valid (field0 v) /\ valid (field1 v).
Definition Struct2_flushable s b (v : Struct2 ver A B) : Prop :=
  flushable (Store_sub s [0%Z]) b (field0 v) /\ flushable (Store_sub s [1%Z]) b (field1 v).

Lemma attach_child_ok {U} {SU : State St U} s n p (u u' : U) :
  (0 <= n < 255)%Z -> State_attach (Store_sub s p) u = (Ok tt, u') ->
  Attacher_attach_child_with_relative_prefix (mkAttacher s n) p u = (Ok (mkAttacher s (n + 1)), u').
Proof.
  intros Hn Hu. unfold Attacher_attach_child_with_relative_prefix, bindM. simpl. rewrite Hu. unfold liftM, u8_op.
  rewrite (proj2 (Z.leb_le 0 (n + 1))), (proj2 (Z.ltb_lt (n + 1) 256)) by lia. done.
Qed.

Lemma Struct2_attach_ok s (x x' : A) (y y' : B) :
  State_attach (Store_sub s [0%Z]) x = (Ok tt, x') -> State_attach (Store_sub s [1%Z]) y = (Ok tt, y') ->
  Struct2_attach s (mkStruct2 (ver := ver) x y) = (Ok tt, mkStruct2 x' y').
Proof.
  intros Hx Hy. unfold Struct2_attach, bindM, zoomM, Attacher_new. cbn [field0 field1].
  rewrite (attach_child_ok s 0 [0%Z] x x') by done. cbn [field0 field1].
  by rewrite (attach_child_ok s (0 + 1) [1%Z] y y').
Qed.

(** Loading one field whose bytes come first in the input. *)
Lemma load_child_ok {U} {SU : State St U} s n b bs rest (u : U) :
  (0 <= n < 255)%Z ->
  State_load (Store_sub s [n]) (bs ++ rest) b = Ok (u, rest) ->
  Loader_load_child b (mkLoader ver n s
    ((if negb compat_mode && (n =? 0)%Z then [ver] else []) ++ bs ++ rest))
    = (Ok u, mkLoader ver (n + 1) s rest).
Proof.
  intros Hn Hu. unfold Loader_load_child, Loader_read_version, bindM. cbn [Loader_field_count].
  assert (Hop : u8_op (n + 1) = Ok (n + 1)%Z).
  { unfold u8_op. rewrite (proj2 (Z.leb_le 0 (n + 1))), (proj2 (Z.ltb_lt (n + 1) 256)) by lia. done. }
  destruct (negb compat_mode && (n =? 0)%Z); simpl; rewrite ?Z.eqb_refl; simpl; by rewrite Hu, Hop.
Qed.

Lemma Struct2_load_ok s b bs0 bs1 rest (x : A) (y : B) x' y' :
  State_load (Store_sub s [0%Z]) (bs0 ++ bs1 ++ rest) b = Ok (x, bs1 ++ rest) ->
  State_load (Store_sub s [1%Z]) (bs1 ++ rest) b = Ok (y, rest) ->
  State_attach (Store_sub s [0%Z]) x = (Ok tt, x') -> State_attach (Store_sub s [1%Z]) y = (Ok tt, y') ->
  Struct2_load s ((if compat_mode then [] else [ver]) ++ bs0 ++ bs1 ++ rest) b
    = Ok (mkStruct2 (ver := ver) x' y', rest).
Proof.
  intros Hx Hy Hax Hay. unfold Struct2_load, bindM, Loader_new.
  pose proof (load_child_ok s 0 b bs0 (bs1 ++ rest) x ltac:(lia) Hx) as H0'.
  rewrite andb_true_r in H0'. replace (if compat_mode then [] else [ver]) with (if negb compat_mode then [ver] else [])
    by by destruct compat_mode.
  rewrite H0'. pose proof (load_child_ok s (0 + 1) b bs1 rest y ltac:(lia) Hy) as H1'.
  rewrite andb_false_r in H1'. simpl app in H1'. rewrite H1'. simpl.
  by rewrite (Struct2_attach_ok s x x' y y').
Qed.

Definition Struct2_StateSpec (Hterm : State_terminated (V := A)) : StateSpec St (Struct2 ver A B).
Proof.
  refine {| model := model (V := A) * model (V := B); valid := Struct2_valid;
            attached := Struct2_attached; abs := Struct2_abs;
            State_terminated := State_terminated (V := B); flushable := Struct2_flushable |}.
  - intros s [x y] [??]. split; by eapply attached_valid.
  - intros s [x y] [Hx Hy].
    destruct (attach_spec (Store_sub s [0%Z]) x Hx) as (x' & Hx' & ?).
    destruct (attach_spec (Store_sub s [1%Z]) y Hy) as (y' & Hy' & ?).
    exists (mkStruct2 x' y'). split; [by apply Struct2_attach_ok|done].
  - intros s [x y] [Hx Hy]. cbn [field0 field1] in *.
    destruct (reattach_spec _ x Hx) as (x' & Hx' & ? & Hax).
    destruct (reattach_spec _ y Hy) as (y' & Hy' & ? & Hay).
    exists (mkStruct2 x' y'). split_and!; [by apply Struct2_attach_ok|done|].
    intros b [z w] [??]. split; simpl in *; auto.
  - intros s b b' [x y] [z w] [Hx Hy] Hag [??]. cbn [field0 field1 fst snd] in *.
    split; [apply (abs_frame (Store_sub s [0%Z]) b)|apply (abs_frame (Store_sub s [1%Z]) b)]; auto with orga.
  - intros s b b' [x y] Hk [??]. split; by eapply flushable_mono.
  - intros s b [x y] [z w] [Hx Hy] Hb [Hfx Hfy] [Hz Hw]. cbn [field0 field1 fst snd] in *.
    destruct (flush_spec _ b x z Hx Hb Hfx Hz) as (bs0 & b0 & Hf0 & Hb0 & Hu0 & Hk0 & Hl0).
    destruct (flush_spec (Store_sub s [1%Z]) b0 y w) as (bs1 & b1 & Hf1 & Hb1 & Hu1 & Hk1 & Hl1);
      [done..|by eapply flushable_mono|eapply abs_frame, Hw; eauto using only_under_agree, disjoint_01|].
    exists ((if compat_mode then [] else [ver]) ++ bs0 ++ bs1), b1. split_and!; [|done|eauto with orga..|].
    + unfold State_flush, Struct2_State, Struct2_flush, bindM, Flusher_version, Flusher_flush_child, bindM.
      destruct compat_mode; simpl; rewrite Hf0; simpl; by rewrite Hf1.
    + intros b2 rest Hb2 Hag Hr. rewrite <- !app_assoc.
      destruct (Hl0 b2 (bs1 ++ rest) Hb2) as (x' & Hlx & Hax & Hzx); [|by left|].
      { eapply agree_under_trans; [eapply only_under_agree; [apply disjoint_10|exact Hu1]|]. auto with orga. }
      destruct (Hl1 b2 rest Hb2) as (y' & Hly & Hay & Hwy); [by auto with orga|done|].
      destruct (reattach_spec _ x' Hax) as (x2 & Hx2 & ? & Hzx2).
      destruct (reattach_spec _ y' Hay) as (y2 & Hy2 & ? & Hwy2).
      exists (mkStruct2 x2 y2). split; [by eapply Struct2_load_ok|]. split; split; simpl; auto.
Defined.
End DerivedSpec.

(** ** Properties *)

(** the derived [load] undoes the derived [flush] of a struct, version byte
    included: it returns a value with the same content, consumes exactly the
    bytes the flush wrote, and the fields' writes stay under the struct's prefix,
    each under its own field byte. *)
Theorem derived_struct_roundtrip `{Profile} `{CompatMode} `{WS : WriteSpec St} {ver : Z}
    {A B : Type} {SA : State St A} `{!StateSpec St A} {SB : State St B} `{!StateSpec St B}
    (s : Store) (b : St) (v : Struct2 ver A B) x y rest :
  State_terminated (V := A) -> State_terminated (V := B) \/ rest = [] ->
  Struct2_attached s v -> Read_inv b -> Struct2_flushable s b v -> Struct2_abs b v (x, y) ->
  exists bs b' (v' : Struct2 ver A B), Struct2_flush v b = (Ok bs, b') /\ Read_inv b' /\ only_under s b b' /\
    Struct2_load s (bs ++ rest) b' = Ok (v', rest) /\ Struct2_attached s v' /\ Struct2_abs b' v' (x, y).
Proof.
  intros Ht Hr Hv Hb Hf Hx.
  destruct (flush_spec (StateSpec := Struct2_StateSpec Ht) s b v (x, y) Hv Hb Hf Hx)
    as (bs & b' & Hfl & Hb' & Hu & _ & Hl).
  destruct (Hl b' rest Hb' (agree_under_refl _ _) Hr) as (v' & Hl' & Hv' & Hx').
  exists bs, b', v'. by split_and!.
Qed.

(** the derived [load] of a struct without fields never reads the version byte
    its [flush] wrote: whatever follows the byte is left behind it. *)
Theorem derived_unit_struct_leaves_version `{Profile} `{CompatMode} {St} {ver : Z} (s : Store) (b : St)
    (v : Struct0 ver) rest :
  compat_mode = false ->
  exists bs, Struct0_flush v b = (Ok bs, b) /\ Struct0_load s (bs ++ rest) b = Ok (v, ver :: rest).
Proof.
  intros Hc. exists [ver]. unfold Struct0_flush, Flusher_version. rewrite Hc. by destruct v.
Qed.

(** a version byte other than the struct's is refused before any field is
    read. *)
Theorem derived_struct_wrong_version `{Profile} `{CompatMode} {St A B} {ver : Z} {SA : State St A} {SB : State St B}
    (s : Store) (b : St) (w : Z) bs :
  compat_mode = false -> w <> ver ->
  Struct2_load (A := A) (B := B) (ver := ver) s (w :: bs) b = Err (EState "Expected version").
Proof.
  intros Hc Hw. unfold Struct2_load, Loader_load_child, Loader_read_version, bindM.
  rewrite Hc. simpl. destruct (Z.eqb_spec w ver); done.
Qed.

(** Witnesses are in [DequeProps], with the [Meta] of [Deque]. *)

(** ** One field, [PhantomData] and the unit type

    [PhantomData<T>] ([src/state/mod.rs]) writes and reads nothing, [()] is a leaf with an
    empty encoding. *)

Inductive PhantomData := mkPhantomData.

Definition PhantomData_attach (_ : Store) : M PhantomData unit := retM tt.
Definition PhantomData_flush {St} (_ : PhantomData) : M St bytes := retM [].
Definition PhantomData_load {St} (_ : Store) (bs : bytes) (_ : St) : res (PhantomData * bytes) :=
  Ok (mkPhantomData, bs).
#[export] Instance PhantomData_State {St} : State St PhantomData :=
  {| State_attach := PhantomData_attach; State_flush := PhantomData_flush; State_load := PhantomData_load |}.

#[export] Instance PhantomData_StateSpec `{WS : WriteSpec St} : StateSpec St PhantomData.
Proof.
  refine {| model := unit; valid := fun _ => True; attached := fun _ _ => True; abs := fun _ _ _ => True;
            State_terminated := True; flushable := fun _ _ _ => True |}; try done.
  - intros s v _. by exists v.
  - intros s v _. by exists v.
  - intros s b v x _ Hb _ _. exists [], b. split_and!; auto with orga.
    intros b2 rest _ _ _. by exists mkPhantomData.
Defined.

#[export] Instance unit_Encode : Encode unit := {| Encode_encode := fun _ => Ok [] |}.
#[export] Instance unit_Decode : Decode unit := {| Decode_decode := fun bs => Ok (tt, bs) |}.
#[export] Instance unit_CodecSpec : CodecSpec unit.
Proof. refine {| enc := fun _ => []; codec_terminated := True |}; [done|]. by intros [] r _. Defined.
#[export] Instance unit_State {St} : State St unit := leaf_State.
#[export] Instance unit_StateSpec `{WS : WriteSpec St} : StateSpec St unit := leaf_StateSpec unit.

(** Version [ver], one field. *)
Record Struct1 (ver : Z) (A : Type) := mkStruct1 { only_field : A }.
Arguments mkStruct1 {ver A} _.
Arguments only_field {ver A} _.

Section Derived.
Context `{Profile} `{CompatMode} {St : Type} {ver : Z} {A : Type} {SA : State St A}.

Definition Struct1_attach (s : Store) : M (Struct1 ver A) unit :=
  do a0 <- zoomM only_field (fun x _ => mkStruct1 x)
             (Attacher_attach_child_with_relative_prefix (Attacher_new s) [0%Z]);
  retM tt.
Definition Struct1_flush (v : Struct1 ver A) : M St bytes :=
  do out <- Flusher_version [] ver;
  do out <- Flusher_flush_child out (only_field v);
  retM out.
Definition Struct1_load (s : Store) (bs : bytes) (b : St) : res (Struct1 ver A * bytes) :=
  match (do x <- Loader_load_child b; retM (mkStruct1 x)) (Loader_new s bs ver) with
  | (Ok value, loader) =>
      match Struct1_attach s value with
      | (Ok _, value') => Ok (value', Loader_bytes loader)
      | (Err e, _) => Err e
      | (Panic w, _) => Panic w
      end
  | (Err e, _) => Err e
  | (Panic w, _) => Panic w
  end.
#[export] Instance Struct1_State : State St (Struct1 ver A) :=
  {| State_attach := Struct1_attach; State_flush := Struct1_flush; State_load := Struct1_load |}.
End Derived.

Section DerivedSpec.
Context `{Profile} `{CompatMode} `{WS : WriteSpec St} {ver : Z}.
Context {A : Type} {SA : State St A} `{!StateSpec St A}.
Implicit Types (s : Store) (b : St).

Lemma Struct1_attach_ok s (x x' : A) :
  State_attach (Store_sub s [0%Z]) x = (Ok tt, x') ->
  Struct1_attach s (mkStruct1 (ver := ver) x) = (Ok tt, mkStruct1 x').
Proof.
  intros Hx. unfold Struct1_attach, bindM, zoomM, Attacher_new. cbn [only_field].
  by rewrite (attach_child_ok s 0 [0%Z] x x').
Qed.

Lemma Struct1_load_ok s b bs rest (x : A) x' :
  State_load (Store_sub s [0%Z]) (bs ++ rest) b = Ok (x, rest) ->
  State_attach (Store_sub s [0%Z]) x = (Ok tt, x') ->
  Struct1_load s ((if compat_mode then [] else [ver]) ++ bs ++ rest) b = Ok (mkStruct1 (ver := ver) x', rest).
Proof.
  intros Hx Hax. unfold Struct1_load, bindM, Loader_new.
  pose proof (load_child_ok (ver := ver) s 0 b bs rest x ltac:(lia) Hx) as H0'.
  rewrite andb_true_r in H0'. replace (if compat_mode then [] else [ver]) with (if negb compat_mode then [ver] else [])
    by by destruct compat_mode.
  rewrite H0'. simpl. by rewrite (Struct1_attach_ok s x x').
Qed.

#[export] Instance Struct1_StateSpec : StateSpec St (Struct1 ver A).
Proof.
  refine {| model := model (V := A); valid := fun v => valid (only_field v);
            attached := fun s v => attached (Store_sub s [0%Z]) (only_field v);
            abs := fun b v x => abs b (only_field v) x;
            State_terminated := State_terminated (V := A);
            flushable := fun s b v => flushable (Store_sub s [0%Z]) b (only_field v) |}.
  - intros s [x]. apply attached_valid.
  - intros s [x] Hx. destruct (attach_spec (Store_sub s [0%Z]) x Hx) as (x' & Hx' & ?).
    exists (mkStruct1 x'). split; [by apply Struct1_attach_ok|done].
  - intros s [x] Hx. cbn [only_field] in *. destruct (reattach_spec _ x Hx) as (x' & Hx' & ? & Hax).
    exists (mkStruct1 x'). split_and!; [by apply Struct1_attach_ok|done|]. intros b z. apply Hax.
  - intros s b b' [x] z Hx Hag. cbn [only_field] in *. apply (abs_frame (Store_sub s [0%Z]) b); auto with orga.
  - intros s b b' [x]. apply flushable_mono.
  - intros s b [x] z Hx Hb Hfx Hz. cbn [only_field] in *.
    destruct (flush_spec _ b x z Hx Hb Hfx Hz) as (bs0 & b0 & Hf0 & Hb0 & Hu0 & Hk0 & Hl0).
    exists ((if compat_mode then [] else [ver]) ++ bs0), b0. split_and!; [|done|eauto with orga..|].
    + unfold State_flush, Struct1_State, Struct1_flush, bindM, Flusher_version, Flusher_flush_child, bindM.
      destruct compat_mode; simpl; by rewrite Hf0.
    + intros b2 rest Hb2 Hag Hr. rewrite <- !app_assoc.
      destruct (Hl0 b2 rest Hb2) as (x' & Hlx & Hax & Hzx); [by auto with orga|done|].
      destruct (reattach_spec _ x' Hax) as (x2 & Hx2 & ? & Hzx2).
      exists (mkStruct1 x2). split; [by eapply Struct1_load_ok|]. split; simpl; auto.
Defined.
End DerivedSpec.
