(* ===== verification/Utf8.v ===== *)
(** * Rust strings

    A [char] is a Unicode scalar value, a [String] the list of its chars; its
    bytes are their UTF-8 encoding. [from_utf8] is the inverse, defined exactly on
    the well-formed byte sequences of the Unicode standard (table 3-7). *)

From stdpp Require Import base tactics numbers list strings.
From Stdlib Require Import ZArith Lia.
From S2P Require Import Prelude Bytes.

Abbreviation RString := (list Z).

Definition in_range (lo hi b : Z) : bool := ((lo <=? b) && (b <=? hi))%Z.
Definition is_char (c : Z) : bool := in_range 0 55295 c || in_range 57344 1114111 c.
Definition is_string (s : RString) : Prop := Forall (fun c => is_char c = true) s.
Definition is_ascii (s : RString) : Prop := Forall (fun c => 0 <= c < 128)%Z s.

(** [char::encode_utf8] *)
Definition utf8_char (c : Z) : bytes :=
  (if c <? 128 then [c]
   else if c <? 2048 then [192 + c / 64; 128 + c mod 64]
   else if c <? 65536 then [224 + c / 4096; 128 + (c / 64) mod 64; 128 + c mod 64]
   else [240 + c / 262144; 128 + (c / 4096) mod 64; 128 + (c / 64) mod 64; 128 + c mod 64])%Z.

(** [String::as_bytes] and [String::len] *)
Definition as_bytes (s : RString) : bytes := s ≫= utf8_char.
Definition str_len (s : RString) : nat := length (as_bytes s).

Definition cont (b : Z) : bool := in_range 128 191 b.

(** [String::from_utf8] *)
Fixpoint from_utf8 (bs : bytes) : option RString :=
  match bs with
  | [] => Some []
  | b :: r =>
      if in_range 0 127 b then cons b <$> from_utf8 r
      else
        match r with
        | c :: r1 =>
            if in_range 194 223 b && cont c
            then cons ((b - 192) * 64 + (c - 128))%Z <$> from_utf8 r1
            else
              match r1 with
              | d :: r2 =>
                  if in_range 224 239 b && cont d
                     && (if b =? 224 then in_range 160 191 c
                         else if b =? 237 then in_range 128 159 c else cont c)%Z
                  then cons ((b - 224) * 4096 + (c - 128) * 64 + (d - 128))%Z <$> from_utf8 r2
                  else
                    match r2 with
                    | e :: r3 =>
                        if in_range 240 244 b && cont d && cont e
                           && (if b =? 240 then in_range 144 191 c
                               else if b =? 244 then in_range 128 143 c else cont c)%Z
                        then cons ((b - 240) * 262144 + (c - 128) * 4096 + (d - 128) * 64 + (e - 128))%Z
                               <$> from_utf8 r3
                        else None
                    | [] => None
                    end
              | [] => None
              end
        | [] => None
        end
  end.

Lemma in_range_spec lo hi b : reflect (lo <= b <= hi)%Z (in_range lo hi b).
Proof. apply iff_reflect. unfold in_range. lia. Qed.

(** Decides the range tests of a goal or hypothesis. *)
Ltac ranges :=
  repeat match goal with
  | |- context [in_range ?lo ?hi ?b] => destruct (in_range_spec lo hi b); simpl; try lia
  | |- context [(?a =? ?b)%Z] => destruct (Z.eqb_spec a b); simpl; try lia
  end.

Lemma utf8_char_is_bytes c : is_char c = true -> is_bytes (utf8_char c).
Proof.
  unfold is_char. intros Hc. apply orb_true_iff in Hc.
  assert (0 <= c <= 1114111)%Z as Hr.
  { destruct Hc as [Hc|Hc]; unfold in_range in Hc; lia. }
  pose proof (Z.mod_pos_bound c 64 ltac:(lia)). pose proof (Z.mod_pos_bound (c / 64) 64 ltac:(lia)).
  pose proof (Z.mod_pos_bound (c / 4096) 64 ltac:(lia)).
  unfold utf8_char. destruct (Z.ltb_spec c 128), (Z.ltb_spec c 2048), (Z.ltb_spec c 65536); try lia.
  all: repeat constructor; try lia.
  all: try (apply Z.add_nonneg_nonneg; [lia|apply Z.div_pos; lia]).
  - pose proof (Z.div_lt_upper_bound c 64 32 ltac:(lia) ltac:(lia)). lia.
  - pose proof (Z.div_lt_upper_bound c 4096 16 ltac:(lia) ltac:(lia)). lia.
  - pose proof (Z.div_lt_upper_bound c 262144 5 ltac:(lia) ltac:(lia)). lia.
Qed.

(** Decoding reads one char back and goes on with the rest. *)
Lemma from_utf8_char c r : is_char c = true -> from_utf8 (utf8_char c ++ r) = cons c <$> from_utf8 r.
Proof.
  unfold is_char. intros Hc. apply orb_true_iff in Hc.
  pose proof (Z.div_mod c 64 ltac:(lia)) as E1. pose proof (Z.div_mod (c / 64) 64 ltac:(lia)) as E2.
  pose proof (Z.div_mod (c / 4096) 64 ltac:(lia)) as E3.
  pose proof (Z.mod_pos_bound c 64 ltac:(lia)). pose proof (Z.mod_pos_bound (c / 64) 64 ltac:(lia)).
  pose proof (Z.mod_pos_bound (c / 4096) 64 ltac:(lia)).
  assert (E4 : (c / 64 / 64 = c / 4096)%Z) by (by rewrite Z.div_div by lia).
  assert (E5 : (c / 4096 / 64 = c / 262144)%Z) by (by rewrite Z.div_div by lia).
  rewrite E4 in E2. rewrite E5 in E3.
  set (x0 := (c mod 64)%Z) in *. set (x1 := (c / 64 mod 64)%Z) in *. set (x2 := (c / 4096 mod 64)%Z) in *.
  set (d1 := (c / 64)%Z) in *. set (d2 := (c / 4096)%Z) in *. set (d3 := (c / 262144)%Z) in *.
  assert ((0 <= c <= 55295) \/ (57344 <= c <= 1114111))%Z as Hr
    by (destruct Hc as [Hc|Hc]; unfold in_range in Hc; lia).
  unfold utf8_char. fold d1 d2 d3 x0 x1 x2.
  destruct (Z.ltb_spec c 128); [cbn [app from_utf8]; ranges; done|].
  destruct (Z.ltb_spec c 2048).
  { cbn [app from_utf8]. unfold cont. ranges. f_equal. f_equal. lia. }
  destruct (Z.ltb_spec c 65536).
  { cbn [app from_utf8]. unfold cont. ranges. all: f_equal; f_equal; lia. }
  cbn [app from_utf8]. unfold cont. ranges. all: f_equal; f_equal; lia.
Qed.

Lemma as_bytes_cons c s : as_bytes (c :: s) = utf8_char c ++ as_bytes s.
Proof. done. Qed.

Lemma from_utf8_as_bytes s : is_string s -> from_utf8 (as_bytes s) = Some s.
Proof.
  induction 1 as [|c s Hc Hs IH]; [done|]. by rewrite as_bytes_cons, from_utf8_char, IH.
Qed.

Lemma as_bytes_is_bytes s : is_string s -> is_bytes (as_bytes s).
Proof.
  induction 1 as [|c s Hc Hs IH]; [constructor|]. rewrite as_bytes_cons.
  apply Forall_app. split; [by apply utf8_char_is_bytes|done].
Qed.

Lemma as_bytes_ascii s : is_ascii s -> as_bytes s = s.
Proof.
  induction 1 as [|c s Hc Hs IH]; [done|]. rewrite as_bytes_cons, IH.
  unfold utf8_char. destruct (Z.ltb_spec c 128); [done|lia].
Qed.
Lemma is_ascii_string s : is_ascii s -> is_string s.
Proof. intros Hs. eapply Forall_impl; [exact Hs|]. intros c Hc. cbn beta in Hc. unfold is_char, in_range. lia. Qed.

(** More than one byte exactly for a char above the ASCII range. *)
Lemma utf8_char_length c : (0 <= c)%Z -> 1 <= length (utf8_char c) /\ (length (utf8_char c) = 1 <-> (c < 128)%Z).
Proof.
  intros Hc. unfold utf8_char.
  destruct (Z.ltb_spec c 128), (Z.ltb_spec c 2048), (Z.ltb_spec c 65536); simpl; lia.
Qed.
