(* ===== verification/Encoding.v ===== *)
(** * Encodings with a length, a terminator or none ([src/encoding.rs])

    [LengthVec] and [LengthString] are values behind a length prefix,
    [ByteTerminatedString] a text that ends at a byte, [EofTerminatedString] one
    that ends with the input, [FixedString] a constant; [Encoder] and [Decoder]
    ([src/encoding/encoder.rs], [decoder.rs]) write and check the version byte of a
    derived encoding. The lengths [encoding_length] announces are given too. *)

From stdpp Require Import base tactics numbers list strings gmap.
From Stdlib Require Import ZArith Lia.
From S2P Require Import Prelude Bytes Utf8 Codec StoreIface PrefixStore StateIface StructState.

(** [ed::Error::UnexpectedByte(b)] *)
Definition UnexpectedByte (b : Z) : Error := EEd ("Unexpected byte: " +:+ pretty.pretty b).

(** What [LengthVec] asks of its length type: [TryInto<usize>] and
    [TryFrom<usize>]. *)
Class LengthType (P : Type) := {
  try_into_usize : P -> option nat;
  try_from_usize : nat -> option P
}.
#[export] Instance uint_LengthType n : LengthType (uint n) :=
  {| try_into_usize p := if uint_range 8 (uint_val p) then Some (Z.to_nat (uint_val p)) else None;
     try_from_usize len := if uint_range n (Z.of_nat len) then Some (to_uint n (Z.of_nat len)) else None |}.

(** The sequences of a type that can be encoded one after the other: [Vec<T>]'s
    encoding, and what [encoding_length] adds up. *)
Section Many.
Context {T : Type}.
Fixpoint encode_all `{Encode T} (l : list T) : res bytes :=
  match l with
  | [] => Ok []
  | x :: l' => let? b := Encode_encode x in let? bs := encode_all l' in Ok (b ++ bs)
  end.
Fixpoint decode_n `{Decode T} (n : nat) (bs : bytes) : res (list T * bytes) :=
  match n with
  | O => Ok ([], bs)
  | S n' =>
      let? r := Decode_decode bs in
      let? rs := decode_n n' r.2 in
      Ok (r.1 :: rs.1, rs.2)
  end.

Lemma encode_all_enc `{CodecSpec T} (l : list T) : encode_all l = Ok (l ≫= enc).
Proof. induction l as [|x l IH]; [done|]. cbn [encode_all]. rewrite encode_enc, IH. done. Qed.
Lemma decode_n_enc `{CodecSpec T} (l : list T) r :
  codec_terminated -> decode_n (length l) ((l ≫= enc) ++ r) = Ok (l, r).
Proof.
  intros Ht. induction l as [|x l IH]; [done|]. cbn [length decode_n].
  change ((x :: l) ≫= enc) with (enc x ++ (l ≫= enc)). rewrite <- app_assoc, decode_enc by by left.
  cbn [res_bind snd fst]. by rewrite IH.
Qed.
End Many.

(** ** [LengthVec] *)

Record LengthVec (P T : Type) := mkLengthVec { LengthVec_len : P; LengthVec_values : list T }.
Arguments mkLengthVec {P T} _ _.
Arguments LengthVec_len {P T} _.
Arguments LengthVec_values {P T} _.

Section LengthVec.
Context {P T : Type} `{Encode P} `{Decode P} `{LengthType P} `{Encode T} `{Decode T}.
Abbreviation LV := (LengthVec P T).

Definition LengthVec_new (len : P) (values : list T) : LV := mkLengthVec len values.

(** [TryFrom<Vec<T>>] *)
Definition LengthVec_try_from (values : list T) : res LV :=
  match try_from_usize (length values) with
  | Some len => Ok (mkLengthVec len values)
  | None => Err EOverflow
  end.

(** [derive(Encode)]: the fields in order. *)
Definition LengthVec_encode (v : LV) : res bytes :=
  let? len := Encode_encode (LengthVec_len v) in
  let? values := encode_all (LengthVec_values v) in
  Ok (len ++ values).
Definition LengthVec_decode (bs : bytes) : res (LV * bytes) :=
  let? r := Decode_decode bs in
  let? len_usize := ok_or (try_into_usize r.1) (UnexpectedByte 80) in
  let? values := decode_n len_usize r.2 in
  Ok (mkLengthVec r.1 values.1, values.2).

#[export] Instance LengthVec_Encode : Encode LV := {| Encode_encode := LengthVec_encode |}.
#[export] Instance LengthVec_Decode : Decode LV := {| Decode_decode := LengthVec_decode |}.

(** [impl State]: [flush] writes the length and the values, [load] reads them
    back. *)
Definition LengthVec_attach (_ : Store) : M LV unit := retM tt.
Definition LengthVec_flush {St} (v : LV) : M St bytes :=
  do len <- liftM (Encode_encode (LengthVec_len v));
  do values <- liftM (encode_all (LengthVec_values v));
  retM (len ++ values).
Definition LengthVec_load {St} (_ : Store) (bs : bytes) (_ : St) : res (LV * bytes) :=
  let? r := Decode_decode bs in
  let? len_usize := ok_or (try_into_usize r.1) (UnexpectedByte 80) in
  let? values := decode_n len_usize r.2 in
  Ok (mkLengthVec r.1 values.1, values.2).
#[export] Instance LengthVec_State {St} : State St LV :=
  {| State_attach := LengthVec_attach; State_flush := LengthVec_flush; State_load := LengthVec_load |}.

(** [Vec::push] through [DerefMut]. *)
Definition LengthVec_push (x : T) : M LV unit := fun v =>
  (Ok tt, mkLengthVec (LengthVec_len v) (LengthVec_values v ++ [x])).
End LengthVec.

(** Text into and out of a [LengthVec<P, u8>]. *)
Section LengthVecText.
Context {P : Type} `{LengthType P}.
Definition LengthVec_try_from_string (s : RString) : res (LengthVec P u8) :=
  LengthVec_try_from (map (to_uint 1) (as_bytes s)).
Definition LengthVec_try_into_string (v : LengthVec P u8) : res RString :=
  ok_or (from_utf8 (map uint_val (LengthVec_values v))) EOverflow.
End LengthVecText.

(** ** [LengthString] *)

Record LengthString (P : Type) := mkLengthString { LengthString_len : P; LengthString_inner : RString }.
Arguments mkLengthString {P} _ _.
Arguments LengthString_len {P} _.
Arguments LengthString_inner {P} _.

(** [value as char] and [c as u8] *)
Definition char_of_byte (b : u8) : Z := uint_val b.
Definition byte_of_char (c : Z) : u8 := to_uint 1 c.

Section LengthString.
Context {P : Type} `{Encode P} `{Decode P} `{LengthType P}.
Abbreviation LS := (LengthString P).

Definition LengthString_new (len : P) (inner : RString) : LS := mkLengthString len inner.
Definition LengthString_try_from (inner : RString) : res LS :=
  match try_from_usize (str_len inner) with
  | Some len => Ok (mkLengthString len inner)
  | None => Err EOverflow
  end.

Definition LengthString_encode (v : LS) : res bytes :=
  let? len := Encode_encode (LengthString_len v) in
  let? cs := encode_all (map byte_of_char (LengthString_inner v)) in
  Ok (len ++ cs).
Definition LengthString_decode (bs : bytes) : res (LS * bytes) :=
  let? r := Decode_decode bs in
  let? len_usize := ok_or (try_into_usize r.1) (UnexpectedByte 80) in
  let? cs := decode_n (T := u8) len_usize r.2 in
  Ok (mkLengthString r.1 (map char_of_byte cs.1), cs.2).
#[export] Instance LengthString_Encode : Encode LS := {| Encode_encode := LengthString_encode |}.
#[export] Instance LengthString_Decode : Decode LS := {| Decode_decode := LengthString_decode |}.

(** [impl State]: here the text is written as UTF-8. *)
Definition LengthString_flush {St} (v : LS) : M St bytes :=
  do len <- liftM (Encode_encode (LengthString_len v));
  retM (len ++ as_bytes (LengthString_inner v)).
Definition LengthString_load {St} (_ : Store) (bs : bytes) (_ : St) : res (LS * bytes) :=
  let? r := Decode_decode bs in
  let? len_usize := ok_or (try_into_usize r.1) (UnexpectedByte 80) in
  let? cs := decode_n (T := u8) len_usize r.2 in
  Ok (mkLengthString r.1 (map char_of_byte cs.1), cs.2).
#[export] Instance LengthString_State {St} : State St LS :=
  {| State_attach := fun _ => retM tt; State_flush := LengthString_flush; State_load := LengthString_load |}.
End LengthString.

(** ** Strings that end at a byte, or with the input *)

(** [ToString] and [FromStr] of the content. *)
Class Textual (T : Type) := { to_string : T -> RString; from_str : RString -> option T }.

Section Terminated.
Context `{Profile} {T : Type} `{Textual T}.

Record ByteTerminatedString (B : Z) := mkByteTerminatedString { BTS_0 : T }.
Record EofTerminatedString := mkEofTerminatedString { ETS_0 : T }.

Definition BTS_encode {B} (v : ByteTerminatedString B) : res bytes :=
  let bs := as_bytes (to_string (BTS_0 B v)) in
  if debug_assertions && existsb (Z.eqb B) bs then Panic "assertion failed: byte != &B"
  else Ok (bs ++ [B]).
Definition BTS_encoding_length {B} (v : ByteTerminatedString B) : res nat :=
  Ok (str_len (to_string (BTS_0 B v)) + 1).
(** The bytes up to the terminator, or all of them, and what comes after. *)
Fixpoint until_byte (B : Z) (bs : bytes) : bytes * bytes :=
  match bs with
  | [] => ([], [])
  | b :: r => if (b =? B)%Z then ([], r) else let '(x, rest) := until_byte B r in (b :: x, rest)
  end.
Definition BTS_decode {B} (input : bytes) : res (ByteTerminatedString B * bytes) :=
  let '(bs, rest) := until_byte B input in
  let? s := ok_or (from_utf8 bs) (UnexpectedByte 4) in
  let? inner := ok_or (from_str s) (UnexpectedByte 4) in
  Ok (mkByteTerminatedString B inner, rest).

Definition ETS_encode (v : EofTerminatedString) : res bytes := Ok (as_bytes (to_string (ETS_0 v))).
Definition ETS_encoding_length (v : EofTerminatedString) : res nat :=
  Ok (str_len (to_string (ETS_0 v)) + 1).
(** [read_to_string] takes all of the input. *)
Definition ETS_decode (input : bytes) : res (EofTerminatedString * bytes) :=
  let? s := ok_or (from_utf8 input) (EEd "stream did not contain valid UTF-8") in
  let? inner := ok_or (from_str s) (UnexpectedByte 4) in
  Ok (mkEofTerminatedString inner, []).
Definition ETS_into_inner (v : EofTerminatedString) : T := ETS_0 v.
End Terminated.
Arguments ByteTerminatedString T B : clear implicits.
Arguments EofTerminatedString T : clear implicits.
Arguments mkByteTerminatedString {T} B _.
Arguments BTS_0 {T B} _.
Arguments mkEofTerminatedString {T} _.
Arguments ETS_0 {T} _.

(** ** [FixedString] *)

Inductive FixedString (S : RString) := mkFixedString.
Arguments mkFixedString {S}.

Definition FixedString_encode {S} (_ : FixedString S) : res bytes := Ok (as_bytes S).
Definition FixedString_encoding_length {S} (_ : FixedString S) : res nat := Ok (str_len S).
Definition FixedString_decode {S} (input : bytes) : res (FixedString S * bytes) :=
  if length input <? str_len S then Err (EEd "failed to fill whole buffer")
  else if negb (beqb (take (str_len S) input) (as_bytes S)) then Err (UnexpectedByte 3)
  else Ok (mkFixedString, drop (str_len S) input).

(** ** [Encoder] and [Decoder] *)

Section Coders.
Context `{Profile} `{CompatMode}.

(** The writer is what has been written so far. *)
Definition Encoder_version (out : bytes) (version : Z) : res bytes :=
  Ok (if compat_mode then out else out ++ [version]).
Definition Encoder_encode_child `{Encode U} (out : bytes) (value : U) : res bytes :=
  let? bs := Encode_encode value in Ok (out ++ bs).
Definition Encoder_encode_child_as {T U} `{Encode T} (into : U -> T) (out : bytes) (value : U) : res bytes :=
  Encoder_encode_child out (into value).

Record Decoder := mkDecoder { Decoder_field_count : Z; Decoder_version : Z; Decoder_bytes : bytes }.
Definition Decoder_new (bs : bytes) (version : Z) : Decoder := mkDecoder 0 version bs.

(** The reader has consumed what a failing decode consumed; what is left then is
    not observable any more, and is kept as it was. *)
Definition Decoder_read_version : M Decoder unit := fun d =>
  if (Decoder_field_count d =? 0)%Z && negb compat_mode then
    match Decode_decode (K := u8) (Decoder_bytes d) with
    | Ok (version_byte, rest) =>
        let d' := mkDecoder (Decoder_field_count d) (Decoder_version d) rest in
        if (uint_val version_byte =? Decoder_version d)%Z then (Ok tt, d')
        else (Err (UnexpectedByte (uint_val version_byte)), d')
    | Err e => (Err e, d)
    | Panic w => (Panic w, d)
    end
  else (Ok tt, d).
Definition Decoder_decode_child `{Decode U} : M Decoder U :=
  run Decoder_read_version;
  fun d =>
    let '(r, rest) := match Decode_decode (Decoder_bytes d) with
                      | Ok (x, rest) => (Ok x, rest)
                      | Err e => (Err e, Decoder_bytes d)
                      | Panic w => (Panic w, Decoder_bytes d)
                      end in
    match u8_op (Decoder_field_count d + 1) with
    | Ok n => (r, mkDecoder n (Decoder_version d) rest)
    | Err e => (Err e, d)
    | Panic w => (Panic w, d)
    end.
Definition Decoder_decode_child_as {T U} `{Decode T} (into : T -> U) : M Decoder U :=
  do value <- Decoder_decode_child (U := T);
  retM (into value).
End Coders.

(** ** Lengths *)

(** The length prefix agrees with the number of values. *)
Definition LengthVec_wf {n T} (v : LengthVec (uint n) T) : Prop :=
  uint_val (LengthVec_len v) = Z.of_nat (length (LengthVec_values v)).

Lemma try_from_usize_spec n len :
  match try_from_usize (P := uint n) len with
  | Some p => uint_val p = Z.of_nat len
  | None => (256 ^ Z.of_nat n <= Z.of_nat len)%Z
  end.
Proof.
  simpl. destruct (uint_range n (Z.of_nat len)) eqn:Hr.
  - apply uint_range_spec in Hr. simpl. unfold uint_wrap. apply Z.mod_small. lia.
  - assert (~ (0 <= Z.of_nat len < 256 ^ Z.of_nat n)%Z); [|lia].
    rewrite <- uint_range_spec. by rewrite Hr.
Qed.

Lemma try_into_usize_spec n (p : uint n) len :
  n <= 8 -> uint_val p = Z.of_nat len -> try_into_usize p = Some len.
Proof.
  intros Hn Hp. pose proof (uint_ok _ p) as Hr. apply uint_range_spec in Hr. simpl.
  rewrite (proj2 (uint_range_spec 8 _)).
  - rewrite Hp. by rewrite Nat2Z.id.
  - split; [lia|]. eapply Z.lt_le_trans; [apply Hr|]. apply Z.pow_le_mono_r; lia.
Qed.

Section LengthVecSpec.
Context {n : nat} {T : Type} `{CodecSpec T}.
Abbreviation LV := (LengthVec (uint n) T).
Implicit Types (v : LV).

Lemma LengthVec_encode_eq v :
  LengthVec_encode v = Ok (enc (LengthVec_len v) ++ (LengthVec_values v ≫= enc)).
Proof. unfold LengthVec_encode. by rewrite encode_enc, encode_all_enc. Qed.

Lemma LengthVec_decode_prefix (p : uint n) (l : list T) r :
  n <= 8 -> codec_terminated (K := T) -> uint_val p = Z.of_nat (length l) ->
  LengthVec_decode (enc p ++ (l ≫= enc) ++ r) = Ok (mkLengthVec p l, r).
Proof.
  intros Hn Ht Hp. unfold LengthVec_decode. rewrite decode_enc by by left. cbn [res_bind fst snd].
  rewrite (try_into_usize_spec _ _ (length l)) by done. cbn [ok_or res_bind].
  by rewrite decode_n_enc.
Qed.
Lemma LengthVec_decode_enc v r :
  n <= 8 -> codec_terminated (K := T) -> LengthVec_wf v ->
  LengthVec_decode (enc (LengthVec_len v) ++ (LengthVec_values v ≫= enc) ++ r) = Ok (v, r).
Proof. intros. rewrite LengthVec_decode_prefix by done. by destruct v. Qed.

(** A [LengthVec] with the right length is a lawful state of its own. *)
Definition LengthVec_StateSpec `{WS : WriteSpec St} (Hn : n <= 8) (Ht : codec_terminated (K := T)) : StateSpec St LV.
Proof.
  refine {| model := list T; valid := LengthVec_wf; attached := fun _ v => LengthVec_wf v;
            abs := fun _ v x => LengthVec_values v = x; State_terminated := True;
            flushable := fun _ _ _ => True |}; try done.
  - intros s v Hv. by exists v.
  - intros s v Hv. by exists v.
  - intros s b v x Hv Hb _ <-. eexists _, b. split_and!; auto with orga.
    + unfold State_flush, LengthVec_State, LengthVec_flush, bindM, liftM. by rewrite encode_enc, encode_all_enc.
    + intros b2 rest _ _ _. exists v. split; [|done]. rewrite <- app_assoc.
      by apply LengthVec_decode_enc.
Defined.
End LengthVecSpec.

(** building a [LengthVec] from a vector fails with an overflow exactly when
    the length does not fit the prefix type; otherwise encoding and decoding, and
    flushing and loading, give the same value back and leave what follows. A value
    pushed through [DerefMut] does not update the prefix: decoding then returns the
    values without it and leaves its bytes in the input. *)
Theorem LengthVec_roundtrip {n T} `{CodecSpec T} (values : list T) (x : T) (rest : bytes) :
  n <= 8 -> codec_terminated (K := T) ->
  match LengthVec_try_from (P := uint n) values with
  | Ok v =>
      LengthVec_values v = values /\
      (exists bs, LengthVec_encode v = Ok bs /\ LengthVec_decode (bs ++ rest) = Ok (v, rest) /\
         (forall St (s : Store) (b : St), LengthVec_flush v b = (Ok bs, b) /\
                                         LengthVec_load s (bs ++ rest) b = Ok (v, rest))) /\
      (exists bs, LengthVec_encode (LengthVec_push x v).2 = Ok bs /\
         LengthVec_decode (bs ++ rest) = Ok (v, enc x ++ rest))
  | Err e => e = EOverflow /\ (256 ^ Z.of_nat n <= Z.of_nat (length values))%Z
  | Panic _ => False
  end.
Proof.
  intros Hn Ht. unfold LengthVec_try_from. pose proof (try_from_usize_spec n (length values)) as Hs.
  destruct (try_from_usize (length values)) as [p|]; [|done]. split; [done|]. split.
  - eexists. split; [apply LengthVec_encode_eq|]. cbn [LengthVec_len LengthVec_values]. rewrite <- app_assoc.
    split; [by apply LengthVec_decode_prefix|]. intros St s b. split; [|by apply LengthVec_decode_prefix].
    unfold LengthVec_flush, bindM, liftM. by rewrite encode_enc, encode_all_enc.
  - eexists. split; [apply LengthVec_encode_eq|]. cbn [LengthVec_push snd LengthVec_len LengthVec_values].
    rewrite bind_app, <- !app_assoc, LengthVec_decode_prefix, bind_singleton by done. done.
Qed.

(** ** Strings *)

Lemma to_u8_val b : is_u8 b -> uint_val (to_uint 1 b) = b.
Proof.
  unfold is_u8. intros Hb. cbn. unfold uint_wrap. change (256 ^ Z.of_nat 1)%Z with 256%Z.
  by rewrite Z.mod_small.
Qed.

Lemma decode_u8_cons b r : is_u8 b -> Decode_decode (K := u8) (b :: r) = Ok (to_uint 1 b, r).
Proof.
  intros Hb. assert (He : enc (to_uint 1 b) = [b]).
  { change (to_be_bytes 1 (uint_val (to_uint 1 b)) = [b]). rewrite to_u8_val by done.
    simpl. by rewrite Z.mod_small. }
  change (b :: r) with ([b] ++ r). rewrite <- He. apply decode_enc. by left.
Qed.

Lemma decode_n_u8 bs : is_bytes bs -> forall rest,
  decode_n (T := u8) (length bs) (bs ++ rest) = Ok (map (to_uint 1) bs, rest).
Proof.
  induction 1 as [|b bs Hb Hbs IH]; intros rest; [done|]. cbn [length decode_n map].
  change ((b :: bs) ++ rest) with (b :: (bs ++ rest)). rewrite decode_u8_cons by done. cbn [res_bind fst snd]. by rewrite IH.
Qed.
Lemma decode_n_u8_short n bs :
  length bs < n -> decode_n (T := u8) n bs = Err (EEd "failed to fill whole buffer").
Proof.
  revert bs; induction n as [|n IH]; intros bs Hl; [lia|]. cbn [decode_n].
  unfold Decode_decode, uint_Decode, uint_decode.
  destruct bs as [|b bs]; [done|]. simpl in Hl.
  destruct ((length (b :: bs) <? 1) || negb (forallb is_byteb (take 1 (b :: bs)))); [done|].
  cbn [res_bind fst snd]. rewrite IH; [done|]. rewrite length_drop. simpl. lia.
Qed.

Lemma uint1_enc (l : list Z) : ((map byte_of_char l) ≫= enc) = map (fun c => c mod 256)%Z l.
Proof.
  induction l as [|c l IH]; [done|]. cbn [map]. rewrite bind_cons, IH. cbn.
  unfold uint_wrap. change (256 ^ 1)%Z with 256%Z. by rewrite Z.mod_mod.
Qed.

Lemma str_len_ge s : is_string s -> length s <= str_len s.
Proof.
  unfold str_len. induction 1 as [|c s Hc Hs IH]; [done|]. rewrite as_bytes_cons, length_app. simpl.
  destruct (utf8_char_length c); [|lia]. unfold is_char, in_range in Hc. lia.
Qed.
Lemma str_len_ascii s : is_string s -> str_len s = length s -> is_ascii s.
Proof.
  unfold str_len. induction 1 as [|c s Hc Hs IH]; [constructor|]. rewrite as_bytes_cons, length_app. simpl.
  intros Hl. pose proof (str_len_ge s Hs) as Hge. unfold str_len in Hge.
  assert (0 <= c)%Z by (unfold is_char, in_range in Hc; lia).
  destruct (utf8_char_length c) as [Hc1 Hc2]; [done|].
  constructor; [|apply IH; lia]. split; [done|]. apply Hc2. lia.
Qed.

Lemma map_char_of_bytes bs : is_bytes bs -> map char_of_byte (map (to_uint 1) bs) = bs.
Proof.
  induction 1 as [|b bs Hb Hbs IH]; [done|]. cbn [map]. rewrite IH. f_equal.
  by apply to_u8_val.
Qed.
Lemma ascii_bytes s : is_ascii s -> is_bytes s.
Proof. intros Hs. eapply Forall_impl; [exact Hs|]. unfold is_u8. simpl. lia. Qed.
Lemma map_mod_ascii s : is_ascii s -> map (fun c => c mod 256)%Z s = s.
Proof.
  induction 1 as [|c s Hc Hs IH]; [done|]. simpl. rewrite IH, Z.mod_small by lia. done.
Qed.

(** a [LengthString] survives its encoding exactly when the text is ASCII. The
    prefix counts UTF-8 bytes but one byte is written per char, so the encoding of
    any other text cannot be decoded; and its state is written as UTF-8 but read
    back byte by byte as chars, which gives another text. *)
Theorem LengthString_ascii_only {n} (s : RString) (v : LengthString (uint n)) :
  n <= 8 -> is_string s -> LengthString_try_from s = Ok v ->
  exists bs, LengthString_encode v = Ok bs /\
    (is_ascii s -> forall rest, LengthString_decode (bs ++ rest) = Ok (v, rest)) /\
    (~ is_ascii s -> LengthString_decode (P := uint n) bs = Err (EEd "failed to fill whole buffer")) /\
    (forall St (st : Store) (b : St) rest, exists fs v', LengthString_flush v b = (Ok fs, b) /\
       LengthString_load st (fs ++ rest) b = Ok (v', rest) /\ (v' = v <-> is_ascii s)).
Proof.
  intros Hn Hs. unfold LengthString_try_from. pose proof (try_from_usize_spec n (str_len s)) as Hl.
  destruct (try_from_usize (str_len s)) as [p|]; [|done]. intros [= <-].
  assert (Hu : try_into_usize p = Some (str_len s)) by (by apply try_into_usize_spec).
  exists (enc p ++ map (fun c => c mod 256)%Z s). split_and!.
  - unfold LengthString_encode. simpl. rewrite encode_all_enc, uint1_enc. done.
  - intros Ha rest. unfold LengthString_decode. rewrite <- app_assoc, decode_enc by by left.
    cbn [res_bind fst snd]. rewrite Hu. cbn [ok_or res_bind]. rewrite map_mod_ascii by done.
    unfold str_len. rewrite as_bytes_ascii by done. rewrite decode_n_u8 by by apply ascii_bytes.
    cbn [res_bind fst snd]. by rewrite map_char_of_bytes by by apply ascii_bytes.
  - intros Ha. unfold LengthString_decode. rewrite decode_enc by by left. cbn [res_bind fst snd].
    rewrite Hu. cbn [ok_or res_bind]. rewrite decode_n_u8_short; [done|]. rewrite length_map.
    pose proof (str_len_ge s Hs). destruct (decide (str_len s = length s)) as [He|]; [|lia].
    by destruct Ha; apply str_len_ascii.
  - intros St st b rest. exists (enc p ++ as_bytes s), (mkLengthString p (as_bytes s)). split; [done|].
    split.
    + unfold LengthString_load. rewrite <- app_assoc, decode_enc by by left. cbn [res_bind fst snd].
      rewrite Hu. cbn [ok_or res_bind]. unfold str_len. rewrite decode_n_u8 by by apply as_bytes_is_bytes.
      cbn [res_bind fst snd]. by rewrite map_char_of_bytes by by apply as_bytes_is_bytes.
    + split; [intros [= Heq]|intros Ha; by rewrite as_bytes_ascii].
      apply str_len_ascii; [done|]. unfold str_len. by rewrite Heq.
Qed.

(** ** Terminated strings *)

Lemma until_byte_app B bs rest : existsb (Z.eqb B) bs = false -> until_byte B (bs ++ B :: rest) = (bs, rest).
Proof.
  induction bs as [|b bs IH]; simpl; [by rewrite Z.eqb_refl|]. intros [Hb Hr]%orb_false_iff.
  rewrite Z.eqb_sym, Hb. by rewrite IH.
Qed.

(** the terminated strings round-trip: a [ByteTerminatedString] whose text does
    not contain the terminator is read back up to it and leaves what follows, and
    likewise a [FixedString]; an [EofTerminatedString] takes the whole input. The
    announced length is the encoding's, except that [EofTerminatedString] announces
    one byte more than it writes. *)
Theorem terminated_strings_roundtrip `{Profile} `{Textual T} (x : T) (B : Z) (S : RString) (rest : bytes) :
  is_string (to_string x) -> from_str (to_string x) = Some x ->
  existsb (Z.eqb B) (as_bytes (to_string x)) = false ->
  (exists bs, BTS_encode (mkByteTerminatedString B x) = Ok bs /\
     BTS_decode (bs ++ rest) = Ok (mkByteTerminatedString B x, rest) /\
     BTS_encoding_length (mkByteTerminatedString B x) = Ok (length bs)) /\
  (exists bs, ETS_encode (mkEofTerminatedString x) = Ok bs /\
     ETS_decode bs = Ok (mkEofTerminatedString x, []) /\
     ETS_encoding_length (mkEofTerminatedString x) = Ok (length bs + 1)) /\
  (exists bs, FixedString_encode (mkFixedString (S := S)) = Ok bs /\
     FixedString_decode (bs ++ rest) = Ok (mkFixedString (S := S), rest) /\
     FixedString_encoding_length (mkFixedString (S := S)) = Ok (length bs)).
Proof.
  intros Hs Hx Hb. split_and!.
  - exists (as_bytes (to_string x) ++ [B]). unfold BTS_encode, BTS_decode, BTS_encoding_length. simpl.
    rewrite Hb, andb_false_r, <- app_assoc. split; [done|]. simpl. rewrite until_byte_app by done.
    rewrite from_utf8_as_bytes by done. simpl. rewrite Hx. split; [done|]. by rewrite length_app.
  - exists (as_bytes (to_string x)). unfold ETS_encode, ETS_decode, ETS_encoding_length. simpl.
    split; [done|]. rewrite from_utf8_as_bytes by done. simpl. by rewrite Hx.
  - exists (as_bytes S). split; [done|]. split; [|done]. unfold FixedString_decode, str_len.
    rewrite length_app, take_app_length, drop_app_length.
    destruct (Nat.ltb_spec (length (as_bytes S) + length rest) (length (as_bytes S))); [lia|].
    by destruct (beqb_spec (as_bytes S) (as_bytes S)).
Qed.

(** ** The version byte *)

Lemma Decoder_decode_child_ok `{Profile} `{CompatMode} `{Decode U} (d d1 : Decoder) (x : U) rest :
  Decoder_read_version d = (Ok tt, d1) -> Decode_decode (Decoder_bytes d1) = Ok (x, rest) ->
  is_u8 (Decoder_field_count d1 + 1) ->
  Decoder_decode_child d = (Ok x, mkDecoder (Decoder_field_count d1 + 1) (Decoder_version d1) rest).
Proof.
  intros Hv Hd Hc. unfold Decoder_decode_child, bindM. rewrite Hv, Hd. unfold u8_op, is_u8 in *.
  destruct (Z.leb_spec 0 (Decoder_field_count d1 + 1)), (Z.ltb_spec (Decoder_field_count d1 + 1) 256); try lia.
  done.
Qed.
Lemma Decoder_read_version_later `{Profile} `{CompatMode} c v bs :
  Decoder_read_version (mkDecoder (0 + 1 + Z.of_nat c) v bs) = (Ok tt, mkDecoder (0 + 1 + Z.of_nat c) v bs).
Proof. unfold Decoder_read_version. cbn [Decoder_field_count]. destruct (Z.eqb_spec (0 + 1 + Z.of_nat c) 0); [lia|done]. Qed.

(** Encoding a versioned two-field value and decoding it gives it back, and a
    version byte other than the expected one is refused before any field. *)
Lemma Decoder_roundtrip `{Profile} `{CompatMode} `{CodecSpec A} `{CodecSpec B} (x : A) (y : B) version rest :
  is_u8 version -> codec_terminated (K := A) -> codec_terminated (K := B) \/ rest = [] ->
  exists out,
    (let? out := Encoder_version [] version in
     let? out := Encoder_encode_child out x in Encoder_encode_child out y) = Ok out /\
    exists d, (do x' <- Decoder_decode_child; do y' <- Decoder_decode_child; retM (x', y'))
                (Decoder_new (out ++ rest) version) = (Ok (x, y), d) /\ Decoder_bytes d = rest.
Proof.
  intros Hv Ht Hr. set (pre := if compat_mode then [] else [version]).
  exists ((pre ++ enc x) ++ enc y). split.
  { unfold Encoder_encode_child, Encoder_version. cbn [res_bind]. rewrite encode_enc. cbn [res_bind].
    rewrite encode_enc. by unfold pre; destruct compat_mode. }
  eexists. unfold Decoder_new.
  assert (Hpre : Decoder_read_version (mkDecoder 0 version (((pre ++ enc x) ++ enc y) ++ rest)) =
    (Ok tt, mkDecoder 0 version (enc x ++ enc y ++ rest))).
  { unfold Decoder_read_version, pre. rewrite <- !app_assoc. destruct compat_mode; [done|]. cbn [Z.eqb andb negb Decoder_field_count Decoder_bytes Decoder_version].
    change ([version] ++ enc x ++ enc y ++ rest) with (version :: enc x ++ enc y ++ rest).
    rewrite decode_u8_cons, to_u8_val by done. by rewrite Z.eqb_refl. }
  unfold bindM.
  rewrite (Decoder_decode_child_ok _ _ x (enc y ++ rest) Hpre); [|exact (decode_enc x (enc y ++ rest) (or_introl Ht))|done].
  rewrite (Decoder_decode_child_ok _ _ y rest (Decoder_read_version_later 0 _ _)); [done|exact (decode_enc y rest Hr)|done].
Qed.

(** *** Witnesses *)

Lemma LengthVec_roundtrip_witness :
  LengthVec_try_from (P := u8) [to_uint 2 513%Z] = Ok (mkLengthVec (to_uint 1 1) [to_uint 2 513]) /\
  LengthVec_encode (mkLengthVec (to_uint 1 1) [to_uint 2 513%Z]) = Ok [1; 2; 1]%Z /\
  exists bs, LengthVec_encode (LengthVec_push (to_uint 2 7%Z) (mkLengthVec (to_uint 1 1) [to_uint 2 513%Z])).2 = Ok bs /\
    LengthVec_decode (bs ++ [9]%Z) = Ok (mkLengthVec (to_uint 1 1) [to_uint 2 513%Z], [0; 7; 9]%Z).
Proof.
  assert (Ht : LengthVec_try_from (P := u8) [to_uint 2 513%Z] = Ok (mkLengthVec (to_uint 1 1) [to_uint 2 513])) by done.
  pose proof (LengthVec_roundtrip (n := 1) [to_uint 2 513%Z] (to_uint 2 7%Z) [9]%Z ltac:(lia) I) as Hthm.
  rewrite Ht in Hthm. split; [done|]. split; [done|]. apply Hthm.
Defined.

(** "é" *)
Lemma LengthString_ascii_only_witness :
  LengthString_try_from (P := u8) [233]%Z = Ok (mkLengthString (to_uint 1 2) [233]%Z) /\
  exists bs, LengthString_encode (mkLengthString (to_uint 1 2 : u8) [233]%Z) = Ok bs /\
    LengthString_decode (P := u8) bs = Err (EEd "failed to fill whole buffer").
Proof.
  split; [done|].
  destruct (LengthString_ascii_only (n := 1) [233]%Z (mkLengthString (to_uint 1 2) [233]%Z))
    as (bs & H1 & _ & H2 & _); [lia|by repeat constructor|done|].
  exists bs. split; [exact H1|]. apply H2. intros [Ha _]%Forall_cons. lia.
Defined.

(** A text with itself as content. *)
Section TextWitness.
#[local] Instance text_Textual : Textual RString := {| to_string := fun s => s; from_str := Some |}.
#[local] Instance text_Profile : Profile := {| overflow_checks := true; debug_assertions := true |}.

Lemma terminated_strings_roundtrip_witness :
  BTS_encode (mkByteTerminatedString 44 [52; 50])%Z = Ok [52; 50; 44]%Z /\
  exists bs, ETS_encode (mkEofTerminatedString [52; 50]%Z) = Ok bs /\
     ETS_decode bs = Ok (mkEofTerminatedString [52; 50]%Z, []) /\
     ETS_encoding_length (mkEofTerminatedString [52; 50]%Z) = Ok (length bs + 1).
Proof.
  split; [done|].
  apply (terminated_strings_roundtrip [52; 50]%Z 44%Z [47]%Z [1]%Z).
  - by repeat constructor.
  - done.
  - done.
Defined.
End TextWitness.
