(* ===== verification/SimpleState.v ===== *)
(** * Types stored through an [Adapter] (src/encoding.rs, macros/src/encoding.rs, macros/src/state.rs)

    [#[orga(simple)]] derives [State] and [Encode]/[Decode] of a struct with
    [as_type = "Adapter<Self>"]: the struct is its version byte followed by what the
    hand-written codec of [Adapter<Self>] writes. *)

From stdpp Require Import base tactics numbers list strings gmap.
From Stdlib Require Import ZArith Lia.
From S2P Require Import Prelude Bytes BTree StoreIface StoreIter NullStore BufStore PrefixStore Codec StateIface StructState Utf8 Encoding.

Record Adapter (T : Type) := mkAdapter { Adapter_0 : T }.
Arguments mkAdapter {T} _.
Arguments Adapter_0 {T} _.

(** ** [impl State for Adapter<T>] *)
Section AdapterState.
Context {St T : Type} `{Encode (Adapter T)} `{Decode (Adapter T)}.
Definition Adapter_attach (_ : Store) : M (Adapter T) unit := retM tt.
Definition Adapter_flush (a : Adapter T) : M St bytes := liftM (Encode_encode a).
Definition Adapter_load (_ : Store) (bs : bytes) (_ : St) : res (Adapter T * bytes) := Decode_decode bs.
#[export] Instance Adapter_State : State St (Adapter T) :=
  {| State_attach := Adapter_attach; State_flush := Adapter_flush; State_load := Adapter_load |}.
End AdapterState.

(** ** What the macros write for the struct *)
Section Simple.
Context `{Profile} `{CompatMode} {St T : Type} `{Encode (Adapter T)} `{Decode (Adapter T)} (ver : Z).

Definition Simple_attach (s : Store) : M T unit :=
  do _ <- Attacher_attach_child_as (Attacher_new s);
  retM tt.
Definition Simple_flush (v : T) : M St bytes :=
  do out <- Flusher_version [] ver;
  do out <- Flusher_flush_child_as mkAdapter out v;
  retM out.
Definition Simple_load (s : Store) (bs : bytes) (b : St) : res (T * bytes) :=
  match Loader_load_child_as Adapter_0 b (Loader_new s bs ver) with
  | (Ok value, loader) =>
      match Simple_attach s value with
      | (Ok _, value') => Ok (value', Loader_bytes loader)
      | (Err e, _) => Err e
      | (Panic w, _) => Panic w
      end
  | (Err e, _) => Err e
  | (Panic w, _) => Panic w
  end.
Definition Simple_State : State St T :=
  {| State_attach := Simple_attach; State_flush := Simple_flush; State_load := Simple_load |}.

Definition Simple_encode (v : T) : res bytes :=
  let? out := Encoder_version [] ver in
  let? out := Encoder_encode_child_as mkAdapter out v in
  Ok out.
(** [encoding_length]: that of the adapter, whose definition the struct supplies. *)
Definition Simple_encoding_length (adapter_encoding_length : Adapter T -> res nat) (v : T) : res nat :=
  adapter_encoding_length (mkAdapter v).
Definition Simple_decode (bs : bytes) : res (T * bytes) :=
  match Decoder_decode_child_as Adapter_0 (Decoder_new bs ver) with
  | (Ok value, decoder) => Ok (value, Decoder_bytes decoder)
  | (Err e, _) => Err e
  | (Panic w, _) => Panic w
  end.
End Simple.

(** ** The laws *)
Section SimpleSpec.
Context `{Profile} `{CompatMode} `{WS : WriteSpec St} {T : Type} `{CS : CodecSpec (Adapter T)} (ver : Z).

Definition simple_prefix : bytes := if compat_mode then [] else [ver].

Lemma Simple_attach_ok s (v : T) : Simple_attach s v = (Ok tt, v).
Proof. done. Qed.

Lemma Simple_load_ok s (b : St) (v : T) rest :
  codec_terminated (K := Adapter T) \/ rest = [] ->
  Simple_load ver s ((simple_prefix ++ enc (mkAdapter v)) ++ rest) b = Ok (v, rest).
Proof.
  intros Hr. unfold Simple_load, Loader_load_child_as, bindM, Loader_new.
  pose proof (load_child_ok (ver := ver) s 0 b (enc (mkAdapter v)) rest (mkAdapter v) ltac:(lia)
    (decode_enc (mkAdapter v) rest Hr)) as Hl.
  unfold simple_prefix. rewrite <- app_assoc. rewrite andb_true_r in Hl.
  replace (if compat_mode then [] else [ver]) with (if negb compat_mode then [ver] else []) by by destruct compat_mode.
  by rewrite Hl.
Qed.

Lemma Simple_flush_ok (v : T) (b : St) :
  Simple_flush ver v b = (Ok (simple_prefix ++ enc (mkAdapter v)), b).
Proof.
  unfold Simple_flush, bindM, Flusher_version, Flusher_flush_child_as, bindM, simple_prefix.
  destruct compat_mode; simpl; unfold Adapter_flush, liftM; by rewrite encode_enc.
Qed.

(** A simple struct is a leaf: its content is the value. *)
Definition Simple_StateSpec : StateSpec (ST := Simple_State ver) St T.
Proof.
  refine {| model := T; valid := fun _ => True; attached := fun _ _ => True; abs := fun _ v x => v = x;
            State_terminated := codec_terminated (K := Adapter T); flushable := fun _ _ _ => True |}.
  - done.
  - intros s v _. by exists v.
  - intros s v _. by exists v.
  - done.
  - done.
  - intros s b v x _ Hb _ <-. exists (simple_prefix ++ enc (mkAdapter v)), b.
    split_and!; [apply Simple_flush_ok|done|auto with orga..|].
    intros b2 rest _ _ Hr. exists v. split_and!; [|done..]. by apply Simple_load_ok.
Defined.

(** The derived codec of the struct. *)
Definition Simple_Encode : Encode T := {| Encode_encode := Simple_encode ver |}.
Definition Simple_Decode : Decode T := {| Decode_decode := Simple_decode ver |}.
Definition Simple_CodecSpec : is_u8 ver -> CodecSpec T (H := Simple_Encode) (H0 := Simple_Decode).
Proof.
  intros Hv. refine {| enc := fun v => simple_prefix ++ enc (mkAdapter v); codec_terminated := codec_terminated (K := Adapter T) |}.
  - intros v. unfold Encode_encode, Simple_Encode, Simple_encode, Encoder_version, Encoder_encode_child_as, Encoder_encode_child, simple_prefix.
    cbn [res_bind]. rewrite encode_enc. by destruct compat_mode.
  - intros v r Hr. unfold Decode_decode, Simple_Decode, Simple_decode, Decoder_decode_child_as, bindM, Decoder_new.
    assert (Hpre : Decoder_read_version (mkDecoder 0 ver ((simple_prefix ++ enc (mkAdapter v)) ++ r)) =
      (Ok tt, mkDecoder 0 ver (enc (mkAdapter v) ++ r))).
    { unfold Decoder_read_version, simple_prefix. rewrite <- app_assoc. destruct compat_mode; [done|].
      cbn [Z.eqb andb negb Decoder_field_count Decoder_bytes Decoder_version app].
      rewrite decode_u8_cons, to_u8_val by done. by rewrite Z.eqb_refl. }
    rewrite (Decoder_decode_child_ok _ _ (mkAdapter v) r Hpre); [done| |done].
    exact (decode_enc (mkAdapter v) r Hr).
Defined.
End SimpleSpec.
