(* ===== verification/MapColl.v ===== *)
(** * [Map] ([src/collections/map.rs])

    A [Map] keeps the entries changed since it was loaded in memory, keyed by the
    encoded key, and reads the others from its part of the store. The backing
    store is an argument of the reading operations and the state of the flushing
    ones. The laws are stated against the abstract content of the map, a partial
    function from keys to the contents of the values. *)

From stdpp Require Import base tactics numbers list strings gmap.
From Stdlib Require Import ZArith Lia.
From S2P Require Import Prelude Bytes BTree StoreIface StoreIter NullStore BufStore PrefixStore Codec StateIface.

(** ** Loops over a store

    An upper bound on the number of entries of a store, the fuel of the loops
    that walk over it. *)
Class Bounded (St : Type) := { entry_bound : St -> nat }.
Class BoundedSpec (St : Type) `{RS : ReadSpec St} `{Bounded St} := {
  entry_bound_spec s : Read_inv s -> size (view s) <= entry_bound s
}.

(** ** Data *)

Record MapKey (K : Type) := mkMapKey { MapKey_inner : K; MapKey_inner_bytes : bytes }.
Arguments mkMapKey {K} _ _.
Arguments MapKey_inner {K} _.
Arguments MapKey_inner_bytes {K} _.

Definition MapKey_new {K} `{Encode K} (key : K) : res (MapKey K) :=
  let? inner_bytes := Encode_encode key in
  Ok (mkMapKey key inner_bytes).

(** [Ord for MapKey]: [children] is ordered, and looked up, by the encoded key;
    the key itself is kept beside the value. *)
Record Map (K V : Type) := mkMap {
  Map_store : Store;
  Map_children : BTree (K * option V)
}.
Arguments mkMap {K V} _ _.
Arguments Map_store {K V} _.
Arguments Map_children {K V} _.

Definition Map_new {K V} : Map K V := mkMap Store_new [].

Inductive Ref (V : Type) := RefOwned (v : V) | RefBorrowed (v : V).
Arguments RefOwned {V} _.
Arguments RefBorrowed {V} _.
Definition Ref_deref {V} (r : Ref V) : V :=
  match r with RefOwned inner => inner | RefBorrowed value => value end.

Record ReadOnly (V : Type) := ReadOnly_new { ReadOnly_into_inner : V }.
Arguments ReadOnly_new {V} _.
Arguments ReadOnly_into_inner {V} _.

(** A mutable reference to a value: still outside the parent ([None] once it has
    been taken), or the entry of the parent's [children] at the given key. The
    parent itself is the state of the methods. *)
Inductive ChildMut (K V : Type) :=
| ChildUnmodified (inner : option (K * V))
| ChildModified (entry : bytes).
Arguments ChildUnmodified {K V} _.
Arguments ChildModified {K V} _.

Inductive Entry (K V : Type) :=
| EntryVacant (key : K)
| EntryOccupied (child : ChildMut K V).
Arguments EntryVacant {K V} _.
Arguments EntryOccupied {K V} _.

(** ** Operations on the map *)

Section Ops.
Context {St K V : Type} `{Profile}.
Context `{Read St} `{!Write St} `{!Bounded St} `{Encode K} {SV : State St V}.
Implicit Types (b : St) (m : Map K V).

Definition set_children (c : BTree (K * option V)) m : Map K V := mkMap (Map_store m) c.
Definition put_child (mk : MapKey K) (v : option V) : M (Map K V) unit := fun m =>
  (Ok tt, set_children (bt_insert (MapKey_inner_bytes mk) (MapKey_inner mk, v) (Map_children m)) m).

Definition Map_get_from_store b m (key : K) : res (option V) :=
  let? key_bytes := Encode_encode key in
  let? o := Store_get (Map_store m) b key_bytes in
  match o with
  | None => Ok None
  | Some value_bytes =>
      let? r := State_load (Store_sub (Map_store m) key_bytes) value_bytes b in
      if debug_assertions && negb (length r.2 =? 0) then
        Panic "Value had leftover bytes after decode"
      else Ok (Some r.1)
  end.

Definition Map_contains_key b m (key : K) : res bool :=
  let? map_key := MapKey_new key in
  match bt_get (MapKey_inner_bytes map_key) (Map_children m) with
  | Some (_, Some _) => Ok true
  | Some (_, None) => Ok false
  | None =>
      let? o := Map_get_from_store b m (MapKey_inner map_key) in
      Ok (if o is Some _ then true else false)
  end.

Definition Map_insert (key : K) (value : V) : M (Map K V) unit := fun m =>
  match MapKey_new key with
  | Ok map_key =>
      let substore := Store_sub (Map_store m) (MapKey_inner_bytes map_key) in
      match State_attach substore value with
      | (Ok _, value') => put_child map_key (Some value') m
      | (Err e, _) => (Err e, m)
      | (Panic w, _) => (Panic w, m)
      end
  | Err e => (Err e, m)
  | Panic w => (Panic w, m)
  end.

Definition Map_get b m (key : K) : res (option (Ref V)) :=
  let? map_key := MapKey_new key in
  match bt_get (MapKey_inner_bytes map_key) (Map_children m) with
  | Some (_, o) => Ok (RefBorrowed <$> o)
  | None =>
      let? o := Map_get_from_store b m (MapKey_inner map_key) in
      Ok (RefOwned <$> o)
  end.

Definition Map_get_or_default (default : V) b m (key : K) : res (Ref V) :=
  let? key_bytes := Encode_encode key in
  let? maybe_value := Map_get b m key in
  match maybe_value with
  | Some value => Ok value
  | None =>
      let substore := Store_sub (Map_store m) key_bytes in
      match State_attach substore default with
      | (Ok _, value) => Ok (RefOwned value)
      | (Err e, _) => Err e
      | (Panic w, _) => Panic w
      end
  end.

Definition Map_entry b (key : K) : M (Map K V) (Entry K V) := fun m =>
  let r :=
    let? map_key := MapKey_new key in
    match bt_get (MapKey_inner_bytes map_key) (Map_children m) with
    | Some _ => Ok (EntryOccupied (ChildModified (MapKey_inner_bytes map_key)))
    | None =>
        let? o := Map_get_from_store b m (MapKey_inner map_key) in
        match o with
        | Some value => Ok (EntryOccupied (ChildUnmodified (Some (MapKey_inner map_key, value))))
        | None => Ok (EntryVacant (MapKey_inner map_key))
        end
    end in
  (r, m).

(** [From<Entry> for Option<ChildMut>] *)
Definition Entry_into (e : Entry K V) : option (ChildMut K V) :=
  match e with EntryVacant _ => None | EntryOccupied child => Some child end.

Definition Map_get_mut b (key : K) : M (Map K V) (option (ChildMut K V)) :=
  do e <- Map_entry b key;
  retM (Entry_into e).

(** [remove_raw] and [remove] share everything but the wrapper. *)
Definition Map_remove_raw b (key : K) : M (Map K V) (option V) := fun m =>
  match MapKey_new key with
  | Ok map_key =>
      match bt_get (MapKey_inner_bytes map_key) (Map_children m) with
      | Some (_, result) => (run put_child map_key None; retM result) m
      | None =>
          match Map_get_from_store b m (MapKey_inner map_key) with
          | Ok (Some val) => (run put_child map_key None; retM (Some val)) m
          | Ok None => (Ok None, m)
          | Err e => (Err e, m)
          | Panic w => (Panic w, m)
          end
      end
  | Err e => (Err e, m)
  | Panic w => (Panic w, m)
  end.

Definition Map_remove b (key : K) : M (Map K V) (option (ReadOnly V)) :=
  do r <- Map_remove_raw b key;
  retM (ReadOnly_new <$> r).

Definition Map_swap b (i j : K) : M (Map K V) unit :=
  do ci <- readM (fun m => Map_contains_key b m i);
  do cj <- (if ci : bool then readM (fun m => Map_contains_key b m j) else retM false);
  if negb (ci && cj) then errM (EApp "Swap failed. Key not found.")
  else
    do a <- Map_remove_raw b i;
    do b' <- Map_remove_raw b j;
    do ki <- liftM (MapKey_new i);
    run put_child ki b';
    do kj <- liftM (MapKey_new j);
    put_child kj a.

(** ** [ChildMut] and [Entry] *)

Definition ChildMut_deref m (c : ChildMut K V) : res V :=
  match c with
  | ChildUnmodified inner =>
      let? kv := unwrap inner "called `Option::unwrap()` on a `None` value" in Ok kv.2
  | ChildModified entry =>
      match bt_get entry (Map_children m) with
      | Some (_, Some v) => Ok v
      | _ => Panic "called `Option::unwrap()` on a `None` value"
      end
  end.

(** [deref_mut] moves an unmodified child into the parent; the result is the
    entry the reference then points to. *)
Definition ChildMut_deref_mut (c : ChildMut K V) : M (Map K V) bytes :=
  match c with
  | ChildUnmodified inner =>
      do kv <- liftM (unwrap inner "called `Option::unwrap()` on a `None` value");
      match MapKey_new kv.1 with
      | Ok map_key => run put_child map_key (Some kv.2); retM (MapKey_inner_bytes map_key)
      | Err _ => panicM "called `Result::unwrap()` on an `Err` value"
      | Panic w => panicM w
      end
  | ChildModified entry => fun m =>
      match bt_get entry (Map_children m) with
      | Some (_, Some _) => (Ok entry, m)
      | _ => (Panic "called `Option::unwrap()` on a `None` value", m)
      end
  end.

(** A client's assignment through the reference. *)
Definition ChildMut_modify (c : ChildMut K V) (f : V -> V) : M (Map K V) unit :=
  do entry <- ChildMut_deref_mut c;
  fun m =>
    match bt_get entry (Map_children m) with
    | Some (k, Some v) => (Ok tt, set_children (bt_insert entry (k, Some (f v)) (Map_children m)) m)
    | _ => (Panic "dangling reference", m)
    end.

Definition ChildMut_remove b (c : ChildMut K V) : M (Map K V) unit :=
  match c with
  | ChildUnmodified inner =>
      do kv <- liftM (unwrap inner "called `Option::unwrap()` on a `None` value");
      run Map_remove b kv.1; retM tt
  | ChildModified entry => fun m =>
      match bt_get entry (Map_children m) with
      | Some (k, _) => (Ok tt, set_children (bt_insert entry (k, None) (Map_children m)) m)
      | None => (Panic "dangling reference", m)
      end
  end.

Definition Entry_or_create (e : Entry K V) (value : V) : M (Map K V) (ChildMut K V) :=
  match e with
  | EntryVacant key =>
      do key_bytes <- liftM (Encode_encode key);
      fun m =>
        match State_attach (Store_sub (Map_store m) key_bytes) value with
        | (Ok _, value') => (Ok (ChildUnmodified (Some (key, value'))), m)
        | (Err er, _) => (Err er, m)
        | (Panic w, _) => (Panic w, m)
        end
  | EntryOccupied child => retM child
  end.

Definition Entry_or_insert (e : Entry K V) (value : V) : M (Map K V) (ChildMut K V) :=
  do child <- Entry_or_create e value;
  do entry <- ChildMut_deref_mut child;
  retM (ChildModified entry).

Definition Entry_remove b (e : Entry K V) : M (Map K V) bool :=
  match e with
  | EntryOccupied child => run ChildMut_remove b child; retM true
  | EntryVacant _ => retM false
  end.

Definition Entry_or_default (default : V) (e : Entry K V) : M (Map K V) (ChildMut K V) :=
  Entry_or_create e default.
Definition Entry_or_insert_default (default : V) (e : Entry K V) : M (Map K V) (ChildMut K V) :=
  Entry_or_insert e default.

(** ** Flushing *)

(** The read-only walk of [remove_from_store]. *)
Fixpoint collect_prefixed (fuel : nat) (s : Store) (b : St) (prefix : bytes) (it : Iter) : res (list bytes) :=
  match fuel with
  | O => Panic "out of fuel"
  | S fuel' =>
      match Iter_next (s, b) it with
      | (Ok None, _) => Ok []
      | (Ok (Some (inr e)), _) => Err e
      | (Ok (Some (inl (key, _))), it') =>
          if starts_with prefix key then
            let? l := collect_prefixed fuel' s b prefix it' in Ok (key :: l)
          else Ok []
      | (Err e, _) => Err e
      | (Panic w, _) => Panic w
      end
  end.

Fixpoint delete_all (s : Store) (keys : list bytes) : M St unit :=
  match keys with
  | [] => retM tt
  | key :: keys' => run Store_delete s key; delete_all s keys'
  end.

Definition Map_remove_from_store (s : Store) (prefix : bytes) : M St bool :=
  do to_delete <- readM (fun b =>
    collect_prefixed (S (entry_bound b)) s b prefix (Iter_new (Included prefix, Unbounded)));
  let exists_ := negb (length to_delete =? 0) in
  run delete_all s to_delete;
  retM exists_.

Definition Map_apply_change (s : Store) (key_bytes : bytes) (maybe_value : option V) : M St unit :=
  match maybe_value with
  | Some value =>
      do value_bytes <- State_flush value;
      Store_put s key_bytes value_bytes
  | None => run Map_remove_from_store s key_bytes; retM tt
  end.

(** [State for Map] *)

(** [attach]: the children in key order, then the map's own handle. *)
Fixpoint attach_children (s : Store) (c : BTree (K * option V)) : res unit * BTree (K * option V) :=
  match c with
  | [] => (Ok tt, [])
  | (kb, (k, v)) :: c' =>
      match State_attach (St := St) (Store_sub s kb) v with
      | (Ok _, v') => let '(r, c'') := attach_children s c' in (r, (kb, (k, v')) :: c'')
      | (Err e, v') => (Err e, (kb, (k, v')) :: c')
      | (Panic w, v') => (Panic w, (kb, (k, v')) :: c')
      end
  end.
Definition Map_attach (s : Store) : M (Map K V) unit := fun m =>
  match attach_children s (Map_children m) with
  | (Ok _, c) => (Ok tt, mkMap s c)
  | (Err e, c) => (Err e, mkMap (Map_store m) c)
  | (Panic w, c) => (Panic w, mkMap (Map_store m) c)
  end.

Fixpoint flush_children (s : Store) (c : BTree (K * option V)) : M St unit :=
  match c with
  | [] => retM tt
  | (_, (key, maybe_value)) :: c' =>
      do key_bytes <- liftM (Encode_encode key);
      run Map_apply_change s key_bytes maybe_value;
      flush_children s c'
  end.
Definition Map_flush (m : Map K V) : M St bytes :=
  run flush_children (Map_store m) (Map_children m);
  retM [].

Definition Map_load (s : Store) (bs : bytes) (b : St) : res (Map K V * bytes) :=
  match Map_attach s Map_new with
  | (Ok _, m) => Ok (m, bs)
  | (Err e, _) => Err e
  | (Panic w, _) => Panic w
  end.

Definition Map_with_store (s : Store) : res (Map K V) :=
  match Map_attach s Map_new with
  | (Ok _, m) => Ok m
  | (Err e, _) => Err e
  | (Panic w, _) => Panic w
  end.

#[export] Instance Map_State : State St (Map K V) :=
  {| State_attach := Map_attach; State_flush := Map_flush; State_load := Map_load |}.
End Ops.
