(* ===== verification/MapSpec.v ===== *)
(** * The laws of [Map]

    What the operations of [MapColl] do to the abstract content of a map, and
    that a map is a lawful [State] itself (so maps nest): flushing writes only
    under the map's prefix and the map loaded afterwards has the same content. *)

From stdpp Require Import base tactics numbers list strings gmap.
From Stdlib Require Import ZArith Lia.
From S2P Require Import Prelude Bytes BTree StoreIface StoreIter NullStore BufStore PrefixStore Codec StateIface MapColl.

(** ** Counting the entries of a view *)

Lemma size_list_to_map {V} (l : list (bytes * V)) : size (list_to_map l : gmap bytes V) <= length l.
Proof.
  induction l as [|[k x] l IH]; simpl; [by rewrite map_size_empty|].
  destruct ((list_to_map l : gmap bytes V) !! k) eqn:E.
  - rewrite map_size_insert_Some by eauto. lia.
  - rewrite map_size_insert_None by done. lia.
Qed.

Lemma size_strip p v : size (strip p v) <= size v.
Proof.
  unfold strip. etrans; [apply size_list_to_map|]. rewrite <- length_map_to_list.
  induction (map_to_list v) as [|e l IH]; simpl; [done|]. unfold omap in IH.
  destruct (strip_prefix p e.1); simpl; lia.
Qed.

Lemma length_range_entries (v : View) lo hi : length (range_entries v lo hi) <= size v.
Proof.
  rewrite <- (to_sorted_map v) at 2. unfold bt_map.
  rewrite map_size_list_to_map by apply bt_wf_NoDup, to_sorted_wf.
  unfold range_entries, bt_filter. apply length_filter.
Qed.

(** ** Removing a value and everything under it *)

Section RemoveFromStore.
Context `{Profile} `{WS : WriteSpec St} `{!Bounded St} `{!BoundedSpec St}.
Implicit Types (b : St) (s : Store).

Lemma collect_prefixed_spec s b v prefix fuel : forall it,
  reads_fwd (s, b) v -> length (Iter_rest v it) < fuel ->
  bt_wf (Iter_rest v it) -> Forall (fun e => ble prefix e.1) (Iter_rest v it) ->
  exists l, collect_prefixed fuel s b prefix it = Ok l /\
    forall k, k ∈ l <-> starts_with prefix k = true /\ k ∈ (Iter_rest v it).*1.
Proof.
  induction fuel as [|fuel IH]; intros it Hr Hf Hw Hp; [lia|]. simpl.
  destruct (Iter_next_spec (s, b) v it Hr) as (it' & -> & Hrest).
  destruct (Iter_rest v it) as [|[k x] R]; simpl in *; [exists []; set_solver|].
  apply bt_wf_cons in Hw as [Hw Hk]. apply Forall_cons in Hp as [Hpk Hp].
  destruct (starts_with prefix k) eqn:Hs.
  - destruct (IH it' Hr) as (l & -> & Hl); [rewrite Hrest; (done || lia)..|].
    exists (k :: l). split; [done|]. intros j. rewrite !elem_of_cons, Hl, Hrest. simpl.
    split; [intros [->|[]]; auto|intros [? [->|]]; auto].
  - exists []. split; [done|]. intros j. split; [by intros ?%elem_of_nil|].
    intros [Hsj [->|Hj]%elem_of_cons]; [congruence|].
    apply list_elem_of_fmap in Hj as ([j' y] & -> & Hj). rewrite Forall_forall in Hk.
    apply starts_with_spec in Hsj as [r Hr']. simpl in Hr'.
    rewrite (starts_with_convex prefix [] k r) in Hs; [done|by rewrite app_nil_r|].
    rewrite <- Hr'. left. apply (Hk _ Hj).
Qed.

Lemma delete_all_spec s keys : forall b,
  Read_inv b ->
  exists b', delete_all s keys b = (Ok tt, b') /\ Read_inv b' /\ keeps_writable b b' /\
    forall q x, view b' !! q = Some x <-> view b !! q = Some x /\ forall k, k ∈ keys -> q <> Store_prefix s ++ k.
Proof.
  induction keys as [|k keys IH]; intros b Hb; simpl.
  { exists b. split_and!; auto with orga. set_solver. }
  unfold bindM. destruct (Store_delete_spec s b k Hb) as (b1 & -> & Hb1 & Hv1 & Hk1).
  destruct (IH b1 Hb1) as (b' & -> & Hb' & Hk' & Hv'). exists b'. split_and!; eauto with orga.
  intros q x. rewrite Hv', Hv1, lookup_delete_Some. set_solver.
Qed.

Lemma Map_remove_from_store_spec s b prefix :
  Read_inv b ->
  exists e b', Map_remove_from_store s prefix b = (Ok e, b') /\ Read_inv b' /\ keeps_writable b b' /\
    (forall q, view b' !! q = if starts_with (Store_prefix s ++ prefix) q then None else view b !! q) /\
    (e = true <-> exists q, starts_with (Store_prefix s ++ prefix) q = true /\ is_Some (view b !! q)).
Proof.
  intros Hb. unfold Map_remove_from_store, bindM, readM.
  destruct (collect_prefixed_spec s b (Store_view s b) prefix (S (entry_bound b))
    (Iter_new (Included prefix, Unbounded))) as (l & -> & Hl).
  - by apply Store_reads_fwd.
  - apply Nat.lt_succ_r. etrans; [apply length_range_entries|].
    etrans; [apply size_strip|]. by apply entry_bound_spec.
  - apply range_entries_wf.
  - apply Forall_forall. intros [k x] [Hk _]%range_entries_elem. unfold bounds_contains in Hk; simpl in *.
    by destruct (bleb_spec prefix k).
  - assert (Hin : forall r, prefix ++ r ∈ l <-> is_Some (view b !! (Store_prefix s ++ prefix ++ r))).
    { intros r. rewrite Hl, starts_with_app. unfold Iter_rest; simpl.
      rewrite list_elem_of_fmap. split.
      - intros [_ ([k x] & Hk & Hin)]. simpl in Hk. subst k. apply range_entries_elem in Hin as [_ Hin].
        unfold Store_view in Hin. rewrite strip_lookup in Hin. eauto.
      - intros [x Hx]. split; [done|]. exists (prefix ++ r, x). split; [done|].
        apply range_entries_elem. unfold bounds_contains, Store_view. simpl. rewrite strip_lookup.
        split; [|done]. rewrite andb_true_r. destruct (bleb_spec prefix (prefix ++ r)) as [|Hn]; [done|].
        destruct Hn. apply ble_app_r. }
    destruct (delete_all_spec s l b Hb) as (b' & -> & Hb' & Hk' & Hv').
    do 2 eexists. split; [done|]. split_and!; [done..| |].
    + intros q. destruct (starts_with (Store_prefix s ++ prefix) q) eqn:Eq.
      * apply starts_with_spec in Eq as [r ->]. rewrite <- app_assoc.
        destruct (view b' !! _) as [x|] eqn:E; [|done]. apply Hv' in E as [E Hne].
        destruct (Hne (prefix ++ r)); [|done]. apply Hin. eauto.
      * apply option_eq. intros x. rewrite Hv'. split; [by intros []|]. intros Hx. split; [done|].
        intros k Hk ->. apply Hl in Hk as [Hk _]. by rewrite starts_with_sub, Hk in Eq.
    + destruct l as [|k l]; simpl; split; try done.
      * intros (q & Hq & Hs). apply starts_with_spec in Hq as [r ->]. rewrite <- app_assoc in Hs.
        apply Hin in Hs. by apply elem_of_nil in Hs.
      * intros _. assert (Hk : k ∈ k :: l) by left. pose proof Hk as [Hs _]%Hl.
        apply starts_with_spec in Hs as [r ->]. apply Hin in Hk. exists (Store_prefix s ++ prefix ++ r).
        split; [|done]. by rewrite app_assoc, starts_with_app.
Qed.
End RemoveFromStore.

Section MapSpec.
Context `{Profile} `{WS : WriteSpec St} `{!Bounded St} `{!BoundedSpec St}.
Context `{KS : KeySpec K} {V : Type} {SV : State St V} `{!StateSpec St V}.
Implicit Types (b : St) (s : Store) (m : Map K V) (k j : K).

Abbreviation content := (K -> option (model (V := V))).
Implicit Types (f : content).

(** ** The abstract content *)

(** A value (or none) and the content it stands for. *)
Definition val_abs s b (ov : option V) (ox : option model) : Prop :=
  match ov, ox with
  | Some v, Some x => attached s v /\ abs b v x
  | None, None => True
  | _, _ => False
  end.

(** What the store alone holds for a key. *)
Definition store_holds s b k (ox : option model) : Prop :=
  match view b !! (Store_prefix s ++ enc k) with
  | None => ox = None
  | Some bs => exists x, ox = Some x /\ loads (Store_sub s (enc k)) b bs x
  end.

Definition Map_abs b m f : Prop := forall k,
  match bt_get (enc k) (Map_children m) with
  | Some (_, o) => val_abs (Store_sub (Map_store m) (enc k)) b o (f k)
  | None => store_holds (Map_store m) b k (f k)
  end.

(** The representation invariant: sorted, keyed by the encoding, and every value
    attached under its key. *)
Definition child_ok s (e : bytes * (K * option V)) : Prop :=
  e.1 = enc e.2.1 /\ forall v, e.2.2 = Some v -> attached (Store_sub s (enc e.2.1)) v.
Definition Map_attached s m : Prop :=
  Map_store m = s /\ bt_wf (Map_children m) /\ Forall (child_ok s) (Map_children m).

(** Content update at one key. *)
Definition upd f k (ox : option model) : content :=
  fun j => if decide (enc j = enc k) then ox else f j.

Lemma upd_same f k ox : upd f k ox k = ox.
Proof. unfold upd. by rewrite decide_True. Qed.
Lemma upd_other f k ox j : j <> k -> upd f k ox j = f j.
Proof. intros Hne. unfold upd. rewrite decide_False; [done|]. by intros ?%enc_inj. Qed.

Lemma MapKey_new_ok k : MapKey_new k = Ok (mkMapKey k (enc k)).
Proof. unfold MapKey_new. by rewrite encode_enc. Qed.

(** ** Reading *)

Lemma get_from_store_spec b m k ox :
  Read_inv b -> store_holds (Map_store m) b k ox ->
  exists ov, Map_get_from_store b m k = Ok ov /\ val_abs (Store_sub (Map_store m) (enc k)) b ov ox.
Proof.
  intros Hb. unfold store_holds, Map_get_from_store. rewrite encode_enc. simpl.
  unfold Store_get. rewrite Read_get_spec by done. simpl.
  destruct (view b !! _) as [bs|]; [|intros ->; by exists None].
  intros (x & -> & Hl). destruct (Hl b [] Hb (agree_under_refl _ _)) as (v & Hv & Ha & Hx); [by right|].
  rewrite app_nil_r in Hv. rewrite Hv. simpl. rewrite andb_false_r. by exists (Some v).
Qed.

Lemma Map_get_spec b m f k :
  Read_inv b -> Map_abs b m f ->
  exists r, Map_get b m k = Ok r /\
    val_abs (Store_sub (Map_store m) (enc k)) b (Ref_deref <$> r) (f k).
Proof.
  intros Hb Hf. specialize (Hf k). unfold Map_get. rewrite MapKey_new_ok. simpl.
  destruct (bt_get (enc k) (Map_children m)) as [[k' o]|] eqn:E.
  - exists (RefBorrowed <$> o). split; [done|]. by destruct o.
  - destruct (get_from_store_spec b m k _ Hb Hf) as (ov & -> & Hv). simpl.
    exists (RefOwned <$> ov). split; [done|]. by destruct ov.
Qed.

Lemma Map_contains_key_spec b m f k :
  Read_inv b -> Map_abs b m f ->
  Map_contains_key b m k = Ok (if f k is Some _ then true else false).
Proof.
  intros Hb Hf. specialize (Hf k). unfold Map_contains_key. rewrite MapKey_new_ok. simpl.
  destruct (bt_get (enc k) (Map_children m)) as [[k' [v|]]|] eqn:E.
  - by destruct (f k).
  - by destruct (f k).
  - destruct (get_from_store_spec b m k _ Hb Hf) as (ov & -> & Hv). simpl.
    by destruct ov, (f k).
Qed.

(** ** Writing *)

(** Putting a value, or its absence, at the entry of a key. *)
Lemma insert_child_spec s b m f k o ox :
  Map_attached s m -> Map_abs b m f -> val_abs (Store_sub s (enc k)) b o ox ->
  Map_attached s (set_children (bt_insert (enc k) (k, o) (Map_children m)) m) /\
  Map_abs b (set_children (bt_insert (enc k) (k, o) (Map_children m)) m) (upd f k ox).
Proof.
  intros (<- & Hw & Hc) Hf Hv. split; [split_and!|].
  - done.
  - by apply bt_insert_wf.
  - apply Forall_forall. intros [kb [k' o']] Hin. simpl in Hin.
    apply bt_elem in Hin; [|by apply bt_insert_wf]. rewrite bt_insert_map in Hin.
    apply lookup_insert_Some in Hin as [[<- [= <- <-]]|[Hne Hin]].
    + split; [done|]. simpl. intros v ->. by destruct ox; [apply Hv|].
    + apply bt_elem in Hin; [|done]. rewrite Forall_forall in Hc. apply (Hc _ Hin).
  - intros j. simpl. rewrite bt_get_insert. unfold upd.
    destruct (decide (enc j = enc k)) as [->%enc_inj|Hne]; [done|]. apply Hf.
Qed.

Lemma put_child_ok s b m f k o ox :
  Map_attached s m -> Map_abs b m f -> val_abs (Store_sub s (enc k)) b o ox ->
  exists m', put_child (mkMapKey k (enc k)) o m = (Ok tt, m') /\ Map_attached s m' /\
    Map_abs b m' (upd f k ox).
Proof. intros. eexists. split; [done|]. by apply insert_child_spec. Qed.

Lemma Map_insert_spec s b m f k v :
  Map_attached s m -> Map_abs b m f -> valid v ->
  exists v', State_attach (Store_sub s (enc k)) v = (Ok tt, v') /\
    attached (Store_sub s (enc k)) v' /\
    forall x, abs b v' x ->
    exists m', Map_insert k v m = (Ok tt, m') /\ Map_attached s m' /\
      Map_abs b m' (upd f k (Some x)).
Proof.
  intros Hm Hf Hval. destruct (attach_spec (Store_sub s (enc k)) v Hval) as (v' & Hv & Ha).
  exists v'. split_and!; [done..|]. intros x Hx. unfold Map_insert. rewrite MapKey_new_ok. simpl.
  rewrite (proj1 Hm), Hv. by apply put_child_ok.
Qed.

Lemma Map_remove_raw_spec s b m f k :
  Read_inv b -> Map_attached s m -> Map_abs b m f ->
  exists o m', Map_remove_raw b k m = (Ok o, m') /\ val_abs (Store_sub s (enc k)) b o (f k) /\
    Map_attached s m' /\ Map_abs b m' (upd f k None).
Proof.
  intros Hb Hm Hf. pose proof (Hf k) as Hk. unfold Map_remove_raw. rewrite MapKey_new_ok. simpl.
  pose proof (insert_child_spec s b m f k None None Hm Hf I) as [Hn1 Hn2].
  pose proof Hm as (Hs & Hw & Hc).
  destruct (bt_get (enc k) (Map_children m)) as [[k' o]|] eqn:E.
  - rewrite Hs in Hk. do 2 eexists. split; [done|]. by split_and!.
  - destruct (get_from_store_spec b m k _ Hb Hk) as (ov & -> & Hv). rewrite Hs in Hv.
    destruct ov as [v|].
    + do 2 eexists. split; [done|]. by split_and!.
    + exists None, m. split_and!; [done..|]. intros j. unfold upd.
      destruct (decide (enc j = enc k)) as [->%enc_inj|Hne]; [|apply Hf].
      rewrite E. destruct (f k); [done|]. exact Hk.
Qed.

(** Values that stay attached when they are moved to another key: those that
    keep no state of their own in the store. *)
Definition portable : Prop := forall s t (v : V), attached s v -> attached t v.

Lemma upd_upd_swap f i j k :
  upd (upd (upd (upd f i None) j None) i (upd f i None j)) j (f i) k =
  upd (upd f i (f j)) j (f i) k.
Proof. unfold upd. repeat case_decide; try done; congruence. Qed.

Lemma Map_abs_ext b m f g : (forall k, f k = g k) -> Map_abs b m f -> Map_abs b m g.
Proof. intros Hfg Hf k. rewrite <- Hfg. apply Hf. Qed.

Lemma Map_swap_spec s b m f i j :
  Read_inv b -> Map_attached s m -> Map_abs b m f -> portable ->
  is_Some (f i) -> is_Some (f j) ->
  exists m', Map_swap b i j m = (Ok tt, m') /\ Map_attached s m' /\
    Map_abs b m' (upd (upd f i (f j)) j (f i)).
Proof.
  intros Hb Hm Hf Hp [x Hi] [y Hj]. unfold Map_swap, bindM, readM.
  rewrite (Map_contains_key_spec b m f i), Hi by done.
  rewrite (Map_contains_key_spec b m f j), Hj by done. cbn [negb andb].
  destruct (Map_remove_raw_spec s b m f i Hb Hm Hf) as (oi & m1 & -> & Hvi & Hm1 & Hf1).
  destruct (Map_remove_raw_spec s b m1 _ j Hb Hm1 Hf1) as (oj & m2 & -> & Hvj & Hm2 & Hf2).
  unfold liftM. rewrite MapKey_new_ok.
  assert (Hmove : forall k k' o ox, val_abs (Store_sub s (enc k)) b o ox -> val_abs (Store_sub s (enc k')) b o ox).
  { intros k k' [v|] [z|]; simpl; try done. intros [? ?]. split; [by eapply Hp|done]. }
  destruct (put_child_ok s b m2 _ i oj (upd f i None j) Hm2 Hf2) as (m3 & -> & Hm3 & Hf3); [by eapply Hmove, Hvj|].
  rewrite MapKey_new_ok.
  destruct (put_child_ok s b m3 _ j oi (f i) Hm3 Hf3) as (m4 & -> & Hm4 & Hf4); [by eapply Hmove|].
  exists m4. split_and!; [done..|].
  eapply Map_abs_ext, Hf4. intros k. rewrite upd_upd_swap. by rewrite Hi, Hj.
Qed.

(** ** Entries *)

Lemma child_key s m k k' (o : option V) :
  Map_attached s m -> bt_get (enc k) (Map_children m) = Some (k', o) -> k' = k.
Proof.
  intros (_ & Hw & Hc) Hk. rewrite bt_get_lookup in Hk. apply bt_elem in Hk; [|done].
  rewrite Forall_forall in Hc. destruct (Hc _ Hk) as [He _]. simpl in He. symmetry. by apply enc_inj.
Qed.

Lemma Map_entry_spec s b m f k :
  Read_inv b -> Map_attached s m -> Map_abs b m f ->
  (exists v x, f k = Some x /\ attached (Store_sub s (enc k)) v /\ abs b v x /\
     bt_get (enc k) (Map_children m) = None /\
     Map_entry b k m = (Ok (EntryOccupied (ChildUnmodified (Some (k, v)))), m)) \/
  (exists o, bt_get (enc k) (Map_children m) = Some (k, o) /\
     val_abs (Store_sub s (enc k)) b o (f k) /\
     Map_entry b k m = (Ok (EntryOccupied (ChildModified (enc k))), m)) \/
  (f k = None /\ bt_get (enc k) (Map_children m) = None /\
     Map_entry b k m = (Ok (EntryVacant k), m)).
Proof.
  intros Hb Hm Hf. pose proof (Hf k) as Hk. unfold Map_entry. rewrite MapKey_new_ok. simpl.
  destruct (bt_get (enc k) (Map_children m)) as [[k' o]|] eqn:E.
  - right. left. pose proof (child_key _ _ _ _ _ Hm E) as ->. exists o. by rewrite <- (proj1 Hm).
  - destruct (get_from_store_spec b m k _ Hb Hk) as (ov & -> & Hv). rewrite (proj1 Hm) in Hv.
    destruct ov as [v|], (f k) as [x|] eqn:Efk; try done.
    + left. exists v, x. by destruct Hv.
    + right. right. done.
Qed.

(** Assigning through a reference obtained from an occupied entry. *)
Lemma ChildMut_modify_spec s b m f k v x g y :
  Map_attached s m -> Map_abs b m f ->
  attached (Store_sub s (enc k)) v -> abs b v x ->
  attached (Store_sub s (enc k)) (g v) -> abs b (g v) y ->
  forall c, (c = ChildUnmodified (Some (k, v)) \/
             c = ChildModified (enc k) /\ bt_get (enc k) (Map_children m) = Some (k, Some v)) ->
  exists m', ChildMut_modify c g m = (Ok tt, m') /\ Map_attached s m' /\
    Map_abs b m' (upd f k (Some y)).
Proof.
  intros Hm Hf Hv Hx Hg Hy c Hc. unfold ChildMut_modify, bindM.
  destruct Hc as [->|[-> Hc]]; simpl.
  - unfold bindM, liftM. simpl. rewrite MapKey_new_ok. simpl.
    rewrite bt_get_insert, decide_True by done. eexists. split; [done|].
    destruct (insert_child_spec s b m f k (Some (g v)) (Some y) Hm Hf (conj Hg Hy)) as [Hi1 Hi2].
    unfold set_children in *. simpl. by rewrite bt_insert_twice.
  - rewrite Hc. rewrite Hc. eexists. split; [done|].
    by apply insert_child_spec.
Qed.

(** ** Flushing *)

(** [b'] differs from [b] at most at the key [k] of the map and under it. *)
Definition only_at s k b b' : Prop := forall q,
  starts_with (Store_prefix s ++ enc k) q = false -> view b' !! q = view b !! q.

Lemma enc_disjoint j k : j <> k -> disjoint_prefixes (enc j) (enc k).
Proof.
  intros Hne. split; apply not_true_iff_false; intros Hs; destruct Hne.
  - apply (enc_prefix_free j k []). by rewrite app_nil_r.
  - symmetry. apply (enc_prefix_free k j []). by rewrite app_nil_r.
Qed.

Lemma only_at_other s k b b' j r :
  only_at s k b b' -> j <> k ->
  view b' !! (Store_prefix s ++ enc j ++ r) = view b !! (Store_prefix s ++ enc j ++ r).
Proof.
  intros Hb Hne. apply Hb. rewrite starts_with_sub. apply not_true_iff_false.
  intros Hs%enc_prefix_free. congruence.
Qed.

Lemma only_at_agree s k b b' j : only_at s k b b' -> j <> k -> agree_under (Store_sub s (enc j)) b b'.
Proof.
  intros Hb Hne r Hr. simpl. rewrite <- !app_assoc. symmetry. by eapply only_at_other.
Qed.

Lemma only_at_under s k b b' : only_at s k b b' -> only_under s b b'.
Proof.
  intros Hb q Hq. apply Hb. apply not_true_iff_false. intros [r ->]%starts_with_spec.
  apply (Hq (enc k ++ r)); [|by rewrite app_assoc].
  intros [?%enc_nonempty _]%app_eq_nil. done.
Qed.

Lemma only_under_at s k b b' : only_under (Store_sub s (enc k)) b b' -> only_at s k b b'.
Proof.
  intros Hb q Hq. apply Hb. intros r _ ->. simpl in Hq. by rewrite starts_with_app in Hq.
Qed.

Lemma val_abs_frame s b b' o ox : agree_under s b b' -> val_abs s b o ox -> val_abs s b' o ox.
Proof.
  intros Hb. destruct o as [v|], ox as [x|]; simpl; try done.
  intros [Ha Hx]. split; [done|]. by eapply abs_frame.
Qed.

Lemma store_holds_frame s b b' k ox :
  view b' !! (Store_prefix s ++ enc k) = view b !! (Store_prefix s ++ enc k) ->
  agree_under (Store_sub s (enc k)) b b' -> store_holds s b k ox -> store_holds s b' k ox.
Proof.
  intros Hk Hb. unfold store_holds. rewrite Hk. destruct (view b !! _); [|done].
  intros (x & -> & Hl). exists x. split; [done|]. by eapply loads_agree.
Qed.

(** Writing out the first child keeps the content of the map that is left. *)
Lemma Map_abs_step s b b' k o (c : BTree (K * option V)) f :
  bt_wf ((enc k, (k, o)) :: c) -> Map_abs b (mkMap s ((enc k, (k, o)) :: c)) f ->
  only_at s k b b' -> store_holds s b' k (f k) -> Map_abs b' (mkMap s c) f.
Proof.
  intros Hw Hf Hb Hk j. specialize (Hf j). cbn [Map_children Map_store] in *.
  destruct (decide (enc j = enc k)) as [->%enc_inj|Hne'].
  - by rewrite (bt_get_lookup _ c), (bt_map_head _ _ _ Hw).
  - assert (j <> k) as Hne by congruence. rewrite bt_get_ne in Hf by done.
    destruct (bt_get (enc j) c) as [[k' o']|].
    + eapply val_abs_frame, Hf. by eapply only_at_agree.
    + eapply store_holds_frame, Hf; [|by eapply only_at_agree].
      rewrite <- (app_nil_r (enc j)). by eapply only_at_other.
Qed.

Definition child_flushable s b (e : bytes * (K * option V)) : Prop :=
  forall v, e.2.2 = Some v ->
    Store_writable s b (enc e.2.1) /\ flushable (Store_sub s (enc e.2.1)) b v.

Lemma child_flushable_mono s b b' e :
  keeps_writable b b' -> child_flushable s b e -> child_flushable s b' e.
Proof.
  intros Hk He v Hv. destruct (He v Hv) as [[? ?] ?]. split; [by split; auto|].
  by eapply flushable_mono.
Qed.

Lemma Map_apply_change_spec s b k o ox :
  Read_inv b -> val_abs (Store_sub s (enc k)) b o ox -> child_flushable s b (enc k, (k, o)) ->
  exists b', Map_apply_change s (enc k) o b = (Ok tt, b') /\ Read_inv b' /\ keeps_writable b b' /\
    only_at s k b b' /\ store_holds s b' k ox.
Proof.
  intros Hb Hv Hfl. destruct o as [v|], ox as [x|]; simpl in *; try done; unfold bindM.
  - destruct Hv as [Ha Hx]. destruct (Hfl v eq_refl) as [Hw Hf]. simpl in *.
    destruct (flush_spec _ b v x Ha Hb Hf Hx) as (bs & b1 & -> & Hb1 & Hu1 & Hk1 & Hl1).
    destruct (Store_put_spec s b1 (enc k) bs Hb1) as (b2 & -> & Hb2 & Hv2 & Hk2);
      [destruct Hw; by split; auto|].
    exists b2. split_and!; [done..|eauto with orga| |].
    + intros q Hq. rewrite Hv2, lookup_insert_ne by (intros <-; by rewrite starts_with_refl in Hq).
      by apply (only_under_at _ _ _ _ Hu1).
    + unfold store_holds. rewrite Hv2, lookup_insert_eq. exists x. split; [done|].
      intros b3 rest Hb3 Hag Hr. apply Hl1; [done| |done].
      eapply agree_under_trans, Hag. intros r Hr'. simpl. rewrite Hv2, lookup_insert_ne; [done|].
      rewrite <- (app_nil_r (_ ++ enc k)) at 1. by intros ?%app_inv_head.
  - destruct (Map_remove_from_store_spec s b (enc k) Hb) as (e & b' & -> & Hb' & Hk' & Hv' & _).
    exists b'. split_and!; [done..| |].
    + intros q Hq. by rewrite Hv', Hq.
    + unfold store_holds. by rewrite Hv', starts_with_refl.
Qed.

Lemma flush_children_spec s c : forall b f,
  Map_attached s (mkMap s c) -> Read_inv b -> Forall (child_flushable s b) c ->
  Map_abs b (mkMap s c) f ->
  exists b', flush_children s c b = (Ok tt, b') /\ Read_inv b' /\ only_under s b b' /\
    keeps_writable b b' /\ Map_abs b' (mkMap s []) f.
Proof.
  induction c as [|[kb [k o]] c IH]; intros b f (_ & Hw & Hc) Hb Hfl Hf; cbn [Map_children] in *.
  { exists b. split_and!; auto with orga. }
  apply Forall_cons in Hc as [[Hkb _] Hc], Hfl as [Hfk Hfl]. cbn [fst snd] in Hkb. subst kb.
  cbn [flush_children]. unfold bindM, liftM. rewrite encode_enc.
  pose proof (Hf k) as Hk. cbn [Map_children Map_store] in Hk. rewrite bt_get_eq in Hk.
  destruct (Map_apply_change_spec s b k o (f k) Hb Hk Hfk) as (b1 & -> & Hb1 & Hk1 & Ha1 & Hh1).
  destruct (IH b1 f) as (b' & -> & Hb' & Hu' & Hk' & Hf').
  - split_and!; [done|by apply bt_wf_cons in Hw as []|done].
  - done.
  - eapply Forall_impl; [exact Hfl|]. eauto using child_flushable_mono.
  - by eapply Map_abs_step.
  - exists b'. split_and!; [done..| | |done]; eauto using only_at_under with orga.
Qed.

(** A map that is not attached yet. *)
Definition child_valid (e : bytes * (K * option V)) : Prop := e.1 = enc e.2.1 /\ valid e.2.2.
Definition Map_valid m : Prop := bt_wf (Map_children m) /\ Forall child_valid (Map_children m).

Lemma attach_children_spec s (c : BTree (K * option V)) :
  bt_wf c -> Forall child_valid c ->
  exists c', attach_children (St := St) s c = (Ok tt, c') /\ bt_wf c' /\ Forall (child_ok s) c' /\ c'.*1 = c.*1.
Proof.
  induction c as [|[kb [k o]] c IH]; intros Hw Hk; [by exists []|].
  pose proof Hw as [Hw' Hf]%bt_wf_cons. apply Forall_cons in Hk as [[Hkb Hvo] Hk]. cbn [fst snd] in *. subst kb.
  destruct (IH Hw' Hk) as (c' & Hc' & Hwc & Hok & Hfst). cbn [attach_children].
  destruct (attach_spec (V := option V) (Store_sub s (enc k)) o Hvo) as (o' & -> & Ho'). rewrite Hc'.
  exists ((enc k, (k, o')) :: c'). split; [done|]. split_and!.
  - apply bt_wf_cons. split; [done|]. apply (Forall_fmap fst (blt (enc k))). rewrite Hfst.
    by apply Forall_fmap.
  - constructor; [|done]. split; [done|]. simpl. intros v ->. exact Ho'.
  - rewrite !fmap_cons. by rewrite Hfst.
Qed.

Lemma Map_abs_frame s b b' m f :
  Map_attached s m -> agree_under s b b' -> Map_abs b m f -> Map_abs b' m f.
Proof.
  intros (<- & Hw & Hc) Hb Hf k. specialize (Hf k).
  destruct (bt_get (enc k) (Map_children m)) as [[k' o]|].
  - eapply val_abs_frame, Hf. auto with orga.
  - eapply store_holds_frame, Hf; [|by auto with orga]. symmetry. apply Hb, enc_nonempty.
Qed.

Lemma Map_flush_spec s b m f :
  Map_attached s m -> Read_inv b -> Forall (child_flushable s b) (Map_children m) -> Map_abs b m f ->
  exists b', Map_flush m b = (Ok [], b') /\ Read_inv b' /\ only_under s b b' /\ keeps_writable b b' /\
    forall b2, Read_inv b2 -> agree_under s b' b2 -> Map_abs b2 (mkMap s []) f.
Proof.
  destruct m as [s0 c]. intros Hm Hb Hfl Hf. pose proof (proj1 Hm) as Hs. simpl in Hs. subst s0.
  unfold Map_flush, bindM. simpl.
  destruct (flush_children_spec s c b f Hm Hb Hfl Hf) as (b' & -> & Hb' & Hu & Hk & Hf').
  exists b'. split_and!; [done..|]. intros b2 Hb2 Hag. eapply Map_abs_frame, Hf'; [|done].
  split_and!; [done|constructor..].
Qed.

(** Attaching an attached map again changes nothing of its content. *)
Definition same_child s (e e' : bytes * (K * option V)) : Prop :=
  e'.1 = e.1 /\ e'.2.1 = e.2.1 /\
  forall b ox, val_abs (Store_sub s (enc e.2.1)) b e.2.2 ox -> val_abs (Store_sub s (enc e.2.1)) b e'.2.2 ox.

Lemma reattach_children_spec s (c : BTree (K * option V)) :
  Forall (child_ok s) c ->
  exists c', attach_children (St := St) s c = (Ok tt, c') /\ Forall2 (same_child s) c c' /\ Forall (child_ok s) c'.
Proof.
  induction 1 as [|[kb [k o]] c [Hk Ho] Hc IH]; [by exists []|]. cbn [fst snd] in *. subst kb.
  destruct IH as (c' & Hc' & H2' & Hok). cbn [attach_children]. rewrite Hc'.
  destruct (reattach_spec (V := option V) (Store_sub s (enc k)) o) as (o' & -> & Ho' & Hx).
  { destruct o; [by apply Ho|done]. }
  exists ((enc k, (k, o')) :: c'). split; [done|]. split.
  - constructor; [|done]. split_and!; [done..|]. simpl. intros b ox Hv.
    specialize (Hx b ox). simpl in Hx, Ho'. unfold val_abs in *. destruct o, o', ox; try done; naive_solver.
  - constructor; [|done]. split; [done|]. simpl. by intros v ->.
Qed.

Lemma same_child_get s c c' kb :
  Forall2 (same_child s) c c' ->
  match bt_get kb c, bt_get kb c' with
  | Some e, Some e' => same_child s (kb, e) (kb, e')
  | None, None => True
  | _, _ => False
  end.
Proof.
  induction 1 as [|[k1 e1] [k2 e2] c c' (Hk & He & Hv) _ IH]; simpl in *; [done|]. subst k2.
  destruct (beqb_spec kb k1) as [->|]; [|done]. by split_and!.
Qed.

Lemma same_child_wf s c c' : Forall2 (same_child s) c c' -> bt_wf c -> bt_wf c'.
Proof.
  induction 1 as [|[k1 e1] [k2 e2] c c' (Hk & _) Hcc IH]; [done|]. simpl in Hk. subst k2.
  intros [Hw Hf]%bt_wf_cons. apply bt_wf_cons. split; [auto|]. clear -Hcc Hf.
  induction Hcc as [|[k3 e3] [k4 e4] c c' (Hk & _) _ IH]; [constructor|]. simpl in Hk. subst k4.
  apply Forall_cons in Hf as [? Hf]. constructor; auto.
Qed.

Lemma Map_reattach_spec s m :
  Map_attached s m ->
  exists m', Map_attach (St := St) s m = (Ok tt, m') /\ Map_attached s m' /\ forall b f, Map_abs b m f -> Map_abs b m' f.
Proof.
  destruct m as [s0 c]. intros (Hs & Hw & Hc). simpl in *. subst s0.
  destruct (reattach_children_spec s c Hc) as (c' & Hc' & H2' & Hok).
  exists (mkMap s c'). unfold Map_attach. simpl. rewrite Hc'. split_and!; [done| |].
  - split_and!; [done|by eapply same_child_wf|done].
  - intros b f Hf k. specialize (Hf k). cbn [Map_children Map_store] in *.
    pose proof (same_child_get s c c' (enc k) H2') as Hg.
    destruct (bt_get (enc k) c) as [[k1 o]|] eqn:E, (bt_get (enc k) c') as [[k2 o']|]; try done.
    assert (Map_attached s (mkMap s c)) as Hm by done.
    pose proof (child_key s (mkMap s c) k k1 o Hm E) as ->. by apply Hg.
Qed.

Lemma Map_attach_spec s m :
  Map_valid m -> exists m', Map_attach (St := St) s m = (Ok tt, m') /\ Map_attached s m'.
Proof.
  intros [Hw Hv]. destruct (attach_children_spec s _ Hw Hv) as (c & Hc & Hwc & Hok & _).
  exists (mkMap s c). unfold Map_attach. by rewrite Hc.
Qed.

Lemma Map_attached_valid s m : Map_attached s m -> Map_valid m.
Proof.
  intros (_ & Hw & Hc). split; [done|]. eapply Forall_impl; [exact Hc|].
  intros [kb [k [v|]]] [Hk Hv]; split; [done| |done|done]. simpl.
  eapply attached_valid. by apply Hv.
Qed.

(** A map is itself a lawful [State], so maps nest. *)
#[export] Instance Map_StateSpec : StateSpec St (Map K V).
Proof.
  refine {| model := content; valid := Map_valid; attached := Map_attached; abs := Map_abs;
            State_terminated := True;
            flushable := fun s b m => Forall (child_flushable s b) (Map_children m) |}.
  - apply Map_attached_valid.
  - apply Map_attach_spec.
  - apply Map_reattach_spec.
  - apply Map_abs_frame.
  - intros s b b' m Hk Hf. eapply Forall_impl; [exact Hf|]. eauto using child_flushable_mono.
  - intros s b m f Hm Hb Hfl Hf.
    destruct (Map_flush_spec s b m f Hm Hb Hfl Hf) as (b' & Hfl' & Hb' & Hu & Hk & Hload).
    exists [], b'. split_and!; [done..|]. intros b2 rest Hb2 Hag _.
    exists (mkMap s []). split_and!; [done| |by apply Hload].
    split_and!; [done|constructor..].
Defined.
End MapSpec.
