(* ===== verification/MapProps.v ===== *)
(** * Properties of [Map], with concrete instances

    The headline theorems on the operations of [MapColl], proved from the laws in
    [MapSpec], and the behaviour at removed entries and old nested ones. *)

From stdpp Require Import base tactics numbers list strings gmap.
From Stdlib Require Import ZArith Lia.
From S2P Require Import Prelude Bytes BTree StoreIface StoreIter NullStore BufStore PrefixStore Codec StateIface MapColl MapSpec.

(** ** Instances *)

(** [state_impl!] for the unsigned integers. *)
#[export] Instance uint_State {St} n : State St (uint n) := leaf_State.
#[export] Instance uint_StateSpec `{WS : WriteSpec St} n : StateSpec St (uint n) := leaf_StateSpec (uint n).

#[export] Instance Empty_Bounded : Bounded Empty := {| entry_bound := fun _ => 0 |}.
#[export] Instance Empty_BoundedSpec : BoundedSpec Empty.
Proof. split. intros s _. done. Qed.

#[export] Instance BufStore_Bounded `{Bounded St} : Bounded (BufStore St) :=
  {| entry_bound := fun b => length (BufStore_map b) + entry_bound (BufStore_store b) |}.

Lemma size_overlay (m : gmap bytes (option bytes)) (v : View) : size (overlay m v) <= size m + size v.
Proof.
  rewrite <- (size_dom (D := gset bytes) (overlay m v)), <- (size_dom (D := gset bytes) m),
    <- (size_dom (D := gset bytes) v).
  assert (Hsub : dom (overlay m v) ⊆ dom m ∪ dom v).
  { intros k. rewrite elem_of_union, !elem_of_dom, overlay_lookup. destruct (m !! k); naive_solver. }
  etrans; [apply (subseteq_size _ _ Hsub)|]. rewrite size_union_alt.
  apply Nat.add_le_mono_l, subseteq_size. set_solver.
Qed.

#[export] Instance BufStore_BoundedSpec `{BS : BoundedSpec St} : BoundedSpec (BufStore St).
Proof.
  split. intros b [Hm Hs]. simpl. unfold BufStore_view. etrans; [apply size_overlay|].
  apply Nat.add_le_mono; [apply size_list_to_map|by apply entry_bound_spec].
Qed.

(** ** The content of a map *)

Section Props.
Context `{Profile} `{WS : WriteSpec St} `{!Bounded St} `{!BoundedSpec St}.
Context `{KS : KeySpec K} {V : Type} {SV : State St V} `{!StateSpec St V}.
Implicit Types (b : St) (s : Store) (m : Map K V) (k j : K).

(** C33: a [Map] behaves as a partial function from keys to values, whatever part
    of it is in memory, in the store, or deleted in memory over the store. [get]
    and [contains_key] answer from the content, [insert] sets it at one key and
    [remove] clears it there, returning what it held; no operation fails. *)
Theorem Map_operations_refine_content s b m (f : K -> option model) :
  Read_inv b -> Map_attached s m -> Map_abs b m f ->
  (forall k, Map_contains_key b m k = Ok (if f k is Some _ then true else false)) /\
  (forall k, exists r, Map_get b m k = Ok r /\
     val_abs (Store_sub s (enc k)) b (Ref_deref <$> r) (f k)) /\
  (forall k v, valid v -> exists v', State_attach (Store_sub s (enc k)) v = (Ok tt, v') /\
     forall x, abs b v' x -> exists m', Map_insert k v m = (Ok tt, m') /\ Map_attached s m' /\
       Map_abs b m' (upd f k (Some x))) /\
  (forall k, exists o m', Map_remove b k m = (Ok (ReadOnly_new <$> o), m') /\
     val_abs (Store_sub s (enc k)) b o (f k) /\ Map_attached s m' /\ Map_abs b m' (upd f k None)).
Proof.
  intros Hb Hm Hf. split_and!; intros k.
  - by apply Map_contains_key_spec.
  - destruct (Map_get_spec b m f k Hb Hf) as (r & Hr & Hv). exists r. by rewrite <- (proj1 Hm).
  - intros v Hv. destruct (Map_insert_spec s b m f k v Hm Hf Hv) as (v' & H1' & _ & H2'). eauto.
  - destruct (Map_remove_raw_spec s b m f k Hb Hm Hf) as (o & m' & Hr & Hv & Hm' & Hf').
    exists o, m'. unfold Map_remove, bindM. by rewrite Hr.
Qed.

(** C34: flushing a map and loading it again gives a map with the same content, for
    values that are themselves stateful too: every change in memory reaches the
    store, deletions remove the value with everything stored under it, untouched
    entries survive, and no key outside the map's prefix is written. The flush
    itself succeeds when the keys fit the store, and leaves nothing to decode. *)
Theorem Map_flush_load_roundtrip s b m (f : K -> option model) :
  Read_inv b -> Map_attached s m -> Map_abs b m f ->
  Forall (child_flushable s b) (Map_children m) ->
  exists b' m', Map_flush m b = (Ok [], b') /\ Read_inv b' /\ only_under s b b' /\
    Map_load s [] b' = Ok (m', []) /\ Map_children m' = [] /\ Map_attached s m' /\ Map_abs b' m' f.
Proof.
  intros Hb Hm Hf Hfl.
  destruct (Map_flush_spec s b m f Hm Hb Hfl Hf) as (b' & H1' & Hb' & Hu & _ & Hl).
  exists b', (mkMap s []). split_and!; try done; [by split_and!; [|constructor..]|].
  apply Hl; auto with orga.
Qed.

(** [swap] of two keys (or of a key with itself) that hold values exchanges their contents and changes
    nothing else, provided the value type keeps no state of its own in the
    store; with a missing key it fails and leaves the map unchanged. *)
Theorem Map_swap_exchanges s b m (f : K -> option model) i j :
  Read_inv b -> Map_attached s m -> Map_abs b m f -> portable (V := V) ->
  match f i, f j with
  | Some x, Some y => exists m', Map_swap b i j m = (Ok tt, m') /\ Map_attached s m' /\
      Map_abs b m' (upd (upd f i (Some y)) j (Some x))
  | _, _ => Map_swap b i j m = (Err (EApp "Swap failed. Key not found."), m)
  end.
Proof.
  intros Hb Hm Hf Hp. destruct (f i) as [x|] eqn:Ei; [destruct (f j) as [y|] eqn:Ej|].
  - destruct (Map_swap_spec s b m f i j Hb Hm Hf Hp) as (m' & Hs & Hm' & Hf'); [by rewrite ?Ei, ?Ej..|].
    rewrite Ei, Ej in Hf'. eauto.
  - unfold Map_swap, bindM, readM.
    by rewrite (Map_contains_key_spec b m f i), Ei, (Map_contains_key_spec b m f j), Ej.
  - unfold Map_swap, bindM, readM. by rewrite (Map_contains_key_spec b m f i), Ei.
Qed.

(** modifying a value through [get_mut] changes the content at that key to the
    new value, whether the value was in memory or came from the store, and
    nothing else. On a key with no value, [get_mut] either gives no reference or,
    when the key was deleted in memory, one that panics when it is used. *)
Theorem Map_get_mut_modify s b m (f : K -> option model) k (g : V -> V) :
  Read_inv b -> Map_attached s m -> Map_abs b m f ->
  (forall v, attached (Store_sub s (enc k)) v -> attached (Store_sub s (enc k)) (g v)) ->
  match f k with
  | Some x => forall y, (forall v, abs b v x -> abs b (g v) y) ->
      exists c m', Map_get_mut b k m = (Ok (Some c), m) /\ ChildMut_modify c g m = (Ok tt, m') /\
        Map_attached s m' /\ Map_abs b m' (upd f k (Some y))
  | None => forall c m', Map_get_mut b k m = (Ok (Some c), m') ->
      m' = m /\ ChildMut_deref m c = Panic "called `Option::unwrap()` on a `None` value"
  end.
Proof.
  intros Hb Hm Hf Hg. unfold Map_get_mut, bindM.
  destruct (Map_entry_spec s b m f k Hb Hm Hf)
    as [(v & x & Hk & Ha & Hx & Hn & ->)|[(o & Hc & Hv & ->)|(Hk & Hc & ->)]]; simpl.
  - rewrite Hk. intros y Hy. eexists _.
    destruct (ChildMut_modify_spec s b m f k v x g y Hm Hf Ha Hx (Hg v Ha) (Hy v Hx) _ (or_introl eq_refl)) as (m' & ? & ? & ?).
    exists m'. by split_and!.
  - destruct (f k) as [x|], o as [v|]; try done.
    + destruct Hv as [Ha Hx]. intros y Hy. eexists _.
      destruct (ChildMut_modify_spec s b m f k v x g y Hm Hf Ha Hx (Hg v Ha) (Hy v Hx) _
        (or_intror (conj eq_refl Hc))) as (m' & ? & ? & ?).
      exists m'. by split_and!.
    + intros c m' [= <- <-]. simpl. by rewrite Hc.
  - rewrite Hk. intros c m' [=].
Qed.

(** after [remove] of a key that held a value, [get_mut] of that key still
    returns a reference, and using it panics; so does [entry(key).or_insert(v)],
    which should have created the value; and [entry(key).remove()] reports that a
    value existed. *)
Theorem Map_entry_after_remove_panics s b m (f : K -> option model) k x v :
  Read_inv b -> Map_attached s m -> Map_abs b m f -> f k = Some x ->
  exists o m', Map_remove b k m = (Ok (Some o), m') /\
    (exists c, Map_get_mut b k m' = (Ok (Some c), m') /\
       ChildMut_deref m' c = Panic "called `Option::unwrap()` on a `None` value") /\
    (do e <- Map_entry b k; Entry_or_insert (St := St) e v) m'
      = (Panic "called `Option::unwrap()` on a `None` value", m') /\
    ((do e <- Map_entry b k; Entry_remove b e) m').1 = Ok true.
Proof.
  intros Hb Hm Hf Hk. pose proof (Hf k) as Hfk.
  assert (Hput : exists o, Map_remove_raw b k m =
            (Ok (Some o), set_children (bt_insert (enc k) (k, None) (Map_children m)) m)).
  { unfold Map_remove_raw. rewrite MapKey_new_ok. simpl.
    destruct (bt_get (enc k) (Map_children m)) as [[k' [o|]]|]; rewrite Hk in Hfk; [by exists o|done|].
    destruct (get_from_store_spec b m k _ Hb Hfk) as ([o|] & -> & ?); [by exists o|done]. }
  destruct Hput as [o Ho]. exists (ReadOnly_new o), (set_children (bt_insert (enc k) (k, None) (Map_children m)) m).
  assert (He : Map_entry b k (set_children (bt_insert (enc k) (k, None) (Map_children m)) m) =
    (Ok (EntryOccupied (ChildModified (enc k))), set_children (bt_insert (enc k) (k, None) (Map_children m)) m)).
  { unfold Map_entry. rewrite MapKey_new_ok. simpl. by rewrite bt_get_insert, decide_True. }
  split_and!.
  - unfold Map_remove, bindM. by rewrite Ho.
  - exists (ChildModified (enc k)). unfold Map_get_mut, bindM. rewrite He. split; [done|]. simpl.
    by rewrite bt_get_insert, decide_True.
  - unfold bindM. rewrite He. simpl. unfold Entry_or_insert, bindM. simpl. by rewrite bt_get_insert, decide_True.
  - unfold bindM. rewrite He. simpl. unfold bindM. simpl. by rewrite bt_get_insert, decide_True.
Qed.
End Props.

(** ** Maps of maps *)

Section Nested.
Context `{Profile} `{WS : WriteSpec St} `{!Bounded St} `{!BoundedSpec St}.
Context `{KS : KeySpec K} `{KS2 : KeySpec K2} {V : Type} {SV : State St V} `{!StateSpec St V}.

(** inserting a new, empty map at a key under which the store still holds the
    entries of an earlier value does not give an empty map: the new value shows
    the old entries, also when the key was removed (in memory) just before. *)
Theorem Map_insert_resurrects_old_entries s (b : St) (m : Map K (Map K2 V))
    (f : K -> option (model (V := Map K2 V))) (k : K) (old : K2 -> option (model (V := V))) :
  Read_inv b -> Map_attached s m -> Map_abs b m f -> store_holds (V := Map K2 V) s b k (Some old) ->
  exists m1 m2 o, Map_remove b k m = (Ok o, m1) /\ Map_insert k Map_new m1 = (Ok tt, m2) /\
    Map_attached s m2 /\ Map_abs b m2 (upd (V := Map K2 V) f k (Some old)).
Proof.
  intros Hb Hm Hf Hold.
  destruct (Map_remove_raw_spec s b m f k Hb Hm Hf) as (o & m1 & Hr & _ & Hm1 & Hf1).
  exists m1. destruct (Map_insert_spec s b m1 _ k (Map_new (K := K2) (V := V)) Hm1 Hf1) as (v' & Hv & _ & Hi).
  { split; constructor. }
  simpl in Hv. unfold Map_attach in Hv. simpl in Hv. injection Hv as <-.
  unfold store_holds in Hold. destruct (view b !! _) as [bs|]; [|done].
  destruct Hold as (x & [= <-] & Hl).
  destruct (Hl b [] Hb (agree_under_refl _ _) (or_intror eq_refl)) as (v & Hv & _ & Hx).
  simpl in Hv. unfold Map_load in Hv. simpl in Hv. injection Hv as <-.
  destruct (Hi old Hx) as (m2 & Hi2 & Hm2 & Hf2). exists m2, (ReadOnly_new <$> o). split_and!; [|done..|].
  - unfold Map_remove, bindM. by rewrite Hr.
  - eapply Map_abs_ext, Hf2. intros j. unfold upd. by destruct (decide _).
Qed.
End Nested.

(** *** Witnesses: maps from bytes to bytes over an in-memory store *)

#[export] Instance dev_profile : Profile := {| overflow_checks := true; debug_assertions := true |}.

Abbreviation n8 := (to_uint 1).
(** A store with the value 10 at key 1 (under the map's prefix [[7]]) and a map over it that has
    changed key 2 to 20 in memory. *)
Definition ex_mstore : MapStore := mkBufStore [([7; 1], Some [10])]%Z mkEmpty.
Definition ex_map : Map u8 u8 := mkMap (mkStore [7]%Z) [([2]%Z, (n8 2, Some (n8 20)))].
Definition ex_content (k : u8) : option u8 :=
  if decide (k = n8 1) then Some (n8 10) else if decide (k = n8 2) then Some (n8 20) else None.

Definition ex_upd : (u8 -> option u8) -> u8 -> option u8 -> u8 -> option u8 :=
  upd (St := MapStore) (V := u8).

Lemma ex_mstore_inv : Read_inv ex_mstore.
Proof. split; [by repeat constructor|done]. Qed.
Lemma ex_map_attached : Map_attached (St := MapStore) (mkStore [7]%Z) ex_map.
Proof. split_and!; [done|by repeat constructor|]. constructor; [|constructor]. by split. Qed.

Lemma u8_enc (k : u8) : enc k = [uint_val k].
Proof.
  change (enc k) with (to_be_bytes 1 (uint_val k)). simpl. f_equal.
  apply Z.mod_small. exact (proj1 (uint_range_spec 1 _) (uint_ok _ k)).
Qed.

Lemma ex_map_abs : Map_abs ex_mstore ex_map ex_content.
Proof.
  intros k. rewrite u8_enc. cbn [Map_children ex_map bt_get].
  destruct (beqb_spec [uint_val k] [2]%Z) as [Hk|Hk].
  - simplify_eq. assert (k = n8 2) as -> by by apply uint_eq. by vm_compute.
  - unfold store_holds. rewrite u8_enc. cbn [Map_store ex_map Store_prefix app].
    assert (Hv : view ex_mstore = {[ [7; 1]%Z := [10]%Z ]}) by by vm_compute.
    rewrite Hv. unfold ex_content. destruct (decide (k = n8 1)) as [->|Hk1].
    + exists (n8 10). split; [done|]. intros b2 rest _ _ _. exists (n8 10). split; [|done]. by vm_compute.
    + rewrite lookup_singleton_ne; [|intros [= Hkv]; by destruct Hk1; apply uint_eq].
      rewrite decide_False; [done|]. intros ->. by apply Hk.
Qed.

Lemma ex_portable : portable (St := MapStore) (V := u8).
Proof. done. Qed.
Lemma ex_flushable : Forall (child_flushable (mkStore [7]%Z) ex_mstore) (Map_children ex_map).
Proof.
  constructor; [|constructor]. intros v _. split; [|done]. split; [|done].
  rewrite u8_enc. simpl. lia.
Qed.

Lemma Map_operations_refine_content_witness :
  Map_get ex_mstore ex_map (n8 1) = Ok (Some (RefOwned (n8 10))) /\
  forall k, Map_contains_key ex_mstore ex_map k = Ok (if ex_content k is Some _ then true else false).
Proof.
  split; [vm_compute; repeat f_equal; by apply uint_eq|].
  pose proof (Map_operations_refine_content (mkStore [7]%Z) ex_mstore ex_map) as Hthm.
  apply (Hthm ex_content
           ex_mstore_inv ex_map_attached ex_map_abs).
Defined.

Lemma Map_flush_load_roundtrip_witness :
  exists b' m', Map_flush ex_map ex_mstore = (Ok [], b') /\ Read_inv b' /\
    only_under (mkStore [7]%Z) ex_mstore b' /\ Map_load (mkStore [7]%Z) [] b' = Ok (m', []) /\
    Map_children m' = [] /\ Map_attached (St := MapStore) (mkStore [7]%Z) m' /\ Map_abs b' m' ex_content.
Proof.
  pose proof (Map_flush_load_roundtrip (mkStore [7]%Z) ex_mstore ex_map) as Hthm.
  apply (Hthm ex_content
           ex_mstore_inv ex_map_attached ex_map_abs ex_flushable).
Defined.

Lemma Map_swap_exchanges_witness :
  exists m', Map_swap ex_mstore (n8 1) (n8 2) ex_map = (Ok tt, m') /\
    Map_attached (St := MapStore) (mkStore [7]%Z) m' /\
    Map_abs ex_mstore m' (ex_upd (ex_upd ex_content (n8 1) (Some (n8 20))) (n8 2) (Some (n8 10))).
Proof.
  pose proof (Map_swap_exchanges (mkStore [7]%Z) ex_mstore ex_map) as Hthm.
  apply (Hthm ex_content (n8 1) (n8 2)
           ex_mstore_inv ex_map_attached ex_map_abs ex_portable).
Defined.

Lemma Map_get_mut_modify_witness :
  exists c m', Map_get_mut ex_mstore (n8 1) ex_map = (Ok (Some c), ex_map) /\
    ChildMut_modify c (fun _ => n8 11) ex_map = (Ok tt, m') /\
    Map_attached (St := MapStore) (mkStore [7]%Z) m' /\
    Map_abs ex_mstore m' (ex_upd ex_content (n8 1) (Some (n8 11))).
Proof.
  pose proof (Map_get_mut_modify (mkStore [7]%Z) ex_mstore ex_map) as Hthm.
  apply (Hthm ex_content (n8 1) (fun _ => n8 11)
           ex_mstore_inv ex_map_attached ex_map_abs); done.
Defined.

Lemma Map_entry_after_remove_panics_witness :
  exists o m', Map_remove ex_mstore (n8 1) ex_map = (Ok (Some o), m') /\
    (exists c, Map_get_mut ex_mstore (n8 1) m' = (Ok (Some c), m') /\
       ChildMut_deref m' c = Panic "called `Option::unwrap()` on a `None` value") /\
    (do e <- Map_entry ex_mstore (n8 1); Entry_or_insert (St := MapStore) e (n8 5)) m'
      = (Panic "called `Option::unwrap()` on a `None` value", m') /\
    ((do e <- Map_entry ex_mstore (n8 1); Entry_remove ex_mstore e) m').1 = Ok true.
Proof.
  pose proof (Map_entry_after_remove_panics (mkStore [7]%Z) ex_mstore ex_map) as Hthm.
  apply (Hthm ex_content (n8 1) (n8 10) (n8 5)
           ex_mstore_inv ex_map_attached ex_map_abs eq_refl).
Defined.

(** A map of maps with the entry 1 -> 5 -> 50 in the store. *)
Definition ex_nstore : MapStore := mkBufStore [([7; 1], Some []); ([7; 1; 5], Some [50])]%Z mkEmpty.
Definition ex_nmap : Map u8 (Map u8 u8) := mkMap (mkStore [7]%Z) [].
Definition ex_inner (j : u8) : option u8 := if decide (j = n8 5) then Some (n8 50) else None.
Definition ex_ncontent (k : u8) : option (u8 -> option u8) :=
  if decide (k = n8 1) then Some ex_inner else None.

Definition ex_nupd : (u8 -> option (u8 -> option u8)) -> u8 -> option (u8 -> option u8) ->
  u8 -> option (u8 -> option u8) := upd (St := MapStore) (V := Map u8 u8).

Lemma ex_nstore_inv : Read_inv ex_nstore.
Proof. split; [by repeat constructor|done]. Qed.
Lemma ex_nstore_view : view ex_nstore = <[ [7; 1]%Z := [] ]> {[ [7; 1; 5]%Z := [50]%Z ]}.
Proof. by vm_compute. Qed.

Lemma ex_nstore_holds : store_holds (V := Map u8 u8) (mkStore [7]%Z) ex_nstore (n8 1) (Some ex_inner).
Proof.
  unfold store_holds. rewrite u8_enc. rewrite ex_nstore_view. cbn [Store_prefix].
  exists ex_inner. split; [done|]. intros b2 rest Hb2 Hag _.
  exists (mkMap (Store_sub (mkStore [7]%Z) (enc (n8 1))) []).
  split; [done|]. split; [split_and!; [done|constructor..]|].
  intros j. cbn [Map_children bt_get Map_store]. unfold store_holds.
  rewrite <- (Hag (enc j)) by apply enc_nonempty. rewrite ex_nstore_view, !u8_enc.
  cbn [Store_prefix Store_sub app]. rewrite lookup_insert_ne by done. unfold ex_inner.
  destruct (decide (j = n8 5)) as [->|Hj].
  - exists (n8 50). split; [done|]. intros b3 rest3 _ _ _. exists (n8 50). split; [|done]. by vm_compute.
  - rewrite lookup_singleton_ne; [done|]. intros [= Hv]. destruct Hj. by apply uint_eq.
Qed.

Lemma ex_nmap_attached : Map_attached (St := MapStore) (mkStore [7]%Z) ex_nmap.
Proof. split_and!; [done|constructor..]. Qed.
Lemma ex_nmap_abs : Map_abs (V := Map u8 u8) ex_nstore ex_nmap ex_ncontent.
Proof.
  intros k. cbn [Map_children ex_nmap bt_get Map_store]. unfold ex_ncontent.
  destruct (decide (k = n8 1)) as [->|Hk]; [exact ex_nstore_holds|].
  unfold store_holds. rewrite u8_enc, ex_nstore_view. cbn [Store_prefix app].
  rewrite lookup_insert_ne; [|intros [= Hv]; destruct Hk; by apply uint_eq].
  by rewrite lookup_singleton_ne.
Qed.

Lemma Map_insert_resurrects_old_entries_witness :
  exists m1 m2 o, Map_remove ex_nstore (n8 1) ex_nmap = (Ok o, m1) /\
    Map_insert (St := MapStore) (n8 1) Map_new m1 = (Ok tt, m2) /\
    Map_attached (St := MapStore) (mkStore [7]%Z) m2 /\
    Map_abs ex_nstore m2 (ex_nupd ex_ncontent (n8 1) (Some ex_inner)).
Proof.
  pose proof (Map_insert_resurrects_old_entries (mkStore [7]%Z) ex_nstore ex_nmap) as Hthm.
  apply (Hthm ex_ncontent (n8 1) ex_inner
           ex_nstore_inv ex_nmap_attached ex_nmap_abs ex_nstore_holds).
Defined.
