(* ===== verification/MapIter.v ===== *)
(** * Iterating over a [Map] ([src/collections/map.rs], [Iter] and [StoreNextIter])

    [StoreNextIter] walks over the store entries at a map's keys: after an entry it
    goes on at the incremented key, which skips what the entry's value keeps under
    its own key. [Iter] merges it with the entries in memory, which shadow the
    stored ones. Both directions are given. *)

From stdpp Require Import base tactics numbers list strings gmap.
From Stdlib Require Import ZArith Lia.
From S2P Require Import Prelude Bytes BTree StoreIface StoreIter NullStore BufStore PrefixStore Codec StateIface MapColl.

Record StoreNextIter := mkStoreNextIter { sni_next_key : Bound bytes; sni_end_key : Bound bytes }.

Section StoreNext.
Context {St : Type} `{Read St} {K : Type} `{Decode K}.
Implicit Types (s : Store) (b : St) (it : StoreNextIter).

(** [Some(Err(e))] is an error, [None] and [Some(Ok(_))] the two results. *)
Definition StoreNextIter_peek s b it : res (option KV) :=
  let? get_res := match sni_next_key it with
                  | Included key => Read_get_next_inclusive (s, b) key
                  | Excluded key => Read_get_next (s, b) key
                  | Unbounded => Read_get_next (s, b) []
                  end in
  match get_res with
  | None => Ok None
  | Some (key, value) =>
      match sni_end_key it with
      | Excluded end_ => if bleb end_ key then Ok None else Ok (Some (key, value))
      | Included end_ => if bltb end_ key then Ok None else Ok (Some (key, value))
      | Unbounded => Ok (Some (key, value))
      end
  end.

Definition StoreNextIter_peek_back s b it : res (option KV) :=
  let? get_res := match sni_end_key it with
                  | Included key => Read_get_prev_inclusive (s, b) (Some key)
                  | Excluded key => Read_get_prev (s, b) (Some key)
                  | Unbounded => Read_get_prev (s, b) None
                  end in
  match get_res with
  | None => Ok None
  | Some (key, value) =>
      if match sni_next_key it with
         | Excluded end_ => bleb key end_
         | Included end_ => bltb key end_
         | Unbounded => match key with [] => true | _ => false end
         end
      then Ok None
      else
        let? r := Decode_decode (K := K) key in
        match r.2 with
        | [] => Ok (Some (key, value))
        | key_slice =>
            let trimmed_key := take (length key - length key_slice) key in
            let? o := Read_get (s, b) trimmed_key in
            match o with
            | None => Err (EStore "Expected value")
            | Some value => Ok (Some (trimmed_key, value))
            end
        end
  end.

Definition StoreNextIter_next s b : M StoreNextIter (option KV) := fun it =>
  match StoreNextIter_peek s b it with
  | Ok (Some (key, value)) =>
      (Ok (Some (key, value)), mkStoreNextIter (Included (increment_bytes key)) (sni_end_key it))
  | Ok None => (Ok None, it)
  | Err e => (Err e, it)
  | Panic w => (Panic w, it)
  end.
Definition StoreNextIter_next_back s b : M StoreNextIter (option KV) := fun it =>
  match StoreNextIter_peek_back s b it with
  | Ok (Some (key, value)) =>
      (Ok (Some (key, value)),
       mkStoreNextIter (sni_next_key it)
         (match decrement_bytes key with Some k => Included k | None => Excluded [] end))
  | Ok None => (Ok None, it)
  | Err e => (Err e, it)
  | Panic w => (Panic w, it)
  end.
End StoreNext.

Section Iter.
Context {St : Type} `{Profile} `{Read St} {K V : Type} `{Encode K} `{Decode K} {SV : State St V}.
Implicit Types (b : St) (m : Map K V).

(** [map_iter] is the rest of the range of [children]. *)
Record MapIter := mkMapIter { mi_map_iter : BTree (K * option V); mi_store_iter : StoreNextIter }.

Definition encode_bound (bound : Bound K) : res (Bound bytes) :=
  match bound with
  | Included inner => let? bs := Encode_encode inner in Ok (Included bs)
  | Excluded inner => let? bs := Encode_encode inner in Ok (Excluded bs)
  | Unbounded => Ok Unbounded
  end.

Definition unwrap_res {A} (r : res A) : res A :=
  match r with
  | Err _ => Panic "called `Result::unwrap()` on an `Err` value"
  | r => r
  end.

(** [MapKey]s are ordered by their encoding. *)
Definition Map_range m (lo hi : Bound K) : res MapIter :=
  let? map_start := unwrap_res (encode_bound lo) in
  let? map_end := unwrap_res (encode_bound hi) in
  let? map_iter := bt_range map_start map_end (Map_children m) in
  let? start := encode_bound lo in
  let? end_ := encode_bound hi in
  Ok (mkMapIter map_iter (mkStoreNextIter start end_)).
Definition Map_iter m : res MapIter := Map_range m Unbounded Unbounded.

(** [peek_map_back] takes the last and the first entry and rebuilds the range
    between them. *)
Definition peek_map_back m : M MapIter (option (bytes * (K * option V))) := fun it =>
  match last (mi_map_iter it) with
  | None => (Ok None, it)
  | Some back_entry =>
      let front_key := match head (removelast (mi_map_iter it)) with
                       | Some e => e.1
                       | None => back_entry.1
                       end in
      match bt_range (Included front_key) (Included back_entry.1) (Map_children m) with
      | Ok l => (Ok (Some back_entry), mkMapIter l (mi_store_iter it))
      | Err e => (Err e, it)
      | Panic w => (Panic w, it)
      end
  end.

Definition in_store_iter {A} (f : M StoreNextIter A) : M MapIter A :=
  zoomM mi_store_iter (fun si it => mkMapIter (mi_map_iter it) si) f.
Definition map_next (forward : bool) : M MapIter (option (bytes * (K * option V))) := fun it =>
  if forward then (Ok (head (mi_map_iter it)), mkMapIter (tail (mi_map_iter it)) (mi_store_iter it))
  else (Ok (last (mi_map_iter it)), mkMapIter (removelast (mi_map_iter it)) (mi_store_iter it)).

(** [debug_assert!(bytes.is_empty(), ..)] *)
Definition assert_consumed (leftover : bytes) (msg : string) : res unit :=
  match leftover with
  | [] => Ok tt
  | _ => if debug_assertions then Panic msg else Ok tt
  end.

(** Decoding the key and the value of a store entry. *)
Definition entry_key (key_bytes : bytes) : res K :=
  let? r := Decode_decode key_bytes in
  let? _ := assert_consumed r.2 "Key had leftover bytes after decode" in
  Ok r.1.
Definition entry_value b m (entry : KV) : res V :=
  let? r := State_load (Store_sub (Map_store m) entry.1) entry.2 b in
  let? _ := assert_consumed r.2 "Value had leftover bytes after decode" in
  Ok r.1.

Definition expect_some {S A} (o : option A) : M S A :=
  match o with Some a => retM a | None => panicM "Peek ensures this arm is unreachable" end.

(** [n] bounds the turns: each [continue] has taken an entry of [map_iter]. *)
Fixpoint Map_iter_merge_next (n : nat) b m (forward : bool) : M MapIter (option (Ref K * Ref V)) :=
  match n with
  | O => panicM "out of fuel"
  | S n' =>
      do map_entry <- (if forward then readM (fun it => Ok (head (mi_map_iter it))) else peek_map_back m);
      do backing_entry <- (fun it : MapIter =>
        match (if forward then StoreNextIter_peek (Map_store m) b (mi_store_iter it)
               else StoreNextIter_peek_back (K := K) (Map_store m) b (mi_store_iter it)) with
        | Ok o => (Ok (inl o), it)
        | Err e => (Ok (inr e), it)
        | Panic w => (Panic w, it)
        end);
      let store_next := in_store_iter (if forward then StoreNextIter_next (Map_store m) b
                                       else StoreNextIter_next_back (K := K) (Map_store m) b) in
      let emit_map :=
        do e <- map_next forward;
        do e <- expect_some e;
        match e.2 with
        | (key, Some value) => retM (Some (RefBorrowed key, RefBorrowed value))
        | (_, None) => Map_iter_merge_next n' b m forward
        end in
      match map_entry, backing_entry with
      | None, inl None => retM None
      | Some _, inl None => emit_map
      | None, inr e => errM e
      | None, inl (Some _) =>
          do entry <- store_next;
          do entry <- expect_some entry;
          do key <- liftM (entry_key entry.1);
          do value <- liftM (entry_value b m entry);
          retM (Some (RefOwned key, RefOwned value))
      | Some _, inr _ => errM (EStore "Backing key does not exist")
      | Some map_entry, inl (Some (backing_key, _)) =>
          do key <- liftM (entry_key backing_key);
          let key_cmp := bcmp map_entry.1 backing_key in
          if (forward && (if key_cmp is Gt then true else false))
             || (negb forward && (if key_cmp is Lt then true else false))
          then
            do entry <- store_next;
            do entry <- expect_some entry;
            do value <- liftM (entry_value b m entry);
            retM (Some (RefOwned key, RefOwned value))
          else
            run (if key_cmp is Eq then store_next else retM None);
            emit_map
      end
  end.

Definition MapIter_next b m : M MapIter (option (Ref K * Ref V)) := fun it =>
  Map_iter_merge_next (S (length (mi_map_iter it))) b m true it.
Definition MapIter_next_back b m : M MapIter (option (Ref K * Ref V)) := fun it =>
  Map_iter_merge_next (S (length (mi_map_iter it))) b m false it.

(** [for entry in map.iter()? { let (k, v) = entry?; .. }] for at most [n]
    entries: the entries of the loop, or the error that ended it. *)
Fixpoint MapIter_collect (n : nat) b m (it : MapIter) : res (list (K * V)) :=
  match n with
  | O => Panic "out of fuel"
  | S n' =>
      match MapIter_next b m it with
      | (Ok None, _) => Ok []
      | (Ok (Some (key, value)), it') =>
          let? l := MapIter_collect n' b m it' in Ok ((Ref_deref key, Ref_deref value) :: l)
      | (Err e, _) => Err e
      | (Panic w, _) => Panic w
      end
  end.
End Iter.
