(* ===== verification/MapIterSpec.v ===== *)
(** * What iterating over a [Map] yields

    For keys of one width, none of them all [0xff] in the store, and a tidy store
    (nothing under a key that has no value), forward iteration yields exactly the
    content of the map, in the order of the encoded keys, and ends. With a stored
    key of all [0xff] it does not end: the incremented key wraps around. *)

From stdpp Require Import base tactics numbers list strings gmap.
From Stdlib Require Import ZArith Lia.
From S2P Require Import Prelude Bytes BTree StoreIface StoreIter NullStore BufStore PrefixStore Codec StateIface MapColl MapSpec MapProps MapIter.

(** ** Incrementing a key of fixed width *)

Abbreviation all_ff := (Forall (fun b : Z => b = 255%Z)).

Lemma incr_loop_app l x :
  incr_loop (l ++ [x]) =
  let '(r, ret) := incr_loop l in
  if ret then (r ++ [x], true)
  else if (x =? 255)%Z then (r ++ [0%Z], false) else (r ++ [(x + 1)%Z], true).
Proof.
  induction l as [|y l IH]; simpl; [by destruct (x =? 255)%Z|].
  destruct (y =? 255)%Z; [|done]. rewrite IH. destruct (incr_loop l) as [r []]; [done|]. by destruct (x =? 255)%Z.
Qed.

Lemma incr_loop_all_ff l : all_ff l -> incr_loop l = (replicate (length l) 0%Z, false).
Proof. induction 1 as [|x l -> _ IH]; simpl; [done|]. by rewrite IH. Qed.
Lemma incr_loop_returns l : ~ all_ff l -> exists r, incr_loop l = (r, true) /\ length r = length l.
Proof.
  induction l as [|x l IH]; intros Hn; [by destruct Hn|]. simpl.
  destruct (Z.eqb_spec x 255) as [->|]; [|by eexists].
  destruct IH as (r & -> & Hr); [intros Hl; apply Hn; by constructor|]. exists (0%Z :: r). simpl. by rewrite Hr.
Qed.

Lemma all_ff_rev l : all_ff (rev l) <-> all_ff l.
Proof. rewrite !Forall_forall. setoid_rewrite list_elem_of_In. setoid_rewrite <- in_rev. done. Qed.

Lemma rev_replicate n (x : Z) : rev (replicate n x) = replicate n x.
Proof. induction n as [|n IH]; simpl; [done|]. rewrite IH. by rewrite <- replicate_cons_app. Qed.

Lemma increment_cons_ff x l : all_ff l -> x <> 255%Z ->
  increment_bytes (x :: l) = (x + 1)%Z :: replicate (length l) 0%Z.
Proof.
  intros Hl Hx. unfold increment_bytes. cbn [rev]. rewrite incr_loop_app, incr_loop_all_ff by by apply all_ff_rev.
  destruct (Z.eqb_spec x 255); [done|]. by rewrite rev_app_distr, length_rev, rev_replicate.
Qed.
Lemma increment_cons x l : ~ all_ff l -> increment_bytes (x :: l) = x :: increment_bytes l.
Proof.
  intros Hl. unfold increment_bytes. cbn [rev]. rewrite incr_loop_app.
  destruct (incr_loop_returns (rev l)) as (r & -> & _); [by rewrite all_ff_rev|]. by rewrite rev_app_distr.
Qed.

Lemma increment_length l : ~ all_ff l -> length (increment_bytes l) = length l.
Proof.
  intros Hl. unfold increment_bytes. destruct (incr_loop_returns (rev l)) as (r & -> & Hr); [by rewrite all_ff_rev|].
  by rewrite length_rev, Hr, length_rev.
Qed.

Lemma ble_zeros l : is_bytes l -> ble (replicate (length l) 0%Z) l.
Proof. induction 1 as [|x l Hx Hl IH]; [by right|]. simpl. apply ble_cons. unfold is_u8 in Hx. destruct (decide (x = 0%Z)); [auto|left; lia]. Qed.
Lemma blt_ff_not l c : all_ff l -> is_bytes c -> length l = length c -> ~ blt l c.
Proof.
  intros Hl. revert c. induction Hl as [|x l -> _ IH]; intros [|y c] Hc Hlen; try done.
  apply Forall_cons in Hc as [Hy Hc]. unfold is_u8 in Hy. rewrite blt_cons. intros [?|[_ ?]]; [lia|].
  by eapply IH; [exact Hc|simpl in Hlen; lia|].
Qed.

(** The incremented key is the next one of its width. *)
Lemma increment_next a c :
  is_bytes a -> is_bytes c -> length a = length c -> ~ all_ff a ->
  ble (increment_bytes a) c <-> blt a c.
Proof.
  intros Ha. revert c. induction Ha as [|x a Hx Ha IH]; intros c Hc Hlen Hn; [by destruct Hn|].
  destruct c as [|y c]; [done|]. apply Forall_cons in Hc as [Hy Hc]. simpl in Hlen.
  destruct (decide (all_ff a)) as [Hff|Hff].
  - assert (x <> 255%Z) by (intros ->; apply Hn; by constructor). rewrite increment_cons_ff, ble_cons, blt_cons by done.
    assert (length a = length c) as -> by lia. pose proof (ble_zeros c Hc). pose proof (blt_ff_not a c Hff Hc ltac:(lia)).
    split.
    + intros [?|[? ?]]; left; lia.
    + intros [?|[? ?]]; [|done]. destruct (decide (y = x + 1)%Z); [right; done|left; lia].
  - rewrite increment_cons, ble_cons, blt_cons, IH by (done || lia). done.
Qed.

(** A bound of one width does not cut into the keys under a key of that width. *)
Lemma ble_app_width a c r : length a = length c -> ble a (c ++ r) <-> ble a c.
Proof.
  revert c. induction a as [|x a IH]; intros [|y c] Hl; try done; [split; intros; apply ble_nil|].
  simpl. rewrite !ble_cons, IH by (simpl in Hl; lia). done.
Qed.

(** ** Keys of one width *)

Class FixedKey (K : Type) `{CS : CodecSpec K} := {
  key_width : nat;
  enc_width (k : K) : length (enc k) = key_width;
  enc_is_bytes (k : K) : is_bytes (enc k)
}.
#[export] Instance uint_FixedKey n : FixedKey (uint n).
Proof.
  refine {| key_width := n |}; intros k; [|apply to_be_bytes_is_bytes].
  change (length (to_be_bytes n (uint_val k)) = n). apply to_be_bytes_length.
Defined.

Section IterSpec.
Context `{Profile} `{WS : WriteSpec St} `{!Bounded St} `{!BoundedSpec St}.
Context `{KS : KeySpec K} `{!FixedKey K} {V : Type} {SV : State St V} `{!StateSpec St V}.
Implicit Types (j k : K) (it : MapIter (K := K) (V := V)).

#[local] Instance key_eq_dec : EqDecision K.
Proof. intros j k. destruct (decide (enc j = enc k)) as [He|Hn]; [left; by apply enc_inj|right; by intros ->]. Qed.

(** Nothing is stored under a key that has no value. *)
Definition Map_tidy (s : Store) (b : St) : Prop := forall q, q <> [] -> is_Some (Store_view s b !! q) ->
  exists k r, q = enc k ++ r /\ is_Some (Store_view s b !! enc k).
Definition no_ff_key (s : Store) (b : St) : Prop := forall k, is_Some (Store_view s b !! enc k) -> ~ all_ff (enc k).

Context (s : Store) (b : St) (m : Map K V) (f : K -> option (model (V := V))).
Hypothesis Hb : Read_inv b.
Hypothesis Hm : Map_attached s m.
Hypothesis Hf : Map_abs b m f.
Hypothesis Htidy : Map_tidy s b.
Hypothesis Hff : no_ff_key s b.
Let stored k : Prop := is_Some (Store_view s b !! enc k).

(** *** The store iterator: the stored keys after the last one it gave *)

Definition beyond (pos : option K) j : Prop := match pos with None => True | Some k => blt (enc k) (enc j) end.
Definition sni_at (pos : option K) (si : StoreNextIter) : Prop :=
  sni_end_key si = Unbounded /\
  match pos with
  | None => sni_next_key si = Unbounded
  | Some k => sni_next_key si = Included (increment_bytes (enc k)) /\ ~ all_ff (enc k)
  end.

Lemma first_key P pos r :
  (forall q, P q -> q <> []) -> (forall k q, P (enc k ++ q) <-> beyond pos k) ->
  is_first (Store_view s b) P r ->
  match r with
  | None => forall k, beyond pos k -> ~ stored k
  | Some (q, x) => exists k, q = enc k /\ Store_view s b !! enc k = Some x /\ beyond pos k /\
      forall j, beyond pos j -> stored j -> ble (enc k) (enc j)
  end.
Proof.
  intros Hne HP Hr. assert (HP' : forall k, P (enc k) <-> beyond pos k) by (intros k; by rewrite <- (HP k []), app_nil_r).
  destruct r as [[q x]|].
  - destruct Hr as (Hq & HPq & Hmin). destruct (Htidy q (Hne q HPq)) as (k & r & -> & [y Hy]); [by eexists|].
    apply HP in HPq as Hk. assert (ble (enc k ++ r) (enc k)) as Hle by (eapply Hmin; [done|by apply HP']).
    pose proof (ble_app_r (enc k) r). assert (enc k ++ r = enc k) as Heq by border. rewrite Heq in *.
    exists k. split_and!; [done..|]. intros j Hj [z Hz]. eapply Hmin; [done|by apply HP'].
  - intros k Hk [x Hx]. by eapply Hr; [exact Hx|apply HP'].
Qed.

Lemma sni_peek_spec pos si :
  sni_at pos si ->
  exists r, StoreNextIter_peek s b si = Ok r /\
  match r with
  | None => forall k, beyond pos k -> ~ stored k
  | Some (q, x) => exists k, q = enc k /\ Store_view s b !! enc k = Some x /\ beyond pos k /\
      forall j, beyond pos j -> stored j -> ble (enc k) (enc j)
  end.
Proof.
  intros [He Hn]. pose proof (Store_reads_fwd s b Hb) as Hfwd. unfold StoreNextIter_peek. rewrite He.
  destruct pos as [k0|]; [destruct Hn as [Hn Hk0]|]; rewrite Hn.
  - destruct (get_next_inclusive_spec (s, b) _ (increment_bytes (enc k0)) Hfwd) as (r & -> & Hr). cbn [res_bind].
    exists r. split; [by destruct r as [[]|]|]. eapply (first_key _ (Some k0)), Hr.
    + intros q Hq ->. pose proof (increment_length _ Hk0) as Hl. pose proof (enc_nonempty k0).
      destruct (increment_bytes (enc k0)); [by destruct (enc k0)|]. destruct Hq as [Hq|]; [by apply blt_nil in Hq|done].
    + intros k q. rewrite ble_app_width by by rewrite increment_length, !enc_width.
      apply increment_next; auto using enc_is_bytes. by rewrite !enc_width.
  - destruct (proj2 Hfwd []) as (r & -> & Hr). cbn [res_bind]. exists r. split; [by destruct r as [[]|]|].
    eapply (first_key _ None), Hr.
    + intros q Hq ->. by apply blt_irrefl in Hq.
    + intros k q. split; [done|]. intros _. pose proof (enc_nonempty k). by destruct (enc k).
Qed.

Lemma sni_next_spec pos si k x :
  sni_at pos si -> StoreNextIter_peek s b si = Ok (Some (enc k, x)) -> stored k ->
  exists si', StoreNextIter_next s b si = (Ok (Some (enc k, x)), si') /\ sni_at (Some k) si'.
Proof.
  intros [He _] Hp Hk. unfold StoreNextIter_next. rewrite Hp. eexists. split; [done|].
  split; [done|]. split; [done|]. by apply Hff.
Qed.

(** *** What is left to yield *)

Implicit Types (l : BTree (K * option V)) (pos : option K).

Definition left_over l pos k : Prop :=
  (exists v, bt_get (enc k) l = Some (k, Some v)) \/ (bt_get (enc k) l = None /\ beyond pos k /\ stored k).

Record iter_inv l pos : Prop := {
  inv_wf : bt_wf l;
  inv_ok : Forall (child_ok s) l;
  inv_sub k e : bt_get (enc k) l = Some e -> bt_get (enc k) (Map_children m) = Some e;
  inv_shadow k : beyond pos k -> stored k -> bt_get (enc k) (Map_children m) <> None -> bt_get (enc k) l <> None
}.

Lemma inv_cons kb e l pos : iter_inv ((kb, e) :: l) pos ->
  kb = enc e.1 /\ bt_wf l /\ (forall j, is_Some (bt_get (enc j) l) -> blt kb (enc j)).
Proof.
  intros [Hw Hok _ _]. apply bt_wf_cons in Hw as [Hw Hall]. apply Forall_cons in Hok as [[Hk _] _].
  split_and!; [done..|]. intros j [e' He]. rewrite bt_get_lookup in He. apply bt_elem in He; [|done].
  rewrite Forall_forall in Hall. apply (Hall _ He).
Qed.

(** Taking the first entry in memory, with the store iterator moved past the key
    if it was there. *)
Lemma take_map_entry k o l pos pos' :
  iter_inv ((enc k, (k, o)) :: l) pos ->
  (forall j, stored j -> beyond pos j -> ble (enc k) (enc j)) ->
  (forall j, stored j -> beyond pos' j <-> beyond pos j /\ j <> k) ->
  iter_inv l pos' /\
  (forall j, left_over l pos' j <-> left_over ((enc k, (k, o)) :: l) pos j /\ j <> k) /\
  (forall j, left_over ((enc k, (k, o)) :: l) pos j -> ble (enc k) (enc j)).
Proof.
  intros Hinv Hmin Hpos. pose proof (inv_cons _ _ _ _ Hinv) as (_ & Hw & Hlt). destruct Hinv as [_ Hok Hsub Hsh].
  assert (Hget : forall j, j <> k -> bt_get (enc j) ((enc k, (k, o)) :: l) = bt_get (enc j) l).
  { intros j Hj. apply bt_get_ne. by intros ?%enc_inj. }
  assert (Hgk : bt_get (enc k) l = None).
  { destruct (bt_get (enc k) l) eqn:E; [|done]. pose proof (Hlt k) as Hk. rewrite E in Hk.
    destruct (blt_irrefl (enc k)). apply Hk. by eexists. }
  split_and!.
  - split; [done|by apply Forall_cons in Hok as []| |].
    + intros j e Hj. apply Hsub. rewrite Hget; [done|]. intros ->. by rewrite Hgk in Hj.
    + intros j Hj Hs Hc. apply (Hpos j Hs) in Hj as [Hj Hne]. rewrite <- Hget by done. by apply Hsh.
  - intros j. unfold left_over. destruct (decide (j = k)) as [->|Hne].
    + split; [|by intros [_ []]]. intros [[v Hv]|(_ & Hj & Hs)]; [by rewrite Hgk in Hv|]. by apply (Hpos k Hs) in Hj as [_ []].
    + rewrite Hget by done. split.
      * intros [Hv|(Hn & Hj & Hs)]; (split; [|done]); [by left|right]. split_and!; [done| |done]. by apply (Hpos j Hs) in Hj as [].
      * intros [[Hv|(Hn & Hj & Hs)] _]; [by left|right]. split_and!; [done| |done]. by apply (Hpos j Hs).
  - intros j [[v Hv]|(Hn & Hj & Hs)]; [|by apply Hmin].
    destruct (decide (j = k)) as [->|Hne]; [apply ble_refl|]. rewrite Hget in Hv by done. left. apply Hlt. by eexists.
Qed.

(** Taking the first stored entry, which is before all those in memory. *)
Lemma take_store_entry k l pos :
  iter_inv l pos -> stored k -> beyond pos k ->
  (forall j, beyond pos j -> stored j -> ble (enc k) (enc j)) ->
  (forall j, is_Some (bt_get (enc j) l) -> blt (enc k) (enc j)) ->
  iter_inv l (Some k) /\
  (forall j, left_over l (Some k) j <-> left_over l pos j /\ j <> k) /\
  left_over l pos k /\ (forall j, left_over l pos j -> ble (enc k) (enc j)) /\
  bt_get (enc k) (Map_children m) = None.
Proof.
  intros [Hw Hok Hsub Hsh] Hs Hk Hmin Hlt.
  assert (Hmono : forall j, beyond (Some k) j -> beyond pos j).
  { intros j Hj. destruct pos as [k0|]; [|done]. simpl in *. border. }
  assert (Hnext : forall j, stored j -> beyond pos j -> j <> k -> beyond (Some k) j).
  { intros j Hsj Hj Hne. destruct (Hmin j Hj Hsj) as [|He]; [done|]. by apply enc_inj in He as ->. }
  assert (Hgk : bt_get (enc k) l = None).
  { destruct (bt_get (enc k) l) eqn:E; [|done]. pose proof (Hlt k) as Hlk. rewrite E in Hlk.
    destruct (blt_irrefl (enc k)). apply Hlk. by eexists. }
  split_and!.
  - split; [done..|]. intros j Hj Hsj. apply Hsh; auto.
  - intros j. unfold left_over. split.
    + intros [[v Hv]|(Hn & Hj & Hsj)].
      * split; [left; eauto|]. intros ->. by rewrite Hgk in Hv.
      * split; [right; auto|]. intros ->. by apply blt_irrefl in Hj.
    + intros [[Hv|(Hn & Hj & Hsj)] Hne]; [by left|right; auto].
  - right. auto.
  - intros j [[v Hv]|(Hn & Hj & Hsj)]; [left; apply Hlt; by eexists|by apply Hmin].
  - destruct (bt_get (enc k) (Map_children m)) eqn:E; [|done]. exfalso. apply (Hsh k Hk Hs); [by rewrite E|done].
Qed.
(** *** One step *)

Definition yields l pos (r : option (Ref K * Ref V)) it : Prop :=
  match r with
  | None => forall k, ~ left_over l pos k
  | Some (rk, rv) =>
      left_over l pos (Ref_deref rk) /\
      (forall j, left_over l pos j -> ble (enc (Ref_deref rk)) (enc j)) /\
      val_abs (Store_sub s (enc (Ref_deref rk))) b (Some (Ref_deref rv)) (f (Ref_deref rk)) /\
      exists pos', sni_at pos' (mi_store_iter it) /\ iter_inv (mi_map_iter it) pos' /\
        forall j, left_over (mi_map_iter it) pos' j <-> left_over l pos j /\ j <> Ref_deref rk
  end.

Lemma yields_ext l pos l' pos' r it :
  (forall j, left_over l' pos' j <-> left_over l pos j) -> yields l' pos' r it -> yields l pos r it.
Proof.
  intros Hext. destruct r as [[rk rv]|]; simpl.
  - intros (Hk & Hmin & Hv & pos2 & ? & ? & Hl). split_and!; [by apply Hext|intros j Hj; by apply Hmin, Hext|done|].
    exists pos2. split_and!; [done..|]. intros j. by rewrite Hl, Hext.
  - intros Hn k Hk. by apply (Hn k), Hext.
Qed.

Lemma child_value k o l pos : iter_inv ((enc k, (k, o)) :: l) pos -> val_abs (Store_sub s (enc k)) b o (f k).
Proof.
  intros [_ _ Hsub _]. pose proof (Hf k) as Hk. rewrite (Hsub k (k, o)) in Hk by apply bt_get_eq.
  by rewrite (proj1 Hm) in Hk.
Qed.

Lemma stored_value k x :
  bt_get (enc k) (Map_children m) = None -> Store_view s b !! enc k = Some x ->
  exists v, entry_value b m (enc k, x) = Ok v /\ val_abs (Store_sub s (enc k)) b (Some v) (f k).
Proof.
  intros Hn Hx. pose proof (Hf k) as Hk. rewrite Hn, (proj1 Hm) in Hk. unfold store_holds in Hk.
  unfold Store_view in Hx. rewrite strip_lookup in Hx. rewrite Hx in Hk. destruct Hk as (y & Hy & Hl).
  destruct (Hl b [] Hb (agree_under_refl _ _)) as (v & Hv & Ha & Hab); [by right|]. rewrite app_nil_r in Hv.
  exists v. unfold entry_value. cbn [fst snd]. rewrite (proj1 Hm), Hv. split; [done|]. by rewrite Hy.
Qed.

Lemma entry_key_ok k : entry_key (enc k) = Ok k.
Proof. unfold entry_key. rewrite <- (app_nil_r (enc k)), decode_key. done. Qed.

(** Yielding, or passing over, the first entry in memory. *)
Lemma emit_map_spec n k o l pos pos' si :
  (forall l pos it, iter_inv l pos -> mi_map_iter it = l -> sni_at pos (mi_store_iter it) -> length l < n ->
     exists r it', Map_iter_merge_next n b m true it = (Ok r, it') /\ yields l pos r it') ->
  iter_inv ((enc k, (k, o)) :: l) pos -> sni_at pos' si -> length l < n ->
  (forall j, stored j -> beyond pos j -> ble (enc k) (enc j)) ->
  (forall j, stored j -> beyond pos' j <-> beyond pos j /\ j <> k) ->
  exists r it', (do e <- map_next true;
                 do e <- expect_some e;
                 match e.2 with
                 | (key, Some value) => retM (Some (RefBorrowed key, RefBorrowed value))
                 | (_, None) => Map_iter_merge_next n b m true
                 end) (mkMapIter ((enc k, (k, o)) :: l) si) = (Ok r, it') /\
    yields ((enc k, (k, o)) :: l) pos r it'.
Proof.
  intros IH Hinv Hsi Hn Hmin Hpos. destruct (take_map_entry k o l pos pos' Hinv Hmin Hpos) as (Hinv' & Hl & Hle).
  pose proof (child_value k o l pos Hinv) as Hv. unfold bindM, map_next. cbn [mi_map_iter mi_store_iter head tail].
  cbn [expect_some]. unfold retM at 1. cbn [snd]. destruct o as [v|].
  - eexists _, _. split; [done|]. cbn [yields Ref_deref mi_map_iter mi_store_iter]. split_and!; [|done|done|by exists pos'].
    left. exists v. apply bt_get_eq.
  - destruct (IH l pos' (mkMapIter l si) Hinv' eq_refl Hsi Hn) as (r & it' & -> & Hy).
    exists r, it'. split; [done|]. eapply yields_ext, Hy. intros j. rewrite Hl. split; [by intros []|]. intros Hj.
    split; [done|]. intros ->. destruct Hj as [[v Hg]|[Hg _]]; by rewrite bt_get_eq in Hg.
Qed.

Lemma merge_step n : forall l pos it,
  iter_inv l pos -> mi_map_iter it = l -> sni_at pos (mi_store_iter it) -> length l < n ->
  exists r it', Map_iter_merge_next n b m true it = (Ok r, it') /\ yields l pos r it'.
Proof.
  induction n as [|n IH]; intros l pos it Hinv Hit Hsi Hn; [lia|]. destruct it as [l' si]. simpl in Hit, Hsi. subst l'.
  cbn [Map_iter_merge_next]. unfold bindM at 1, readM. cbn [mi_map_iter].
  unfold bindM at 1. cbn [mi_store_iter]. rewrite (proj1 Hm).
  destruct (sni_peek_spec pos si Hsi) as (o & Hpeek & Ho). rewrite Hpeek.
  destruct l as [|[kb [k ov]] l]; cbn [head].
  - destruct o as [[q x]|].
    + destruct Ho as (k & -> & Hx & Hk & Hmin). assert (Hs : stored k) by by eexists.
      destruct (sni_next_spec pos si k x Hsi Hpeek Hs) as (si' & Hnext & Hsi').
      destruct (take_store_entry k [] pos Hinv Hs Hk Hmin) as (Hinv' & Hl & Hlo & Hle & Hn'); [by intros j []|].
      destruct (stored_value k x Hn' Hx) as (v & Hv & Hva).
      unfold bindM at 1, in_store_iter, zoomM. cbn [mi_store_iter]. rewrite Hnext.
      unfold bindM, expect_some, retM, liftM. cbn [fst]. rewrite entry_key_ok, Hv. cbn [mi_map_iter].
      eexists _, _. split; [done|]. cbn [yields Ref_deref mi_map_iter mi_store_iter]. split_and!; [done..|]. by exists (Some k).
    + eexists _, _. split; [done|]. intros k [[v Hv]|(_ & Hk & Hs)]; [done|]. by apply (Ho k).
  - pose proof (inv_cons _ _ _ _ Hinv) as (Hkb & Hw & Hlt). cbn [fst] in Hkb. subst kb. simpl in Hn.
    destruct o as [[q x]|].
    + destruct Ho as (k2 & -> & Hx & Hk2 & Hmin). assert (Hs : stored k2) by by eexists.
      destruct (sni_next_spec pos si k2 x Hsi Hpeek Hs) as (si' & Hnext & Hsi').
      unfold bindM at 1, liftM. rewrite entry_key_ok. cbn [andb orb negb fst].
      destruct (bcmp_spec (enc k) (enc k2)) as [Heq|Hlt2|Hgt2]; cbn [orb].
      * apply enc_inj in Heq as <-. unfold bindM at 1, in_store_iter at 1, zoomM at 1. cbn [mi_store_iter]. rewrite Hnext.
        apply (emit_map_spec n k ov l pos (Some k)); try done; [lia|by auto|].
        intros j Hsj. split.
        -- intros Hj. split; [|intros ->; by apply blt_irrefl in Hj]. destruct pos as [k0|]; [|done]. simpl in *. border.
        -- intros [Hj Hne]. destruct (Hmin j Hj Hsj) as [|He]; [done|]. by apply enc_inj in He as ->.
      * unfold bindM at 1, retM at 1. apply (emit_map_spec n k ov l pos pos); try done; [lia| |].
        -- intros j Hsj Hj. pose proof (Hmin j Hj Hsj). border.
        -- intros j Hsj. split; [|by intros []]. intros Hj. split; [done|]. intros ->. pose proof (Hmin k Hj Hsj). border.
      * destruct (take_store_entry k2 ((enc k, (k, ov)) :: l) pos Hinv Hs Hk2 Hmin) as (Hinv' & Hl & Hlo & Hle & Hn').
        { intros j [e He]. simpl in He. destruct (beqb_spec (enc j) (enc k)) as [->|]; [done|].
          assert (blt (enc k) (enc j)) by (apply Hlt; by eexists). border. }
        destruct (stored_value k2 x Hn' Hx) as (v & Hv & Hva).
        unfold bindM at 1, in_store_iter, zoomM. cbn [mi_store_iter]. rewrite Hnext.
        unfold bindM, expect_some, retM. rewrite Hv. cbn [mi_map_iter].
        eexists _, _. split; [done|]. cbn [yields Ref_deref mi_map_iter mi_store_iter]. split_and!; [done..|]. by exists (Some k2).
    + apply (emit_map_spec n k ov l pos pos); try done; [lia| |].
      * intros j Hsj Hj. by destruct (Ho j Hj).
      * intros j Hsj. split; [|by intros []]. intros Hj. by destruct (Ho j Hj).
Qed.

(** *** The whole iteration *)

Definition keys_sorted (l : list (K * V)) : Prop := Sorted.StronglySorted (fun e e' => blt (enc e.1) (enc e'.1)) l.

Lemma collect_spec n : forall pos it (L : gset bytes),
  iter_inv (mi_map_iter it) pos -> sni_at pos (mi_store_iter it) ->
  (forall k, left_over (mi_map_iter it) pos k -> enc k ∈ L) -> size L < n ->
  exists out, MapIter_collect n b m it = Ok out /\ keys_sorted out /\
    (forall k, k ∈ out.*1 <-> left_over (mi_map_iter it) pos k) /\
    Forall (fun e => val_abs (Store_sub s (enc e.1)) b (Some e.2) (f e.1)) out.
Proof.
  induction n as [|n IH]; intros pos it L Hinv Hsi HL Hn; [lia|]. cbn [MapIter_collect]. unfold MapIter_next.
  destruct (merge_step (S (length (mi_map_iter it))) _ pos it Hinv eq_refl Hsi ltac:(lia)) as (r & it' & -> & Hy).
  destruct r as [[rk rv]|].
  - destruct Hy as (Hk & Hmin & Hv & pos' & Hsi' & Hinv' & Hl).
    destruct (IH pos' it' (L ∖ {[ enc (Ref_deref rk) ]}) Hinv' Hsi') as (out & -> & Hsort & Hin & Hall).
    { intros j Hj. apply Hl in Hj as [Hj Hne]. apply elem_of_difference. split; [by apply HL|].
      rewrite elem_of_singleton. by intros ?%enc_inj. }
    { apply HL in Hk. assert (Hsz : size (L ∖ {[ enc (Ref_deref rk) ]}) < size L); [|lia].
      apply subset_size. set_solver. }
    eexists. split; [done|]. split_and!.
    + constructor; [done|]. apply Forall_forall. intros [k2 v2] Hin2. cbn [fst].
      assert (k2 ∈ out.*1) as Hk2 by (apply list_elem_of_fmap; by exists (k2, v2)).
      apply Hin, Hl in Hk2 as [Hk2 Hne]. destruct (Hmin k2 Hk2) as [|He]; [done|]. by apply enc_inj in He as <-.
    + intros k. rewrite fmap_cons, elem_of_cons, Hin, Hl. cbn [fst]. destruct (decide (k = Ref_deref rk)) as [->|]; naive_solver.
    + by constructor.
  - exists []. split; [done|]. split_and!; [constructor| |constructor]. intros k. rewrite elem_of_nil. split; [done|]. apply Hy.
Qed.
End IterSpec.

(** ** Properties *)

Lemma bt_filter_all {W} (t : BTree W) : bt_filter Unbounded Unbounded t = t.
Proof. unfold bt_filter. induction t as [|e t IH]; [done|]. rewrite filter_cons_True by done. by rewrite IH. Qed.

Lemma Map_iter_eq {K V} `{Encode K} (m : Map K V) :
  Map_iter m = Ok (mkMapIter (Map_children m) (mkStoreNextIter Unbounded Unbounded)).
Proof. unfold Map_iter, Map_range. simpl. by rewrite bt_filter_all. Qed.

Section Enumerate.
Context `{Profile} `{WS : WriteSpec St} `{!Bounded St} `{!BoundedSpec St}.
Context `{KS : KeySpec K} `{!FixedKey K} {V : Type} {SV : State St V} `{!StateSpec St V}.

Lemma Map_iter_collects (s : Store) (b : St) (m : Map K V) (f : K -> option model) (n : nat) :
  Read_inv b -> Map_attached s m -> Map_abs b m f -> Map_tidy (K := K) s b -> no_ff_key (K := K) s b ->
  length (Map_children m) + entry_bound b < n ->
  exists it out, Map_iter m = Ok it /\ MapIter_collect n b m it = Ok out /\ keys_sorted out /\
    (forall k, k ∈ out.*1 <-> is_Some (f k)) /\
    Forall (fun e => val_abs (Store_sub s (enc e.1)) b (Some e.2) (f e.1)) out.
Proof.
  intros Hb Hm Hf Ht Hff Hn. rewrite Map_iter_eq. eexists. pose proof Hm as (Hs & Hw & Hok).
  destruct (collect_spec s b m f Hb Hm Hf Ht Hff n None (mkMapIter (Map_children m) (mkStoreNextIter Unbounded Unbounded))
    (list_to_set (Map_children m).*1 ∪ dom (Store_view s b))) as (out & Hc & Hsort & Hin & Hall).
  - by split.
  - done.
  - intros k [[v Hv]|(_ & _ & Hst)]; apply elem_of_union.
    + left. apply elem_of_list_to_set, list_elem_of_fmap. exists (enc k, (k, Some v)). split; [done|].
      rewrite bt_get_lookup in Hv. by apply bt_elem in Hv.
    + right. by apply elem_of_dom.
  - rewrite size_union_alt. rewrite size_list_to_set, length_fmap by by apply bt_wf_NoDup.
    assert (size (dom (Store_view s b) ∖ list_to_set (Map_children m).*1) <= entry_bound b); [|lia].
    etrans; [apply (subseteq_size _ (dom (Store_view s b))); set_solver|]. rewrite size_dom.
    etrans; [apply size_strip|by apply entry_bound_spec].
  - exists out. split; [done|]. split_and!; [done..| |done]. intros k. rewrite Hin. pose proof (Hf k) as Hk.
    unfold left_over, Store_view. rewrite strip_lookup. cbn [mi_map_iter]. rewrite Hs in Hk.
    destruct (bt_get (enc k) (Map_children m)) as [[k' o]|] eqn:E.
    + pose proof (child_key s m k k' o Hm E) as ->. destruct o, (f k); try done; split; try done; [by eauto..|].
      intros [[v Hv]|[Hv _]]; done.
    + unfold store_holds in Hk. destruct (view b !! (Store_prefix s ++ enc k)) as [bs|].
      * destruct Hk as (x & -> & _). split; [by eexists|]. intros _. right. done.
      * rewrite Hk. split; [intros [[v Hv]|(_ & _ & [? Hq])]; done|by intros []].
Qed.

(** C36: iterating over a map yields every key that has a value, with that value,
    exactly once and in the order of the encoded keys, and ends; keys in memory
    shadow the stored ones, deleted ones are passed over, and what nested values
    keep under a key is not mistaken for entries. This is for keys of one width,
    no stored key being all [0xff], and a store with nothing under a key that has
    no value. *)
Theorem Map_iter_enumerates (s : Store) (b : St) (m : Map K V) (f : K -> option model) (n : nat) :
  Read_inv b -> Map_attached s m -> Map_abs b m f -> Map_tidy (K := K) s b -> no_ff_key (K := K) s b ->
  length (Map_children m) + entry_bound b < n ->
  exists it out, Map_iter m = Ok it /\ MapIter_collect n b m it = Ok out /\ keys_sorted out /\
    (forall k, k ∈ out.*1 <-> is_Some (f k)) /\
    Forall (fun e => val_abs (Store_sub s (enc e.1)) b (Some e.2) (f e.1)) out.
Proof. apply Map_iter_collects. Qed.

Lemma increment_ff l : all_ff l -> l <> [] -> increment_bytes l = 1%Z :: replicate (length l) 0%Z.
Proof.
  intros Hl Hne. unfold increment_bytes. rewrite incr_loop_all_ff by by apply all_ff_rev. rewrite rev_replicate, length_rev.
  destruct l as [|x l]; [done|]. simpl. f_equal. by rewrite <- replicate_cons_app.
Qed.

(** a map whose only entry is stored at the key of all [0xff] is never done
    iterating: the iterator increments the key past its end, to a smaller one, and
    yields the same entry again and again. *)
Theorem Map_iter_max_key_repeats (s : Store) (b : St) (k : K) (bs : bytes) (f : K -> option model) (n : nat) :
  Read_inv b -> Map_abs b (mkMap (V := V) s []) f -> Store_view s b = {[ enc k := bs ]} -> all_ff (enc k) ->
  exists it, Map_iter (mkMap (V := V) s []) = Ok it /\
    MapIter_collect n b (mkMap (V := V) s []) it = Panic "out of fuel".
Proof.
  intros Hb Hf Hview Hk. rewrite Map_iter_eq. eexists. split; [done|]. cbn [Map_children].
  assert (Hm : Map_attached (V := V) s (mkMap s [])) by (split_and!; [done|constructor..]).
  assert (Hx : Store_view s b !! enc k = Some bs) by (rewrite Hview; apply lookup_singleton_eq).
  destruct (stored_value s b (mkMap s []) f Hb Hm Hf k bs eq_refl Hx) as (v & Hv & _).
  assert (Hpeek : forall nk, nk = Unbounded \/ nk = Included (increment_bytes (enc k)) ->
    StoreNextIter_peek s b (mkStoreNextIter nk Unbounded) = Ok (Some (enc k, bs))).
  { intros nk Hnk. unfold StoreNextIter_peek. cbn [sni_next_key sni_end_key].
    pose proof (Store_reads_fwd s b Hb) as Hfwd.
    assert (Hfirst : forall P r, is_first (Store_view s b) P r -> P (enc k) -> r = Some (enc k, bs)).
    { intros P r Hr HP. destruct r as [[q y]|]; [|by destruct (Hr _ _ Hx)].
      destruct Hr as (Hq & _ & _). rewrite Hview in Hq. by apply lookup_singleton_Some in Hq as [<- <-]. }
    pose proof (enc_nonempty k) as Hne. destruct Hnk as [->| ->].
    - destruct (proj2 Hfwd []) as (r & -> & Hr). rewrite (Hfirst _ r Hr); [done|]. by destruct (enc k).
    - destruct (get_next_inclusive_spec (s, b) _ (increment_bytes (enc k)) Hfwd) as (r & -> & Hr).
      rewrite (Hfirst _ r Hr); [done|]. rewrite increment_ff by done. destruct (enc k) as [|x l]; [done|].
      apply Forall_cons in Hk as [-> _]. left. apply blt_cons. left. lia. }
  assert (Hloop : forall nk, nk = Unbounded \/ nk = Included (increment_bytes (enc k)) ->
    MapIter_collect n b (mkMap s []) (mkMapIter [] (mkStoreNextIter nk Unbounded)) = Panic "out of fuel");
    [|by auto].
  induction n as [|n IH]; intros nk Hnk; [done|]. cbn [MapIter_collect]. unfold MapIter_next.
  cbn [mi_map_iter length Map_iter_merge_next]. unfold bindM at 1, readM. cbn [mi_map_iter head].
  unfold bindM at 1. cbn [mi_store_iter Map_store]. rewrite Hpeek by done.
  unfold bindM at 1, in_store_iter, zoomM. cbn [mi_store_iter]. unfold StoreNextIter_next. rewrite Hpeek by done.
  unfold bindM, expect_some, retM, liftM. cbn [fst]. rewrite entry_key_ok, Hv. cbn [mi_map_iter sni_end_key].
  by rewrite IH by auto.
Qed.
End Enumerate.

(** *** Witnesses *)

Lemma ex_mstore_view7 : Store_view (mkStore [7]%Z) ex_mstore = {[ [1]%Z := [10]%Z ]}.
Proof. by vm_compute. Qed.
Lemma ex_mstore_tidy : Map_tidy (K := u8) (mkStore [7]%Z) ex_mstore.
Proof.
  intros q Hq [x Hx]. rewrite ex_mstore_view7 in *. apply lookup_singleton_Some in Hx as [<- <-].
  exists (n8 1), []. split; [by vm_compute|]. exists [10]%Z. apply lookup_singleton_Some. by vm_compute.
Qed.
Lemma ex_mstore_no_ff : no_ff_key (K := u8) (mkStore [7]%Z) ex_mstore.
Proof.
  intros k [x Hx]. rewrite ex_mstore_view7 in Hx. apply lookup_singleton_Some in Hx as [<- _].
  intros Hf. apply Forall_cons in Hf as [Hf _]. done.
Qed.

Lemma Map_iter_enumerates_witness :
  exists it out, Map_iter ex_map = Ok it /\ MapIter_collect 5 ex_mstore ex_map it = Ok out /\
    keys_sorted (V := u8) out /\
    (forall k, k ∈ out.*1 <-> is_Some (ex_content k)) /\
    Forall (fun e => val_abs (St := MapStore) (Store_sub (mkStore [7]%Z) (enc e.1)) ex_mstore (Some e.2) (ex_content e.1)) out.
Proof.
  pose proof (Map_iter_enumerates (mkStore [7]%Z) ex_mstore ex_map) as Hthm.
  apply (Hthm ex_content 5 ex_mstore_inv ex_map_attached ex_map_abs ex_mstore_tidy ex_mstore_no_ff). simpl. lia.
Defined.

(** The value 10 at the key 255 of a map of bytes. *)
Definition ex_ffstore : MapStore := mkBufStore [([7; 255], Some [10])]%Z mkEmpty.
Definition ex_ffcontent (k : u8) : option u8 := if decide (k = n8 255) then Some (n8 10) else None.
Lemma ex_ffstore_inv : Read_inv ex_ffstore.
Proof. split; [by repeat constructor|done]. Qed.
Lemma ex_ffmap_abs : Map_abs ex_ffstore (mkMap (mkStore [7]%Z) []) ex_ffcontent.
Proof.
  intros k. cbn [Map_children bt_get Map_store]. unfold store_holds. rewrite u8_enc. cbn [Store_prefix app].
  assert (Hv : view ex_ffstore = {[ [7; 255]%Z := [10]%Z ]}) by by vm_compute. rewrite Hv. unfold ex_ffcontent.
  destruct (decide (k = n8 255)) as [->|Hk].
  - exists (n8 10). split; [done|]. intros b2 rest _ _ _. exists (n8 10). split; [|done]. by vm_compute.
  - rewrite lookup_singleton_ne; [done|]. intros [= He]. destruct Hk. by apply uint_eq.
Qed.

Lemma Map_iter_max_key_repeats_witness :
  exists it, Map_iter (mkMap (V := u8) (K := u8) (mkStore [7]%Z) []) = Ok it /\
    MapIter_collect 1000 ex_ffstore (mkMap (V := u8) (mkStore [7]%Z) []) it = Panic "out of fuel".
Proof.
  pose proof (Map_iter_max_key_repeats (V := u8) (mkStore [7]%Z) ex_ffstore (n8 255) [10]%Z) as Hthm.
  apply (Hthm ex_ffcontent 1000 ex_ffstore_inv ex_ffmap_abs).
  - by vm_compute.
  - by repeat constructor.
Defined.

(** A range that excludes its first key starts inside what the value at that key
    keeps in the store: over the map of maps [1 -> 5 -> 50], the range after the
    key 1, which has no entries, fails where debug assertions are on. *)
Example Map_range_excluded_start_enters_value :
  exists it, Map_range ex_nmap (Excluded (n8 1)) Unbounded = Ok it /\
    (MapIter_next ex_nstore ex_nmap it).1 = Panic "Key had leftover bytes after decode".
Proof. eexists. split; [by vm_compute|]. by vm_compute. Qed.
