(* ===== verification/Keys.v ===== *)
(** * More keys and leaves of the [ed] crate

    [i64] is the eight bytes of the two's complement, most significant first.
    Pairs are encoded one component after the other, a [bool] as one byte; integers,
    and pairs of keys of fixed width, have a fixed width. *)

From stdpp Require Import base tactics numbers list strings gmap.
From Stdlib Require Import ZArith Lia.
From S2P Require Import Prelude Bytes StoreIface Codec StateIface Utf8 Encoding MapColl MapIter MapIterSpec.
#[local] Open Scope Z_scope.

(** ** Signed integers *)

Record i64 := mkI64 { i64_val : Z; i64_ok : i64b i64_val = true }.
Lemma i64_eq (a b : i64) : i64_val a = i64_val b -> a = b.
Proof. destruct a as [x Hx], b as [y Hy]. simpl. intros ->. f_equal. apply (proof_irrel _ _). Qed.

Lemma wrap_i64_range z : i64b (wrap_i64 z) = true.
Proof.
  unfold i64b, wrap_i64, i64_min, i64_max. pose proof (Z.mod_pos_bound (z + 2 ^ 63) (2 ^ 64) ltac:(lia)). lia.
Qed.
Definition to_i64 (z : Z) : i64 := mkI64 (wrap_i64 z) (wrap_i64_range z).
Lemma wrap_i64_id z : is_i64 z -> wrap_i64 z = z.
Proof. unfold is_i64, wrap_i64, i64_min, i64_max. intros Hz. rewrite Z.mod_small; lia. Qed.
Lemma i64_range (a : i64) : is_i64 (i64_val a).
Proof. destruct (i64b_spec (i64_val a)) as [|Hn]; [done|]. pose proof (i64_ok a). destruct (i64b_spec (i64_val a)); congruence. Qed.
Lemma to_i64_val z : is_i64 z -> i64_val (to_i64 z) = z.
Proof. apply wrap_i64_id. Qed.
Lemma to_i64_id (a : i64) : to_i64 (i64_val a) = a.
Proof. apply i64_eq, wrap_i64_id, i64_range. Qed.

#[export] Instance i64_eq_dec : EqDecision i64.
Proof. intros a b. destruct (decide (i64_val a = i64_val b)) as [He|Hn]; [left; by apply i64_eq|right; congruence]. Defined.

(** The bytes are those of the unsigned integer with the same bits. *)
Definition i64_bits (a : i64) : u64 := to_uint 8 (i64_val a).
Lemma to_i64_bits a : to_i64 (uint_val (i64_bits a)) = a.
Proof.
  apply i64_eq. simpl. unfold uint_wrap, wrap_i64. change (256 ^ Z.of_nat 8) with (2 ^ 64). pose proof (i64_range a) as Ha.
  unfold is_i64, i64_min, i64_max in *. rewrite Zplus_mod_idemp_l, Z.mod_small; lia.
Qed.
Lemma bits_to_i64 (z : u64) : i64_bits (to_i64 (uint_val z)) = z.
Proof.
  apply uint_eq. simpl. unfold uint_wrap, wrap_i64. change (256 ^ Z.of_nat 8) with (2 ^ 64).
  rewrite Zminus_mod_idemp_l. replace (uint_val z + 2 ^ 63 - 2 ^ 63) with (uint_val z) by ring.
  apply Z.mod_small, (uint_range_spec 8), uint_ok.
Qed.
#[export] Instance i64_Encode : Encode i64 := {| Encode_encode := fun a => Encode_encode (i64_bits a) |}.
Definition i64_decode (bs : bytes) : res (i64 * bytes) :=
  let? r := Decode_decode (K := u64) bs in Ok (to_i64 (uint_val r.1), r.2).
#[export] Instance i64_Decode : Decode i64 := {| Decode_decode := i64_decode |}.

#[export] Instance i64_CodecSpec : CodecSpec i64.
Proof.
  refine {| enc := fun a => enc (i64_bits a); codec_terminated := True |}.
  - intros a. apply (encode_enc (i64_bits a)).
  - intros a r _. change (i64_decode (enc (i64_bits a) ++ r) = Ok (a, r)). unfold i64_decode. rewrite decode_key. cbn [res_bind fst snd].
    by rewrite to_i64_bits.
Defined.
#[export] Instance i64_KeySpec : KeySpec i64.
Proof.
  split; [done|intros a; apply (enc_nonempty (i64_bits a))|].
  intros bs a r Hd. change (i64_decode bs = Ok (a, r)) in Hd. unfold i64_decode in Hd.
  destruct (Decode_decode bs) as [[z r']|e|w] eqn:E; [|done..]. injection Hd as <- <-. apply decode_canonical in E.
  change (bs = enc (i64_bits (to_i64 (uint_val z))) ++ r'). by rewrite bits_to_i64.
Qed.
#[export] Instance i64_State {St} : State St i64 := leaf_State.
#[export] Instance i64_StateSpec `{WS : WriteSpec St} : StateSpec St i64 := leaf_StateSpec i64.

(** ** Pairs *)

Section Pairs.
Context {A B : Type} `{Encode A} `{Decode A} `{Encode B} `{Decode B}.
Definition tuple_encode (p : A * B) : res bytes :=
  let? x := Encode_encode p.1 in
  let? y := Encode_encode p.2 in
  Ok (x ++ y).
Definition tuple_decode (bs : bytes) : res ((A * B) * bytes) :=
  let? x := Decode_decode bs in
  let? y := Decode_decode x.2 in
  Ok ((x.1, y.1), y.2).
#[export] Instance tuple_Encode : Encode (A * B) := {| Encode_encode := tuple_encode |}.
#[export] Instance tuple_Decode : Decode (A * B) := {| Decode_decode := tuple_decode |}.
End Pairs.

Section PairSpec.
Context `{KA : KeySpec A} `{KB : KeySpec B}.
#[export] Instance tuple_CodecSpec : CodecSpec (A * B).
Proof.
  refine {| enc := fun p => enc p.1 ++ enc p.2; codec_terminated := True |}.
  - intros [x y]. change (tuple_encode (x, y) = Ok (enc x ++ enc y)). unfold tuple_encode. by rewrite !encode_enc.
  - intros [x y] r _. change (tuple_decode ((enc x ++ enc y) ++ r) = Ok ((x, y), r)). unfold tuple_decode.
    rewrite <- app_assoc, decode_key. cbn [res_bind fst snd]. by rewrite decode_key.
Defined.
#[export] Instance tuple_KeySpec : KeySpec (A * B).
Proof.
  split; [done| |].
  - intros [x y] Hn. change (enc x ++ enc y = []) in Hn. apply app_eq_nil in Hn as [Hn _]. by apply (enc_nonempty x).
  - intros bs [x y] r Hd. change (tuple_decode bs = Ok ((x, y), r)) in Hd. unfold tuple_decode in Hd.
    destruct (Decode_decode bs) as [[x' r']|e|w] eqn:E1; [|done..]. cbn [res_bind fst snd] in Hd.
    destruct (Decode_decode r') as [[y' r'']|e|w] eqn:E2; [|done..]. injection Hd as <- <- <-.
    apply decode_canonical in E1, E2. change (bs = (enc x' ++ enc y') ++ r''). by rewrite <- app_assoc, <- E2.
Qed.
#[export] Instance tuple_FixedKey `{!FixedKey A} `{!FixedKey B} : FixedKey (A * B).
Proof.
  refine {| key_width := key_width (K := A) + key_width (K := B) |}.
  - intros [x y]. change (length (enc x ++ enc y) = (key_width (K := A) + key_width (K := B))%nat). by rewrite length_app, !enc_width.
  - intros [x y]. apply Forall_app. split; apply enc_is_bytes.
Defined.
End PairSpec.

#[export] Instance i64_FixedKey : FixedKey i64.
Proof.
  refine {| key_width := 8 |}; intros a.
  - exact (enc_width (i64_bits a)).
  - exact (enc_is_bytes (i64_bits a)).
Defined.

(** [bool] *)
#[export] Instance bool_Encode : Encode bool := {| Encode_encode := fun x => Ok [if x : bool then 1 else 0] |}.
Definition bool_decode (bs : bytes) : res (bool * bytes) :=
  match bs with
  | [] => Err (EEd "failed to fill whole buffer")
  | b :: r => if b =? 0 then Ok (false, r) else if b =? 1 then Ok (true, r) else Err (UnexpectedByte b)
  end.
#[export] Instance bool_Decode : Decode bool := {| Decode_decode := bool_decode |}.
#[export] Instance bool_CodecSpec : CodecSpec bool.
Proof. refine {| enc := fun x : bool => [if x then 1 else 0]; codec_terminated := True |}; [done|]. by intros [] r _. Defined.
#[export] Instance bool_State {St} : State St bool := leaf_State.
#[export] Instance bool_StateSpec `{WS : WriteSpec St} : StateSpec St bool := leaf_StateSpec bool.
