(* ===== verification/EntryMap.v ===== *)
(** * [EntryMap] (src/collections/entry_map.rs)

    A [Map] whose key and value are both derived from the inserted value, with the
    [Entry] trait of src/collections/mod.rs as a class. The operations are those of
    the map under the conversion, and the theorem says what they do to the set of
    entries. *)

From stdpp Require Import base tactics numbers list strings gmap sorting.
From Stdlib Require Import ZArith Lia.
From S2P Require Import Prelude Bytes BTree StoreIface StoreIter NullStore BufStore PrefixStore Codec StateIface MapColl MapSpec MapProps MapIter MapIterSpec Next.

(** The [Entry] trait: its associated types are parameters. *)
Class EntryTrait (T K V : Type) := {
  into_entry : T -> K * V;
  from_entry : K * V -> T
}.
(** What a conversion promises: nothing is lost in either direction. *)
Class EntryLaws (T K V : Type) `{EntryTrait T K V} := {
  from_into (x : T) : from_entry (into_entry x) = x;
  into_from (e : K * V) : into_entry (from_entry e : T) = e
}.

Record EntryMap (T K V : Type) := mkEntryMap { EntryMap_map : Map K V }.
Arguments mkEntryMap {T K V} _.
Arguments EntryMap_map {T K V} _.

Section Ops.
Context {St T K V : Type} `{Profile}.
Context `{Read St} `{!Write St} `{!Bounded St} `{Encode K} `{Decode K} {SV : State St V} `{EntryTrait T K V}.
Implicit Types (b : St) (em : EntryMap T K V).

Definition on_map {A} (f : M (Map K V) A) : M (EntryMap T K V) A := fun em =>
  let '(r, m') := f (EntryMap_map em) in (r, mkEntryMap m').

Definition EntryMap_default : EntryMap T K V := mkEntryMap Map_new.
Definition EntryMap_new : EntryMap T K V := EntryMap_default.
Definition EntryMap_with_store (s : Store) : res (EntryMap T K V) :=
  let? m := Map_with_store s in Ok (mkEntryMap m).

Definition EntryMap_attach (s : Store) : M (EntryMap T K V) unit := on_map (Map_attach s).
Definition EntryMap_flush em : M St bytes := Map_flush (EntryMap_map em).
(** The bytes are not read: the map keeps nothing in its own entry. *)
Definition EntryMap_load (s : Store) (bs : bytes) (_ : St) : res (EntryMap T K V * bytes) :=
  match EntryMap_attach s EntryMap_default with
  | (Ok _, em) => Ok (em, bs)
  | (Err e, _) => Err e
  | (Panic w, _) => Panic w
  end.

Definition EntryMap_insert (entry : T) : M (EntryMap T K V) unit :=
  let '(key, value) := into_entry entry in on_map (Map_insert key value).
Definition EntryMap_delete b (entry : T) : M (EntryMap T K V) unit :=
  let '(key, _) := into_entry entry in
  run on_map (Map_remove b key); retM tt.

(** [*map_value == value] is the equality of the value type. *)
Definition EntryMap_contains (veq : V -> V -> bool) b em (entry : T) : res bool :=
  let '(key, value) := into_entry entry in
  let? found := Map_contains_key b (EntryMap_map em) key in
  if found then
    let? r := Map_get b (EntryMap_map em) key in
    match r with
    | Some map_value => Ok (veq (Ref_deref map_value) value)
    | None => Ok false
    end
  else Ok false.
Definition EntryMap_contains_entry_key b em (entry : T) : res bool :=
  let '(key, _) := into_entry entry in Map_contains_key b (EntryMap_map em) key.

(** The iterator wraps the one of the map. *)
Record EntryIter := mkEntryIter { ei_map_iter : MapIter (K := K) (V := V) }.
Definition EntryMap_iter em : res EntryIter :=
  let? it := Map_iter (EntryMap_map em) in Ok (mkEntryIter it).
Definition EntryMap_range em (lo hi : Bound K) : res EntryIter :=
  let? it := Map_range (EntryMap_map em) lo hi in Ok (mkEntryIter it).
Definition EntryIter_next b em : M EntryIter (option (ReadOnly T)) := fun it =>
  let '(r, it') := MapIter_next b (EntryMap_map em) (ei_map_iter it) in
  (match r with
   | Ok (Some (key, value)) => Ok (Some (ReadOnly_new (from_entry (Ref_deref key, Ref_deref value))))
   | Ok None => Ok None
   | Err err => Err err
   | Panic w => Panic w
   end, mkEntryIter it').

(** The entries a loop over the iterator sees, for at most [n] of them. *)
Fixpoint EntryIter_collect (n : nat) b em (it : EntryIter) : res (list T) :=
  match n with
  | O => Panic "out of fuel"
  | S n' =>
      match EntryIter_next b em it with
      | (Ok None, _) => Ok []
      | (Ok (Some entry), it') => let? l := EntryIter_collect n' b em it' in Ok (ReadOnly_into_inner entry :: l)
      | (Err e, _) => Err e
      | (Panic w, _) => Panic w
      end
  end.
#[export] Instance EntryMap_State : State St (EntryMap T K V) :=
  {| State_attach := EntryMap_attach; State_flush := EntryMap_flush; State_load := EntryMap_load |}.
End Ops.

(** ** What the operations do *)

Section Spec.
Context `{Profile} `{WS : WriteSpec St} `{!Bounded St} `{!BoundedSpec St}.
Context `{KS : KeySpec K} {V : Type} {SV : State St V} `{!StateSpec St V}.
Context {T : Type} {ET : EntryTrait T K V} {EL : EntryLaws T K V}.
Implicit Types (b : St) (s : Store) (em : EntryMap T K V) (e : T).

Definition EntryMap_abs b em (f : K -> option (model (V := V))) : Prop := Map_abs b (EntryMap_map em) f.
Definition EntryMap_attached s em : Prop := Map_attached s (EntryMap_map em).

(** An [EntryMap] is as lawful a [State] as the map it wraps. *)
#[export] Instance EntryMap_StateSpec : StateSpec St (EntryMap T K V).
Proof.
  refine {| model := K -> option (model (V := V)); valid := fun em => valid (EntryMap_map em); attached := EntryMap_attached;
            abs := EntryMap_abs; State_terminated := True;
            flushable := fun s b em => flushable s b (EntryMap_map em) |}.
  - intros s em. apply Map_attached_valid.
  - intros s em Hv. destruct (attach_spec (StateSpec := Map_StateSpec) s (EntryMap_map em) Hv) as (m' & Hm & Ha). exists (mkEntryMap m').
    split; [|done]. cbn [State_attach EntryMap_State Map_State] in Hm |- *. unfold EntryMap_attach, on_map. by rewrite Hm.
  - intros s em Hv. destruct (reattach_spec (StateSpec := Map_StateSpec) s (EntryMap_map em) Hv) as (m' & Hm & Ha & Hx). exists (mkEntryMap m').
    split; [|done]. cbn [State_attach EntryMap_State Map_State] in Hm |- *. unfold EntryMap_attach, on_map. by rewrite Hm.
  - intros s b b' em x. apply (abs_frame (StateSpec := Map_StateSpec) s b b' (EntryMap_map em)).
  - intros s b b' em. apply (flushable_mono (StateSpec := Map_StateSpec) s b b' (EntryMap_map em)).
  - intros s b em x Ha Hb Hf Hx. destruct (flush_spec (StateSpec := Map_StateSpec) s b (EntryMap_map em) x Ha Hb Hf Hx) as (bs & b' & E1 & E2 & E3 & E4 & E5).
    exists bs, b'. split_and!; [done..|]. intros b2 rest Hb2 Hag _.
    destruct (E5 b2 rest Hb2 Hag) as (m' & Hl & Hm & Hx'); [by left|]. exists (mkEntryMap m'). split_and!; [|done..].
    cbn [State_load EntryMap_State Map_State] in Hl |- *. unfold Map_load in Hl.
    unfold EntryMap_load, EntryMap_attach, on_map, EntryMap_default. cbn [EntryMap_map].
    destruct (Map_attach s Map_new) as [[[]| |] m2]; [|discriminate Hl..]. injection Hl as E6 E7. by rewrite E6, E7.
Defined.

Lemma EntryMap_insert_spec s b em f e :
  EntryMap_attached s em -> EntryMap_abs b em f -> valid (into_entry e).2 ->
  exists v', State_attach (Store_sub s (enc (into_entry e).1)) (into_entry e).2 = (Ok tt, v') /\
    forall x, abs b v' x -> exists em', EntryMap_insert e em = (Ok tt, em') /\ EntryMap_attached s em' /\
      EntryMap_abs b em' (upd f (into_entry e).1 (Some x)).
Proof.
  intros Hm Hf Hv. destruct (Map_insert_spec s b (EntryMap_map em) f (into_entry e).1 (into_entry e).2 Hm Hf Hv) as (v' & Hat & _ & Hins).
  exists v'. split; [done|]. intros x Hx. destruct (Hins x Hx) as (m' & Hi & Ha & Hab).
  exists (mkEntryMap m'). unfold EntryMap_insert. destruct (into_entry e) as [key value]. simpl in *.
  unfold on_map. by rewrite Hi.
Qed.

Lemma EntryMap_delete_spec s b em f e :
  Read_inv b -> EntryMap_attached s em -> EntryMap_abs b em f ->
  exists em', EntryMap_delete b e em = (Ok tt, em') /\ EntryMap_attached s em' /\
    EntryMap_abs b em' (upd f (into_entry e).1 None).
Proof.
  intros Hb Hm Hf. destruct (Map_remove_raw_spec s b (EntryMap_map em) f (into_entry e).1 Hb Hm Hf) as (o & m' & Hr & _ & Ha & Hab).
  exists (mkEntryMap m'). unfold EntryMap_delete. destruct (into_entry e) as [key value]. simpl in *.
  unfold bindM, on_map, Map_remove, bindM. by rewrite Hr.
Qed.

Lemma EntryMap_contains_spec veq s b em f e :
  Read_inv b -> EntryMap_attached s em -> EntryMap_abs b em f ->
  exists o, val_abs (Store_sub s (enc (into_entry e).1)) b o (f (into_entry e).1) /\
    EntryMap_contains veq b em e = Ok (if o is Some v then veq v (into_entry e).2 else false) /\
    EntryMap_contains_entry_key b em e = Ok (if o is Some _ then true else false).
Proof.
  intros Hb Hm Hf. destruct (Map_get_spec b (EntryMap_map em) f (into_entry e).1 Hb Hf) as (r & Hr & Hv).
  rewrite (proj1 Hm) in Hv. exists (Ref_deref <$> r). split; [done|].
  pose proof (Map_contains_key_spec b (EntryMap_map em) f (into_entry e).1 Hb Hf) as Hc.
  unfold EntryMap_contains, EntryMap_contains_entry_key. destruct (into_entry e) as [key value]. simpl in *.
  rewrite Hc. destruct r as [r|], (f key); try done. simpl. by rewrite Hr.
Qed.

Lemma EntryIter_collect_map n b em : forall it,
  EntryIter_collect n b em (mkEntryIter it) =
    (let? l := MapIter_collect n b (EntryMap_map em) it in Ok (map (fun kv => from_entry (kv.1, kv.2)) l)).
Proof.
  induction n as [|n IH]; intros it; [done|]. simpl. unfold EntryIter_next. simpl.
  destruct (MapIter_next b (EntryMap_map em) it) as [[[[key value]|]|e|w] it']; [|done..].
  rewrite IH. simpl. by destruct (MapIter_collect n b (EntryMap_map em) it').
Qed.

(** Entries in the order of their encoded keys. *)
Definition entries_sorted (l : list T) : Prop :=
  StronglySorted (fun e e' => blt (enc (into_entry e).1) (enc (into_entry e').1)) l.

Lemma EntryMap_iter_spec `{!FixedKey K} s b em f n :
  Read_inv b -> EntryMap_attached s em -> EntryMap_abs b em f -> Map_tidy (K := K) s b -> no_ff_key (K := K) s b ->
  length (Map_children (EntryMap_map em)) + entry_bound b < n ->
  exists it out, EntryMap_iter em = Ok it /\ EntryIter_collect n b em it = Ok out /\ entries_sorted out /\
    (forall k, (exists e, e ∈ out /\ (into_entry e).1 = k) <-> is_Some (f k)) /\
    Forall (fun e => val_abs (Store_sub s (enc (into_entry e).1)) b (Some (into_entry e).2) (f (into_entry e).1)) out.
Proof.
  intros Hb Hm Hf Ht Hff Hn.
  destruct (Map_iter_collects s b (EntryMap_map em) f n Hb Hm Hf Ht Hff Hn) as (it & out & Hit & Hout & Hs & Hin & Hall).
  exists (mkEntryIter it), (map (fun kv => from_entry (kv.1, kv.2)) out). unfold EntryMap_iter.
  rewrite Hit, EntryIter_collect_map, Hout. split_and!; [done..| | |].
  - clear -Hs EL. induction Hs as [|x l Hs IH Hx]; [constructor|]. simpl. constructor; [done|].
    apply Forall_map. eapply Forall_impl; [exact Hx|]. intros y Hy. simpl. by rewrite !into_from.
  - intros k. rewrite <- Hin. split.
    + intros (e & He & <-). apply list_elem_of_fmap in He as (kv & -> & He). rewrite into_from. apply list_elem_of_fmap. by exists kv.
    + intros Hk. apply list_elem_of_fmap in Hk as (kv & -> & Hk). exists (from_entry (kv.1, kv.2)).
      rewrite into_from. split; [|done]. apply list_elem_of_fmap. by exists kv.
  - apply Forall_map. eapply Forall_impl; [exact Hall|]. intros kv Hkv. simpl. by rewrite into_from.
Qed.

(** an [EntryMap] keeps at most one entry per key. [insert] puts the entry in
    place of whatever had its key, [delete] removes the entry with the key of the
    given one whatever its value, [contains] answers whether the entry with this key
    has an equal value and [contains_entry_key] whether there is one; iteration
    yields every entry exactly once, in the order of the keys, and ends. *)
Theorem EntryMap_keyed_set `{!FixedKey K} veq s b em f :
  Read_inv b -> EntryMap_attached s em -> EntryMap_abs b em f ->
  (forall e, valid (into_entry e).2 ->
     exists v', State_attach (Store_sub s (enc (into_entry e).1)) (into_entry e).2 = (Ok tt, v') /\
       forall x, abs b v' x -> exists em', EntryMap_insert e em = (Ok tt, em') /\ EntryMap_attached s em' /\
         EntryMap_abs b em' (upd f (into_entry e).1 (Some x))) /\
  (forall e, exists em', EntryMap_delete b e em = (Ok tt, em') /\ EntryMap_attached s em' /\
     EntryMap_abs b em' (upd f (into_entry e).1 None)) /\
  (forall e, exists o, val_abs (Store_sub s (enc (into_entry e).1)) b o (f (into_entry e).1) /\
     EntryMap_contains veq b em e = Ok (if o is Some v then veq v (into_entry e).2 else false) /\
     EntryMap_contains_entry_key b em e = Ok (if o is Some _ then true else false)) /\
  (Map_tidy (K := K) s b -> no_ff_key (K := K) s b -> forall n, length (Map_children (EntryMap_map em)) + entry_bound b < n ->
     exists it out, EntryMap_iter em = Ok it /\ EntryIter_collect n b em it = Ok out /\ entries_sorted out /\
       (forall k, (exists e, e ∈ out /\ (into_entry e).1 = k) <-> is_Some (f k)) /\
       Forall (fun e => val_abs (Store_sub s (enc (into_entry e).1)) b (Some (into_entry e).2) (f (into_entry e).1)) out).
Proof.
  intros Hb Hm Hf. split_and!.
  - intros e Hv. by apply EntryMap_insert_spec.
  - intros e. by apply EntryMap_delete_spec.
  - intros e. by apply EntryMap_contains_spec.
  - intros Ht Hff n Hn. by apply EntryMap_iter_spec.
Qed.
End Spec.

(** *** Witness: pairs of bytes over the example map *)

#[local] Instance ex_Entry : EntryTrait (u8 * u8) u8 u8 := {| into_entry := id; from_entry := id |}.
#[local] Instance ex_EntryLaws : EntryLaws (u8 * u8) u8 u8.
Proof. by split. Qed.
Definition ex_entry_map : EntryMap (u8 * u8) u8 u8 := mkEntryMap ex_map.

Lemma EntryMap_keyed_set_witness :
  (exists em', EntryMap_delete ex_mstore (n8 1, n8 77) ex_entry_map = (Ok tt, em') /\
     EntryMap_abs (St := MapStore) (K := u8) (V := u8) (T := u8 * u8) ex_mstore em' (ex_upd ex_content (n8 1) None)) /\
  exists it out, EntryMap_iter ex_entry_map = Ok it /\ EntryIter_collect 5 ex_mstore ex_entry_map it = Ok out /\ entries_sorted out.
Proof.
  pose proof (EntryMap_keyed_set (St := MapStore) (K := u8) (V := u8) (T := u8 * u8) (fun _ _ => true) (mkStore [7]%Z) ex_mstore ex_entry_map) as Hks.
  destruct (Hks ex_content ex_mstore_inv ex_map_attached ex_map_abs) as (_ & Hthm & _ & Hit).
  split.
  - destruct (Hthm (n8 1, n8 77)) as (em' & Hd & _ & Ha). exists em'. exact (conj Hd Ha).
  - destruct (Hit ex_mstore_tidy ex_mstore_no_ff 5) as (it & out & E1 & E2 & E3 & _); [simpl; lia|].
    exists it, out. exact (conj E1 (conj E2 E3)).
Defined.
