(* ===== verification/EntryDerive.v ===== *)
(** * [derive(Entry)] (macros/src/entry.rs)

    The macro reads which fields of a struct are marked [#[key]] and generates
    [into_entry] and [from_entry]. The generated code is modelled by what it
    evaluates to: a struct is the list of its field values in declaration order, a
    generated expression [item.0], [item.0.i] or [item.1.i] is an [Access]. Field
    types play no role in the generated bodies, so values are of one type [D]. *)

From stdpp Require Import base tactics numbers list strings sorting.
From Stdlib Require Import Lia.
From S2P Require Import Prelude.

(** A field of the input: the names of its attributes and its own name (in a tuple
    struct its position stands for it). *)
Record Field := mkField { field_attrs : list string; field_ident : string }.
Definition is_key_field (field : Field) : bool := bool_decide ("key"%string ∈ field_attrs field).

(** [filter(|field| !(keys ^ is_key_field(field)))] *)
Definition selected (keys : bool) (field : Field) : bool := negb (xorb keys (is_key_field field)).
Definition parse_named_struct (fields : list Field) (keys : bool) : list string :=
  field_ident <$> List.filter (selected keys) fields.
Definition parse_unnamed_struct (fields : list Field) (keys : bool) : list nat :=
  fst <$> List.filter (fun p => selected keys p.2) (zip (seq 0 (length fields)) fields).

Inductive Access := Item0 | ItemAt (position index : nat).

(** ** The generated bodies *)

(** Named fields: the assignments of the struct literal. *)
Definition generate_named_struct_from_body (key_field_names value_field_names : list string) : list (string * Access) :=
  imap (fun i name => (name, ItemAt 0 i)) key_field_names ++ imap (fun i name => (name, ItemAt 1 i)) value_field_names.
Definition generate_named_one_tuple_from_body (key_field_name : string) (value_field_names : list string) : list (string * Access) :=
  imap (fun i name => (name, ItemAt 1 i)) value_field_names ++ [(key_field_name, Item0)].

(** [BTreeMap::insert] on the positions. *)
Fixpoint status_insert (k : nat) (v : bool) (m : list (nat * bool)) : list (nat * bool) :=
  match m with
  | [] => [(k, v)]
  | (k', v') :: m' =>
      if k <? k' then (k, v) :: m
      else if k =? k' then (k, v) :: m'
      else (k', v') :: status_insert k v m'
  end.
Definition insert_all (v : bool) (ks : list nat) (m : list (nat * bool)) : list (nat * bool) :=
  fold_left (fun m k => status_insert k v m) ks m.

(** Tuple structs: one expression per position, with counters for both tuples. *)
Fixpoint status_accesses (num_keys num_vals : nat) (m : list (nat * bool)) : list Access :=
  match m with
  | [] => []
  | (_, true) :: m' => ItemAt 0 num_keys :: status_accesses (S num_keys) num_vals m'
  | (_, false) :: m' => ItemAt 1 num_vals :: status_accesses num_keys (S num_vals) m'
  end.
Definition generate_unnamed_struct_from_body (keys values : list nat) : list Access :=
  status_accesses 0 0 (insert_all false values (insert_all true keys [])).
Fixpoint status_accesses_one (num_vals : nat) (m : list (nat * bool)) : list Access :=
  match m with
  | [] => []
  | (_, true) :: m' => Item0 :: status_accesses_one num_vals m'
  | (_, false) :: m' => ItemAt 1 num_vals :: status_accesses_one (S num_vals) m'
  end.
Definition generate_unnamed_one_tuple_from_body (key : nat) (values : list nat) : list Access :=
  status_accesses_one 0 (insert_all false values (status_insert key true [])).

Section Run.
Context {D : Type}.

(** A key is a tuple of the key fields, or the field itself when there is one. *)
Inductive EntryKey := KeyOne (d : D) | KeyTuple (ds : list D).
Definition Item : Type := EntryKey * list D.

(** [None] stands for an expression that does not type-check. *)
Definition eval_access (item : Item) (a : Access) : option D :=
  match a, item.1 with
  | Item0, KeyOne d => Some d
  | ItemAt 0 i, KeyTuple ds => ds !! i
  | ItemAt 1 i, _ => item.2 !! i
  | _, _ => None
  end.

(** What the macro generates: the two functions, on structs given as the values of
    their fields in order. *)
Record Derived := mkDerived { derived_into : list D -> option Item; derived_from : Item -> option (list D) }.

(** [self.f] for each selected field. *)
Definition fields_at (self : list D) (indices : list nat) : option (list D) := mapM (fun i => self !! i) indices.
Definition named_at (names : list string) (self : list D) (selected : list string) : option (list D) :=
  mapM (fun n => '(i, _) ← list_find (fun m => m = n) names; self !! i) selected.

(** A struct literal [Self { name: expr, .. }]: every field gets the expression
    assigned to its name. *)
Definition struct_literal (names : list string) (body : list (string * Access)) (item : Item) : option (list D) :=
  mapM (fun n => '(_, (_, a)) ← list_find (fun na : string * Access => na.1 = n) body; eval_access item a) names.

Definition generate_named_impl_block names key_names value_names from_body : Derived := {|
  derived_into := fun self =>
    ks ← named_at names self key_names; vs ← named_at names self value_names; Some (KeyTuple ks, vs);
  derived_from := struct_literal names from_body |}.
Definition generate_named_one_tuple_impl_block names key_name value_names from_body : Derived := {|
  derived_into := fun self =>
    k ← named_at names self [key_name]; vs ← named_at names self value_names;
    match k with [k] => Some (KeyOne k, vs) | _ => None end;
  derived_from := struct_literal names from_body |}.
Definition generate_unnamed_impl_block (key_indices value_indices : list nat) (from_body : list Access) : Derived := {|
  derived_into := fun self =>
    ks ← fields_at self key_indices; vs ← fields_at self value_indices; Some (KeyTuple ks, vs);
  derived_from := fun item => mapM (eval_access item) from_body |}.
Definition generate_unnamed_one_tuple_impl_block (key_index : nat) (value_indices : list nat) (from_body : list Access) : Derived := {|
  derived_into := fun self => k ← self !! key_index; vs ← fields_at self value_indices; Some (KeyOne k, vs);
  derived_from := fun item => mapM (eval_access item) from_body |}.

(** [None] is the panic of the macro. *)
Definition derive_named_struct (fields : list Field) : option Derived :=
  let names := field_ident <$> fields in
  let keys := parse_named_struct fields true in
  let values := parse_named_struct fields false in
  match keys with
  | [] => None
  | [key] => Some (generate_named_one_tuple_impl_block names key values (generate_named_one_tuple_from_body key values))
  | _ => Some (generate_named_impl_block names keys values (generate_named_struct_from_body keys values))
  end.
Definition derive_unnamed_struct (fields : list Field) : option Derived :=
  let keys := parse_unnamed_struct fields true in
  let values := parse_unnamed_struct fields false in
  match keys with
  | [] => None
  | [key] => Some (generate_unnamed_one_tuple_impl_block key values (generate_unnamed_one_tuple_from_body key values))
  | _ => Some (generate_unnamed_impl_block keys values (generate_unnamed_struct_from_body keys values))
  end.

(** ** Round trips *)

(** The values of the selected fields. *)
Fixpoint select (keys : bool) (fields : list Field) (self : list D) : list D :=
  match fields, self with
  | f :: fields', d :: self' => if selected keys f then d :: select keys fields' self' else select keys fields' self'
  | _, _ => []
  end.

Definition status (n : nat) (fields : list Field) : list (nat * bool) :=
  zip (seq n (length fields)) (is_key_field <$> fields).
Definition indices (n : nat) (fields : list Field) (keys : bool) : list nat :=
  fst <$> List.filter (fun p => selected keys p.2) (zip (seq n (length fields)) fields).

Lemma indices_cons n f fields keys :
  indices n (f :: fields) keys = if selected keys f then n :: indices (S n) fields keys else indices (S n) fields keys.
Proof. unfold indices. simpl. by destruct (selected keys f). Qed.
Lemma parse_named_cons f fields keys :
  parse_named_struct (f :: fields) keys =
    if selected keys f then field_ident f :: parse_named_struct fields keys else parse_named_struct fields keys.
Proof. unfold parse_named_struct. simpl. by destruct (selected keys f). Qed.
Lemma status_cons n f fields : status n (f :: fields) = (n, is_key_field f) :: status (S n) fields.
Proof. done. Qed.

Lemma selected_key keys f : selected keys f = Bool.eqb keys (is_key_field f).
Proof. unfold selected. by destruct keys, (is_key_field f). Qed.

Lemma status_insert_perm k v m : k ∉ m.*1 -> status_insert k v m ≡ₚ (k, v) :: m.
Proof.
  induction m as [|[k' v'] m IH]; intros Hk; [done|]. simpl. apply not_elem_of_cons in Hk as [Hne Hk]. simpl in Hne.
  destruct (k <? k'); [done|]. destruct (Nat.eqb_spec k k'); [done|]. rewrite IH by done. apply Permutation_swap.
Qed.
Abbreviation pos_lt := (fun a b : nat * bool => a.1 < b.1).
Lemma status_insert_sorted k v m : k ∉ m.*1 -> StronglySorted pos_lt m -> StronglySorted pos_lt (status_insert k v m).
Proof.
  induction m as [|[k' v'] m IH]; intros Hk Hs; [repeat constructor|]. simpl.
  apply not_elem_of_cons in Hk as [Hne Hk]. simpl in Hne. inversion_clear Hs as [|? ? Hs' Ha].
  destruct (Nat.ltb_spec k k').
  - constructor; [by constructor|]. constructor; [done|]. eapply Forall_impl; [exact Ha|]. simpl. lia.
  - destruct (Nat.eqb_spec k k'); [done|]. constructor; [by apply IH|].
    rewrite status_insert_perm by done. constructor; [simpl; lia|done].
Qed.

Lemma insert_all_spec v ks m : NoDup (ks ++ m.*1) -> StronglySorted pos_lt m ->
  StronglySorted pos_lt (insert_all v ks m) /\ insert_all v ks m ≡ₚ ((fun k => (k, v)) <$> ks) ++ m.
Proof.
  revert m. induction ks as [|k ks IH]; intros m Hn Hs; [done|]. simpl in Hn.
  apply NoDup_cons in Hn as [[Hk1 Hk2]%not_elem_of_app Hn].
  destruct (IH (status_insert k v m)) as [Hs' Hp].
  - apply (NoDup_Permutation_proper _ ((k :: ks) ++ m.*1)); [|by apply NoDup_cons; rewrite not_elem_of_app].
    rewrite status_insert_perm by done. simpl. by rewrite Permutation_middle.
  - by apply status_insert_sorted.
  - split; [done|]. cbn [insert_all fold_left] in *. unfold insert_all in Hp |- *. simpl. rewrite Hp, status_insert_perm by done.
    simpl. by rewrite Permutation_middle.
Qed.

Lemma indices_perm n fields :
  ((fun k => (k, false)) <$> indices n fields false) ++ ((fun k => (k, true)) <$> indices n fields true) ≡ₚ status n fields.
Proof.
  revert n. induction fields as [|f fields IH]; intros n; [done|]. rewrite !indices_cons, status_cons, !selected_key.
  specialize (IH (S n)). destruct (is_key_field f); simpl.
  - rewrite <- Permutation_middle. by constructor.
  - by constructor.
Qed.
Lemma status_sorted n fields : StronglySorted pos_lt (status n fields).
Proof.
  revert n. induction fields as [|f fields IH]; intros n; [constructor|]. unfold status in *. simpl. constructor; [apply IH|].
  apply Forall_forall. intros [k b] Hin. apply elem_of_zip_l in Hin. apply elem_of_seq in Hin. simpl. lia.
Qed.
Lemma status_fst n fields : (status n fields).*1 = seq n (length fields).
Proof. unfold status. apply fst_zip. by rewrite length_seq, length_fmap. Qed.

(** The map of the macro, read in order, is the fields in order. *)
Lemma insert_all_status fields :
  insert_all false (indices 0 fields false) (insert_all true (indices 0 fields true) []) = status 0 fields.
Proof.
  assert (Hn : NoDup (indices 0 fields false ++ indices 0 fields true)).
  { apply (NoDup_Permutation_proper _ (status 0 fields).*1); [|rewrite status_fst; apply NoDup_seq].
    rewrite <- indices_perm, fmap_app, <- !list_fmap_compose. unfold compose. simpl. by rewrite !list_fmap_id. }
  destruct (insert_all_spec true (indices 0 fields true) []) as [Hs1 Hp1].
  { rewrite app_nil_r. by apply NoDup_app in Hn as (_ & _ & ?). } { constructor. }
  rewrite app_nil_r in Hp1.
  destruct (insert_all_spec false (indices 0 fields false) (insert_all true (indices 0 fields true) [])) as [Hs2 Hp2]; [|done|].
  { rewrite Hp1, <- list_fmap_compose. unfold compose. simpl. by rewrite list_fmap_id. }
  apply (StronglySorted_unique_strong pos_lt); [|done|apply status_sorted|]. { intros a c _ _ Hac Hca. simpl in *. lia. }
  by rewrite Hp2, Hp1, indices_perm.
Qed.

(** Reading the selected fields. *)
Lemma fields_at_select keys fields : forall (pre self : list D), length self = length fields ->
  fields_at (pre ++ self) (indices (length pre) fields keys) = Some (select keys fields self).
Proof.
  induction fields as [|f fields IH]; intros pre [|d self] Hl; try done. injection Hl as Hl.
  specialize (IH (pre ++ [d]) self Hl). rewrite <- app_assoc, length_app, Nat.add_1_r in IH. simpl in IH.
  rewrite indices_cons. simpl. destruct (selected keys f); [|done]. unfold fields_at in *. simpl.
  rewrite list_lookup_middle by done. simpl. by rewrite IH.
Qed.

(** Evaluating the generated expressions puts every field back. *)
Lemma status_accesses_eval fields : forall n (kpre vpre self : list D), length self = length fields ->
  mapM (eval_access (KeyTuple (kpre ++ select true fields self), vpre ++ select false fields self))
    (status_accesses (length kpre) (length vpre) (status n fields)) = Some self.
Proof.
  induction fields as [|f fields IH]; intros n kpre vpre [|d self] Hl; try done. injection Hl as Hl.
  rewrite status_cons. simpl. rewrite !selected_key. destruct (is_key_field f); simpl.
  - rewrite list_lookup_middle by done. simpl.
    specialize (IH (S n) (kpre ++ [d]) vpre self Hl). rewrite <- app_assoc, length_app, Nat.add_1_r in IH. simpl in IH. by rewrite IH.
  - rewrite list_lookup_middle by done. simpl.
    specialize (IH (S n) kpre (vpre ++ [d]) self Hl). rewrite <- app_assoc, length_app, Nat.add_1_r in IH. simpl in IH. by rewrite IH.
Qed.
Lemma status_accesses_one_eval k fields : forall n (vpre self : list D), length self = length fields ->
  Forall (eq k) (select true fields self) ->
  mapM (eval_access (KeyOne k, vpre ++ select false fields self)) (status_accesses_one (length vpre) (status n fields)) = Some self.
Proof.
  induction fields as [|f fields IH]; intros n vpre [|d self] Hl Hk; try done. injection Hl as Hl.
  rewrite status_cons. simpl in *. rewrite !selected_key in *. destruct (is_key_field f); simpl in *.
  - apply Forall_cons in Hk as [<- Hk]. specialize (IH (S n) vpre self Hl Hk). by rewrite IH.
  - rewrite list_lookup_middle by done. simpl.
    specialize (IH (S n) (vpre ++ [d]) self Hl Hk). rewrite <- app_assoc, length_app, Nat.add_1_r in IH. simpl in IH. by rewrite IH.
Qed.

Lemma select_length keys fields : forall (self : list D) n, length self = length fields ->
  length (select keys fields self) = length (indices n fields keys).
Proof.
  induction fields as [|f fields IH]; intros [|d self] n Hl; try done. injection Hl as Hl. rewrite indices_cons. simpl.
  destruct (selected keys f); simpl; by rewrite (IH self (S n)).
Qed.
(** Every pair of tuples of the right widths is the selection of a struct. *)
Lemma select_surj fields : forall n (ks vs : list D),
  length ks = length (indices n fields true) -> length vs = length (indices n fields false) ->
  exists self, length self = length fields /\ select true fields self = ks /\ select false fields self = vs.
Proof.
  induction fields as [|f fields IH]; intros n ks vs Hk Hv.
  { destruct ks, vs; try done. by exists []. }
  rewrite !indices_cons, !selected_key in *. destruct (is_key_field f) eqn:E; simpl in *.
  - destruct ks as [|d ks]; [done|]. injection Hk as Hk. destruct (IH (S n) ks vs Hk Hv) as (self & Hl & <- & <-).
    exists (d :: self). simpl. by rewrite !selected_key, E, Hl.
  - destruct vs as [|d vs]; [done|]. injection Hv as Hv. destruct (IH (S n) ks vs Hk Hv) as (self & Hl & <- & <-).
    exists (d :: self). simpl. by rewrite !selected_key, E, Hl.
Qed.

(** *** Named fields *)

Lemma parse_named_indices keys fields : forall pre,
  Forall2 (fun n i => (pre ++ (field_ident <$> fields)) !! i = Some n)
    (parse_named_struct fields keys) (indices (length pre) fields keys).
Proof.
  induction fields as [|f fields IH]; intros pre; [constructor|]. specialize (IH (pre ++ [field_ident f])).
  rewrite <- app_assoc, length_app, Nat.add_1_r in IH. rewrite indices_cons, parse_named_cons. simpl in *.
  destruct (selected keys f); [|done]. constructor; [|done]. by apply list_lookup_middle.
Qed.
Lemma named_at_fields names (self : list D) ns ixs :
  NoDup names -> Forall2 (fun n i => names !! i = Some n) ns ixs -> named_at names self ns = fields_at self ixs.
Proof.
  intros Hn Hf. unfold named_at, fields_at. induction Hf as [|n i ns ixs Hi Hf IH]; [done|]. simpl. rewrite IH.
  assert (list_find (fun m => m = n) names = Some (i, n)) as ->; [|done]. apply list_find_Some. split_and!; [done..|].
  intros j y Hj Hlt ->. eapply NoDup_lookup in Hj; [|done|exact Hi]. lia.
Qed.
Lemma parse_named_perm fields :
  parse_named_struct fields true ++ parse_named_struct fields false ≡ₚ field_ident <$> fields.
Proof.
  induction fields as [|f fields IH]; [done|]. rewrite !parse_named_cons, !selected_key. simpl.
  destruct (is_key_field f); simpl; [by constructor|]. rewrite <- Permutation_middle. by constructor.
Qed.

Lemma list_find_body (body : list (string * Access)) n a :
  NoDup body.*1 -> (n, a) ∈ body -> exists i, list_find (fun na : string * Access => na.1 = n) body = Some (i, (n, a)).
Proof.
  intros Hn (i & Hi)%list_elem_of_lookup. exists i. apply list_find_Some. split_and!; [done..|].
  intros j [m c] Hj Hlt Hm. simpl in Hm. subst m.
  eapply (NoDup_lookup _ i j n) in Hn; [lia|by rewrite list_lookup_fmap, Hi|by rewrite list_lookup_fmap, Hj].
Qed.
(** When the body assigns to each field the expression of its position, the literal
    evaluates those expressions. *)
Lemma struct_literal_accesses names (body : list (string * Access)) acc (item : Item) :
  NoDup body.*1 -> Forall2 (fun n a => (n, a) ∈ body) names acc -> struct_literal names body item = mapM (eval_access item) acc.
Proof.
  intros Hn Hf. unfold struct_literal. induction Hf as [|n a names acc Ha Hf IH]; [done|]. simpl. rewrite IH.
  by destruct (list_find_body body n a Hn Ha) as (i & ->).
Qed.

Lemma elem_of_imap_middle (pos : nat) (kpre : list string) name l : (name, ItemAt pos (length kpre)) ∈ imap (fun i n => (n, ItemAt pos i)) (kpre ++ name :: l).
Proof. apply list_elem_of_lookup. exists (length kpre). rewrite list_lookup_imap, list_lookup_middle by done. done. Qed.

Lemma named_body_accesses fields : forall n kpre vpre,
  Forall2 (fun n a => (n, a) ∈ generate_named_struct_from_body (kpre ++ parse_named_struct fields true) (vpre ++ parse_named_struct fields false))
    (field_ident <$> fields) (status_accesses (length kpre) (length vpre) (status n fields)).
Proof.
  induction fields as [|f fields IH]; intros n kpre vpre; [constructor|]. rewrite status_cons, !parse_named_cons, !selected_key. simpl. unfold generate_named_struct_from_body in *. destruct (is_key_field f); simpl.
  - constructor; [apply elem_of_app; left; apply elem_of_imap_middle|]. specialize (IH (S n) (kpre ++ [field_ident f]) vpre).
    by rewrite <- app_assoc, length_app, Nat.add_1_r in IH.
  - constructor; [apply elem_of_app; right; apply elem_of_imap_middle|]. specialize (IH (S n) kpre (vpre ++ [field_ident f])).
    by rewrite <- app_assoc, length_app, Nat.add_1_r in IH.
Qed.
Lemma named_one_body_accesses key fields : forall n vpre, Forall (eq key) (parse_named_struct fields true) ->
  Forall2 (fun n a => (n, a) ∈ generate_named_one_tuple_from_body key (vpre ++ parse_named_struct fields false))
    (field_ident <$> fields) (status_accesses_one (length vpre) (status n fields)).
Proof.
  induction fields as [|f fields IH]; intros n vpre Hk; [constructor|]. rewrite status_cons, !parse_named_cons, !selected_key in *. simpl. unfold generate_named_one_tuple_from_body in *. destruct (is_key_field f); simpl in *.
  - apply Forall_cons in Hk as [<- Hk]. constructor; [apply elem_of_app; right; by apply list_elem_of_singleton|]. by apply IH.
  - constructor; [apply elem_of_app; left; apply elem_of_imap_middle|]. specialize (IH (S n) (vpre ++ [field_ident f]) Hk).
    by rewrite <- app_assoc, length_app, Nat.add_1_r in IH.
Qed.
Lemma imap_named_fst pos (l : list string) : (imap (fun i n => (n, ItemAt pos i)) l).*1 = l.
Proof. rewrite fmap_imap. unfold compose. simpl. generalize 0. induction l as [|x l IH]; intros k; [done|]. rewrite imap_cons. simpl. f_equal. by apply (IH (S k)). Qed.

(** *** The two derivations *)

(** The entry of a struct: its key fields, as one value or as a tuple, and the
    others. *)
Definition entry_of (fields : list Field) (self : list D) : Item :=
  (match select true fields self with [k] => KeyOne k | ks => KeyTuple ks end, select false fields self).
(** The entries of the associated types. *)
Definition typed_item (fields : list Field) (item : Item) : Prop :=
  let n := length (indices 0 fields true) in
  match item.1 with KeyOne _ => n = 1 | KeyTuple ks => length ks = n /\ n <> 1 end /\
  length item.2 = length (indices 0 fields false).

Lemma typed_item_entry fields item : typed_item fields item ->
  exists self, length self = length fields /\ item = entry_of fields self.
Proof.
  destruct item as [[k|ks] vs]; unfold typed_item, entry_of; simpl; intros [Hk Hv].
  - destruct (select_surj fields 0 [k] vs) as (self & Hl & Ek & Ev); [done..|]. exists self. by rewrite Ek, Ev.
  - destruct Hk as [Hk Hne]. destruct (select_surj fields 0 ks vs) as (self & Hl & Ek & Ev); [done..|].
    exists self. rewrite Ek, Ev. by destruct ks as [|k [|]].
Qed.

Definition derives (fields : list Field) (d : Derived) : Prop := forall self, length self = length fields ->
  derived_into d self = Some (entry_of fields self) /\ derived_from d (entry_of fields self) = Some self.

Lemma derive_unnamed_spec fields : indices 0 fields true <> [] ->
  exists d, derive_unnamed_struct fields = Some d /\ derives fields d.
Proof.
  intros Hne. unfold derive_unnamed_struct. change (parse_unnamed_struct fields) with (indices 0 fields).
  pose proof (insert_all_status fields) as Hst.
  destruct (indices 0 fields true) as [|i [|j ks]] eqn:E; [done|..]; (eexists; split; [done|]); intros self Hl;
    pose proof (fields_at_select true fields [] self Hl) as Hk; pose proof (fields_at_select false fields [] self Hl) as Hv;
    pose proof (select_length true fields self 0 Hl) as Hlen; simpl in Hk, Hv; rewrite E in Hk, Hlen; unfold entry_of.
  - destruct (select true fields self) as [|k [|]] eqn:Es; try done. simpl.
    unfold fields_at in Hk. simpl in Hk. destruct (self !! i) as [k'|]; [|done]. injection Hk as ->.
    simpl. rewrite Hv. split; [done|]. unfold generate_unnamed_one_tuple_from_body. change (insert_all true [i] []) with (status_insert i true []) in Hst. rewrite Hst.
    apply (status_accesses_one_eval k fields 0 []); [done|]. rewrite Es. by repeat constructor.
  - destruct (select true fields self) as [|k [|k2 ks']] eqn:Es; try done. cbn [generate_unnamed_impl_block derived_into derived_from].
    rewrite Hk, Hv. split; [done|]. unfold generate_unnamed_struct_from_body. rewrite Hst.
    pose proof (status_accesses_eval fields 0 [] [] self Hl) as He. by rewrite Es in He.
Qed.

Lemma derive_named_spec fields : NoDup (field_ident <$> fields) -> indices 0 fields true <> [] ->
  exists d, derive_named_struct fields = Some d /\ derives fields d.
Proof.
  intros Hnd Hne. unfold derive_named_struct. pose proof (parse_named_perm fields) as Hp.
  assert (Hat : forall keys self, length self = length fields ->
    named_at (field_ident <$> fields) self (parse_named_struct fields keys) = Some (select keys fields self)).
  { intros keys self Hl. erewrite named_at_fields; [apply (fields_at_select keys fields [] self Hl)|done|].
    apply (parse_named_indices keys fields []). }
  pose proof (Forall2_length _ _ _ (parse_named_indices true fields [])) as Hkl. simpl in Hkl.
  pose proof (fun self Hl => select_length true fields self 0 Hl) as Hlen.
  destruct (parse_named_struct fields true) as [|n [|n2 ns]] eqn:E; [by destruct (indices 0 fields true)|..];
    (eexists; split; [done|]); intros self Hl; specialize (Hlen self Hl); rewrite <- Hkl in Hlen; unfold entry_of;
    pose proof (Hat true self Hl) as Hk; rewrite E in Hk; pose proof (Hat false self Hl) as Hv.
  - destruct (select true fields self) as [|k [|]] eqn:Es; try done. cbn [generate_named_one_tuple_impl_block derived_into derived_from].
    rewrite Hk, Hv. split; [done|]. rewrite (struct_literal_accesses _ _ (status_accesses_one 0 (status 0 fields))).
    + apply (status_accesses_one_eval k fields 0 []); [done|]. rewrite Es. by repeat constructor.
    + unfold generate_named_one_tuple_from_body. rewrite fmap_app, imap_named_fst. simpl.
      rewrite Permutation_app_comm. by rewrite Hp.
    + apply (named_one_body_accesses n fields 0 []). rewrite E. by repeat constructor.
  - destruct (select true fields self) as [|k [|k2 ks]] eqn:Es; try done. cbn [generate_named_impl_block derived_into derived_from].
    rewrite Hk, Hv. split; [done|]. rewrite (struct_literal_accesses _ _ (status_accesses 0 0 (status 0 fields))).
    + pose proof (status_accesses_eval fields 0 [] [] self Hl) as He. by rewrite Es in He.
    + unfold generate_named_struct_from_body. rewrite fmap_app, !imap_named_fst. by rewrite Hp.
    + pose proof (named_body_accesses fields 0 [] []) as Hb. by rewrite E in Hb.
Qed.

(** for a struct with at least one key field, named or positional, the derived
    [into_entry] splits the fields into key and value, keeping their order, and the
    derived [from_entry] is its inverse in both directions: every entry of the
    associated types comes from exactly one struct. The macro refuses a struct
    without key fields. *)
Theorem derived_entry_lawful (fields : list Field) :
  NoDup (field_ident <$> fields) ->
  (indices 0 fields true = [] -> derive_named_struct fields = None /\ derive_unnamed_struct fields = None) /\
  (indices 0 fields true <> [] -> exists named unnamed,
     derive_named_struct fields = Some named /\ derive_unnamed_struct fields = Some unnamed /\
     forall d, d = named \/ d = unnamed ->
       (forall self, length self = length fields -> derived_into d self = Some (entry_of fields self) /\
          derived_from d (entry_of fields self) = Some self) /\
       (forall item, typed_item fields item -> exists self, derived_from d item = Some self /\ derived_into d self = Some item)).
Proof.
  intros Hnd. split.
  - intros He. pose proof (Forall2_length _ _ _ (parse_named_indices true fields [])) as Hkl. simpl in Hkl. rewrite He in Hkl.
    unfold derive_named_struct, derive_unnamed_struct. change (parse_unnamed_struct fields) with (indices 0 fields).
    rewrite He. by destruct (parse_named_struct fields true).
  - intros Hne. destruct (derive_named_spec fields Hnd Hne) as (dn & Edn & Hdn).
    destruct (derive_unnamed_spec fields Hne) as (du & Edu & Hdu). exists dn, du. split_and!; [done..|].
    intros d Hd. assert (Hs : derives fields d) by (destruct Hd; by subst). split; [exact Hs|].
    intros item (self & Hl & ->)%typed_item_entry. exists self. destruct (Hs self Hl). done.
Qed.
End Run.

(** *** Witness: two key fields around a value field *)

Definition ex_fields : list Field :=
  [mkField ["key"%string] "a"%string; mkField [] "b"%string; mkField ["doc"; "key"]%string "c"%string].

Lemma derived_entry_lawful_witness :
  exists named unnamed : Derived (D := nat), derive_named_struct ex_fields = Some named /\ derive_unnamed_struct ex_fields = Some unnamed /\
    derived_into named [10; 20; 30] = Some (KeyTuple [10; 30], [20]) /\
    derived_from unnamed (KeyTuple [10; 30], [20]) = Some [10; 20; 30].
Proof.
  destruct (derived_entry_lawful (D := nat) ex_fields) as [_ Hthm]; [by apply (bool_decide_unpack _); vm_compute|].
  destruct Hthm as (named & unnamed & En & Eu & Hd); [by vm_compute|]. exists named, unnamed. split_and!; [done..| |].
  - destruct (Hd named (or_introl eq_refl)) as [Hs _]. by destruct (Hs [10; 20; 30] eq_refl) as [-> _].
  - destruct (Hd unnamed (or_intror eq_refl)) as [Hs _]. by destruct (Hs [10; 20; 30] eq_refl) as [_ <-].
Defined.
