(* ===== verification/LeafMap.v ===== *)
(** * Maps of plain values

    Many maps of the program hold values that are their own encoding: integers, bytes,
    the unit of a set. For these the content of a map is a partial function to the values
    themselves, and lookups, writes and loops over it can be stated without handles. *)

From stdpp Require Import base tactics numbers list strings gmap sorting.
From Stdlib Require Import ZArith Lia.
From S2P Require Import Prelude Bytes BTree StoreIface StoreIter NullStore BufStore PrefixStore Codec StateIface MapColl MapSpec MapProps MapIter MapIterSpec EntryMap.

(** One entry of a partial function changed. *)
Definition set_at {K V} `{EqDecision K} (f : K -> option V) (k : K) (o : option V) : K -> option V :=
  fun j => if decide (j = k) then o else f j.
Lemma set_at_same {K V} `{EqDecision K} (f : K -> option V) k o : set_at f k o k = o.
Proof. unfold set_at. by rewrite decide_True. Qed.
Lemma set_at_other {K V} `{EqDecision K} (f : K -> option V) k o j : j <> k -> set_at f k o j = f j.
Proof. intros. unfold set_at. by rewrite decide_False. Qed.

(** A new map where nothing is stored is empty. *)
Lemma Map_fresh `{Profile} `{WS : WriteSpec St} `{KS : KeySpec K} {V} {SV : State St V} {SS : StateSpec St V} (s : Store) (b : St) :
  Store_view s b = ∅ -> Map_attached (K := K) s (mkMap s []) /\ Map_abs (K := K) (StateSpec0 := SS) b (mkMap s []) (fun _ => None).
Proof.
  intros Hv. split; [by repeat constructor|]. intros k. cbn [bt_get Map_children]. unfold store_holds. cbn [Map_store].
  rewrite <- strip_lookup. change (strip _ _) with (Store_view s b). by rewrite Hv, lookup_empty.
Qed.
Lemma Map_fresh_tidy `{WS : WriteSpec St} `{KS : KeySpec K} (s : Store) (b : St) :
  Store_view s b = ∅ -> Map_tidy (K := K) s b /\ no_ff_key (K := K) s b.
Proof. intros Hn. split; [intros q _|intros k]; rewrite Hn; intros [? Hl]; by rewrite lookup_empty in Hl. Qed.

Section Leaf.
Context `{Profile} `{WS : WriteSpec St} `{!Bounded St} `{!BoundedSpec St}.
Context `{KS : KeySpec K} `{EqDecision K} `{CV : CodecSpec V}.
Implicit Types (s : Store) (b : St) (m : Map K V) (f : K -> option V) (k : K) (v : V).
#[local] Instance leaf_value : State St V := leaf_State.
#[local] Instance leaf_value_spec : StateSpec St V := leaf_StateSpec V.

Definition leaf_rep s b m f : Prop := Map_attached (StateSpec0 := leaf_value_spec) s m /\ Map_abs (StateSpec0 := leaf_value_spec) b m f.

Lemma leaf_upd f k (o : option V) : forall j, upd (St := St) (StateSpec0 := leaf_value_spec) f k o j = set_at f k o j.
Proof.
  intros j. unfold upd, set_at. destruct (decide (enc j = enc k)) as [Hj%enc_inj|Hj]; [by rewrite decide_True|].
  rewrite decide_False; [done|]. by intros ->.
Qed.
Lemma leaf_get s b m f k : Read_inv b -> leaf_rep s b m f -> exists r, Map_get b m k = Ok r /\ Ref_deref <$> r = f k.
Proof.
  intros Hb [Hm Hf]. destruct (Map_get_spec (StateSpec0 := leaf_value_spec) b m f k Hb Hf) as (r & Hr & Hv). exists r. split; [done|].
  unfold val_abs in Hv. destruct (Ref_deref <$> r) as [v|], (f k) as [x|]; try done. by destruct Hv as [_ ->].
Qed.
Lemma leaf_contains s b m f k : Read_inv b -> leaf_rep s b m f -> Map_contains_key b m k = Ok (if f k is Some _ then true else false).
Proof. intros Hb [Hm Hf]. by rewrite (Map_contains_key_spec (StateSpec0 := leaf_value_spec) b m f k Hb Hf). Qed.
Lemma leaf_insert s b m f k v : leaf_rep s b m f -> exists m', Map_insert k v m = (Ok tt, m') /\ leaf_rep s b m' (set_at f k (Some v)).
Proof.
  intros [Hm Hf]. destruct (Map_insert_spec (StateSpec0 := leaf_value_spec) s b m f k v Hm Hf I) as (v' & Hat & _ & Hins). injection Hat as <-.
  destruct (Hins v eq_refl) as (m' & Hi & Hm' & Hf'). exists m'. split; [done|]. split; [done|].
  eapply Map_abs_ext, Hf'. intros j. apply leaf_upd.
Qed.
Lemma leaf_remove s b m f k : Read_inv b -> leaf_rep s b m f ->
  exists o m', Map_remove b k m = (Ok o, m') /\ leaf_rep s b m' (set_at f k None).
Proof.
  intros Hb [Hm Hf]. destruct (Map_remove_raw_spec (StateSpec0 := leaf_value_spec) s b m f k Hb Hm Hf) as (o & m' & Hr & _ & Hm' & Hf').
  unfold Map_remove, bindM. rewrite Hr. eexists _, m'. split; [done|]. split; [done|].
  eapply Map_abs_ext, Hf'. intros j. apply leaf_upd.
Qed.

(** Iterating over such a map yields its graph, in the order of the encoded keys. *)
Definition graph_of f (out : list (K * V)) : Prop := keys_sorted out /\ (forall k v, (k, v) ∈ out <-> f k = Some v).
Lemma keys_sorted_NoDup (out : list (K * V)) : keys_sorted out -> NoDup out.*1.
Proof.
  induction 1 as [|e l Hl IH Hall]; [constructor|]. simpl. constructor; [|done]. intros Hin.
  apply list_elem_of_fmap in Hin as (e' & He & Hin). rewrite Forall_forall in Hall. specialize (Hall e' Hin).
  rewrite He in Hall. by apply blt_irrefl in Hall.
Qed.
Lemma leaf_iter `{!FixedKey K} s b m f n :
  Read_inv b -> leaf_rep s b m f -> Map_tidy (K := K) s b -> no_ff_key (K := K) s b -> length (Map_children m) + entry_bound b < n ->
  exists it out, Map_iter m = Ok it /\ MapIter_collect n b m it = Ok out /\ graph_of f out.
Proof.
  intros Hb [Hm Hf] Ht Hff Hn.
  destruct (Map_iter_collects (StateSpec0 := leaf_value_spec) s b m f n Hb Hm Hf Ht Hff Hn) as (it & out & Hit & Hout & Hs & Hk & Hall).
  exists it, out. split; [done|]. split; [done|]. split; [done|]. rewrite Forall_forall in Hall.
  assert (Hin : forall k v, (k, v) ∈ out -> f k = Some v).
  { intros k v Hkv. specialize (Hall (k, v) Hkv). cbn [fst snd val_abs] in Hall. destruct (f k) as [x|]; [|done].
    by destruct Hall as [_ ->]. }
  intros k v. split; [apply Hin|]. intros Hfk. assert (Hko : k ∈ out.*1) by (apply Hk; by rewrite Hfk).
  apply list_elem_of_fmap in Hko as ([k' v'] & -> & Hkv). simpl in *. specialize (Hin _ _ Hkv). congruence.
Qed.
End Leaf.

(** An entry map whose entries are their keys is a set. *)
Section LeafSet.
Context `{Profile} `{WS : WriteSpec St} `{!Bounded St} `{!BoundedSpec St}.
Context `{KS : KeySpec K} `{EqDecision K} {T : Type} {ET : EntryTrait T K unit} {EL : EntryLaws T K unit}.
Context {CU : Encode unit} {DU : Decode unit} {CSU : CodecSpec unit}.
Implicit Types (s : Store) (b : St) (em : EntryMap T K unit) (P : K -> bool).
#[local] Instance unit_leaf : State St unit := leaf_State.
#[local] Instance unit_leaf_spec : StateSpec St unit := leaf_StateSpec unit.

Definition member P (k : K) : option unit := if P k then Some tt else None.
Definition set_rep s b em P : Prop := leaf_rep s b (EntryMap_map em) (member P).
Definition key_of (e : T) : K := (into_entry e).1.
Definition change P k (x : bool) : K -> bool := fun j => if decide (j = k) then x else P j.

Lemma set_rep_ext s b em (f : K -> option unit) P :
  leaf_rep s b (EntryMap_map em) f -> (forall k, f k = member P k) -> set_rep s b em P.
Proof. intros [Hm Hf] He. split; [done|]. eapply Map_abs_ext, Hf. intros k. by rewrite He. Qed.
Lemma set_insert s b em P e : set_rep s b em P ->
  exists em', EntryMap_insert e em = (Ok tt, em') /\ set_rep s b em' (change P (key_of e) true).
Proof.
  intros Hr. destruct (into_entry e) as [k u] eqn:He. destruct u.
  destruct (leaf_insert s b _ _ k tt Hr) as (m' & Hi & Hm'). exists (mkEntryMap m').
  unfold EntryMap_insert, on_map, key_of. rewrite He. unfold unit_leaf. unfold leaf_value in Hi. rewrite Hi. split; [done|]. eapply set_rep_ext; [exact Hm'|].
  intros j. unfold set_at, change, member. cbn [fst]. by destruct (decide (j = k)).
Qed.
Lemma set_delete s b em P e : Read_inv b -> set_rep s b em P ->
  exists em', EntryMap_delete b e em = (Ok tt, em') /\ set_rep s b em' (change P (key_of e) false).
Proof.
  intros Hb Hr. destruct (into_entry e) as [k u] eqn:He.
  destruct (leaf_remove s b _ _ k Hb Hr) as (o & m' & Hi & Hm'). exists (mkEntryMap m').
  unfold EntryMap_delete, on_map, key_of, bindM. rewrite He. unfold unit_leaf. unfold leaf_value in Hi. rewrite Hi. split; [done|]. eapply set_rep_ext; [exact Hm'|].
  intros j. unfold set_at, change, member. cbn [fst]. by destruct (decide (j = k)).
Qed.
Lemma set_iter `{!FixedKey K} s b em P n :
  Read_inv b -> set_rep s b em P -> Map_tidy (K := K) s b -> no_ff_key (K := K) s b ->
  length (Map_children (EntryMap_map em)) + entry_bound b < n ->
  exists it out, EntryMap_iter em = Ok it /\ EntryIter_collect n b em it = Ok out /\ entries_sorted out /\
    (forall e, e ∈ out <-> P (key_of e) = true).
Proof.
  intros Hb Hr Ht Hff Hn. destruct (leaf_iter s b _ _ n Hb Hr Ht Hff Hn) as (it & out & Hit & Hout & Hs & Hg).
  exists (mkEntryIter it), (map (fun kv => from_entry (kv.1, kv.2)) out). unfold EntryMap_iter.
  rewrite Hit, EntryIter_collect_map. unfold unit_leaf. unfold leaf_value in Hout. rewrite Hout. split_and!; [done..| |].
  - clear -Hs EL. induction Hs as [|x l Hs IH Hx]; [constructor|]. simpl. constructor; [done|].
    apply Forall_map. eapply Forall_impl; [exact Hx|]. intros y Hy. simpl. by rewrite !into_from.
  - intros e. rewrite <- (from_into e). unfold key_of. rewrite into_from. destruct (into_entry e) as [k []]. cbn [fst]. clear e. split.
    + intros He. apply list_elem_of_fmap in He as ([k' []] & He & Hin). apply (f_equal into_entry) in He. rewrite !into_from in He.
      injection He as ->. apply Hg in Hin. unfold member in Hin. by destruct (P k').
    + intros HP. apply list_elem_of_fmap. exists (k, tt). split; [done|]. apply Hg. unfold member. by rewrite HP.
Qed.
End LeafSet.
