(* ===== verification/MapCall.v ===== *)
(** * Methods called through a [Map]'s references

    Clients of [Map] rarely assign a whole value: they call a [&mut self] method
    of the value through [ChildMut], which moves the value into memory first
    ([DerefMut], [src/collections/map.rs]) and keeps what the method did to it
    also when the method fails. The two call patterns of the sources,
    [get_mut(k)?...] and [entry(k)?.or_insert_default()?...], are given with the
    content they leave. *)

From stdpp Require Import base tactics numbers list strings gmap.
From Stdlib Require Import ZArith Lia.
From S2P Require Import Prelude Bytes BTree StoreIface StoreIter NullStore BufStore PrefixStore Codec StateIface MapColl MapSpec.

Section Call.
Context {St : Type} `{Profile} `{Read St} `{!Write St} `{!Bounded St}.
Context {K V : Type} `{Encode K} `{Decode K} {SV : State St V}.

(** A method of the value, called through the reference. *)
Definition ChildMut_call {A} (c : ChildMut K V) (g : M V A) : M (Map K V) A :=
  do entry <- ChildMut_deref_mut c;
  fun m =>
    match bt_get entry (Map_children m) with
    | Some (k, Some v) =>
        let '(r, v') := g v in (r, set_children (bt_insert entry (k, Some v') (Map_children m)) m)
    | _ => (Panic "dangling reference", m)
    end.

(** [map.entry(key)?.or_insert_default()?.g()] *)
Definition Map_or_default_call {A} (default : V) (b : St) (key : K) (g : M V A) : M (Map K V) A :=
  do e <- Map_entry b key;
  do child <- Entry_or_insert_default (St := St) default e;
  ChildMut_call child g.

(** [map.get_mut(key)?.ok_or_else(|| err)?.g()] *)
Definition Map_get_mut_call {A} (err : Error) (b : St) (key : K) (g : M V A) : M (Map K V) A :=
  do o <- Map_get_mut b key;
  do child <- liftM (ok_or o err);
  ChildMut_call child g.

(** [let mut entry = map.entry(key)?.or_default()?;] followed by code that computes from
    the value behind [entry] and assigns to it: the value is read through the
    reference, and moved into memory only by the assignment. *)
Definition Map_or_default_update {A} (default : V) (b : St) (key : K) (g : V -> res (A * V)) : M (Map K V) A :=
  do e <- Map_entry b key;
  do child <- Entry_or_default (St := St) default e;
  do v <- readM (fun m => ChildMut_deref m child);
  do r <- liftM (g v);
  run ChildMut_call child (putM r.2);
  retM r.1.
Definition Map_or_default_assign (default : V) (b : St) (key : K) (g : V -> res V) : M (Map K V) unit :=
  Map_or_default_update default b key (fun v => let? v' := g v in Ok (tt, v')).
End Call.

(** No value of the map is deleted in memory: every child is there. *)
Definition Map_live {K V} (m : Map K V) : Prop := Forall (fun e => is_Some e.2.2) (Map_children m).

Section CallSpec.
Context `{Profile} `{WS : WriteSpec St} `{!Bounded St} `{!BoundedSpec St}.
Context `{KS : KeySpec K} {V : Type} {SV : State St V} `{!StateSpec St V}.
Implicit Types (b : St) (s : Store) (m : Map K V) (k j : K) (f : K -> option (model (V := V))).

Lemma bt_insert_entries {W} (P : bytes * W -> Prop) kb (w : W) (t : BTree W) :
  P (kb, w) -> Forall P t -> Forall P (bt_insert kb w t).
Proof.
  intros Hp. induction 1 as [|[k' w'] t Hk' Ht IH]; simpl; [by repeat constructor|].
  destruct (bcmp kb k'); repeat constructor; auto.
Qed.

Lemma Map_live_insert m kb k v :
  bt_wf (Map_children m) -> Map_live m ->
  Map_live (set_children (bt_insert kb (k, Some v) (Map_children m)) m).
Proof. intros _ Hm. apply bt_insert_entries; [by eexists|done]. Qed.

Lemma Map_live_get m kb k (o : option V) :
  Map_live m -> bt_get kb (Map_children m) = Some (k, o) -> is_Some o.
Proof.
  intros Hm Hg. unfold Map_live in Hm. induction (Map_children m) as [|[k' w] t IH]; [done|].
  apply Forall_cons in Hm as [Hw Ht]. simpl in Hg. destruct (beqb kb k'); [|auto].
  by injection Hg as ->.
Qed.

(** What a call through a reference to the value [v] at [k] leaves. *)
Lemma ChildMut_call_run {A} m k v (g : M V A) r v' : g v = (r, v') -> bt_wf (Map_children m) ->
  forall c, (c = ChildUnmodified (Some (k, v)) \/
             c = ChildModified (enc k) /\ bt_get (enc k) (Map_children m) = Some (k, Some v)) ->
  ChildMut_call c g m = (r, set_children (bt_insert (enc k) (k, Some v') (Map_children m)) m).
Proof.
  intros Hg Hw c Hc. unfold ChildMut_call, bindM. destruct Hc as [->|[-> Hc]]; simpl.
  - unfold bindM, liftM. simpl. rewrite MapKey_new_ok. simpl.
    rewrite bt_get_insert, decide_True by done. rewrite Hg. unfold set_children. cbn [Map_children Map_store]. by rewrite bt_insert_twice.
  - by rewrite Hc, Hc, Hg.
Qed.

(** A call through a reference to the value at [k]. *)
Lemma ChildMut_call_spec {A} s b m f k v y (g : M V A) r v' :
  Map_attached s m -> Map_abs b m f -> Map_live m ->
  g v = (r, v') -> attached (Store_sub s (enc k)) v' -> abs b v' y ->
  forall c, (c = ChildUnmodified (Some (k, v)) \/
             c = ChildModified (enc k) /\ bt_get (enc k) (Map_children m) = Some (k, Some v)) ->
  exists m', ChildMut_call c g m = (r, m') /\ Map_attached s m' /\ Map_abs b m' (upd f k (Some y)) /\ Map_live m'.
Proof.
  intros Hm Hf Hl Hg Hv' Hy c Hc. unfold ChildMut_call, bindM. pose proof Hm as (_ & Hw & _).
  destruct (insert_child_spec s b m f k (Some v') (Some y) Hm Hf (conj Hv' Hy)) as [Hi1 Hi2].
  destruct Hc as [->|[-> Hc]]; simpl.
  - unfold bindM, liftM. simpl. rewrite MapKey_new_ok. simpl.
    rewrite bt_get_insert, decide_True by done. rewrite Hg. eexists. split; [done|].
    unfold set_children in *. cbn [Map_children Map_store]. rewrite bt_insert_twice. split_and!; [done..|].
    by apply Map_live_insert.
  - rewrite Hc, Hc, Hg. eexists. split; [done|]. split_and!; [done..|]. by apply Map_live_insert.
Qed.

(** [entry(k)?.or_insert_default()?.g()] calls [g] on the value at [k], or on the
    default, and stores what it leaves. *)
Lemma Map_or_default_call_spec {A} s b m f k dflt x0 (g : M V A) :
  Read_inv b -> Map_attached s m -> Map_abs b m f -> Map_live m -> valid dflt ->
  (forall v, State_attach (Store_sub s (enc k)) dflt = (Ok tt, v) -> abs b v x0) ->
  exists v, attached (Store_sub s (enc k)) v /\ abs b v (default x0 (f k)) /\
    forall r v' y, g v = (r, v') -> attached (Store_sub s (enc k)) v' -> abs b v' y ->
    exists m', Map_or_default_call dflt b k g m = (r, m') /\
      Map_attached s m' /\ Map_abs b m' (upd f k (Some y)) /\ Map_live m'.
Proof.
  intros Hb Hm Hf Hl Hd Hx0. pose proof Hm as (Hs & Hw & _).
  unfold Map_or_default_call, Entry_or_insert_default, Entry_or_insert.
  destruct (Map_entry_spec s b m f k Hb Hm Hf)
    as [(v & x & Hk & Ha & Hx & Hn & He)|[(o & Hc & Hv & He)|(Hk & Hc & He)]].
  - exists v. rewrite Hk. split_and!; [done..|]. intros r v' y Hg Hv' Hy. unfold bindM at 1. rewrite He.
    destruct (insert_child_spec s b m f k (Some v) (Some x) Hm Hf (conj Ha Hx)) as [Hi1 Hi2].
    destruct (ChildMut_call_spec s b _ _ k v y g r v' Hi1 Hi2 (Map_live_insert _ _ _ _ Hw Hl) Hg Hv' Hy
      (ChildModified (enc k))) as (m' & Hcall & Hm' & Hf' & Hl').
    { right. split; [done|]. simpl. by rewrite bt_get_insert, decide_True. }
    exists m'. split_and!; [|done| |done].
    + unfold bindM, liftM. simpl. unfold bindM, liftM. simpl. rewrite MapKey_new_ok. exact Hcall.
    + eapply Map_abs_ext, Hf'. intros j. unfold upd. by destruct (decide _).
  - destruct (Map_live_get m _ _ _ Hl Hc) as [v ->]. destruct (f k) as [x|] eqn:Ek; [|done]. destruct Hv as [Ha Hx].
    exists v. split_and!; [done..|]. intros r v' y Hg Hv' Hy. unfold bindM at 1. rewrite He.
    destruct (ChildMut_call_spec s b m f k v y g r v' Hm Hf Hl Hg Hv' Hy (ChildModified (enc k))) as (m' & Hcall & ? & ? & ?); [by right|].
    exists m'. split_and!; [|done..]. unfold bindM. simpl. rewrite Hc. exact Hcall.
  - destruct (attach_spec (Store_sub s (enc k)) dflt Hd) as (v & Hat & Ha). exists v. rewrite Hk. simpl.
    pose proof (Hx0 v Hat) as Hx. split_and!; [done..|]. intros r v' y Hg Hv' Hy. unfold bindM at 1. rewrite He.
    destruct (insert_child_spec s b m f k (Some v) (Some x0) Hm Hf (conj Ha Hx)) as [Hi1 Hi2].
    destruct (ChildMut_call_spec s b _ _ k v y g r v' Hi1 Hi2 (Map_live_insert _ _ _ _ Hw Hl) Hg Hv' Hy
      (ChildModified (enc k))) as (m' & Hcall & Hm' & Hf' & Hl').
    { right. split; [done|]. simpl. by rewrite bt_get_insert, decide_True. }
    exists m'. split_and!; [|done| |done].
    + unfold bindM, liftM. simpl. unfold bindM, liftM. rewrite encode_enc, Hs, Hat. simpl. unfold bindM. simpl.
      rewrite MapKey_new_ok. exact Hcall.
    + eapply Map_abs_ext, Hf'. intros j. unfold upd. by destruct (decide _).
Qed.

(** [get_mut(k)?.ok_or(err)?.g()] fails on a key with no value, and otherwise
    calls [g] on the value and stores what it leaves. *)
Lemma Map_get_mut_call_spec {A} s b m f k err (g : M V A) :
  Read_inv b -> Map_attached s m -> Map_abs b m f -> Map_live m ->
  match f k with
  | None => Map_get_mut_call err b k g m = (Err err, m)
  | Some x => exists v, attached (Store_sub s (enc k)) v /\ abs b v x /\
      forall r v' y, g v = (r, v') -> attached (Store_sub s (enc k)) v' -> abs b v' y ->
      exists m', Map_get_mut_call err b k g m = (r, m') /\
        Map_attached s m' /\ Map_abs b m' (upd f k (Some y)) /\ Map_live m'
  end.
Proof.
  intros Hb Hm Hf Hl. unfold Map_get_mut_call, Map_get_mut.
  destruct (Map_entry_spec s b m f k Hb Hm Hf)
    as [(v & x & Hk & Ha & Hx & Hn & He)|[(o & Hc & Hv & He)|(Hk & Hc & He)]].
  - rewrite Hk. exists v. split_and!; [done..|]. intros r v' y Hg Hv' Hy.
    destruct (ChildMut_call_spec s b m f k v y g r v' Hm Hf Hl Hg Hv' Hy (ChildUnmodified (Some (k, v))))
      as (m' & Hcall & ? & ? & ?); [by left|].
    exists m'. split_and!; [|done..]. unfold bindM at 1 2. rewrite He. exact Hcall.
  - destruct (Map_live_get m _ _ _ Hl Hc) as [v ->]. destruct (f k) as [x|] eqn:Ek; [|done]. destruct Hv as [Ha Hx].
    exists v. split_and!; [done..|]. intros r v' y Hg Hv' Hy.
    destruct (ChildMut_call_spec s b m f k v y g r v' Hm Hf Hl Hg Hv' Hy (ChildModified (enc k)))
      as (m' & Hcall & ? & ? & ?); [by right|].
    exists m'. split_and!; [|done..]. unfold bindM at 1 2. rewrite He. exact Hcall.
  - rewrite Hk. unfold bindM. by rewrite He.
Qed.

(** The assignment takes what [g] makes of the value or of the default; when [g] fails
    the map is left as it was, with no entry created. *)
Lemma Map_or_default_update_spec {A} s b m f k dflt x0 (g : V -> res (A * V)) :
  Read_inv b -> Map_attached s m -> Map_abs b m f -> Map_live m -> valid dflt ->
  (forall v, State_attach (Store_sub s (enc k)) dflt = (Ok tt, v) -> abs b v x0) ->
  exists v, attached (Store_sub s (enc k)) v /\ abs b v (default x0 (f k)) /\
    match g v with
    | Ok (a, v') => forall y, attached (Store_sub s (enc k)) v' -> abs b v' y ->
        exists m', Map_or_default_update dflt b k g m = (Ok a, m') /\
          Map_attached s m' /\ Map_abs b m' (upd f k (Some y)) /\ Map_live m'
    | Err e => Map_or_default_update dflt b k g m = (Err e, m)
    | Panic w => Map_or_default_update dflt b k g m = (Panic w, m)
    end.
Proof.
  intros Hb Hm Hf Hl Hd Hx0.
  assert (Hread : exists v c, attached (Store_sub s (enc k)) v /\ abs b v (default x0 (f k)) /\
    (do e <- Map_entry b k; Entry_or_default (St := St) dflt e) m = (Ok c, m) /\ ChildMut_deref m c = Ok v /\
    (c = ChildUnmodified (Some (k, v)) \/ c = ChildModified (enc k) /\ bt_get (enc k) (Map_children m) = Some (k, Some v))).
  { unfold bindM. destruct (Map_entry_spec s b m f k Hb Hm Hf)
      as [(v & x & Hk & Ha & Hx & Hn & He)|[(o & Hc & Hv & He)|(Hk & Hc & He)]]; rewrite He; simpl.
    - rewrite Hk. eexists v, _. split_and!; [done..|by left].
    - destruct (Map_live_get m _ _ _ Hl Hc) as [v ->]. destruct (f k) as [x|]; [|done]. destruct Hv as [Ha Hx].
      eexists v, _. split_and!; [done..| |by right]. simpl. by rewrite Hc.
    - destruct (attach_spec (Store_sub s (enc k)) dflt Hd) as (v & Hat & Ha). rewrite Hk. exists v. eexists.
      split_and!; [done|by apply Hx0| | |by left].
      + unfold bindM, liftM. rewrite encode_enc, (proj1 Hm), Hat. done.
      + done. }
  destruct Hread as (v & c & Ha & Hx & Hchild & Hder & Hc). exists v. split_and!; [done..|].
  assert (Hrun : Map_or_default_update dflt b k g m = (do r <- liftM (g v); run ChildMut_call c (putM r.2); retM r.1) m).
  { unfold Map_or_default_update. unfold bindM in Hchild |- *. destruct (Map_entry b k m) as [[e|?|?] m1]; [|done..].
    rewrite Hchild. unfold readM. by rewrite Hder. }
  rewrite Hrun. unfold bindM, liftM. destruct (g v) as [[a v']|?|?]; [|done..]. intros y Hv' Hy.
  destruct (ChildMut_call_spec s b m f k v y (putM v') (Ok tt) v' Hm Hf Hl eq_refl Hv' Hy c Hc) as (m' & Hcall & ? & ? & ?).
  exists m'. cbn [fst snd]. rewrite Hcall. by split_and!.
Qed.
Lemma Map_or_default_assign_spec s b m f k dflt x0 (g : V -> res V) :
  Read_inv b -> Map_attached s m -> Map_abs b m f -> Map_live m -> valid dflt ->
  (forall v, State_attach (Store_sub s (enc k)) dflt = (Ok tt, v) -> abs b v x0) ->
  exists v, attached (Store_sub s (enc k)) v /\ abs b v (default x0 (f k)) /\
    match g v with
    | Ok v' => forall y, attached (Store_sub s (enc k)) v' -> abs b v' y ->
        exists m', Map_or_default_assign dflt b k g m = (Ok tt, m') /\
          Map_attached s m' /\ Map_abs b m' (upd f k (Some y)) /\ Map_live m'
    | Err e => Map_or_default_assign dflt b k g m = (Err e, m)
    | Panic w => Map_or_default_assign dflt b k g m = (Panic w, m)
    end.
Proof.
  intros Hb Hm Hf Hl Hd Hx0.
  destruct (Map_or_default_update_spec s b m f k dflt x0 (fun v => let? v' := g v in Ok (tt, v')) Hb Hm Hf Hl Hd Hx0) as (v & Ha & Hx & Hg).
  exists v. split_and!; [done..|]. unfold Map_or_default_assign. by destruct (g v).
Qed.
End CallSpec.

(** ** Reads after writes

    What [get] answers after each of the operations, for any key that can be encoded and
    any value, whether or not they are lawful: another key is another encoding. *)
Section Peek.
Context {St : Type} `{Profile} `{Read St} `{!Write St} `{!Bounded St}.
Context {K V : Type} `{Encode K} `{Decode K} {SV : State St V}.
Implicit Types (b : St) (m : Map K V) (k j : K).

Definition peek b m k : res (option V) := let? o := Map_get b m k in Ok (Ref_deref <$> o).

Lemma peek_eq b m k kb :
  Encode_encode k = Ok kb ->
  peek b m k = match bt_get kb (Map_children m) with Some (_, o) => Ok o | None => Map_get_from_store b m k end.
Proof.
  intros Hk. unfold peek, Map_get, MapKey_new. rewrite Hk. cbn [res_bind MapKey_inner_bytes MapKey_inner].
  destruct (bt_get kb _) as [[k' [v|]]|]; [done..|]. by destruct (Map_get_from_store b m k) as [[?|]|?|?].
Qed.
(** [get] itself, from what it shows. *)
Lemma Map_get_peek {A} b m k (f : option V -> res A) :
  (let? o := Map_get b m k in f (Ref_deref <$> o)) = res_bind (peek b m k) f.
Proof. unfold peek. by destruct (Map_get b m k). Qed.
Lemma peek_some b m k v : peek b m k = Ok (Some v) -> exists r, Map_get b m k = Ok (Some r) /\ Ref_deref r = v.
Proof. unfold peek. destruct (Map_get b m k) as [[r|]|?|?]; simpl; intros [= <-]. eauto. Qed.
Lemma peek_none b m k : peek b m k = Ok None -> Map_get b m k = Ok None.
Proof. unfold peek. by destruct (Map_get b m k) as [[r|]|?|?]. Qed.

Lemma peek_set b m k' kb (o : option V) j jb :
  Encode_encode j = Ok jb ->
  peek b (set_children (bt_insert kb (k', o) (Map_children m)) m) j = if decide (jb = kb) then Ok o else peek b m j.
Proof.
  intros Hj. rewrite !(peek_eq _ _ _ _ Hj). simpl. rewrite bt_get_insert. by destruct (decide (jb = kb)).
Qed.

Lemma Map_insert_peek b m k kb v v' :
  Encode_encode k = Ok kb -> State_attach (Store_sub (Map_store m) kb) v = (Ok tt, v') ->
  exists m', Map_insert (St := St) k v m = (Ok tt, m') /\ Map_store m' = Map_store m /\
    forall j jb, Encode_encode j = Ok jb -> peek b m' j = if decide (jb = kb) then Ok (Some v') else peek b m j.
Proof.
  intros Hk Hv. unfold Map_insert, MapKey_new. rewrite Hk. cbn [res_bind MapKey_inner_bytes]. rewrite Hv.
  eexists. split_and!; [done..|]. intros j jb Hj. by apply peek_set.
Qed.

Lemma Map_remove_peek b m k kb o :
  Encode_encode k = Ok kb -> peek b m k = Ok o ->
  exists m', Map_remove b k m = (Ok (ReadOnly_new <$> o), m') /\ Map_store m' = Map_store m /\
    (forall j jb, Encode_encode j = Ok jb -> peek b m' j = if decide (jb = kb) then Ok None else peek b m j) /\
    (is_Some o -> Map_children m' = bt_insert kb (k, None) (Map_children m)).
Proof.
  intros Hk. rewrite (peek_eq _ _ _ _ Hk). unfold Map_remove, bindM, Map_remove_raw, MapKey_new. rewrite Hk.
  cbn [res_bind MapKey_inner_bytes MapKey_inner]. destruct (bt_get kb _) as [[k' o']|] eqn:E; [|intros Hs; rewrite Hs; destruct o as [v|]].
  - intros [= ->]. eexists. split_and!; [done..| |done]. intros j jb Hj. by apply peek_set.
  - eexists. split_and!; [done..| |done]. intros j jb Hj. by apply peek_set.
  - exists m. split_and!; [done..| |by intros [? [=]]]. intros j jb Hj. destruct (decide (jb = kb)) as [->|]; [|done].
    rewrite (peek_eq _ _ _ _ Hj), E. unfold Map_get_from_store in *. by rewrite Hk in Hs; rewrite Hj.
Qed.

(** A call through a reference to the value that is read, in memory or not yet. *)
Definition refers m k kb v (c : ChildMut K V) : Prop :=
  c = ChildUnmodified (Some (k, v)) \/ c = ChildModified kb /\ exists k', bt_get kb (Map_children m) = Some (k', Some v).
Lemma refers_deref m k kb v c : refers m k kb v c -> ChildMut_deref m c = Ok v.
Proof. intros [->|[-> (k' & Hk)]]; [done|]. simpl. by rewrite Hk. Qed.
Lemma ChildMut_call_peek {A} b m k kb v c (g : M V A) :
  Encode_encode k = Ok kb -> refers m k kb v c ->
  exists m', ChildMut_call c g m = ((g v).1, m') /\ Map_store m' = Map_store m /\ (Map_live m -> Map_live m') /\
    forall j jb, Encode_encode j = Ok jb -> peek b m' j = if decide (jb = kb) then Ok (Some (g v).2) else peek b m j.
Proof.
  intros Hk Hc.
  assert (exists k', ChildMut_call c g m = ((g v).1, set_children (bt_insert kb (k', Some (g v).2) (Map_children m)) m)) as (k' & ->).
  { unfold ChildMut_call, bindM. destruct Hc as [->|[-> (k' & Hk')]]; simpl.
    - unfold bindM, liftM, MapKey_new. simpl. rewrite Hk. simpl. rewrite bt_get_insert, decide_True by done.
      destruct (g v) as [r v']. exists k. by rewrite bt_insert_twice.
    - rewrite Hk', Hk'. destruct (g v) as [r v']. by exists k'. }
  eexists. split_and!; [done..| |].
  - intros Hl. apply bt_insert_entries; [by eexists|done].
  - intros j jb Hj. by apply peek_set.
Qed.

(** What [get_mut] and [entry] give of a value that is there. *)
Lemma Map_entry_peek b m k kb v :
  Encode_encode k = Ok kb -> peek b m k = Ok (Some v) ->
  exists c, Map_entry b k m = (Ok (EntryOccupied c), m) /\ refers m k kb v c.
Proof.
  intros Hk. rewrite (peek_eq _ _ _ _ Hk). unfold Map_entry, MapKey_new. rewrite Hk. cbn [res_bind MapKey_inner_bytes MapKey_inner].
  destruct (bt_get kb _) as [[k' o']|] eqn:E.
  - intros [= ->]. eexists. split; [done|]. right. eauto.
  - intros ->. eexists. split; [done|]. by left.
Qed.
Lemma Map_get_mut_peek b m k kb v :
  Encode_encode k = Ok kb -> peek b m k = Ok (Some v) ->
  exists c, Map_get_mut b k m = (Ok (Some c), m) /\ refers m k kb v c.
Proof.
  intros Hk Hp. destruct (Map_entry_peek _ _ _ _ _ Hk Hp) as (c & He & Hc). exists c. split; [|done].
  unfold Map_get_mut, bindM. by rewrite He.
Qed.
(** The value that is there, or the default where the key has none. *)
Definition peek_or (dflt : V) b m k kb v : Prop :=
  peek b m k = Ok (Some v) \/
  peek b m k = Ok None /\ bt_get kb (Map_children m) = None /\ State_attach (Store_sub (Map_store m) kb) dflt = (Ok tt, v).
Lemma Entry_or_default_peek dflt b m k kb v :
  Encode_encode k = Ok kb -> peek_or dflt b m k kb v ->
  exists c, (do e <- Map_entry b k; Entry_or_default (St := St) dflt e) m = (Ok c, m) /\ refers m k kb v c.
Proof.
  intros Hk [Hp|(Hp & Hn & Ha)]; unfold bindM.
  - destruct (Map_entry_peek _ _ _ _ _ Hk Hp) as (c & -> & Hc). by exists c.
  - rewrite (peek_eq _ _ _ _ Hk), Hn in Hp. unfold Map_entry, MapKey_new. rewrite Hk. cbn [res_bind MapKey_inner_bytes MapKey_inner].
    rewrite Hn, Hp. simpl. unfold bindM, liftM. rewrite Hk, Ha. eexists. split; [done|]. by left.
Qed.
(** The assignment through the reference to it. *)
Lemma Map_or_default_assign_peek dflt b m k kb v (g : V -> res V) :
  Encode_encode k = Ok kb -> peek_or dflt b m k kb v ->
  match g v with
  | Ok v' => exists m', Map_or_default_assign dflt b k g m = (Ok tt, m') /\ Map_store m' = Map_store m /\ (Map_live m -> Map_live m') /\
      forall j jb, Encode_encode j = Ok jb -> peek b m' j = if decide (jb = kb) then Ok (Some v') else peek b m j
  | Err e => Map_or_default_assign dflt b k g m = (Err e, m)
  | Panic w => Map_or_default_assign dflt b k g m = (Panic w, m)
  end.
Proof.
  intros Hk Hv. destruct (Entry_or_default_peek _ _ _ _ _ _ Hk Hv) as (c & Hc & Hr).
  assert (Hrun : Map_or_default_assign dflt b k g m =
    (do r <- liftM (let? v' := g v in Ok (tt, v')); run ChildMut_call c (putM r.2); retM r.1) m).
  { unfold Map_or_default_assign, Map_or_default_update. unfold bindM in Hc |- *. destruct (Map_entry b k m) as [[e|?|?] m1]; [|done..].
    rewrite Hc. unfold readM. by rewrite (refers_deref _ _ _ _ _ Hr). }
  rewrite Hrun. unfold bindM, liftM. destruct (g v) as [v'|?|?]; [|done..]. cbn [res_bind fst snd].
  destruct (ChildMut_call_peek b m k kb v c (putM v') Hk Hr) as (m' & -> & Hs & Hl & Hp). exists m'. by split_and!.
Qed.

(** Without deletions in memory a key with no value is not in memory. *)
Lemma live_vacant b m k kb : Encode_encode k = Ok kb -> Map_live m -> peek b m k = Ok None -> bt_get kb (Map_children m) = None.
Proof.
  intros Hk Hl. rewrite (peek_eq _ _ _ _ Hk). destruct (bt_get kb _) as [[k' o]|] eqn:E; [|done].
  destruct (Map_live_get m _ _ _ Hl E) as [v ->]. done.
Qed.

(** The call through [entry(k)?.or_insert_default()?]: the value is moved into memory first. *)
Lemma Map_or_default_call_peek {A} dflt b m k kb v (g : M V A) :
  Encode_encode k = Ok kb -> peek_or dflt b m k kb v ->
  exists m', Map_or_default_call dflt b k g m = ((g v).1, m') /\ Map_store m' = Map_store m /\ (Map_live m -> Map_live m') /\
    forall j jb, Encode_encode j = Ok jb -> peek b m' j = if decide (jb = kb) then Ok (Some (g v).2) else peek b m j.
Proof.
  intros Hk Hv. destruct (Entry_or_default_peek _ _ _ _ _ _ Hk Hv) as (c & Hc & Hr).
  destruct (ChildMut_call_peek b m k kb v c g Hk Hr) as (m' & Hcall & Hs & Hl & Hp). exists m'. split_and!; [|done..].
  rewrite <- Hcall. unfold Map_or_default_call, Entry_or_insert_default, Entry_or_insert, Entry_or_default in *. unfold bindM in *.
  destruct (Map_entry b k m) as [[e|?|?] m1]; [|done..]. rewrite Hc. unfold ChildMut_call, bindM.
  destruct Hr as [->|[-> (k' & Hk')]]; cbn [ChildMut_deref_mut].
  - unfold bindM, liftM, MapKey_new. cbn [unwrap fst snd]. rewrite Hk. cbn [res_bind put_child MapKey_inner_bytes MapKey_inner].
    unfold set_children. cbn. rewrite !bt_get_insert, !decide_True by done. cbn. rewrite ?bt_get_insert, ?decide_True by done. destruct (g v) as [r0 v0]. done.
  - cbn. rewrite Hk'. cbn. rewrite ?Hk'. by destruct (g v).
Qed.
End Peek.
