(* ===== verification/Fields.v ===== *)
(** * Derived [State] for any number of fields (macros/src/state.rs)

    A struct is its version and the list of its fields: plain ones, which live under
    the prefix byte of their position among the plain fields, and fields marked
    [#[state(skip)]], which are not stored and come back as their default. The
    derived [attach], [flush] and [load] go through the list with the helpers of
    [StructState]. *)

From stdpp Require Import base tactics numbers list strings gmap.
From Stdlib Require Import ZArith Lia.
From S2P Require Import Prelude Bytes BTree StoreIface StoreIter NullStore BufStore PrefixStore Codec StateIface Next StructState MapColl MapSpec MapProps.
#[local] Open Scope Z_scope.

Inductive FNil := fnil.
Record FCons (A F : Type) := fcons { fhead : A; ftail : F }.
Arguments fcons {A F} _ _.
Arguments fhead {A F} _.
Arguments ftail {A F} _.
Record Skip (A : Type) := mkSkip { skipped : A }.
Arguments mkSkip {A} _.
Arguments skipped {A} _.

Record Struct (ver : Z) (F : Type) := mkStruct { fields : F }.
Arguments mkStruct {ver F} _.
Arguments fields {ver F} _.

(** What the macro writes out for the fields from the one with prefix byte [i] on. *)
Class Fields (St F : Type) := {
  fields_attach : Z -> Attacher -> M F Attacher;
  fields_flush : bytes -> F -> M St bytes;
  fields_load : St -> M Loader F
}.

Section Fields.
Context `{Profile} `{CompatMode} {St : Type}.

#[export] Instance FNil_Fields : Fields St FNil :=
  {| fields_attach := fun _ a => retM a; fields_flush := fun out _ => retM out; fields_load := fun _ => retM fnil |}.

Section Cons.
Context {A F : Type} {SA : State St A} {FF : Fields St F}.
Definition in_head {B} (f : M A B) : M (FCons A F) B := zoomM fhead (fun x v => fcons x (ftail v)) f.
Definition in_tail {B} (f : M F B) : M (FCons A F) B := zoomM ftail (fun x v => fcons (fhead v) x) f.
Definition FCons_attach (i : Z) (a : Attacher) : M (FCons A F) Attacher :=
  do a <- in_head (Attacher_attach_child_with_relative_prefix a [i]);
  in_tail (fields_attach (i + 1) a).
Definition FCons_flush (out : bytes) (v : FCons A F) : M St bytes :=
  do out <- Flusher_flush_child out (fhead v);
  fields_flush out (ftail v).
Definition FCons_load (b : St) : M Loader (FCons A F) :=
  do x <- Loader_load_child b;
  do f <- fields_load b;
  retM (fcons x f).
#[export] Instance FCons_Fields : Fields St (FCons A F) :=
  {| fields_attach := FCons_attach; fields_flush := FCons_flush; fields_load := FCons_load |}.
End Cons.

Section SkipCons.
Context {A F : Type} {DA : Default A} {FF : Fields St F}.
Definition FSkip_attach (i : Z) (a : Attacher) : M (FCons (Skip A) F) Attacher :=
  do a <- in_head (Attacher_attach_skipped_child a);
  in_tail (fields_attach i a).
Definition FSkip_flush (out : bytes) (v : FCons (Skip A) F) : M St bytes :=
  do out <- Flusher_flush_skipped_child out (fhead v);
  fields_flush out (ftail v).
Definition FSkip_load (b : St) : M Loader (FCons (Skip A) F) :=
  do x <- Loader_load_skipped_child (mkSkip default);
  do f <- fields_load b;
  retM (fcons x f).
#[export] Instance FSkip_Fields : Fields St (FCons (Skip A) F) :=
  {| fields_attach := FSkip_attach; fields_flush := FSkip_flush; fields_load := FSkip_load |}.
End SkipCons.

Context {F : Type} {FF : Fields St F} {ver : Z}.
Definition Struct_attach (s : Store) : M (Struct ver F) unit :=
  do _ <- zoomM fields (fun f _ => mkStruct f) (fields_attach 0 (Attacher_new s));
  retM tt.
Definition Struct_flush (v : Struct ver F) : M St bytes :=
  do out <- Flusher_version [] ver;
  fields_flush out (fields v).
Definition Struct_load (s : Store) (bs : bytes) (b : St) : res (Struct ver F * bytes) :=
  match fields_load b (Loader_new s bs ver) with
  | (Ok f, loader) =>
      match Struct_attach s (mkStruct f) with
      | (Ok _, value) => Ok (value, Loader_bytes loader)
      | (Err e, _) => Err e
      | (Panic w, _) => Panic w
      end
  | (Err e, _) => Err e
  | (Panic w, _) => Panic w
  end.
#[export] Instance Struct_State : State St (Struct ver F) :=
  {| State_attach := Struct_attach; State_flush := Struct_flush; State_load := Struct_load |}.
End Fields.

(** ** The laws *)

Section FieldFrames.
Context `{WS : WriteSpec St}.
Implicit Types (s : Store) (b : St) (n m : Z).

(** Equality, and equality elsewhere, on the parts of the fields [n] to [m - 1]. *)
Definition agree_fields s n m b b' : Prop := forall i, n <= i < m -> agree_under (Store_sub s [i]) b b'.
Definition only_fields s n m b b' : Prop :=
  forall k, (forall i r, n <= i < m -> r <> [] -> k <> Store_prefix (Store_sub s [i]) ++ r) -> view b' !! k = view b !! k.

Lemma only_fields_refl s n m b : only_fields s n m b b.
Proof. by intros k. Qed.
Lemma only_fields_trans s n m b b1 b2 : only_fields s n m b b1 -> only_fields s n m b1 b2 -> only_fields s n m b b2.
Proof. intros H1 H2 k Hk. rewrite H2; auto. Qed.
Lemma only_fields_sub s n m n' m' b b' : n <= n' -> m' <= m -> only_fields s n' m' b b' -> only_fields s n m b b'.
Proof. intros Hn Hm Hb k Hk. apply Hb. intros i r Hi. apply Hk. lia. Qed.
Lemma only_fields_of_under s n m i b b' : n <= i < m -> only_under (Store_sub s [i]) b b' -> only_fields s n m b b'.
Proof. intros Hi Hb k Hk. apply Hb. intros r. by apply Hk. Qed.
Lemma only_fields_under s n m b b' : only_fields s n m b b' -> only_under s b b'.
Proof. intros Hb k Hk. apply Hb. intros i r Hi Hr. simpl. rewrite <- app_assoc. by apply Hk. Qed.
Lemma only_fields_agree s n m i b b' : ~ (n <= i < m) -> only_fields s n m b b' -> agree_under (Store_sub s [i]) b b'.
Proof.
  intros Hi Hb r Hr. symmetry. apply Hb. intros j r' Hj Hr' Heq. simpl in Heq. rewrite <- !app_assoc in Heq.
  apply app_inv_head in Heq. simpl in Heq. injection Heq as -> _. lia.
Qed.
Lemma agree_under_fields s n m b b' : agree_under s b b' -> agree_fields s n m b b'.
Proof. intros Hb i _. auto with orga. Qed.
Lemma agree_fields_sub s n m n' m' b b' : n <= n' -> m' <= m -> agree_fields s n m b b' -> agree_fields s n' m' b b'.
Proof. intros ?? Hb i Hi. apply Hb. lia. Qed.
End FieldFrames.
#[export] Hint Resolve only_fields_refl only_fields_under agree_under_fields : orga.

(** The bytes before the first plain field. *)
Definition version_prefix `{CompatMode} (ver n : Z) : bytes := if negb compat_mode && (n =? 0) then [ver] else [].

Class FieldsSpec `{Profile} `{CompatMode} (St F : Type) `{WS : WriteSpec St} {FF : Fields St F} := {
  fmodel : Type;
  (** the number of plain fields, and whether all of them but the last, and the last,
      tell where they end *)
  fcount : Z;
  fields_ok : Prop;
  fterminated : Prop;
  fvalid : F -> Prop;
  fattached : Store -> Z -> F -> Prop;
  fabs : St -> F -> fmodel -> Prop;
  fflushable : Store -> Z -> St -> F -> Prop;
  fcount_nonneg : 0 <= fcount;
  fcount_none : fcount = 0 -> fterminated;
  fattached_valid s n f : fattached s n f -> fvalid f;
  fattach_spec s n c f : fvalid f -> 0 <= c -> c + fcount <= 255 ->
    exists f', fields_attach n (mkAttacher s c) f = (Ok (mkAttacher s (c + fcount)), f') /\ fattached s n f';
  freattach_spec s n c f : fattached s n f -> 0 <= c -> c + fcount <= 255 ->
    exists f', fields_attach n (mkAttacher s c) f = (Ok (mkAttacher s (c + fcount)), f') /\ fattached s n f' /\
      forall b x, fabs b f x -> fabs b f' x;
  fabs_frame s n b b' f x : fattached s n f -> agree_fields s n (n + fcount) b b' -> fabs b f x -> fabs b' f x;
  fflushable_mono s n b b' f : keeps_writable b b' -> fflushable s n b f -> fflushable s n b' f;
  fflush_spec s n out b f x :
    fields_ok -> 0 <= n -> n + fcount <= 255 ->
    fattached s n f -> Read_inv b -> fflushable s n b f -> fabs b f x ->
    exists bs b', fields_flush out f b = (Ok (out ++ bs), b') /\ Read_inv b' /\ only_fields s n (n + fcount) b b' /\
      keeps_writable b b' /\ (fcount = 0 -> bs = []) /\
      forall ver b2 rest, Read_inv b2 -> agree_fields s n (n + fcount) b' b2 -> fterminated \/ rest = [] ->
        (0 < fcount \/ version_prefix ver n = []) ->
        exists f', fields_load b2 (mkLoader ver n s (version_prefix ver n ++ bs ++ rest)) =
            (Ok f', mkLoader ver (n + fcount) s rest) /\ fattached s n f' /\ fabs b2 f' x
}.

Section Instances.
Context `{Profile} `{CompatMode} `{WS : WriteSpec St}.

#[export] Instance FNil_FieldsSpec : FieldsSpec St FNil.
Proof.
  refine {| fmodel := unit; fcount := 0; fields_ok := True; fterminated := True; fvalid := fun _ => True;
            fattached := fun _ _ _ => True; fabs := fun _ _ _ => True; fflushable := fun _ _ _ _ => True |}; try done.
  - intros s n c f _ _ _. exists f. by rewrite Z.add_0_r.
  - intros s n c f _ _ _. exists f. by rewrite Z.add_0_r.
  - intros s n out b f x _ _ _ _ Hb _ _. exists [], b. rewrite app_nil_r. split_and!; auto with orga.
    intros ver b2 rest _ _ _ [?|Hv]; [lia|]. exists fnil. rewrite Hv, Z.add_0_r. done.
Defined.

Context {A F : Type} {FF : Fields St F} `{!FieldsSpec St F}.

#[export] Instance FCons_FieldsSpec {SA : State St A} `{!StateSpec St A} : FieldsSpec St (FCons A F).
Proof.
  refine {| fmodel := model (V := A) * fmodel (F := F); fcount := 1 + fcount (F := F);
            fields_ok := (State_terminated (V := A) \/ fcount (F := F) = 0) /\ fields_ok (F := F);
            fterminated := if fcount (F := F) =? 0 then State_terminated (V := A) else fterminated (F := F);
            fvalid := fun v => valid (fhead v) /\ fvalid (ftail v);
            fattached := fun s n v => attached (Store_sub s [n]) (fhead v) /\ fattached s (n + 1) (ftail v);
            fabs := fun b v x => abs b (fhead v) x.1 /\ fabs b (ftail v) x.2;
            fflushable := fun s n b v => flushable (Store_sub s [n]) b (fhead v) /\ fflushable s (n + 1) b (ftail v) |}.
  - pose proof (fcount_nonneg (F := F)). lia.
  - pose proof (fcount_nonneg (F := F)). lia.
  - intros s n [x f] [Hx Hf]. split; [by eapply attached_valid|by eapply fattached_valid].
  - intros s n c [x f] [Hx Hf] Hc Hl. cbn [fhead ftail] in *. pose proof (fcount_nonneg (F := F)).
    destruct (attach_spec (Store_sub s [n]) x Hx) as (x' & Hx' & Hax).
    destruct (fattach_spec s (n + 1) (c + 1) f Hf) as (f' & Hf' & Haf); [lia..|].
    exists (fcons x' f'). split; [|done]. cbn. unfold FCons_attach, bindM, in_head, in_tail, zoomM. cbn [fhead ftail].
    rewrite (attach_child_ok s c [n] x x') by (done || lia). cbn [fhead ftail]. rewrite Hf'. by rewrite Z.add_assoc.
  - intros s n c [x f] [Hx Hf] Hc Hl. cbn [fhead ftail] in *. pose proof (fcount_nonneg (F := F)).
    destruct (reattach_spec _ x Hx) as (x' & Hx' & Hax & Hxx).
    destruct (freattach_spec s (n + 1) (c + 1) f Hf) as (f' & Hf' & Haf & Hff); [lia..|].
    exists (fcons x' f'). split_and!; [|done|done|intros b [z w] [??]; split; simpl in *; auto].
    cbn. unfold FCons_attach, bindM, in_head, in_tail, zoomM. cbn [fhead ftail].
    rewrite (attach_child_ok s c [n] x x') by (done || lia). cbn [fhead ftail]. rewrite Hf'. by rewrite Z.add_assoc.
  - intros s n b b' [x f] [z w] [Hx Hf] Hag [Hz Hw]. cbn [fhead ftail fst snd] in *. pose proof (fcount_nonneg (F := F)).
    split; [eapply (abs_frame (Store_sub s [n])); [done|apply Hag; lia|done]|].
    eapply (fabs_frame s (n + 1)); [done|eapply agree_fields_sub; [| |exact Hag]; lia|done].
  - intros s n b b' [x f] Hk [??]. split; [by eapply flushable_mono|by eapply fflushable_mono].
  - intros s n out b [x f] [z w] [Hterm Hok] Hn Hl [Hx Hf] Hb [Hfx Hff] [Hz Hw]. cbn [fhead ftail fst snd] in *.
    pose proof (fcount_nonneg (F := F)) as Hc.
    destruct (flush_spec _ b x z Hx Hb Hfx Hz) as (bs0 & b0 & Hf0 & Hb0 & Hu0 & Hk0 & Hl0).
    destruct (fflush_spec s (n + 1) (out ++ bs0) b0 f w) as (bs1 & b1 & Hf1 & Hb1 & Hu1 & Hk1 & Hnil & Hl1);
      [done|lia|lia|done|done|by eapply fflushable_mono| |].
    { eapply fabs_frame, Hw; [done|]. intros i Hi. eapply (only_fields_agree s n (n + 1)); [lia|].
      eapply only_fields_of_under, Hu0. lia. }
    exists (bs0 ++ bs1), b1. split_and!.
    + cbn. unfold FCons_flush, Flusher_flush_child, bindM. cbn [fhead ftail]. rewrite Hf0. simpl. by rewrite Hf1, app_assoc.
    + done.
    + eapply only_fields_trans; [eapply only_fields_of_under, Hu0; lia|eapply only_fields_sub, Hu1; lia].
    + eauto with orga.
    + lia.
    + intros ver b2 rest Hb2 Hag Hr _.
      destruct (Hl0 b2 (bs1 ++ rest) Hb2) as (x' & Hlx & Hax & Hzx).
      { eapply agree_under_trans; [eapply (only_fields_agree s (n + 1)), Hu1; lia|]. apply Hag. lia. }
      { destruct Hterm as [|Hz0]; [by left|]. rewrite (Hnil Hz0). rewrite (proj2 (Z.eqb_eq _ _) Hz0) in Hr. exact Hr. }
      destruct (Hl1 ver b2 rest Hb2) as (f' & Hlf & Haf & Hwf).
      { eapply agree_fields_sub; [| |exact Hag]; lia. }
      { destruct (Z.eqb_spec (fcount (F := F)) 0) as [Hz0|Hz0]; [|exact Hr].
        left. by apply fcount_none. }
      { right. unfold version_prefix. destruct (Z.eqb_spec (n + 1) 0); [lia|]. by rewrite andb_false_r. }
      exists (fcons x' f'). split_and!; [|done..]. cbn. unfold FCons_load, bindM. unfold version_prefix. rewrite <- app_assoc.
      rewrite (load_child_ok (ver := ver) s n b2 bs0 (bs1 ++ rest) x') by (done || lia).
      assert (Hvp : version_prefix ver (n + 1) = []).
      { unfold version_prefix. destruct (Z.eqb_spec (n + 1) 0); [lia|]. by rewrite andb_false_r. }
      rewrite Hvp in Hlf. simpl in Hlf. rewrite Hlf. by rewrite Z.add_assoc.
Defined.

#[export] Instance FSkip_FieldsSpec {DA : Default A} : FieldsSpec St (FCons (Skip A) F).
Proof.
  refine {| fmodel := fmodel (F := F); fcount := fcount (F := F); fields_ok := fields_ok (F := F); fterminated := fterminated (F := F);
            fvalid := fun v => fvalid (ftail v); fattached := fun s n v => fattached s n (ftail v);
            fabs := fun b v x => fabs b (ftail v) x; fflushable := fun s n b v => fflushable s n b (ftail v) |}.
  - apply fcount_nonneg.
  - apply fcount_none.
  - intros s n [x f]. apply fattached_valid.
  - intros s n c [x f] Hf Hc Hl. destruct (fattach_spec s n c f Hf Hc Hl) as (f' & Hf' & Haf). exists (fcons x f').
    split; [|done]. cbn. unfold FSkip_attach, bindM, in_head, in_tail, zoomM. simpl. by rewrite Hf'.
  - intros s n c [x f] Hf Hc Hl. destruct (freattach_spec s n c f Hf Hc Hl) as (f' & Hf' & Haf & Hx). exists (fcons x f').
    split_and!; [|done|done]. cbn. unfold FSkip_attach, bindM, in_head, in_tail, zoomM. simpl. by rewrite Hf'.
  - intros s n b b' [x f] z. apply fabs_frame.
  - intros s n b b' [x f]. apply fflushable_mono.
  - intros s n out b [x f] z Hok Hn Hl Hf Hb Hff Hz.
    destruct (fflush_spec s n out b f z Hok Hn Hl Hf Hb Hff Hz) as (bs & b' & Hfl & Hb' & Hu & Hk & Hnil & Hld).
    exists bs, b'. split_and!; [|done..|].
    + cbn. unfold FSkip_flush, Flusher_flush_skipped_child, bindM. simpl. by rewrite Hfl.
    + intros ver b2 rest Hb2 Hag Hr Hv. destruct (Hld ver b2 rest Hb2 Hag Hr Hv) as (f' & Hlf & Haf & Hzf).
      exists (fcons (mkSkip default) f'). split_and!; [|done..]. cbn. unfold FSkip_load, bindM, Loader_load_skipped_child.
      simpl. by rewrite Hlf.
Defined.
End Instances.

Section StructSpec.
Context `{Profile} `{CompatMode} `{WS : WriteSpec St} {F : Type} {FF : Fields St F} `{!FieldsSpec St F} {ver : Z}.

(** At least one plain field: with none the version byte is not read back. *)
Class FieldsOk := { fields_are_ok : fields_ok (F := F); fields_some : 0 < fcount (F := F) <= 255 }.

Lemma Struct_attach_ok s f f' a : fields_attach 0 (Attacher_new s) f = (Ok a, f') ->
  Struct_attach s (mkStruct (ver := ver) f) = (Ok tt, mkStruct f').
Proof. intros Hf. unfold Struct_attach, bindM, zoomM. cbn [fields]. by rewrite Hf. Qed.

#[export] Instance Struct_StateSpec `{!FieldsOk} : StateSpec St (Struct ver F).
Proof.
  pose proof fields_are_ok as Hok. pose proof fields_some as Hcount.
  refine {| model := fmodel (F := F); valid := fun v => fvalid (fields v); attached := fun s v => fattached s 0 (fields v);
            abs := fun b v x => fabs b (fields v) x; State_terminated := fterminated (F := F);
            flushable := fun s b v => fflushable s 0 b (fields v) |}.
  - intros s [f]. apply fattached_valid.
  - intros s [f] Hf. destruct (fattach_spec s 0 0 f Hf) as (f' & Hf' & Ha); [lia..|].
    exists (mkStruct f'). split; [by eapply Struct_attach_ok|done].
  - intros s [f] Hf. destruct (freattach_spec s 0 0 f Hf) as (f' & Hf' & Ha & Hx); [lia..|].
    exists (mkStruct f'). split_and!; [by eapply Struct_attach_ok|done|done].
  - intros s b b' [f] x Hf Hag. eapply fabs_frame; [done|]. auto with orga.
  - intros s b b' [f]. apply fflushable_mono.
  - intros s b [f] x Hf Hb Hff Hx. cbn [fields] in *.
    destruct (fflush_spec s 0 (if compat_mode then [] else [ver]) b f x) as (bs & b' & Hfl & Hb' & Hu & Hk & _ & Hl); [done|lia|lia|done..|].
    exists ((if compat_mode then [] else [ver]) ++ bs), b'. split_and!; [|done|eauto with orga|done|].
    + cbn. unfold Struct_flush, Flusher_version, bindM. destruct compat_mode; simpl; by rewrite Hfl.
    + intros b2 rest Hb2 Hag Hr. destruct (Hl ver b2 rest Hb2) as (f' & Hlf & Haf & Hxf); [auto with orga|done|lia|].
      destruct (freattach_spec s 0 0 f' Haf) as (f2 & Hf2 & Ha2 & Hx2); [lia..|].
      exists (mkStruct f2). split_and!; [|done|by apply Hx2]. cbn. unfold Struct_load, Loader_new.
      replace (((if compat_mode then [] else [ver]) ++ bs) ++ rest) with (version_prefix ver 0 ++ bs ++ rest)
        by (unfold version_prefix; by destruct compat_mode).
      rewrite Hlf. by rewrite (Struct_attach_ok s f' f2 _ Hf2).
Defined.
End StructSpec.
Arguments FieldsOk {_ _} St {_ _ _ _} F {_ _}.

(** ** Records with named fields

    A struct of the program is a record here; its derived [State] is that of its list of
    fields, in the order of the declaration. *)
Class Derived (T : Type) (ver : Z) (F : Type) := {
  to_fields : T -> F;
  of_fields : F -> T;
  of_to_fields x : of_fields (to_fields x) = x;
  to_of_fields f : to_fields (of_fields f) = f
}.
Arguments to_fields {T ver F _} _.
Arguments of_fields {T ver F _} _.

Section Derived.
Context `{Profile} `{CompatMode} {St : Type} {T : Type} {ver : Z} {F : Type} {FF : Fields St F} `{D : !Derived T ver F}.
Definition as_struct (x : T) : Struct ver F := mkStruct (to_fields x).
Definition of_struct (v : Struct ver F) : T := of_fields (fields v).
Definition derived_attach (s : Store) : M T unit := zoomM as_struct (fun v _ => of_struct v) (Struct_attach s).
Definition derived_flush (x : T) : M St bytes := Struct_flush (as_struct x).
Definition derived_load (s : Store) (bs : bytes) (b : St) : res (T * bytes) :=
  let? r := Struct_load s bs b in Ok (of_struct r.1, r.2).
Definition derived_State : State St T :=
  {| State_attach := derived_attach; State_flush := derived_flush; State_load := derived_load |}.

Lemma as_of_struct v : as_struct (of_struct v) = v.
Proof. destruct v as [f]. unfold as_struct, of_struct. simpl. by rewrite to_of_fields. Qed.
Lemma of_as_struct x : of_struct (as_struct x) = x.
Proof. apply of_to_fields. Qed.
End Derived.

Section DerivedSpec.
Context `{Profile} `{CompatMode} `{WS : WriteSpec St} {T : Type} {ver : Z} {F : Type} {FF : Fields St F} `{!FieldsSpec St F} `{!FieldsOk St F}.
Context `{D : !Derived T ver F}.
Definition derived_StateSpec : StateSpec St T (ST := derived_State (D := D)).
Proof.
  refine {| model := fmodel (F := F); valid := fun x => fvalid (to_fields x); attached := fun s x => fattached s 0 (to_fields x);
            abs := fun b x y => fabs b (to_fields x) y; State_terminated := fterminated (F := F);
            flushable := fun s b x => fflushable s 0 b (to_fields x) |}.
  - intros s x. exact (attached_valid (StateSpec := Struct_StateSpec (ver := ver)) s (as_struct x)).
  - intros s x Hx. destruct (attach_spec (StateSpec := Struct_StateSpec (ver := ver)) s (as_struct x) Hx) as (v & Hv & Ha). exists (of_struct v).
    split; [|by rewrite <- (as_of_struct v) in Ha]. cbn. unfold derived_attach, zoomM. cbn in Hv. by rewrite Hv.
  - intros s x Hx. destruct (reattach_spec (StateSpec := Struct_StateSpec (ver := ver)) s (as_struct x) Hx) as (v & Hv & Ha & Hb). exists (of_struct v).
    rewrite <- (as_of_struct v) in Ha, Hb. split_and!; [|exact Ha|exact Hb].
    cbn. unfold derived_attach, zoomM. cbn in Hv. by rewrite Hv.
  - intros s b b' x y. exact (abs_frame (StateSpec := Struct_StateSpec (ver := ver)) s b b' (as_struct x) y).
  - intros s b b' x. exact (flushable_mono (StateSpec := Struct_StateSpec (ver := ver)) s b b' (as_struct x)).
  - intros s b x y Hx Hb Hf Hy. destruct (flush_spec (StateSpec := Struct_StateSpec (ver := ver)) s b (as_struct x) y Hx Hb Hf Hy) as (bs & b' & Hfl & Hb' & Hu & Hk & Hl).
    exists bs, b'. split_and!; [exact Hfl|done..|]. intros b2 rest Hb2 Hag Hr. destruct (Hl b2 rest Hb2 Hag Hr) as (v & Hlv & Ha & Hv).
    exists (of_struct v). rewrite <- (as_of_struct v) in Ha, Hv. split_and!; [|exact Ha|exact Hv].
    cbn. unfold derived_load. cbn in Hlv. by rewrite Hlv.
Defined.
End DerivedSpec.

(** The derived [load] undoes the derived [flush] of a struct with any number of
    fields, the version byte included: the plain fields come back with the same
    content, exactly the bytes written are consumed, and the fields' writes stay
    under the struct's prefix. *)
Theorem derived_fields_roundtrip `{Profile} `{CompatMode} `{WS : WriteSpec St} {F : Type} {FF : Fields St F} `{!FieldsSpec St F} {ver : Z}
    `{!FieldsOk St F} (s : Store) (b : St) (v : Struct ver F) x rest :
  fterminated (F := F) \/ rest = [] ->
  fattached s 0 (fields v) -> Read_inv b -> fflushable s 0 b (fields v) -> fabs b (fields v) x ->
  exists bs b' (v' : Struct ver F), Struct_flush v b = (Ok bs, b') /\ Read_inv b' /\ only_under s b b' /\
    Struct_load s (bs ++ rest) b' = Ok (v', rest) /\ fattached s 0 (fields v') /\ fabs b' (fields v') x.
Proof.
  intros Hr Hv Hb Hf Hx. destruct (flush_spec (StateSpec := Struct_StateSpec (ver := ver)) s b v x Hv Hb Hf Hx) as (bs & b' & Hfl & Hb' & Hu & _ & Hl).
  destruct (Hl b' rest Hb' (agree_under_refl _ _) Hr) as (v' & Hl' & Hv' & Hx').
  exists bs, b', v'. by split_and!.
Qed.

(** *** Witness *)

#[local] Instance fields_profile : Profile := {| overflow_checks := true; debug_assertions := true |}.
#[local] Instance fields_compat : CompatMode := {| compat_mode := false |}.

(** Two plain fields around a skipped one. *)
Abbreviation ExFields := (FCons u8 (FCons (Skip u8) (FCons u8 FNil))).
Definition ex_struct : Struct 3 ExFields := mkStruct (fcons (to_uint 1 7) (fcons (mkSkip (to_uint 1 9)) (fcons (to_uint 1 8) fnil))).
Definition ex_fstore : MapStore := mkBufStore [] mkEmpty.
Definition ex_spec : FieldsSpec MapStore ExFields := _.
#[local] Instance ex_FieldsOk : FieldsOk MapStore ExFields (FieldsSpec0 := ex_spec).
Proof. split; [|done]. simpl. tauto. Qed.

Lemma derived_fields_roundtrip_witness :
  exists bs b' (v' : Struct 3 ExFields), Struct_flush ex_struct ex_fstore = (Ok bs, b') /\
    Struct_load (mkStore [4]) (bs ++ [5]) b' = Ok (v', [5]) /\
    fhead (fields v') = to_uint 1 7 /\ fhead (ftail (ftail (fields v'))) = to_uint 1 8.
Proof.
  pose (x := (to_uint 1 7, (to_uint 1 8, tt)) : fmodel (FieldsSpec := ex_spec)).
  destruct (derived_fields_roundtrip (FieldsSpec0 := ex_spec) (mkStore [4]) ex_fstore ex_struct x [5])
    as (bs & b' & v' & Hf & _ & _ & Hl & _ & Hx); [by left|done|by split; [repeat constructor|]|done|done|].
  exists bs, b', v'. split_and!; [done|done|..]; by destruct Hx as (? & ? & _).
Defined.
