(* ===== verification/Address.v ===== *)
(** * Addresses (src/coins/mod.rs)

    An address is the hash of a public key. [Address] is the key of most maps: its
    derived encoding puts a version byte before the twenty bytes, unless the program
    runs in compatibility mode. The hash functions are parameters. *)

From stdpp Require Import base tactics numbers list strings gmap.
From Stdlib Require Import ZArith Lia.
From S2P Require Import Prelude Bytes BTree StoreIface StoreIter NullStore BufStore PrefixStore Codec StateIface Next StructState Encoding MapColl MapSpec MapProps MapIter MapIterSpec Fields.
#[local] Open Scope Z_scope.

(** The twenty bytes are read as a big-endian integer; the order is the same. *)
Record Address := mkAddress { Address_bytes : uint 20 }.
#[export] Instance Address_eq_dec : EqDecision Address.
Proof. solve_decision. Defined.

Definition Address_NULL : Address := mkAddress (to_uint 20 0).
Definition Address_is_null (a : Address) : bool := bool_decide (a = Address_NULL).

Class Hashes := {
  Sha256 : bytes -> bytes;
  Ripemd160 : bytes -> bytes;
  Keccak256 : bytes -> bytes;
  Sha256_length bs : length (Sha256 bs) = 32%nat;
  Ripemd160_length bs : length (Ripemd160 bs) = 20%nat;
  Keccak256_length bs : length (Keccak256 bs) = 32%nat;
  Sha256_bytes bs : is_bytes (Sha256 bs);
  Ripemd160_bytes bs : is_bytes (Ripemd160 bs);
  Keccak256_bytes bs : is_bytes (Keccak256 bs)
}.

(** [bytes.copy_from_slice(..)] panics when the lengths differ. *)
Definition copy_from_slice (n : nat) (src : bytes) : res (uint n) :=
  if (length src =? n)%nat then Ok (to_uint n (from_be_bytes src))
  else Panic "source slice length does not match destination slice length".

(** The text of an address, from the [bech32] crate. *)
Class Bech32 := { Address_to_string : Address -> string }.

Section FromKeys.
Context `{Hashes}.
Definition Address_from_pubkey (pubkey : bytes) : res Address :=
  let hash := Sha256 pubkey in
  let hash := Ripemd160 hash in
  let? bs := copy_from_slice 20 hash in Ok (mkAddress bs).
Definition Address_from_pubkey_eth (pubkey : bytes) : res Address :=
  let hash := Keccak256 pubkey in
  let? bs := copy_from_slice 20 (drop 12 hash) in Ok (mkAddress bs).

(** The hashes have the lengths the copies need. *)
Lemma from_pubkey_total pubkey : exists a a', Address_from_pubkey pubkey = Ok a /\ Address_from_pubkey_eth pubkey = Ok a'.
Proof.
  unfold Address_from_pubkey, Address_from_pubkey_eth, copy_from_slice.
  rewrite Ripemd160_length, length_drop, Keccak256_length. simpl. eauto.
Qed.
End FromKeys.

(** Functions with the lengths of the hashes, to run the model. *)
Definition pad (n : nat) (bs : bytes) : bytes := take n ((fun b => b mod 256) <$> bs ++ replicate n 0).
Lemma pad_length n bs : length (pad n bs) = n.
Proof. unfold pad. rewrite length_take, length_fmap, length_app, length_replicate. lia. Qed.
Lemma pad_bytes n bs : is_bytes (pad n bs).
Proof. unfold pad. apply Forall_take, Forall_fmap, Forall_true. intros b. unfold is_u8. simpl. apply Z.mod_pos_bound. lia. Qed.
Definition padded_hashes : Hashes.
Proof.
  refine {| Sha256 := fun bs => pad 32 (rev bs); Ripemd160 := fun bs => pad 20 bs; Keccak256 := fun bs => pad 32 bs |};
    intros; apply pad_length || apply pad_bytes.
Defined.

(** [#[orga] struct VersionedAddress] and the conversions. *)
Record VersionedAddress := mkVersionedAddress { VA_bytes : uint 20 }.
#[export] Instance VersionedAddress_eq_dec : EqDecision VersionedAddress.
Proof. solve_decision. Defined.
Definition VersionedAddress_from (addr : Address) : VersionedAddress := mkVersionedAddress (Address_bytes addr).
Definition Address_from_versioned (addr : VersionedAddress) : Address := mkAddress (VA_bytes addr).
Definition Address_from_bytes (bs : uint 20) : Address := mkAddress bs.

(** ** The derived codec and state *)

Section Codec.
Context `{Profile} `{CompatMode}.
Definition Address_encode (a : Address) : res bytes :=
  let? out := Encoder_version [] 0 in
  Encoder_encode_child out (Address_bytes a).
Definition Address_decode (bs : bytes) : res (Address * bytes) :=
  match (do x <- Decoder_decode_child (U := uint 20); retM (mkAddress x)) (Decoder_new bs 0) with
  | (Ok a, d) => Ok (a, Decoder_bytes d)
  | (Err e, _) => Err e
  | (Panic w, _) => Panic w
  end.
#[export] Instance Address_Encode : Encode Address := {| Encode_encode := Address_encode |}.
#[export] Instance Address_Decode : Decode Address := {| Decode_decode := Address_decode |}.

Definition address_bytes (a : Address) : bytes := (if compat_mode then [] else [0]) ++ enc (Address_bytes a).

(** What the decoder does, on every input. *)
Lemma Address_decode_eq bs :
  Address_decode bs =
    if negb compat_mode then
      let? '(v, rest) := Decode_decode (K := u8) bs in
      if uint_val v =? 0 then let? '(x, rest) := Decode_decode (K := uint 20) rest in Ok (mkAddress x, rest)
      else Err (UnexpectedByte (uint_val v))
    else let? '(x, rest) := Decode_decode (K := uint 20) bs in Ok (mkAddress x, rest).
Proof.
  unfold Address_decode, Decoder_decode_child, Decoder_new, bindM, Decoder_read_version, u8_op.
  cbn [Decoder_field_count Decoder_bytes Decoder_version Z.eqb andb]. destruct (negb compat_mode).
  - destruct (Decode_decode bs) as [[v rest]|e|w]; [|done..]. cbn [res_bind]. destruct (uint_val v =? 0); [|done].
    cbn [Decoder_field_count Decoder_bytes Decoder_version]. by destruct (Decode_decode rest) as [[x r]|e|w].
  - cbn [Decoder_field_count Decoder_bytes Decoder_version]. by destruct (Decode_decode bs) as [[x r]|e|w].
Qed.

#[export] Instance Address_CodecSpec : CodecSpec Address.
Proof.
  refine {| enc := address_bytes; codec_terminated := True |}.
  - intros a. change (Address_encode a = Ok (address_bytes a)). unfold Address_encode, Encoder_version, Encoder_encode_child, address_bytes.
    destruct compat_mode; cbn [res_bind]; by rewrite encode_enc.
  - intros a r _. change (Address_decode (address_bytes a ++ r) = Ok (a, r)). rewrite Address_decode_eq. unfold address_bytes. destruct compat_mode; cbn [negb app].
    + rewrite (decode_key (Address_bytes a) r). by destruct a.
    + rewrite decode_u8_cons by done. cbn [res_bind]. change (uint_val (to_uint 1 0) =? 0) with true. cbn iota.
      rewrite (decode_key (Address_bytes a) r). by destruct a.
Defined.
#[export] Instance Address_KeySpec : KeySpec Address.
Proof.
  split.
  - done.
  - intros a. unfold enc, Address_CodecSpec, address_bytes. destruct compat_mode; [apply enc_nonempty|done].
  - intros bs a r Hd. change (Address_decode bs = Ok (a, r)) in Hd. rewrite Address_decode_eq in Hd. change (bs = address_bytes a ++ r). unfold address_bytes. destruct compat_mode; cbn [negb] in Hd.
    + destruct (Decode_decode bs) as [[x rest]|e|w] eqn:E; [|done..]. injection Hd as <- <-. exact (decode_canonical _ _ _ E).
    + destruct (Decode_decode bs) as [[v rest0]|e|w] eqn:E0; [|done..]. cbn [res_bind] in Hd.
      destruct (Z.eqb_spec (uint_val v) 0) as [Hv|]; [|done].
      destruct (Decode_decode rest0) as [[x rest]|e|w] eqn:E; [|done..]. injection Hd as <- <-.
      apply decode_canonical in E, E0. cbn [Address_bytes]. rewrite E0, E. rewrite u8_enc, Hv. done.
Qed.
#[export] Instance Address_FixedKey : FixedKey Address.
Proof.
  refine {| key_width := if compat_mode then 20 else 21 |}.
  - intros a. unfold enc, Address_CodecSpec, address_bytes. pose proof (enc_width (Address_bytes a)) as Hw. destruct compat_mode; cbn [app length]; by rewrite Hw.
  - intros a. unfold enc, Address_CodecSpec, address_bytes. pose proof (enc_is_bytes (Address_bytes a)). destruct compat_mode; [done|].
    by constructor.
Defined.
End Codec.

Section State.
Context `{Profile} `{CompatMode}.
#[export] Instance Address_Derived : Derived Address 0 (FCons (uint 20) FNil).
Proof.
  refine {| to_fields := fun a => fcons (Address_bytes a) fnil; of_fields := fun f => mkAddress (fhead f) |}; [by intros []|by intros [? []]].
Defined.
#[export] Instance VersionedAddress_Derived : Derived VersionedAddress 0 (FCons (uint 20) FNil).
Proof.
  refine {| to_fields := fun a => fcons (VA_bytes a) fnil; of_fields := fun f => mkVersionedAddress (fhead f) |}; [by intros []|by intros [? []]].
Defined.
#[export] Instance Address_State {St} : State St Address := derived_State (D := Address_Derived).
#[export] Instance VersionedAddress_State {St} : State St VersionedAddress := derived_State (D := VersionedAddress_Derived).
#[export] Instance Address_FieldsOk `{WS : WriteSpec St} : FieldsOk St (FCons (uint 20) FNil).
Proof. split; [|done]. simpl. tauto. Qed.
#[export] Instance Address_StateSpec `{WS : WriteSpec St} : StateSpec St Address := derived_StateSpec (D := Address_Derived).
#[export] Instance VersionedAddress_StateSpec `{WS : WriteSpec St} : StateSpec St VersionedAddress := derived_StateSpec (D := VersionedAddress_Derived).
End State.
