(* ===== verification/DequeColl.v ===== *)
(** * [Deque] ([src/collections/deque.rs])

    A double-ended queue kept in a [Map] from [u64] positions to elements, with
    the first position ([head]) and the position after the last ([tail]) beside
    it. The operations are proved against the laws of [Map]; the abstract content
    is the list of the elements' contents. *)

From stdpp Require Import base tactics numbers list strings gmap.
From Stdlib Require Import ZArith Lia.
From S2P Require Import Prelude Bytes BTree StoreIface StoreIter NullStore BufStore PrefixStore Codec StateIface StructState MapColl MapSpec MapProps.

(** [#[orga] struct Meta { head: u64, tail: u64 }], version 0. *)
Definition Meta : Type := Struct2 0 u64 u64.
Definition mkMeta (head tail : u64) : Meta := mkStruct2 head tail.
Definition Meta_head (m : Meta) : u64 := field0 m.
Definition Meta_tail (m : Meta) : u64 := field1 m.
Definition Meta_default : Meta :=
  let midpoint := to_uint 8 (u64_max / 2) in mkMeta midpoint midpoint.

Record Deque (T : Type) := mkDeque { Deque_meta : Meta; Deque_map : Map u64 T }.
Arguments mkDeque {T} _ _.
Arguments Deque_meta {T} _.
Arguments Deque_map {T} _.

Definition Deque_new {T} : Deque T := mkDeque Meta_default Map_new.

(** The two indices as integers. *)
Definition dhead {T} (d : Deque T) : Z := uint_val (Meta_head (Deque_meta d)).
Definition dtail {T} (d : Deque T) : Z := uint_val (Meta_tail (Deque_meta d)).

Section Ops.
Context {St T : Type} `{Profile} `{CompatMode}.
Context `{Read St} `{!Write St} `{!Bounded St} {SV : State St T}.
Implicit Types (b : St) (d : Deque T).

Definition Deque_with_store (s : Store) : res (Deque T) :=
  let? map := Map_with_store (St := St) s in Ok (mkDeque Meta_default map).

Definition in_map {A} (f : M (Map u64 T) A) : M (Deque T) A :=
  zoomM Deque_map (fun m d => mkDeque (Deque_meta d) m) f.
Definition set_head (h : Z) : M (Deque T) unit := fun d =>
  (Ok tt, mkDeque (mkMeta (to_uint 8 h) (Meta_tail (Deque_meta d))) (Deque_map d)).
Definition set_tail (t : Z) : M (Deque T) unit := fun d =>
  (Ok tt, mkDeque (mkMeta (Meta_head (Deque_meta d)) (to_uint 8 t)) (Deque_map d)).

Definition Deque_len d : res Z := u64_sub (dtail d) (dhead d).
Definition Deque_get_raw b d (key : Z) : res (option (Ref T)) := Map_get b (Deque_map d) (to_uint 8 key).
Definition Deque_is_empty d : res bool := let? n := Deque_len d in Ok (n =? 0)%Z.
Definition Deque_get b d (index : Z) : res (option (Ref T)) :=
  let? k := u64_add index (dhead d) in Map_get b (Deque_map d) (to_uint 8 k).
Definition Deque_front b d : res (option (Ref T)) := Map_get b (Deque_map d) (to_uint 8 (dhead d)).
Definition Deque_back b d : res (option (Ref T)) :=
  let? k := u64_sub (dtail d) 1 in Map_get b (Deque_map d) (to_uint 8 k).

Definition Deque_get_mut b (index : Z) : M (Deque T) (option (ChildMut u64 T)) :=
  do k <- readM (fun d => u64_add index (dhead d));
  in_map (Map_get_mut b (to_uint 8 k)).

Definition Deque_push_back (value : T) : M (Deque T) unit :=
  do index <- readM (fun d => Ok (dtail d));
  do t <- liftM (u64_add index 1);
  run set_tail t;
  in_map (Map_insert (St := St) (to_uint 8 index) value).

Definition Deque_push_front (value : T) : M (Deque T) unit :=
  do h <- readM (fun d => u64_sub (dhead d) 1);
  run set_head h;
  in_map (Map_insert (St := St) (to_uint 8 h) value).

Definition Deque_pop_front b : M (Deque T) (option (ReadOnly T)) :=
  do e <- readM Deque_is_empty;
  if e : bool then retM None
  else
    do h <- readM (fun d => u64_add (dhead d) 1);
    run set_head h;
    do k <- readM (fun d => u64_sub (dhead d) 1);
    in_map (Map_remove b (to_uint 8 k)).

Definition Deque_pop_back b : M (Deque T) (option (ReadOnly T)) :=
  do e <- readM Deque_is_empty;
  if e : bool then retM None
  else
    do t <- readM (fun d => u64_sub (dtail d) 1);
    run set_tail t;
    in_map (Map_remove b (to_uint 8 t)).

Definition Deque_front_mut b : M (Deque T) (option (ChildMut u64 T)) := Deque_get_mut b 0.
Definition Deque_back_mut b : M (Deque T) (option (ChildMut u64 T)) :=
  do i <- readM (fun d => let? n := Deque_len d in u64_sub n 1);
  Deque_get_mut b i.

Definition Deque_swap b (i j : Z) : M (Deque T) unit :=
  do i <- readM (fun d => u64_add i (dhead d));
  do j <- readM (fun d => u64_add j (dhead d));
  in_map (Map_swap b (to_uint 8 i) (to_uint 8 j)).

Definition Deque_swap_remove_front b (i : Z) : M (Deque T) unit :=
  run Deque_swap b i 0;
  run Deque_pop_front b;
  retM tt.
Definition Deque_swap_remove_back b (i : Z) : M (Deque T) unit :=
  do j <- readM (fun d => let? n := Deque_len d in u64_sub n 1);
  run Deque_swap b i j;
  run Deque_pop_back b;
  retM tt.

(** *** [retain]

    The predicate is an [FnMut] with its own state [F]; it is given a mutable
    reference, so it may also replace the element. *)
Context {F : Type} (f : T -> M F (bool * option T)).

(** [f(self.get_mut(i)?.unwrap())?] *)
Definition retain_test b (i : Z) : M (Deque T * F) bool := fun df =>
  match Deque_get_mut b i df.1 with
  | (Ok (Some child), d) =>
      match ChildMut_deref (Deque_map d) child with
      | Ok v =>
          match f v df.2 with
          | (Ok (keep, None), fs) => (Ok keep, (d, fs))
          | (Ok (keep, Some v'), fs) =>
              let '(r, d') := in_map (ChildMut_modify child (fun _ => v')) d in
              (let? _ := r in Ok keep, (d', fs))
          | (Err e, fs) => (Err e, (d, fs))
          | (Panic w, fs) => (Panic w, (d, fs))
          end
      | Err e => (Err e, (d, df.2))
      | Panic w => (Panic w, (d, df.2))
      end
  | (Ok None, d) => (Panic "called `Option::unwrap()` on a `None` value", (d, df.2))
  | (Err e, d) => (Err e, (d, df.2))
  | (Panic w, d) => (Panic w, (d, df.2))
  end.
Definition on_deque {A} (m : M (Deque T) A) : M (Deque T * F) A := zoomM fst (fun d p => (d, p.2)) m.

(** The first loop, until the first element that goes; [n] is [len - curr_index]. *)
Fixpoint retain_scan (n : nat) b (curr retained : Z) : M (Deque T * F) (Z * Z) :=
  match n with
  | O => retM (curr, retained)
  | S n' =>
      do keep <- retain_test b curr;
      if keep : bool then retain_scan n' b (curr + 1) (retained + 1) else retM ((curr + 1)%Z, retained)
  end.
(** The second loop moves the elements that stay to the front. *)
Fixpoint retain_compact (n : nat) b (curr retained : Z) : M (Deque T * F) (Z * Z) :=
  match n with
  | O => retM (curr, retained)
  | S n' =>
      do keep <- retain_test b curr;
      if keep : bool then
        run on_deque (Deque_swap b retained curr);
        retain_compact n' b (curr + 1) (retained + 1)
      else retain_compact n' b (curr + 1) retained
  end.
(** The third loop pops what is left behind them. *)
Fixpoint retain_trim (n : nat) b (retained : Z) : M (Deque T) unit :=
  match n with
  | O => panicM "out of fuel"
  | S n' =>
      do len <- readM Deque_len;
      if (retained <? len)%Z then run Deque_pop_back b; retain_trim n' b retained
      else retM tt
  end.

Definition Deque_retain b : M (Deque T * F) unit :=
  do len <- on_deque (readM Deque_len);
  do '(curr, retained) <- retain_scan (Z.to_nat len) b 0 0;
  do '(curr, retained) <- retain_compact (Z.to_nat (len - curr)) b curr retained;
  if negb (curr =? retained)%Z then on_deque (retain_trim (S (Z.to_nat len)) b retained)
  else retM tt.

(** [n] bounds the turns: each one advances [i] or shortens the queue. *)
Fixpoint retain_unordered_loop (n : nat) b (i len : Z) : M (Deque T * F) unit :=
  match n with
  | O => retM tt
  | S n' =>
      do keep <- retain_test b i;
      if keep : bool then retain_unordered_loop n' b (i + 1) len
      else
        run on_deque (Deque_swap_remove_back b i);
        retain_unordered_loop n' b i (len - 1)
  end.
Definition Deque_retain_unordered b : M (Deque T * F) unit :=
  do len <- on_deque (readM Deque_len);
  retain_unordered_loop (Z.to_nat len) b 0 len.

(** *** [State for Deque] *)
Definition Deque_attach (s : Store) : M (Deque T) unit := in_map (Map_attach (St := St) s).
Definition Deque_flush (d : Deque T) : M St bytes :=
  do bs0 <- Struct2_flush (Deque_meta d);
  do bs1 <- Map_flush (Deque_map d);
  retM (bs0 ++ bs1).
Definition Deque_load (s : Store) (bs : bytes) b : res (Deque T * bytes) :=
  let? '(meta, bs) := Struct2_load s bs b in
  let? '(map, bs) := Map_load s bs b in
  match Deque_attach s (mkDeque meta map) with
  | (Ok _, value) => Ok (value, bs)
  | (Err e, _) => Err e
  | (Panic w, _) => Panic w
  end.
#[export] Instance Deque_State : State St (Deque T) :=
  {| State_attach := Deque_attach; State_flush := Deque_flush; State_load := Deque_load |}.
End Ops.
