(* ===== verification/DequeSpec.v ===== *)
(** * The laws of [Deque]: it implements a list

    What each operation of [DequeColl] does to the list of elements a queue stands
    for, derived from the laws of the [Map] it is kept in. *)

From stdpp Require Import base tactics numbers list strings gmap.
From Stdlib Require Import ZArith Lia.
From S2P Require Import Prelude Bytes BTree StoreIface StoreIter NullStore BufStore PrefixStore Codec StateIface StructState MapColl MapSpec MapProps DequeColl.

(** The content of the map of a queue whose first position is [h]. *)
Definition deq_content {X} (h : Z) (xs : list X) (k : u64) : option X :=
  if (h <=? uint_val k)%Z then xs !! Z.to_nat (uint_val k - h) else None.

Lemma uint_val_range n (k : uint n) : (0 <= uint_val k < 256 ^ Z.of_nat n)%Z.
Proof. apply uint_range_spec, uint_ok. Qed.
Lemma u64_val_range (k : u64) : (0 <= uint_val k <= u64_max)%Z.
Proof. pose proof (uint_val_range 8 k). change (256 ^ Z.of_nat 8)%Z with (u64_max + 1)%Z in *. lia. Qed.
Lemma to_u64_val z : is_u64 z -> uint_val (to_uint 8 z) = z.
Proof.
  unfold is_u64. intros Hz. simpl. unfold uint_wrap. apply Z.mod_small.
  change (256 ^ Z.of_nat 8)%Z with (u64_max + 1)%Z. lia.
Qed.
Lemma u64_eq_val (j k : u64) : j = k <-> uint_val j = uint_val k.
Proof. split; [by intros ->|apply uint_eq]. Qed.

Section DequeSpec.
Context `{Profile} `{CompatMode} `{WS : WriteSpec St} `{!Bounded St} `{!BoundedSpec St}.
Context {T : Type} {SV : State St T} `{!StateSpec St T}.
Implicit Types (b : St) (s : Store) (d : Deque T) (xs : list (model (V := T))).

Definition Deque_attached s d : Prop := Map_attached s (Deque_map d).
Definition Deque_abs b d xs : Prop :=
  (dhead d + Z.of_nat (length xs) = dtail d)%Z /\ Map_abs b (Deque_map d) (deq_content (dhead d) xs).

Lemma dhead_mk h t (m : Map u64 T) : dhead (mkDeque (mkMeta h t) m) = uint_val h.
Proof. done. Qed.
Lemma dtail_mk h t (m : Map u64 T) : dtail (mkDeque (mkMeta h t) m) = uint_val t.
Proof. done. Qed.
Lemma head_val d : uint_val (Meta_head (Deque_meta d)) = dhead d.
Proof. done. Qed.
Lemma tail_val d : uint_val (Meta_tail (Deque_meta d)) = dtail d.
Proof. done. Qed.

Lemma dhead_range d : (0 <= dhead d <= u64_max)%Z.
Proof. apply u64_val_range. Qed.
Lemma dtail_range d : (0 <= dtail d <= u64_max)%Z.
Proof. apply u64_val_range. Qed.

Lemma Deque_len_spec b d xs : Deque_abs b d xs -> Deque_len d = Ok (Z.of_nat (length xs)).
Proof.
  intros [Hl _]. unfold Deque_len, u64_sub. pose proof (dhead_range d). pose proof (dtail_range d).
  rewrite u64_op_ok; [f_equal; lia|]. unfold is_u64. lia.
Qed.

Lemma u64_add_ok a c : is_u64 (a + c) -> u64_add a c = Ok (a + c)%Z.
Proof. apply u64_op_ok. Qed.
Lemma u64_sub_ok a c : is_u64 (a - c) -> u64_sub a c = Ok (a - c)%Z.
Proof. apply u64_op_ok. Qed.

(** The value stored for a position and the element it stands for. *)
Definition elem_abs s b (i : Z) (ov : option T) (ox : option model) : Prop :=
  val_abs (Store_sub s (enc (to_uint 8 i))) b ov ox.

Lemma deq_content_at {X} h (xs : list X) i :
  is_u64 (h + i) -> (0 <= i)%Z -> deq_content h xs (to_uint 8 (h + i)) = xs !! Z.to_nat i.
Proof.
  intros Hu Hi. unfold deq_content. rewrite to_u64_val by done.
  destruct (Z.leb_spec h (h + i)); [|lia]. f_equal. lia.
Qed.

Lemma Map_get_at s b d xs k :
  Read_inv b -> Deque_attached s d -> Deque_abs b d xs ->
  exists r, Map_get b (Deque_map d) k = Ok r /\
    val_abs (Store_sub s (enc k)) b (Ref_deref <$> r) (deq_content (dhead d) xs k).
Proof.
  intros Hb Hd [_ Hf]. destruct (Map_get_spec b _ _ k Hb Hf) as (r & Hr & Hv).
  exists r. by rewrite <- (proj1 Hd).
Qed.

Lemma Deque_get_spec s b d xs i :
  Read_inv b -> Deque_attached s d -> Deque_abs b d xs -> (0 <= i)%Z -> (dhead d + i <= u64_max)%Z ->
  exists r, Deque_get b d i = Ok r /\ elem_abs s b (dhead d + i) (Ref_deref <$> r) (xs !! Z.to_nat i).
Proof.
  intros Hb Hd Hx Hi Hm. pose proof (dhead_range d). unfold Deque_get.
  rewrite u64_add_ok, Z.add_comm by (unfold is_u64; lia). simpl.
  destruct (Map_get_at s b d xs (to_uint 8 (dhead d + i)) Hb Hd Hx) as (r & -> & Hv).
  exists r. split; [done|]. rewrite deq_content_at in Hv by (unfold is_u64; lia). done.
Qed.

(** ** Content updates *)

Lemma upd_at (f : u64 -> option (model (V := T))) (k j : u64) ox :
  upd f k ox j = if decide (uint_val j = uint_val k) then ox else f j.
Proof.
  unfold upd. destruct (decide (enc j = enc k)) as [He%enc_inj|Hn].
  - subst. by rewrite decide_True.
  - rewrite decide_False; [done|]. intros Hv. destruct Hn. by apply uint_eq in Hv as ->.
Qed.

Lemma deq_push_back h xs x t :
  uint_val t = (h + Z.of_nat (length xs))%Z -> (0 <= h)%Z ->
  forall j, upd (deq_content h xs) t (Some x) j = deq_content h (xs ++ [x]) j.
Proof.
  intros Ht Hh j. rewrite upd_at, Ht. unfold deq_content.
  destruct (Z.leb_spec h (uint_val j)) as [Hj|Hj]; case_decide as Hd; try lia; try done.
  - by rewrite Hd, Z.add_simpl_l, Nat2Z.id, lookup_app_r, Nat.sub_diag by lia.
  - destruct (decide (Z.to_nat (uint_val j - h) < length xs)) as [Hl|Hl].
    + by rewrite lookup_app_l.
    + rewrite !lookup_ge_None_2; [done| |lia]. rewrite length_app. simpl. lia.
Qed.

Lemma deq_push_front h xs x (t : u64) :
  uint_val t = (h - 1)%Z ->
  forall j, upd (deq_content h xs) t (Some x) j = deq_content (h - 1) (x :: xs) j.
Proof.
  intros Ht j. rewrite upd_at, Ht. unfold deq_content.
  case_decide as Hd; destruct (Z.leb_spec (h - 1) (uint_val j)), (Z.leb_spec h (uint_val j)); try lia; try done.
  - by rewrite Hd, Z.sub_diag.
  - by replace (Z.to_nat (uint_val j - (h - 1))) with (S (Z.to_nat (uint_val j - h))) by lia.
Qed.

Lemma deq_pop_front h xs x (t : u64) :
  uint_val t = h -> forall j, upd (deq_content h (x :: xs)) t None j = deq_content (h + 1) xs j.
Proof.
  intros Ht j. rewrite upd_at, Ht. unfold deq_content.
  case_decide as Hd; destruct (Z.leb_spec (h + 1) (uint_val j)), (Z.leb_spec h (uint_val j)); try lia; try done.
  by replace (Z.to_nat (uint_val j - h)) with (S (Z.to_nat (uint_val j - (h + 1)))) by lia.
Qed.

Lemma deq_pop_back h xs x (t : u64) :
  uint_val t = (h + Z.of_nat (length xs))%Z ->
  forall j, upd (deq_content h (xs ++ [x])) t None j = deq_content h xs j.
Proof.
  intros Ht j. rewrite upd_at, Ht. unfold deq_content.
  case_decide as Hd; destruct (Z.leb_spec h (uint_val j)); try lia; try done.
  - rewrite lookup_ge_None_2; [done|lia].
  - destruct (decide (Z.to_nat (uint_val j - h) < length xs)) as [Hl|Hl].
    + by rewrite lookup_app_l.
    + rewrite !lookup_ge_None_2; [done|lia|]. rewrite length_app. simpl. lia.
Qed.

Lemma deq_insert h xs i y (t : u64) :
  uint_val t = (h + Z.of_nat i)%Z -> i < length xs ->
  forall j, upd (deq_content h xs) t (Some y) j = deq_content h (<[i := y]> xs) j.
Proof.
  intros Ht Hi j. rewrite upd_at, Ht. unfold deq_content.
  case_decide as Hd; destruct (Z.leb_spec h (uint_val j)); try lia; try done.
  - replace (Z.to_nat (uint_val j - h)) with i by lia. by rewrite list_lookup_insert_eq.
  - rewrite list_lookup_insert_ne; [done|lia].
Qed.

(** ** Pushing and popping *)

Lemma Deque_push_back_spec s b d xs v :
  Deque_attached s d -> Deque_abs b d xs -> valid v -> (dtail d < u64_max)%Z ->
  exists v', State_attach (Store_sub s (enc (to_uint 8 (dtail d)))) v = (Ok tt, v') /\
    forall x, abs b v' x ->
    exists d', Deque_push_back (St := St) v d = (Ok tt, d') /\ Deque_attached s d' /\ Deque_abs b d' (xs ++ [x]).
Proof.
  intros Hd [Hl Hf] Hv Ht. pose proof (dtail_range d). pose proof (dhead_range d).
  destruct (Map_insert_spec s b (Deque_map d) _ (to_uint 8 (dtail d)) v Hd Hf Hv) as (v' & Ha & _ & Hi).
  exists v'. split; [done|]. intros x Hx. destruct (Hi x Hx) as (m' & Hm & Hm' & Hf').
  unfold Deque_push_back, bindM, readM, liftM. rewrite u64_add_ok by (unfold is_u64; lia).
  unfold set_tail, in_map, zoomM. cbn [Deque_map Deque_meta]. rewrite Hm.
  eexists. split; [done|]. split; [done|]. split.
  - rewrite dhead_mk, dtail_mk, to_u64_val, head_val, length_app by (unfold is_u64; lia). cbn [length]. lia.
  - rewrite dhead_mk, head_val. eapply Map_abs_ext, Hf'. apply deq_push_back; [|lia].
    rewrite to_u64_val by (unfold is_u64; lia). lia.
Qed.

Lemma Deque_push_front_spec s b d xs v :
  Deque_attached s d -> Deque_abs b d xs -> valid v -> (0 < dhead d)%Z ->
  exists v', State_attach (Store_sub s (enc (to_uint 8 (dhead d - 1)))) v = (Ok tt, v') /\
    forall x, abs b v' x ->
    exists d', Deque_push_front (St := St) v d = (Ok tt, d') /\ Deque_attached s d' /\ Deque_abs b d' (x :: xs).
Proof.
  intros Hd [Hl Hf] Hv Ht. pose proof (dtail_range d). pose proof (dhead_range d).
  destruct (Map_insert_spec s b (Deque_map d) _ (to_uint 8 (dhead d - 1)) v Hd Hf Hv) as (v' & Ha & _ & Hi).
  exists v'. split; [done|]. intros x Hx. destruct (Hi x Hx) as (m' & Hm & Hm' & Hf').
  unfold Deque_push_front, bindM, readM. rewrite u64_sub_ok by (unfold is_u64; lia).
  unfold set_head, in_map, zoomM. cbn [Deque_map Deque_meta]. rewrite Hm.
  eexists. split; [done|]. split; [done|].
  assert (Hh : uint_val (to_uint 8 (dhead d - 1)) = (dhead d - 1)%Z) by (apply to_u64_val; unfold is_u64; lia).
  split.
  - rewrite dhead_mk, dtail_mk, Hh, tail_val. cbn [length]. lia.
  - rewrite dhead_mk, Hh.
    eapply Map_abs_ext, Hf'. by apply deq_push_front.
Qed.

Lemma Deque_pop_front_spec s b d xs :
  Read_inv b -> Deque_attached s d -> Deque_abs b d xs ->
  match xs with
  | [] => Deque_pop_front b d = (Ok None, d)
  | x :: xs' => exists v d', Deque_pop_front b d = (Ok (Some (ReadOnly_new v)), d') /\
      elem_abs s b (dhead d) (Some v) (Some x) /\ Deque_attached s d' /\ Deque_abs b d' xs'
  end.
Proof.
  intros Hb Hd Hx. pose proof Hx as [Hl Hf]. pose proof (dtail_range d). pose proof (dhead_range d).
  unfold Deque_pop_front, bindM, readM, Deque_is_empty. rewrite (Deque_len_spec b d xs Hx). simpl.
  destruct xs as [|x xs]; [done|]. cbn [length] in *.
  destruct (Z.eqb_spec (Z.of_nat (S (length xs))) 0); [lia|].
  rewrite u64_add_ok by (unfold is_u64; lia). unfold set_head.
  rewrite dhead_mk, to_u64_val by (unfold is_u64; lia). rewrite u64_sub_ok by (unfold is_u64; lia).
  replace (dhead d + 1 - 1)%Z with (dhead d) by lia. unfold in_map, zoomM. cbn [Deque_map Deque_meta].
  destruct (Map_remove_raw_spec s b (Deque_map d) _ (to_uint 8 (dhead d)) Hb Hd Hf) as (o & m' & Hr & Hv & Hm' & Hf').
  assert (Hc : deq_content (dhead d) (x :: xs) (to_uint 8 (dhead d)) = Some x).
  { unfold deq_content. rewrite to_u64_val by (unfold is_u64; lia). by rewrite Z.leb_refl, Z.sub_diag. }
  rewrite Hc in Hv. destruct o as [v|]; [|done].
  unfold Map_remove, bindM. rewrite Hr. simpl. exists v. eexists. split; [done|]. split; [done|]. split; [done|].
  assert (Hh : uint_val (to_uint 8 (dhead d + 1)) = (dhead d + 1)%Z) by (apply to_u64_val; unfold is_u64; lia).
  split.
  - rewrite dhead_mk, dtail_mk, Hh, tail_val. lia.
  - rewrite dhead_mk, Hh.
    eapply Map_abs_ext, Hf'. apply deq_pop_front. apply to_u64_val. unfold is_u64. lia.
Qed.

Lemma Deque_pop_back_spec s b d xs :
  Read_inv b -> Deque_attached s d -> Deque_abs b d xs ->
  match last xs with
  | None => Deque_pop_back b d = (Ok None, d)
  | Some x => exists v d', Deque_pop_back b d = (Ok (Some (ReadOnly_new v)), d') /\
      elem_abs s b (dtail d - 1) (Some v) (Some x) /\ Deque_attached s d' /\ Deque_abs b d' (removelast xs)
  end.
Proof.
  intros Hb Hd Hx. pose proof Hx as [Hl Hf]. pose proof (dtail_range d). pose proof (dhead_range d).
  unfold Deque_pop_back, bindM, readM, Deque_is_empty. rewrite (Deque_len_spec b d xs Hx). simpl.
  destruct (exists_last_or_nil xs) as [->|(xs' & x & ->)]; [done|]. rewrite last_snoc, removelast_last.
  rewrite length_app in *. cbn [length] in *.
  destruct (Z.eqb_spec (Z.of_nat (length xs' + 1)) 0); [lia|].
  rewrite u64_sub_ok by (unfold is_u64; lia). unfold set_tail, in_map, zoomM. cbn [Deque_map Deque_meta].
  destruct (Map_remove_raw_spec s b (Deque_map d) _ (to_uint 8 (dtail d - 1)) Hb Hd Hf) as (o & m' & Hr & Hv & Hm' & Hf').
  assert (Hh : uint_val (to_uint 8 (dtail d - 1)) = (dtail d - 1)%Z) by (apply to_u64_val; unfold is_u64; lia).
  assert (Hc : deq_content (dhead d) (xs' ++ [x]) (to_uint 8 (dtail d - 1)) = Some x).
  { unfold deq_content. rewrite Hh. destruct (Z.leb_spec (dhead d) (dtail d - 1)); [|lia].
    rewrite lookup_app_r by lia. by replace (_ - _) with 0 by lia. }
  rewrite Hc in Hv. destruct o as [v|]; [|done].
  unfold Map_remove, bindM. rewrite Hr. simpl. exists v. eexists. split; [done|]. split; [done|]. split; [done|].
  split.
  - rewrite dhead_mk, dtail_mk, Hh, head_val. lia.
  - rewrite dhead_mk, head_val. eapply Map_abs_ext, Hf'. apply deq_pop_back. rewrite Hh. lia.
Qed.

(** ** Swapping *)

Definition list_swap {X} (i j : nat) (xs : list X) : list X :=
  match xs !! i, xs !! j with
  | Some x, Some y => <[j := x]> (<[i := y]> xs)
  | _, _ => xs
  end.

Lemma pos_range b d xs i :
  Deque_abs b d xs -> i < length xs -> is_u64 (dhead d + Z.of_nat i).
Proof.
  intros [Hl _] Hi. pose proof (dhead_range d). pose proof (dtail_range d). unfold is_u64. lia.
Qed.

Lemma deq_lookup b d xs i x :
  Deque_abs b d xs -> xs !! i = Some x ->
  deq_content (dhead d) xs (to_uint 8 (dhead d + Z.of_nat i)) = Some x.
Proof.
  intros Hx Hi. rewrite deq_content_at; [by rewrite Nat2Z.id| |lia].
  eapply pos_range; [done|by eapply lookup_lt_Some].
Qed.

Lemma Deque_swap_spec s b d xs i j :
  Read_inv b -> Deque_attached s d -> Deque_abs b d xs -> portable (V := T) ->
  i < length xs -> j < length xs ->
  exists d', Deque_swap b (Z.of_nat i) (Z.of_nat j) d = (Ok tt, d') /\ Deque_attached s d' /\
    Deque_abs b d' (list_swap i j xs).
Proof.
  intros Hb Hd Hx Hp Hi Hj. pose proof Hx as [Hl Hf].
  destruct (lookup_lt_is_Some_2 xs i Hi) as [x Exi]. destruct (lookup_lt_is_Some_2 xs j Hj) as [y Exj].
  unfold Deque_swap, bindM, readM. rewrite !u64_add_ok by (rewrite Z.add_comm; by eapply pos_range).
  rewrite (Z.add_comm (Z.of_nat i)), (Z.add_comm (Z.of_nat j)).
  pose proof (deq_lookup b d xs i x Hx Exi) as Hci. pose proof (deq_lookup b d xs j y Hx Exj) as Hcj.
  destruct (Map_swap_spec s b (Deque_map d) (deq_content (dhead d) xs)
    (to_uint 8 (dhead d + Z.of_nat i)) (to_uint 8 (dhead d + Z.of_nat j)) Hb Hd Hf Hp)
    as (m' & Hm & Hm' & Hf'); [by rewrite Hci|by rewrite Hcj|].
  unfold in_map, zoomM. rewrite Hm. eexists. split; [done|]. split; [done|].
  rewrite Hci, Hcj in Hf'. unfold list_swap. rewrite Exi, Exj. split.
  - rewrite !length_insert. exact Hl.
  - eapply Map_abs_ext, Hf'. intros k.
    pose proof (to_u64_val _ (pos_range b d xs i Hx Hi)) as Hpi.
    pose proof (to_u64_val _ (pos_range b d xs j Hx Hj)) as Hpj.
    change (dhead (mkDeque _ m')) with (dhead d).
    rewrite <- (deq_insert _ _ j x _ Hpj) by by rewrite length_insert.
    rewrite !(upd_at _ (to_uint 8 (dhead d + Z.of_nat j))). case_decide; [done|].
    by rewrite <- (deq_insert _ _ i y _ Hpi).
Qed.

(** ** Retaining

    A predicate that only looks at the element, and depends only on what the
    element stands for. *)
Section Retain.
Context {F : Type} (p : T -> bool) (q : model (V := T) -> bool).
Hypothesis p_abs : forall b v x, abs b v x -> p v = q x.
Hypothesis Hport : portable (V := T).

Definition pure_pred (v : T) : M F (bool * option T) := retM (p v, None).

Lemma retain_test_spec s b d xs i x fs :
  Read_inv b -> Deque_attached s d -> Deque_abs b d xs -> xs !! i = Some x ->
  retain_test pure_pred b (Z.of_nat i) (d, fs) = (Ok (q x), (d, fs)).
Proof.
  intros Hb Hd Hx Hi. pose proof Hx as [Hl Hf].
  pose proof (deq_lookup b d xs i x Hx Hi) as Hc.
  unfold retain_test, Deque_get_mut, bindM, readM. cbn [fst snd].
  rewrite u64_add_ok by (rewrite Z.add_comm; eauto using pos_range, lookup_lt_Some).
  rewrite Z.add_comm. unfold in_map, zoomM, Map_get_mut, bindM.
  destruct (Map_entry_spec s b (Deque_map d) _ (to_uint 8 (dhead d + Z.of_nat i)) Hb Hd Hf)
    as [(v & x' & Hk & Ha & Hxv & Hn & ->)|[(o & Hc' & Hv & ->)|(Hk & _ & ->)]];
    cbn [Entry_into retM ChildMut_deref Deque_map unwrap res_bind].
  - rewrite Hk in Hc. injection Hc as ->. destruct d as [md mm]. unfold pure_pred, retM. cbn [snd Deque_map fst]. by rewrite (p_abs b v x).
  - rewrite Hc in Hv. destruct o as [v|]; [|done]. destruct Hv as [_ Hv].
    rewrite Hc'. cbn [snd]. destruct d as [md mm]. unfold pure_pred, retM. cbn [snd Deque_map fst]. by rewrite (p_abs b v x).
  - congruence.
Qed.

Abbreviation kept := (filter (fun x => q x = true)).

Lemma retain_scan_spec s b d xs fs rest : forall pre,
  Read_inv b -> Deque_attached s d -> Deque_abs b d xs -> xs = pre ++ rest ->
  (kept rest = rest /\ retain_scan pure_pred (length rest) b (Z.of_nat (length pre)) (Z.of_nat (length pre)) (d, fs)
     = (Ok (Z.of_nat (length xs), Z.of_nat (length xs)), (d, fs))) \/
  exists k1 x rest', rest = k1 ++ x :: rest' /\ kept k1 = k1 /\ q x = false /\
    retain_scan pure_pred (length rest) b (Z.of_nat (length pre)) (Z.of_nat (length pre)) (d, fs)
     = (Ok (Z.of_nat (length (pre ++ k1)) + 1, Z.of_nat (length (pre ++ k1)))%Z, (d, fs)).
Proof.
  induction rest as [|x rest IH]; intros pre Hb Hd Hx Hxs.
  { left. split; [done|]. subst xs. by rewrite app_nil_r. }
  cbn [length retain_scan]. unfold bindM.
  rewrite (retain_test_spec s b d xs _ x) by (auto; subst xs; by rewrite lookup_app_r, Nat.sub_diag).
  destruct (q x) eqn:Hq.
  - replace (Z.of_nat (length pre) + 1)%Z with (Z.of_nat (length (pre ++ [x])))
      by (rewrite length_app; simpl; lia).
    destruct (IH (pre ++ [x])) as [[Hk ->]|(k1 & y & rest' & -> & Hk & Hy & ->)]; [done..|by rewrite <- app_assoc| |].
    + left. split; [|done]. rewrite filter_cons_True by done. by rewrite Hk.
    + right. exists (x :: k1), y, rest'. split_and!; [done|by rewrite filter_cons_True, Hk|done|].
      by rewrite <- app_assoc.
  - right. exists [], x, rest. by rewrite app_nil_r.
Qed.

Lemma list_swap_move {X} (ks : list X) j0 junk x rest :
  list_swap (length ks) (length ks + S (length junk)) (ks ++ (j0 :: junk) ++ x :: rest) =
  ks ++ x :: junk ++ j0 :: rest.
Proof.
  assert (Hj : (ks ++ (j0 :: junk) ++ x :: rest) !! (length ks + S (length junk)) = Some x).
  { rewrite app_assoc. apply list_lookup_middle. rewrite length_app. done. }
  unfold list_swap. rewrite Hj. cbn [app].
  rewrite (list_lookup_middle ks (junk ++ x :: rest) j0) by done.
  rewrite <- (Nat.add_0_r (length ks)) at 2. rewrite !insert_app_r. simpl. f_equal. f_equal.
  rewrite <- (Nat.add_0_r (length junk)). by rewrite insert_app_r.
Qed.

Lemma retain_compact_spec s b fs rest : forall d ks junk (c r : Z),
  Read_inv b -> Deque_attached s d -> Deque_abs b d (ks ++ junk ++ rest) -> junk <> [] ->
  c = Z.of_nat (length ks + length junk) -> r = Z.of_nat (length ks) ->
  exists d' junk',
    retain_compact pure_pred (length rest) b c r (d, fs)
      = (Ok (c + Z.of_nat (length rest), r + Z.of_nat (length (kept rest)))%Z, (d', fs)) /\
    Deque_attached s d' /\ Deque_abs b d' ((ks ++ kept rest) ++ junk') /\
    length (kept rest) + length junk' = length junk + length rest.
Proof.
  induction rest as [|x rest IH]; intros d ks junk c r Hb Hd Hx Hj Hc Hr.
  { exists d, junk. rewrite !app_nil_r in *. simpl. rewrite !Z.add_0_r. auto with lia. }
  cbn [length retain_compact]. unfold bindM.
  pose proof (retain_test_spec s b d _ (length ks + length junk) x fs Hb Hd Hx) as Ht.
  rewrite <- Hc in Ht. rewrite Ht by (rewrite app_assoc, lookup_app_r, length_app, Nat.sub_diag by (rewrite length_app; lia); done).
  destruct (q x) eqn:Hq.
  - destruct junk as [|j0 junk]; [done|]. rewrite filter_cons_True by done.
    destruct (Deque_swap_spec s b d _ (length ks) (length ks + S (length junk)) Hb Hd Hx Hport)
      as (d1 & Hs & Hd1 & Hx1); [rewrite !length_app; simpl; lia..|].
    unfold on_deque at 1, zoomM. cbn [fst]. cbn [length] in Hc. rewrite <- Hc, <- Hr in Hs. rewrite Hs. cbn [snd].
    rewrite list_swap_move in Hx1.
    destruct (IH d1 (ks ++ [x]) (junk ++ [j0]) (c + 1)%Z (r + 1)%Z) as (d' & junk' & -> & Hd' & Hx' & Hj');
      rewrite ?length_app; cbn [length]; try done; try lia; [by rewrite <- !app_assoc|by destruct junk|].
    exists d', junk'. rewrite length_app in Hj'. cbn [length app] in *. rewrite <- (app_assoc ks) in Hx'.
    split_and!; [|done..|lia]. f_equal; f_equal; f_equal; lia.
  - rewrite filter_cons_False by congruence.
    destruct (IH d ks (junk ++ [x]) (c + 1)%Z r) as (d' & junk' & -> & Hd' & Hx' & Hj');
      rewrite ?length_app; cbn [length]; try done; try lia; [by rewrite <- !app_assoc|by destruct junk|].
    exists d', junk'. rewrite length_app in Hj'. cbn [length] in *.
    split_and!; [|done..|lia]. f_equal; f_equal; f_equal; lia.
Qed.

Lemma retain_trim_spec s b ys junk : forall d n,
  Read_inv b -> Deque_attached s d -> Deque_abs b d (ys ++ junk) -> length junk < n ->
  exists d', retain_trim n b (Z.of_nat (length ys)) d = (Ok tt, d') /\ Deque_attached s d' /\ Deque_abs b d' ys.
Proof.
  induction junk as [|x junk IH] using rev_ind; intros d n Hb Hd Hx Hn.
  all: destruct n as [|n]; [rewrite ?length_app in *; simpl in *; lia|]; cbn [retain_trim]; unfold bindM, readM.
  all: rewrite (Deque_len_spec b d _ Hx).
  - rewrite app_nil_r in *. rewrite Z.ltb_irrefl. eauto.
  - rewrite (proj2 (Z.ltb_lt _ _)) by (rewrite !length_app; simpl; lia).
    rewrite app_assoc in Hx. pose proof (Deque_pop_back_spec s b d _ Hb Hd Hx) as Hp.
    rewrite last_snoc, removelast_last in Hp. destruct Hp as (v & d1 & -> & _ & Hd1 & Hx1).
    apply (IH d1 n Hb Hd1 Hx1). rewrite length_app in Hn. simpl in Hn. lia.
Qed.

Lemma Deque_retain_spec s b d xs fs :
  Read_inv b -> Deque_attached s d -> Deque_abs b d xs ->
  exists d', Deque_retain pure_pred b (d, fs) = (Ok tt, (d', fs)) /\ Deque_attached s d' /\
    Deque_abs b d' (kept xs).
Proof.
  intros Hb Hd Hx. unfold Deque_retain, bindM, on_deque at 1, zoomM, readM. cbn [fst snd].
  rewrite (Deque_len_spec b d xs Hx), Nat2Z.id.
  destruct (retain_scan_spec s b d xs fs xs [] Hb Hd Hx eq_refl)
    as [[Hk Hs]|(k1 & x & rest & Hxs & Hk & Hq & Hs)]; change (Z.of_nat (length [])) with 0%Z in Hs; rewrite Hs; cbn [app].
  - rewrite Z.sub_diag. simpl. rewrite Z.eqb_refl. simpl. exists d. by rewrite Hk.
  - subst xs. replace (Z.to_nat _) with (length rest) by (rewrite length_app; cbn [length]; lia).
    destruct (retain_compact_spec s b fs rest d k1 [x] (Z.of_nat (length k1) + 1) (Z.of_nat (length k1)))
      as (d' & junk' & -> & Hd' & Hx' & Hj'); [done..|cbn [length]; lia|done|].
    pose proof (length_filter (fun x => q x = true) rest).
    rewrite (proj2 (Z.eqb_neq _ _)) by lia.
    replace (Z.of_nat (length k1) + _)%Z with (Z.of_nat (length (k1 ++ kept rest))) by (rewrite length_app; lia).
    unfold on_deque, zoomM. cbn [negb fst snd].
    destruct (retain_trim_spec s b (k1 ++ kept rest) junk' d' (S (length (k1 ++ x :: rest))) Hb Hd' Hx')
      as (d2 & -> & Hd2 & Hx2); [rewrite length_app; cbn [length] in *; lia|].
    exists d2. split; [done|]. split; [done|].
    rewrite filter_app, filter_cons_False, Hk by congruence. done.
Qed.
Lemma Deque_swap_remove_back_spec s b d ks x rest :
  Read_inv b -> Deque_attached s d -> Deque_abs b d (ks ++ x :: rest) ->
  exists d' rest', Deque_swap_remove_back b (Z.of_nat (length ks)) d = (Ok tt, d') /\ Deque_attached s d' /\
    Deque_abs b d' (ks ++ rest') /\ Permutation rest' rest.
Proof.
  intros Hb Hd Hx. unfold Deque_swap_remove_back, bindM, readM. rewrite (Deque_len_spec b d _ Hx). cbn [res_bind].
  pose proof (dtail_range d). pose proof (dhead_range d). pose proof (proj1 Hx) as Hl.
  rewrite length_app in *. cbn [length] in *. rewrite u64_sub_ok by (unfold is_u64; lia).
  replace (Z.of_nat (length ks + S (length rest)) - 1)%Z with (Z.of_nat (length ks + length rest)) by lia.
  destruct (Deque_swap_spec s b d _ (length ks) (length ks + length rest) Hb Hd Hx Hport)
    as (d1 & -> & Hd1 & Hx1); [rewrite length_app; simpl; lia..|].
  assert (exists rest', list_swap (length ks) (length ks + length rest) (ks ++ x :: rest) = ks ++ rest' ++ [x]
            /\ Permutation rest' rest) as (rest' & Hsw & Hp).
  { destruct (exists_last_or_nil rest) as [->|(r & y & ->)].
    - exists []. split; [|done]. rewrite Nat.add_0_r. unfold list_swap.
      rewrite list_lookup_middle by done. rewrite <- (Nat.add_0_r (length ks)). by rewrite !insert_app_r.
    - exists (y :: r). split; [|by rewrite Permutation_cons_append].
      pose proof (list_swap_move ks x r y []) as Hm. cbn [app] in Hm. rewrite length_app, Nat.add_1_r. exact Hm. }
  rewrite Hsw, app_assoc in Hx1. pose proof (Deque_pop_back_spec s b d1 _ Hb Hd1 Hx1) as Hpop.
  rewrite last_snoc, removelast_last in Hpop. destruct Hpop as (v & d2 & -> & _ & Hd2 & Hx2).
  exists d2, rest'. done.
Qed.

Lemma retain_unordered_loop_spec s b fs n : forall d ks rest (i len : Z),
  Read_inv b -> Deque_attached s d -> Deque_abs b d (ks ++ rest) -> length rest = n -> i = Z.of_nat (length ks) ->
  exists d' ys, retain_unordered_loop pure_pred n b i len (d, fs) = (Ok tt, (d', fs)) /\
    Deque_attached s d' /\ Deque_abs b d' (ks ++ ys) /\ Permutation ys (kept rest).
Proof.
  induction n as [|n IH]; intros d ks rest i len Hb Hd Hx Hn Hi.
  { destruct rest; [|done]. exists d, []. done. }
  destruct rest as [|x rest]; [done|]. cbn [retain_unordered_loop]. unfold bindM.
  pose proof (retain_test_spec s b d _ (length ks) x fs Hb Hd Hx) as Ht. rewrite <- Hi in Ht.
  rewrite Ht by (by rewrite lookup_app_r, Nat.sub_diag). injection Hn as Hn. destruct (q x) eqn:Hq.
  - destruct (IH d (ks ++ [x]) rest (i + 1)%Z len) as (d' & ys & -> & Hd' & Hx' & Hp);
      rewrite <- ?app_assoc; try done; [rewrite length_app; simpl; lia|].
    exists d', (x :: ys). rewrite <- app_assoc in Hx'. split_and!; try done.
    by rewrite filter_cons_True, Hp.
  - destruct (Deque_swap_remove_back_spec s b d ks x rest Hb Hd Hx) as (d1 & rest' & Hs & Hd1 & Hx1 & Hp1).
    rewrite <- Hi in Hs. unfold on_deque at 1, zoomM. cbn [fst]. rewrite Hs. cbn [snd].
    destruct (IH d1 ks rest' i (len - 1)%Z) as (d' & ys & -> & Hd' & Hx' & Hp); try done.
    { by rewrite Hp1. }
    exists d', ys. split_and!; try done. by rewrite filter_cons_False, Hp, Hp1 by congruence.
Qed.

Lemma Deque_retain_unordered_spec s b d xs fs :
  Read_inv b -> Deque_attached s d -> Deque_abs b d xs ->
  exists d' ys, Deque_retain_unordered pure_pred b (d, fs) = (Ok tt, (d', fs)) /\ Deque_attached s d' /\
    Deque_abs b d' ys /\ Permutation ys (kept xs).
Proof.
  intros Hb Hd Hx. unfold Deque_retain_unordered, bindM, on_deque at 1, zoomM, readM. cbn [fst snd].
  rewrite (Deque_len_spec b d xs Hx), Nat2Z.id.
  apply (retain_unordered_loop_spec s b fs (length xs) d [] xs); done.
Qed.
End Retain.
End DequeSpec.
