(* ===== verification/DequeProps.v ===== *)
(** * Properties of [Deque], with a concrete instance

    The headline theorems on queues: they implement lists, [retain] filters,
    flushing and loading round-trips; and witnesses for the derived structs. *)

From stdpp Require Import base tactics numbers list strings gmap.
From Stdlib Require Import ZArith Lia.
From S2P Require Import Prelude Bytes BTree StoreIface StoreIter NullStore BufStore PrefixStore Codec StateIface StructState MapColl MapSpec MapProps DequeColl DequeSpec.

Section Props.
Context `{Profile} `{CompatMode} `{WS : WriteSpec St} `{!Bounded St} `{!BoundedSpec St}.
Context {T : Type} {SV : State St T} `{!StateSpec St T}.
Implicit Types (b : St) (s : Store) (d : Deque T) (xs : list (model (V := T))).

Lemma Meta_flush_eq (m : Meta) b :
  Struct2_flush m b = (Ok ((if compat_mode then [] else [0%Z]) ++ enc (Meta_head m) ++ enc (Meta_tail m)), b).
Proof.
  unfold Struct2_flush, bindM, Flusher_version, Flusher_flush_child, bindM.
  cbn [State_flush uint_State leaf_State leaf_flush]. unfold leaf_flush, liftM. rewrite !encode_enc.
  destruct compat_mode; simpl; by rewrite ?app_assoc.
Qed.

Lemma Meta_load_eq (m : Meta) s b rest :
  Struct2_load s ((if compat_mode then [] else [0%Z]) ++ enc (Meta_head m) ++ enc (Meta_tail m) ++ rest) b
    = Ok (m, rest).
Proof.
  destruct m as [h t]. apply Struct2_load_ok with (x := h) (y := t); try done; by apply decode_enc; left.
Qed.

Lemma Deque_flush_spec s b d xs :
  Deque_attached s d -> Read_inv b -> Forall (child_flushable s b) (Map_children (Deque_map d)) -> Deque_abs b d xs ->
  exists bs b', Deque_flush d b = (Ok bs, b') /\ Read_inv b' /\ only_under s b b' /\ keeps_writable b b' /\
    forall b2 rest, Read_inv b2 -> agree_under s b' b2 ->
      exists d', Deque_load s (bs ++ rest) b2 = Ok (d', rest) /\ Deque_meta d' = Deque_meta d /\
        Map_children (Deque_map d') = [] /\ Deque_attached s d' /\ Deque_abs b2 d' xs.
Proof.
  intros Hd Hb Hfl [Hl Hf]. unfold Deque_flush, bindM. rewrite Meta_flush_eq.
  destruct (Map_flush_spec s b _ _ Hd Hb Hfl Hf) as (b' & -> & Hb' & Hu & Hk & Hload).
  eexists _, b'. split; [done|]. split_and!; [done..|]. intros b2 rest Hb2 Hag.
  rewrite app_nil_r, <- !app_assoc. unfold Deque_load. rewrite Meta_load_eq.
  exists (mkDeque (Deque_meta d) (mkMap s [])). split; [done|]. split_and!; [done..| |].
  - split_and!; [done|constructor..].
  - split; [exact Hl|]. by apply Hload.
Qed.

(** A queue is itself a lawful [State]: a [Map] or another queue may hold queues. *)
#[export] Instance Deque_StateSpec : StateSpec St (Deque T).
Proof.
  refine {| model := list (model (V := T)); valid := fun d => Map_valid (Deque_map d);
            attached := Deque_attached; abs := Deque_abs; State_terminated := True;
            flushable := fun s b d => Forall (child_flushable s b) (Map_children (Deque_map d)) |}.
  - intros s d. apply Map_attached_valid.
  - intros s d Hv. destruct (Map_attach_spec s (Deque_map d) Hv) as (m & Hm & Ha). simpl. unfold Deque_attach, in_map, zoomM. rewrite Hm. eexists. split; [done|]. exact Ha.
  - intros s d Hd. destruct (Map_reattach_spec s (Deque_map d) Hd) as (m & Hm & Ha & Hx).
    simpl. unfold Deque_attach, in_map, zoomM. rewrite Hm. eexists. split_and!; [done|exact Ha|].
    intros b xs [Hl Hf]. split; [exact Hl|]. by apply Hx.
  - intros s b b' d xs Hd Hag [Hl Hf]. split; [exact Hl|]. by eapply Map_abs_frame.
  - intros s b b' d Hk Hf. eapply Forall_impl; [exact Hf|]. eauto using child_flushable_mono.
  - intros s b d xs Hd Hb Hfl Hx.
    destruct (Deque_flush_spec s b d xs Hd Hb Hfl Hx) as (bs & b' & Hf & Hb' & Hu & Hk & Hload).
    exists bs, b'. split_and!; [done..|]. intros b2 rest Hb2 Hag _.
    destruct (Hload b2 rest Hb2 Hag) as (d' & ? & _ & _ & ? & ?). by exists d'.
Defined.

(** C37: a [Deque] implements a list. [len] is its length; [get(i)] is the element
    at [i], or nothing past the end; [pop_front] and [pop_back] take the first and
    the last element, and leave an empty queue alone; [push_front] and [push_back]
    add one as long as the index on that side does not leave the range of [u64]. *)
Theorem Deque_implements_list s b d xs :
  Read_inv b -> Deque_attached s d -> Deque_abs b d xs ->
  Deque_len d = Ok (Z.of_nat (length xs)) /\
  (forall i, (0 <= i)%Z -> (dhead d + i <= u64_max)%Z ->
     exists r, Deque_get b d i = Ok r /\ elem_abs s b (dhead d + i) (Ref_deref <$> r) (xs !! Z.to_nat i)) /\
  match xs with
  | [] => Deque_pop_front b d = (Ok None, d)
  | x :: xs' => exists v d', Deque_pop_front b d = (Ok (Some (ReadOnly_new v)), d') /\
      elem_abs s b (dhead d) (Some v) (Some x) /\ Deque_attached s d' /\ Deque_abs b d' xs'
  end /\
  match last xs with
  | None => Deque_pop_back b d = (Ok None, d)
  | Some x => exists v d', Deque_pop_back b d = (Ok (Some (ReadOnly_new v)), d') /\
      elem_abs s b (dtail d - 1) (Some v) (Some x) /\ Deque_attached s d' /\ Deque_abs b d' (removelast xs)
  end /\
  (forall v, valid v -> (dtail d < u64_max)%Z ->
     exists v', State_attach (Store_sub s (enc (to_uint 8 (dtail d)))) v = (Ok tt, v') /\
       forall x, abs b v' x -> exists d', Deque_push_back (St := St) v d = (Ok tt, d') /\
         Deque_attached s d' /\ Deque_abs b d' (xs ++ [x])) /\
  (forall v, valid v -> (0 < dhead d)%Z ->
     exists v', State_attach (Store_sub s (enc (to_uint 8 (dhead d - 1)))) v = (Ok tt, v') /\
       forall x, abs b v' x -> exists d', Deque_push_front (St := St) v d = (Ok tt, d') /\
         Deque_attached s d' /\ Deque_abs b d' (x :: xs)).
Proof.
  intros Hb Hd Hx. split_and!; eauto using Deque_len_spec, Deque_get_spec, Deque_push_back_spec, Deque_push_front_spec.
  - by apply Deque_pop_front_spec.
  - by apply Deque_pop_back_spec.
Qed.

(** C38: [retain] keeps exactly the elements the predicate holds of, in their order;
    [retain_unordered] keeps the same elements in some order. Both end, without an
    error, for a predicate that only inspects the element. The elements are [portable]:
    they keep no state of their own in the store, as numbers and other plain values do.
    Both functions move elements with [swap], which does not attach them to the store of
    their new index, so that for elements such as maps what they hold is lost with the
    next flush ([retain_loses_maps] below). *)
Theorem Deque_retain_filters {F} s b d xs (p : T -> bool) (q : model (V := T) -> bool) (fs : F) :
  Read_inv b -> Deque_attached s d -> Deque_abs b d xs -> portable (V := T) ->
  (forall b' v x, abs b' v x -> p v = q x) ->
  (exists d', Deque_retain (pure_pred p) b (d, fs) = (Ok tt, (d', fs)) /\ Deque_attached s d' /\
     Deque_abs b d' (filter (fun x => q x = true) xs)) /\
  (exists d' ys, Deque_retain_unordered (pure_pred p) b (d, fs) = (Ok tt, (d', fs)) /\ Deque_attached s d' /\
     Deque_abs b d' ys /\ Permutation ys (filter (fun x => q x = true) xs)).
Proof.
  intros Hb Hd Hx Hp Hq. split; [by apply Deque_retain_spec|by apply Deque_retain_unordered_spec].
Qed.

(** loading what [flush] wrote gives a queue with the same indices and the same
    elements, and all the writes stay under the queue's prefix. *)
Theorem Deque_flush_load_roundtrip s b d xs rest :
  Read_inv b -> Deque_attached s d -> Deque_abs b d xs ->
  Forall (child_flushable s b) (Map_children (Deque_map d)) ->
  exists bs b' d', Deque_flush d b = (Ok bs, b') /\ Read_inv b' /\ only_under s b b' /\
    Deque_load s (bs ++ rest) b' = Ok (d', rest) /\ Deque_meta d' = Deque_meta d /\
    Deque_attached s d' /\ Deque_abs b' d' xs.
Proof.
  intros Hb Hd Hx Hfl.
  destruct (Deque_flush_spec s b d xs Hd Hb Hfl Hx) as (bs & b' & Hf & Hb' & Hu & _ & Hl).
  destruct (Hl b' rest Hb' (agree_under_refl _ _)) as (d' & ? & ? & _ & ? & ?).
  exists bs, b', d'. by split_and!.
Qed.

(** [back_mut] of an empty queue, documented to return [None], overflows
    computing the index of the last element: it panics where overflow is checked. *)
Theorem Deque_back_mut_empty_panics s b d :
  Read_inv b -> Deque_attached s d -> Deque_abs b d [] -> overflow_checks = true ->
  Deque_back_mut b d = (Panic "arithmetic overflow", d).
Proof.
  intros Hb Hd Hx Ho. unfold Deque_back_mut, bindM, readM. rewrite (Deque_len_spec b d [] Hx). simpl.
  unfold u64_sub, u64_op. by rewrite Ho.
Qed.
End Props.

(** *** Witnesses: a queue of bytes over an in-memory store

    The elements are 10 (in the store, at the position 5) and 20 (in memory). *)
#[export] Instance no_compat : CompatMode := {| compat_mode := false |}.
Abbreviation n64 := (to_uint 8).
Definition ex_dstore : MapStore := mkBufStore [([7; 0; 0; 0; 0; 0; 0; 0; 5], Some [10])]%Z mkEmpty.
Definition ex_deque : Deque u8 :=
  mkDeque (mkMeta (n64 5) (n64 7)) (mkMap (mkStore [7]%Z) [([0; 0; 0; 0; 0; 0; 0; 6]%Z, (n64 6, Some (n8 20)))]).

Lemma ex_dstore_inv : Read_inv ex_dstore.
Proof. split; [by repeat constructor|done]. Qed.
Lemma ex_deque_attached : Deque_attached (St := MapStore) (mkStore [7]%Z) ex_deque.
Proof. split_and!; [done|by repeat constructor|]. constructor; [|constructor]. by split; [vm_compute|]. Qed.

Lemma enc_u64_5 : enc (n64 5) = [0; 0; 0; 0; 0; 0; 0; 5]%Z.
Proof. by vm_compute. Qed.
Lemma enc_u64_6 : enc (n64 6) = [0; 0; 0; 0; 0; 0; 0; 6]%Z.
Proof. by vm_compute. Qed.

Lemma ex_deque_abs : Deque_abs ex_dstore ex_deque [n8 10; n8 20].
Proof.
  split; [done|]. intros k. cbn [Map_children Deque_map ex_deque bt_get].
  change (dhead ex_deque) with 5%Z. unfold deq_content.
  destruct (beqb_spec (enc k) [0; 0; 0; 0; 0; 0; 0; 6]%Z) as [Hk|Hk].
  - rewrite <- enc_u64_6 in Hk. apply enc_inj in Hk as ->. by vm_compute.
  - unfold store_holds. cbn [Map_store Store_prefix app].
    assert (Hv : view ex_dstore = {[ [7; 0; 0; 0; 0; 0; 0; 0; 5]%Z := [10]%Z ]}) by by vm_compute.
    rewrite Hv. destruct (decide (k = n64 5)) as [->|Hk5].
    + rewrite enc_u64_5. exists (n8 10). split; [done|]. intros b2 rest _ _ _.
      exists (n8 10). split; [|done]. by vm_compute.
    + rewrite lookup_singleton_ne.
      2:{ rewrite <- enc_u64_5. intros He. destruct Hk5. symmetry. by apply enc_inj, (app_inv_head [7%Z]). }
      destruct (Z.leb_spec 5 (uint_val k)) as [Hle|]; [|done].
      assert (uint_val k <> 5%Z) by (intros He; apply Hk5; by apply uint_eq).
      assert (uint_val k <> 6%Z) by (intros He; apply Hk; rewrite <- enc_u64_6; f_equal; by apply uint_eq).
      rewrite lookup_ge_None_2; [done|]. simpl. lia.
Qed.

Lemma ex_deque_flushable : Forall (child_flushable (mkStore [7]%Z) ex_dstore) (Map_children (Deque_map ex_deque)).
Proof.
  constructor; [|constructor]. intros v _. split; [|done]. split; [|done].
  cbn [fst snd]. rewrite enc_u64_6. simpl. lia.
Qed.

Lemma Deque_implements_list_witness :
  Deque_len ex_deque = Ok 2%Z /\
  exists v d', Deque_pop_back ex_dstore ex_deque = (Ok (Some (ReadOnly_new v)), d') /\
    elem_abs (mkStore [7]%Z) ex_dstore 6 (Some v) (Some (n8 20)) /\
    Deque_attached (St := MapStore) (mkStore [7]%Z) d' /\ Deque_abs ex_dstore d' [n8 10].
Proof.
  pose proof (Deque_implements_list (mkStore [7]%Z) ex_dstore ex_deque) as Hthm.
  split; apply (Hthm [n8 10; n8 20] ex_dstore_inv ex_deque_attached ex_deque_abs).
Defined.

Lemma Deque_retain_filters_witness :
  exists d', Deque_retain (St := MapStore) (pure_pred (fun v => (uint_val v <? 15)%Z)) ex_dstore (ex_deque, tt) = (Ok tt, (d', tt)) /\
    Deque_attached (St := MapStore) (mkStore [7]%Z) d' /\ Deque_abs ex_dstore d' [n8 10].
Proof.
  pose proof (Deque_retain_filters (F := unit) (mkStore [7]%Z) ex_dstore ex_deque) as Hthm.
  apply (Hthm [n8 10; n8 20] (fun v => (uint_val v <? 15)%Z) (fun v => (uint_val v <? 15)%Z) tt
           ex_dstore_inv ex_deque_attached ex_deque_abs ex_portable).
  by intros b' v x ->.
Defined.

(** A queue of two maps, the second of which holds an entry. [retain] with a predicate that
    lets only the second one stay moves it to the front, where its entry can still be read
    while the queue is in memory. The moved map keeps the prefix of its old index: its entry
    is written there and removed with that index, and the map that is loaded is empty.
    Without the call the entry survives. *)
Definition map_queue : M (Deque (Map u8 u8)) unit :=
  run Deque_push_back (St := MapStore) Map_new;
  run Deque_push_back (St := MapStore) Map_new;
  do o <- Deque_get_mut (mkBufStore [] mkEmpty : MapStore) 1;
  match o with
  | Some child => DequeColl.in_map (ChildMut_modify child (fun m => (Map_insert (St := MapStore) (n8 1) (n8 2) m).2))
  | None => panicM "no element"
  end.
Definition entry_of (b : MapStore) (i : Z) (d : Deque (Map u8 u8)) : res (option Z) :=
  let? o := Deque_get b d i in
  match o with
  | Some m => let? r := Map_get b (Ref_deref m) (n8 1) in Ok (uint_val <$> (Ref_deref <$> r))
  | None => Panic "no element"
  end.
Definition flushed_queue (d : Deque (Map u8 u8)) : res (Deque (Map u8 u8) * MapStore) :=
  match Deque_flush d (mkBufStore [] mkEmpty : MapStore) with
  | (Ok bs, b) => let? '(d', _) := Deque_load (mkStore [7]%Z) bs b in Ok (d', b)
  | (Err e, _) => Err e
  | (Panic w, _) => Panic w
  end.
Example retain_loses_maps :
  let b0 : MapStore := mkBufStore [] mkEmpty in
  let d0 : Deque (Map u8 u8) := mkDeque Meta_default (mkMap (mkStore [7]%Z) []) in
  let d1 := (map_queue d0).2 in
  let '(r, (d2, _)) := Deque_retain (fun v n => (Ok (Nat.eqb n 1, None), S n)) b0 (d1, 0) in
  r = Ok tt /\ entry_of b0 0 d2 = Ok (Some 2%Z) /\
  (let? '(d, b) := flushed_queue d1 in entry_of b 1 d) = Ok (Some 2%Z) /\
  (let? '(d, b) := flushed_queue d2 in entry_of b 0 d) = Ok None.
Proof. vm_compute. done. Qed.

Lemma Deque_flush_load_roundtrip_witness :
  exists bs b' d', Deque_flush ex_deque ex_dstore = (Ok bs, b') /\ Read_inv b' /\
    only_under (mkStore [7]%Z) ex_dstore b' /\
    Deque_load (mkStore [7]%Z) (bs ++ [9]%Z) b' = Ok (d', [9]%Z) /\ Deque_meta d' = Deque_meta ex_deque /\
    Deque_attached (St := MapStore) (mkStore [7]%Z) d' /\ Deque_abs b' d' [n8 10; n8 20].
Proof.
  pose proof (Deque_flush_load_roundtrip (mkStore [7]%Z) ex_dstore ex_deque) as Hthm.
  apply (Hthm [n8 10; n8 20] [9]%Z ex_dstore_inv ex_deque_attached ex_deque_abs ex_deque_flushable).
Defined.

Definition ex_deque0 : Deque u8 := mkDeque Meta_default (mkMap (mkStore [7]%Z) []).
Definition ex_dstore0 : MapStore := mkBufStore [] mkEmpty.
Lemma ex_dstore0_inv : Read_inv ex_dstore0.
Proof. split; [by repeat constructor|done]. Qed.
Lemma ex_deque0_attached : Deque_attached (St := MapStore) (mkStore [7]%Z) ex_deque0.
Proof. split_and!; [done|constructor..]. Qed.
Lemma ex_deque0_abs : Deque_abs (T := u8) ex_dstore0 ex_deque0 [].
Proof.
  split; [done|]. intros k. unfold store_holds, deq_content.
  assert (Hv : view ex_dstore0 = ∅) by by vm_compute. rewrite Hv, lookup_empty. by destruct (_ <=? _)%Z.
Qed.

Lemma Deque_back_mut_empty_panics_witness :
  Deque_back_mut ex_dstore0 ex_deque0 = (Panic "arithmetic overflow", ex_deque0).
Proof.
  pose proof (Deque_back_mut_empty_panics (mkStore [7]%Z) ex_dstore0 ex_deque0) as Hthm.
  apply (Hthm ex_dstore0_inv ex_deque0_attached ex_deque0_abs eq_refl).
Defined.

(** The derived state of [Meta], over the same store. *)
Lemma derived_struct_roundtrip_witness :
  exists bs b' (v' : Meta), Struct2_flush (mkMeta (n64 5) (n64 7)) ex_dstore = (Ok bs, b') /\ Read_inv b' /\
    only_under (mkStore [7]%Z) ex_dstore b' /\ Struct2_load (mkStore [7]%Z) (bs ++ [9]%Z) b' = Ok (v', [9]%Z) /\
    Struct2_attached (St := MapStore) (mkStore [7]%Z) v' /\
    Struct2_abs b' v' (n64 5, n64 7).
Proof.
  pose proof (derived_struct_roundtrip (ver := 0) (mkStore [7]%Z) ex_dstore (mkMeta (n64 5) (n64 7)) (n64 5) (n64 7) [9]%Z) as Hthm.
  apply Hthm; try done; [by left|exact ex_dstore_inv].
Defined.

Lemma derived_unit_struct_leaves_version_witness :
  exists bs, Struct0_flush (mkStruct0 (ver := 3)) ex_dstore = (Ok bs, ex_dstore) /\
    Struct0_load (mkStore [7]%Z) (bs ++ [9]%Z) ex_dstore = Ok (mkStruct0 (ver := 3), [3; 9]%Z).
Proof. apply (derived_unit_struct_leaves_version (mkStore [7]%Z) ex_dstore mkStruct0 [9]%Z). done. Defined.

Lemma derived_struct_wrong_version_witness :
  Struct2_load (A := u64) (B := u64) (ver := 0) (mkStore [7]%Z) [1; 2]%Z ex_dstore = Err (EState "Expected version").
Proof. apply (derived_struct_wrong_version (mkStore [7]%Z) ex_dstore 1 [2]%Z); done. Defined.
