(* ===== verification/Coins.v ===== *)
(** * Amounts and coins ([src/coins/amount.rs], [math.rs], [coin.rs], [ops/])

    [Amount] is a [u64] whose arithmetic is checked: an operator returns a
    [MathResult], and the [?] operator on it replaces whatever error it holds by
    [Error::Unknown]. [Coin] holds an amount of one symbol; [take] and [give] are
    how value leaves and enters. The symbol itself is a phantom type, so one
    symbol at a time is modelled, with its index. *)

From stdpp Require Import base tactics numbers list strings gmap.
From Stdlib Require Import ZArith Lia.
From S2P Require Import Prelude Bytes BTree StoreIface StoreIter NullStore BufStore PrefixStore Codec StateIface StructState MapColl MapSpec MapProps.

(** ** [MathResult] *)

Inductive MathResult (T : Type) := MOk (t : T) | MErr (err : Error).
Arguments MOk {T} t.
Arguments MErr {T} err.

Definition MathResult_result {T} (r : MathResult T) : res T :=
  match r with MOk t => Ok t | MErr err => Err err end.

(** [From<Result<T>> for MathResult<T>]; here the result comes from [ok_or]. *)
Definition MathResult_from {T} (o : option T) (err : Error) : MathResult T :=
  match o with Some t => MOk t | None => MErr err end.

(** [Try::branch]: the residual it breaks with. *)
Inductive ControlFlow (T : Type) := Continue (t : T) | Break (residual : Error).
Arguments Continue {T} t.
Arguments Break {T} residual.
Definition MathResult_branch {T} (r : MathResult T) : ControlFlow T :=
  match r with MOk value => Continue value | MErr _ => Break EUnknown end.

(** [FromResidual<MathResult<!>>] for [MathResult] keeps the residual, for
    [Result] it is [Error::Unknown]; [FromResidual<Result<U, E>>] for
    [MathResult] is [Error::Unknown] too. *)
Definition math_from_math_residual {T} (residual : Error) : MathResult T := MErr residual.
Definition res_from_math_residual {T} (residual : Error) : res T := Err EUnknown.
Definition math_from_res_residual {T} (residual : Error) : MathResult T := MErr EUnknown.

(** The [?] operator on a [MathResult], in a function that returns a [Result] or
    a [MathResult]. *)
Definition math_try {T} (r : MathResult T) : res T :=
  match MathResult_branch r with
  | Continue t => Ok t
  | Break e => res_from_math_residual e
  end.
Definition math_bind {T U} (r : MathResult T) (f : T -> MathResult U) : MathResult U :=
  match MathResult_branch r with
  | Continue t => f t
  | Break e => math_from_math_residual e
  end.

(** ** [Amount] *)

Definition Amount : Type := Struct1 0 u64.
Definition Amount_new (value : u64) : Amount := mkStruct1 value.
Definition amt (a : Amount) : Z := uint_val (only_field a).
Definition Amount_of (z : Z) : Amount := Amount_new (to_uint 8 z).

Definition Amount_add (self other : Amount) : MathResult Amount :=
  MathResult_from (Amount_of <$> checked_u64 (amt self + amt other)) EOverflow.
Definition Amount_add_MA (self : MathResult Amount) (other : Amount) : MathResult Amount :=
  math_bind self (fun a => Amount_add a other).
Definition Amount_add_AM (self : Amount) (other : MathResult Amount) : MathResult Amount :=
  math_bind other (fun b => Amount_add self b).
Definition Amount_add_MM (self other : MathResult Amount) : MathResult Amount :=
  math_bind self (fun a => math_bind other (fun b => Amount_add a b)).

Definition Amount_sub (self other : Amount) : MathResult Amount :=
  MathResult_from (Amount_of <$> checked_u64 (amt self - amt other)) EOverflow.
Definition Amount_sub_MA (self : MathResult Amount) (other : Amount) : MathResult Amount :=
  math_bind self (fun a => Amount_sub a other).
Definition Amount_sub_AM (self : Amount) (other : MathResult Amount) : MathResult Amount :=
  math_bind other (fun b => Amount_sub self b).
Definition Amount_sub_MM (self other : MathResult Amount) : MathResult Amount :=
  math_bind self (fun a => math_bind other (fun b => Amount_sub a b)).

(** [checked_mul(..).ok_or(Error::Overflow)?] inside a [MathResult] function. *)
Definition Amount_mul (self other : Amount) : MathResult Amount :=
  match checked_u64 (amt self * amt other) with
  | Some value => MOk (Amount_of value)
  | None => math_from_res_residual EOverflow
  end.
Definition Amount_mul_MA (self : MathResult Amount) (other : Amount) : MathResult Amount :=
  math_bind self (fun a => Amount_mul a other).
Definition Amount_mul_AM (self : Amount) (other : MathResult Amount) : MathResult Amount :=
  math_bind other (fun b => Amount_mul self b).
Definition Amount_mul_MM (self other : MathResult Amount) : MathResult Amount :=
  math_bind self (fun a => math_bind other (fun b => Amount_mul a b)).

(** The derived order. *)
Definition Amount_ltb (a b : Amount) : bool := (amt a <? amt b)%Z.

(** ** [Coin] *)

Definition Coin : Type := Struct2 0 Amount PhantomData.
Definition Coin_mint (amount : Amount) : Coin := mkStruct2 amount mkPhantomData.
Definition Coin_new : Coin := Coin_mint (Amount_of 0).
Definition Coin_amount (c : Coin) : Amount := field0 c.
Definition coin_val (c : Coin) : Z := amt (Coin_amount c).
Definition Coin_burn (c : Coin) : unit := tt.
Definition Coin_balance (c : Coin) : res Amount := Ok (Coin_amount c).

(** [self.amount = ..?;] *)
Definition set_amount (a : res Amount) : M Coin unit := fun c =>
  match a with
  | Ok a => (Ok tt, mkStruct2 a (field1 c))
  | Err e => (Err e, c)
  | Panic w => (Panic w, c)
  end.
Definition Coin_take (amount : Amount) : M Coin Coin :=
  do have <- readM Coin_balance;
  if Amount_ltb have amount then errM (ECoins "Insufficient funds")
  else
    run set_amount (math_try (Amount_sub have amount));
    retM (Coin_mint amount).
Definition Coin_give (value : Coin) : M Coin unit :=
  do have <- readM Coin_balance;
  set_amount (math_try (Amount_add have (Coin_amount value))).

(** [Symbol]: the identifier byte. *)
Class Symbol := { INDEX : u8; NAME : string }.

(** ** Facts *)

Lemma amt_range a : is_u64 (amt a).
Proof.
  unfold amt, is_u64. pose proof (uint_range_spec 8 (uint_val (only_field a))) as [Hr _].
  specialize (Hr (uint_ok _ _)). change (256 ^ Z.of_nat 8)%Z with (u64_max + 1)%Z in Hr. lia.
Qed.

Lemma amt_of z : is_u64 z -> amt (Amount_of z) = z.
Proof.
  unfold is_u64. intros Hz. unfold amt, Amount_of, Amount_new. simpl. unfold uint_wrap. apply Z.mod_small.
  change (256 ^ Z.of_nat 8)%Z with (u64_max + 1)%Z. lia.
Qed.

Lemma amt_inj a a' : amt a = amt a' -> a = a'.
Proof. destruct a as [x], a' as [y]. unfold amt. simpl. intros Hv. f_equal. by apply uint_eq. Qed.

Lemma coin_val_mint a : coin_val (Coin_mint a) = amt a.
Proof. done. Qed.

Lemma math_try_add a c :
  math_try (Amount_add a c) =
  if u64b (amt a + amt c) then Ok (Amount_of (amt a + amt c)) else Err EUnknown.
Proof. unfold Amount_add, checked_u64. by destruct (u64b _). Qed.

Lemma math_try_sub a c :
  math_try (Amount_sub a c) =
  if (amt c <=? amt a)%Z then Ok (Amount_of (amt a - amt c)) else Err EUnknown.
Proof.
  unfold Amount_sub, checked_u64. pose proof (amt_range a) as Ha. pose proof (amt_range c) as Hc.
  unfold is_u64 in *. destruct (u64b_spec (amt a - amt c)) as [Hs|Hs], (Z.leb_spec (amt c) (amt a)); try done;
    unfold is_u64 in Hs; lia.
Qed.

Lemma Coin_take_eq amount c :
  Coin_take amount c =
  if (amt amount <=? coin_val c)%Z
  then (Ok (Coin_mint amount), mkStruct2 (Amount_of (coin_val c - amt amount)) (field1 c))
  else (Err (ECoins "Insufficient funds"), c).
Proof.
  unfold Coin_take, bindM, readM. simpl. unfold Amount_ltb. rewrite math_try_sub.
  change (coin_val c) with (amt (Coin_amount c)).
  destruct (Z.ltb_spec (amt (Coin_amount c)) (amt amount)), (Z.leb_spec (amt amount) (amt (Coin_amount c))); try lia; done.
Qed.

Lemma Coin_give_eq value c :
  Coin_give value c =
  if (coin_val c + coin_val value <=? u64_max)%Z
  then (Ok tt, mkStruct2 (Amount_of (coin_val c + coin_val value)) (field1 c))
  else (Err EUnknown, c).
Proof.
  unfold Coin_give, bindM, readM. simpl. rewrite math_try_add.
  change (coin_val c) with (amt (Coin_amount c)). change (coin_val value) with (amt (Coin_amount value)).
  pose proof (amt_range (Coin_amount c)) as Ha. pose proof (amt_range (Coin_amount value)) as Hb.
  unfold is_u64 in *. destruct (u64b_spec (amt (Coin_amount c) + amt (Coin_amount value))) as [Hs|Hs], (Z.leb_spec (amt (Coin_amount c) + amt (Coin_amount value)) u64_max);
    unfold is_u64 in Hs; try lia; done.
Qed.

(** ** Coins as state *)

Section CoinState.
Context `{Profile} `{CompatMode} `{WS : WriteSpec St}.

Lemma Amount_terminated : State_terminated (V := Amount).
Proof. done. Qed.
Definition Coin_StateSpec : StateSpec St Coin := Struct2_StateSpec Amount_terminated.
End CoinState.
#[export] Existing Instance Coin_StateSpec.

Section CoinFacts.
Context `{Profile} `{CompatMode} `{WS : WriteSpec St}.

(** The amount a content of a [Coin] stands for. *)
Definition model_val (x : model (V := Coin)) : Z := uint_val x.1.
Definition model_of (z : Z) : model (V := Coin) := (to_uint 8 z, tt).

Lemma coin_abs (b : St) (c : Coin) x : abs b c x <-> only_field (field0 c) = x.1.
Proof. by split; [intros [??]|intros Hc; split]. Qed.
Lemma coin_abs_val (b : St) (c : Coin) x : abs b c x -> coin_val c = model_val x.
Proof. intros Hc%coin_abs. unfold coin_val, amt, model_val. by rewrite <- Hc. Qed.
Lemma coin_abs_of (b : St) z p : abs b (mkStruct2 (Amount_of z) p : Coin) (model_of z).
Proof. by apply coin_abs. Qed.
Lemma coin_attached s (c : Coin) : attached s c.
Proof. done. Qed.
Lemma coin_valid (c : Coin) : valid c.
Proof. done. Qed.
Lemma model_val_of z : is_u64 z -> model_val (model_of z) = z.
Proof. apply amt_of. Qed.
Lemma model_val_range x : is_u64 (model_val x).
Proof. apply (amt_range (mkStruct1 x.1)). Qed.
End CoinFacts.
