(* ===== verification/Decimal.v ===== *)
(** * Decimals (src/coins/decimal.rs and the decimal operators of src/coins/ops/)

    [Decimal] wraps the [Decimal] type of the [rust_decimal] crate, which is a
    parameter: a type with its checked operations. Its values are of the form
    [m / 10^e] with [|m| < 2^96] and [0 <= e <= 28]; the laws say that an operation
    whose exact result is such a value returns it, and nothing about the rounding of
    the others. [round] is the documented one: to the nearest integer, and to the even
    one from halfway between two. *)

From stdpp Require Import base tactics numbers list strings gmap.
From Stdlib Require Import ZArith QArith Qabs Qround Lia Lqa.
From S2P Require Import Prelude Bytes Codec StoreIface PrefixStore StateIface StructState Utf8 Encoding SimpleState Coins.
#[local] Open Scope Z_scope.

(** ** [rust_decimal::Decimal] *)

Class NumDecimal := {
  NumDec : Type;
  nd_checked_add : NumDec -> NumDec -> option NumDec;
  nd_checked_sub : NumDec -> NumDec -> option NumDec;
  nd_checked_mul : NumDec -> NumDec -> option NumDec;
  nd_checked_div : NumDec -> NumDec -> option NumDec;
  nd_cmp : NumDec -> NumDec -> comparison;
  nd_is_sign_negative : NumDec -> bool;
  nd_is_zero : NumDec -> bool;
  nd_abs : NumDec -> NumDec;
  nd_round : NumDec -> NumDec;
  nd_to_u64 : NumDec -> option u64;
  nd_from_u64 : u64 -> NumDec;
  nd_ZERO : NumDec;
  nd_ONE : NumDec;
  nd_default : NumDec;
  nd_serialize : NumDec -> bytes;
  nd_deserialize : bytes -> NumDec
}.

Definition representable (q : Q) : Prop :=
  exists m e, 0 <= e <= 28 /\ Z.abs m < 2 ^ 96 /\ (q * inject_Z (10 ^ e) == inject_Z m)%Q.

Class NumDecimalSpec `{NumDecimal} := {
  nd_val : NumDec -> Q;
  nd_add_spec a b : representable (nd_val a + nd_val b) -> exists c, nd_checked_add a b = Some c /\ (nd_val c == nd_val a + nd_val b)%Q;
  nd_sub_spec a b : representable (nd_val a - nd_val b) -> exists c, nd_checked_sub a b = Some c /\ (nd_val c == nd_val a - nd_val b)%Q;
  nd_mul_spec a b : representable (nd_val a * nd_val b) -> exists c, nd_checked_mul a b = Some c /\ (nd_val c == nd_val a * nd_val b)%Q;
  nd_div_spec a b : ~ (nd_val b == 0)%Q -> representable (nd_val a / nd_val b) -> exists c, nd_checked_div a b = Some c /\ (nd_val c == nd_val a / nd_val b)%Q;
  nd_div_zero a b : (nd_val b == 0)%Q -> nd_checked_div a b = None;
  nd_is_zero_spec a : nd_is_zero a = true <-> (nd_val a == 0)%Q;
  nd_zero_spec : (nd_val nd_ZERO == 0)%Q;
  nd_default_spec : (nd_val nd_default == 0)%Q;
  nd_representable a : representable (nd_val a);
  nd_one_spec : (nd_val nd_ONE == 1)%Q;
  nd_abs_spec a : (nd_val (nd_abs a) == Qabs (nd_val a))%Q;
  nd_cmp_spec a b : nd_cmp a b = (nd_val a ?= nd_val b)%Q;
  nd_sign_spec a : (nd_val a < 0)%Q -> nd_is_sign_negative a = true;
  nd_from_spec n : (nd_val (nd_from_u64 n) == inject_Z (uint_val n))%Q;
  nd_from_sign n : nd_is_sign_negative (nd_from_u64 n) = false;
  nd_round_spec a : exists z, (nd_val (nd_round a) == inject_Z z)%Q /\ (Qabs (inject_Z z - nd_val a) <= 1 # 2)%Q /\
    ((Qabs (inject_Z z - nd_val a) == 1 # 2)%Q -> Z.even z = true);
  nd_to_u64_spec a z : (nd_val a == inject_Z z)%Q -> nd_to_u64 a = if uint_range 8 z then Some (to_uint 8 z) else None;
  nd_serialize_length a : length (nd_serialize a) = 16%nat;
  nd_serialize_spec a : nd_deserialize (nd_serialize a) = a
}.

(** ** [struct Decimal] *)

Section Decimal.
Context `{ND : NumDecimal}.

Record Decimal := mkDecimal { Decimal_value : NumDec }.

Definition Decimal_from_u64 (value : u64) : Decimal := mkDecimal (nd_from_u64 value).
Definition Decimal_from_Amount (amount : Amount) : Decimal := mkDecimal (nd_from_u64 (only_field amount)).
Definition Decimal_zero : Decimal := mkDecimal nd_ZERO.
(** The derived [Default]. *)
Definition Decimal_default : Decimal := mkDecimal nd_default.
Definition Decimal_one : Decimal := mkDecimal nd_ONE.
Definition Decimal_abs (self : Decimal) : Decimal := mkDecimal (nd_abs (Decimal_value self)).

Definition Decimal_amount (self : Decimal) : res Amount :=
  if nd_is_sign_negative (Decimal_value self) then Err (ECoins "Amounts may not be negative")
  else match nd_to_u64 (nd_round (Decimal_value self)) with
       | Some value => Ok (Amount_new value)
       | None => Err (ECoins "Amounts may not be greater than u64::MAX")
       end.

(** [Encode] and [Decode] of the adapter: 16 bytes. *)
Definition Decimal_encode (self : Adapter Decimal) : res bytes := Ok (nd_serialize (Decimal_value (Adapter_0 self))).
Definition Decimal_encoding_length (self : Adapter Decimal) : res nat := Ok 16%nat.
Definition Decimal_decode (source : bytes) : res (Adapter Decimal * bytes) :=
  if (length source <? 16)%nat then Err (EEd "failed to fill whole buffer")
  else Ok (mkAdapter (mkDecimal (nd_deserialize (take 16 source))), drop 16 source).
#[export] Instance Decimal_Encode : Encode (Adapter Decimal) := {| Encode_encode := Decimal_encode |}.
#[export] Instance Decimal_Decode : Decode (Adapter Decimal) := {| Decode_decode := Decimal_decode |}.

(** ** Operators *)

(** Decimal with decimal. *)
Definition Decimal_add (self other : Decimal) : MathResult Decimal :=
  MathResult_from (mkDecimal <$> nd_checked_add (Decimal_value self) (Decimal_value other)) EOverflow.
Definition Decimal_add_MD (self : MathResult Decimal) (other : Decimal) : MathResult Decimal :=
  math_bind self (fun a => Decimal_add a other).
Definition Decimal_add_DM (self : Decimal) (other : MathResult Decimal) : MathResult Decimal :=
  math_bind other (fun b => Decimal_add self b).
Definition Decimal_add_MM (self other : MathResult Decimal) : MathResult Decimal :=
  math_bind self (fun a => math_bind other (fun b => Decimal_add a b)).
Definition Decimal_sub (self other : Decimal) : MathResult Decimal :=
  MathResult_from (mkDecimal <$> nd_checked_sub (Decimal_value self) (Decimal_value other)) EOverflow.
Definition Decimal_sub_MD (self : MathResult Decimal) (other : Decimal) : MathResult Decimal :=
  math_bind self (fun a => Decimal_sub a other).
Definition Decimal_sub_DM (self : Decimal) (other : MathResult Decimal) : MathResult Decimal :=
  math_bind other (fun b => Decimal_sub self b).
Definition Decimal_sub_MM (self other : MathResult Decimal) : MathResult Decimal :=
  math_bind self (fun a => math_bind other (fun b => Decimal_sub a b)).
Definition Decimal_mul (self other : Decimal) : MathResult Decimal :=
  MathResult_from (mkDecimal <$> nd_checked_mul (Decimal_value self) (Decimal_value other)) EOverflow.
Definition Decimal_mul_MD (self : MathResult Decimal) (other : Decimal) : MathResult Decimal :=
  math_bind self (fun a => Decimal_mul a other).
Definition Decimal_mul_DM (self : Decimal) (other : MathResult Decimal) : MathResult Decimal :=
  math_bind other (fun b => Decimal_mul self b).
Definition Decimal_mul_MM (self other : MathResult Decimal) : MathResult Decimal :=
  math_bind self (fun a => math_bind other (fun b => Decimal_mul a b)).
(** Every failure of the division is reported as a division by zero. *)
Definition Decimal_div (self other : Decimal) : MathResult Decimal :=
  MathResult_from (mkDecimal <$> nd_checked_div (Decimal_value self) (Decimal_value other)) EDivideByZero.
Definition Decimal_div_MD (self : MathResult Decimal) (other : Decimal) : MathResult Decimal :=
  math_bind self (fun a => Decimal_div a other).
Definition Decimal_div_DM (self : Decimal) (other : MathResult Decimal) : MathResult Decimal :=
  math_bind other (fun b => Decimal_div self b).
Definition Decimal_div_MM (self other : MathResult Decimal) : MathResult Decimal :=
  math_bind self (fun a => math_bind other (fun b => Decimal_div a b)).

(** Amount with decimal. *)
Definition Amount_add_Decimal (self : Amount) (other : Decimal) : MathResult Decimal :=
  let self_decimal := Decimal_from_Amount self in
  MathResult_from (mkDecimal <$> nd_checked_add (Decimal_value self_decimal) (Decimal_value other)) EOverflow.
Definition Amount_add_Decimal_MD (self : MathResult Amount) (other : Decimal) : MathResult Decimal :=
  math_bind self (fun a => Amount_add_Decimal a other).
Definition Amount_add_Decimal_AM (self : Amount) (other : MathResult Decimal) : MathResult Decimal :=
  math_bind other (fun b => Amount_add_Decimal self b).
Definition Amount_add_Decimal_MM (self : MathResult Amount) (other : MathResult Decimal) : MathResult Decimal :=
  math_bind self (fun a => math_bind other (fun b => Amount_add_Decimal a b)).
Definition Amount_sub_Decimal (self : Amount) (other : Decimal) : MathResult Decimal :=
  let self_decimal := Decimal_from_Amount self in
  MathResult_from (mkDecimal <$> nd_checked_sub (Decimal_value self_decimal) (Decimal_value other)) EOverflow.
Definition Amount_sub_Decimal_MD (self : MathResult Amount) (other : Decimal) : MathResult Decimal :=
  math_bind self (fun a => Amount_sub_Decimal a other).
Definition Amount_sub_Decimal_AM (self : Amount) (other : MathResult Decimal) : MathResult Decimal :=
  math_bind other (fun b => Amount_sub_Decimal self b).
Definition Amount_sub_Decimal_MM (self : MathResult Amount) (other : MathResult Decimal) : MathResult Decimal :=
  math_bind self (fun a => math_bind other (fun b => Amount_sub_Decimal a b)).
Definition Amount_mul_Decimal (self : Amount) (other : Decimal) : MathResult Decimal :=
  let self_decimal := Decimal_from_Amount self in
  MathResult_from (mkDecimal <$> nd_checked_mul (Decimal_value self_decimal) (Decimal_value other)) EOverflow.
Definition Amount_mul_Decimal_MD (self : MathResult Amount) (other : Decimal) : MathResult Decimal :=
  math_bind self (fun a => Amount_mul_Decimal a other).
Definition Amount_mul_Decimal_AM (self : Amount) (other : MathResult Decimal) : MathResult Decimal :=
  math_bind other (fun b => Amount_mul_Decimal self b).
Definition Amount_mul_Decimal_MM (self : MathResult Amount) (other : MathResult Decimal) : MathResult Decimal :=
  math_bind self (fun a => math_bind other (fun b => Amount_mul_Decimal a b)).
Definition Amount_div_Decimal (self : Amount) (other : Decimal) : MathResult Decimal :=
  let self_decimal := Decimal_from_Amount self in
  MathResult_from (mkDecimal <$> nd_checked_div (Decimal_value self_decimal) (Decimal_value other)) EDivideByZero.
Definition Amount_div_Decimal_MD (self : MathResult Amount) (other : Decimal) : MathResult Decimal :=
  math_bind self (fun a => Amount_div_Decimal a other).
Definition Amount_div_Decimal_AM (self : Amount) (other : MathResult Decimal) : MathResult Decimal :=
  math_bind other (fun b => Amount_div_Decimal self b).
Definition Amount_div_Decimal_MM (self : MathResult Amount) (other : MathResult Decimal) : MathResult Decimal :=
  math_bind self (fun a => math_bind other (fun b => Amount_div_Decimal a b)).

(** Decimal with amount. *)
Definition Decimal_add_Amount (self : Decimal) (other : Amount) : MathResult Decimal := Amount_add_Decimal other self.
Definition Decimal_add_Amount_MA (self : MathResult Decimal) (other : Amount) : MathResult Decimal :=
  math_bind self (fun a => Amount_add_Decimal other a).
Definition Decimal_add_Amount_DM (self : Decimal) (other : MathResult Amount) : MathResult Decimal :=
  math_bind other (fun b => Amount_add_Decimal b self).
Definition Decimal_add_Amount_MM (self : MathResult Decimal) (other : MathResult Amount) : MathResult Decimal :=
  math_bind other (fun b => math_bind self (fun a => Amount_add_Decimal b a)).
Definition Decimal_sub_Amount (self : Decimal) (other : Amount) : MathResult Decimal :=
  let other_decimal := Decimal_from_Amount other in
  MathResult_from (mkDecimal <$> nd_checked_sub (Decimal_value self) (Decimal_value other_decimal)) EOverflow.
Definition Decimal_sub_Amount_MA (self : MathResult Decimal) (other : Amount) : MathResult Decimal :=
  math_bind self (fun a => Decimal_sub_Amount a other).
Definition Decimal_sub_Amount_DM (self : Decimal) (other : MathResult Amount) : MathResult Decimal :=
  math_bind other (fun b => Decimal_sub_Amount self b).
Definition Decimal_sub_Amount_MM (self : MathResult Decimal) (other : MathResult Amount) : MathResult Decimal :=
  math_bind self (fun a => math_bind other (fun b => Decimal_sub_Amount a b)).
Definition Decimal_mul_Amount (self : Decimal) (other : Amount) : MathResult Decimal :=
  let other_decimal := Decimal_from_Amount other in
  MathResult_from (mkDecimal <$> nd_checked_mul (Decimal_value other_decimal) (Decimal_value self)) EOverflow.
Definition Decimal_mul_Amount_MA (self : MathResult Decimal) (other : Amount) : MathResult Decimal :=
  math_bind self (fun a => Decimal_mul_Amount a other).
Definition Decimal_mul_Amount_DM (self : Decimal) (other : MathResult Amount) : MathResult Decimal :=
  math_bind other (fun b => Decimal_mul_Amount self b).
Definition Decimal_mul_Amount_MM (self : MathResult Decimal) (other : MathResult Amount) : MathResult Decimal :=
  math_bind self (fun a => math_bind other (fun b => Decimal_mul_Amount a b)).

(** Amount with amount: the quotient is a decimal. *)
Definition Amount_div (self other : Amount) : MathResult Decimal :=
  Decimal_div (Decimal_from_Amount self) (Decimal_from_Amount other).
Definition Amount_div_MA (self : MathResult Amount) (other : Amount) : MathResult Decimal :=
  math_bind self (fun a => Amount_div a other).
Definition Amount_div_AM (self : Amount) (other : MathResult Amount) : MathResult Decimal :=
  math_bind other (fun b => Amount_div self b).
Definition Amount_div_MM (self other : MathResult Amount) : MathResult Decimal :=
  math_bind self (fun a => math_bind other (fun b => Amount_div a b)).

(** ** Comparisons *)

Definition is_eq (c : comparison) : bool := if c is Eq then true else false.
Definition is_lt (c : comparison) : bool := if c is Lt then true else false.
Definition is_gt (c : comparison) : bool := if c is Gt then true else false.

Definition Amount_eq (self other : Amount) : bool := (amt self =? amt other).
Definition u64_eq_Amount (self : u64) (other : Amount) : bool := (uint_val self =? amt other).
Definition Amount_eq_u64 (self : Amount) (other : u64) : bool := (amt self =? uint_val other).
Definition Decimal_eq (self other : Decimal) : bool := is_eq (nd_cmp (Decimal_value self) (Decimal_value other)).
Definition Decimal_eq_u64 (self : Decimal) (other : u64) : bool :=
  is_eq (nd_cmp (Decimal_value self) (Decimal_value (Decimal_from_u64 other))).
Definition Amount_eq_Decimal (self : Amount) (other : Decimal) : bool :=
  is_eq (nd_cmp (Decimal_value (Decimal_from_Amount self)) (Decimal_value other)).
Definition Decimal_eq_Amount (self : Decimal) (other : Amount) : bool :=
  is_eq (nd_cmp (Decimal_value self) (Decimal_value (Decimal_from_Amount other))).

Definition u64_cmp_Amount (self : u64) (other : Amount) : comparison := (uint_val self ?= amt other).
Definition Amount_cmp_u64 (self : Amount) (other : u64) : comparison := (amt self ?= uint_val other).
Definition Decimal_cmp (self other : Decimal) : comparison := nd_cmp (Decimal_value self) (Decimal_value other).
Definition Decimal_cmp_u64 (self : Decimal) (other : u64) : comparison :=
  nd_cmp (Decimal_value self) (Decimal_value (Decimal_from_u64 other)).
Definition Amount_cmp_Decimal (self : Amount) (other : Decimal) : comparison :=
  Decimal_cmp (Decimal_from_Amount self) other.
Definition Decimal_cmp_Amount (self : Decimal) (other : Amount) : comparison :=
  nd_cmp (Decimal_value self) (Decimal_value (Decimal_from_Amount other)).
End Decimal.

(** ** The laws *)

#[export] Instance Decimal_State `{Profile} `{CompatMode} `{NumDecimal} {St} : State St Decimal := Simple_State 0.

Section DecimalSpec.
Context `{NDS : NumDecimalSpec}.
#[local] Open Scope Q_scope.

Definition dval (d : Decimal) : Q := nd_val (Decimal_value d).

#[export] Instance Decimal_CodecSpec : CodecSpec (Adapter Decimal).
Proof.
  refine {| enc := fun a => nd_serialize (Decimal_value (Adapter_0 a)); codec_terminated := True |}; [done|].
  intros [[d]] r _. unfold Decode_decode, Decimal_Decode, Decimal_decode. cbn [Adapter_0 Decimal_value].
  rewrite length_app, nd_serialize_length. destruct (Nat.ltb_spec (16 + length r) 16); [lia|].
  by rewrite take_app_length', drop_app_length', nd_serialize_spec by by rewrite nd_serialize_length.
Defined.

#[export] Instance Decimal_StateSpec `{Profile} `{CompatMode} `{WS : WriteSpec St} : StateSpec St Decimal :=
  Simple_StateSpec 0.

Lemma dval_from_Amount a : dval (Decimal_from_Amount a) == inject_Z (amt a).
Proof. apply nd_from_spec. Qed.

Lemma u64_range_8 z : uint_range 8 z = true <-> is_u64 z.
Proof. rewrite uint_range_spec. unfold is_u64, u64_max. change (256 ^ Z.of_nat 8)%Z with (2 ^ 64)%Z. lia. Qed.

(** [amount] rounds a value whose sign is positive, and its only other outcome is
    the error for a value that does not fit. *)
Lemma Decimal_amount_eq d :
  nd_is_sign_negative (Decimal_value d) = false ->
  exists z : Z, (Qabs (inject_Z z - dval d) <= (1 # 2))%Q /\ ((Qabs (inject_Z z - dval d) == (1 # 2))%Q -> Z.even z = true) /\
                       (0 <= z)%Z /\ Decimal_amount d = if (z <=? u64_max)%Z then Ok (Amount_of z)
                       else Err (ECoins "Amounts may not be greater than u64::MAX").
Proof.
  intros Hs. destruct (nd_round_spec (Decimal_value d)) as (z & Hz & Habs & Heven). exists z.
  assert (Hd : 0 <= dval d).
  { destruct (Qlt_le_dec (dval d) 0) as [Hn|]; [|done]. pose proof (nd_sign_spec _ Hn). congruence. }
  assert (H0 : (0 <= z)%Z).
  { apply Qabs_Qle_condition in Habs as [Hl _]. unfold dval in Hd.
    assert (Hq : inject_Z (-1) < inject_Z z) by (change (inject_Z (-1)) with (-1); lra).
    rewrite <- Zlt_Qlt in Hq. lia. }
  split_and!; [done..|]. unfold Decimal_amount. rewrite Hs, (nd_to_u64_spec _ z Hz).
  destruct (Z.leb_spec z u64_max).
  - by rewrite (proj2 (u64_range_8 z)) by (unfold is_u64; lia).
  - destruct (uint_range 8 z) eqn:Hr; [|done]. apply u64_range_8 in Hr. unfold is_u64 in Hr. lia.
Qed.

(** The amount of a value is within a half of it. *)
Lemma Decimal_amount_near d a : Decimal_amount d = Ok a -> Qabs (inject_Z (amt a) - dval d) <= 1 # 2.
Proof.
  intros Ha. destruct (nd_is_sign_negative (Decimal_value d)) eqn:Hs; [unfold Decimal_amount in Ha; by rewrite Hs in Ha|].
  destruct (Decimal_amount_eq d Hs) as (z & Habs & _ & Hz & He). rewrite He in Ha. destruct (Z.leb_spec z u64_max); [|done].
  injection Ha as <-. by rewrite amt_of by (unfold is_u64; lia).
Qed.

Lemma Decimal_amount_from_Amount a : Decimal_amount (Decimal_from_Amount a) = Ok a.
Proof.
  destruct (Decimal_amount_eq (Decimal_from_Amount a) (nd_from_sign _)) as (z & Habs & _ & Hz & ->).
  rewrite dval_from_Amount in Habs. pose proof (amt_range a) as [Ha1 Ha2].
  assert (Hza : z = amt a).
  { apply Qabs_Qle_condition in Habs as [Hl Hu].
    assert (H1 : inject_Z (z - amt a) < inject_Z 1) by (unfold Z.sub; rewrite inject_Z_plus, inject_Z_opp; change (inject_Z 1) with 1; lra).
    assert (H2 : inject_Z (-1) < inject_Z (z - amt a)) by (unfold Z.sub; rewrite inject_Z_plus, inject_Z_opp; change (inject_Z (-1)) with (-1); lra).
    rewrite <- Zlt_Qlt in H1, H2. lia. }
  subst z. rewrite (proj2 (Z.leb_le _ _)) by done. f_equal. by apply amt_inj, amt_of.
Qed.

(** A value is too large to be rounded to a [u64] exactly from [2^64 - 1/2] on. *)
Lemma rounds_past_u64 (q : Q) (z : Z) :
  Qabs (inject_Z z - q) <= 1 # 2 -> (Qabs (inject_Z z - q) == 1 # 2 -> Z.even z = true) ->
  (u64_max < z)%Z <-> inject_Z (2 ^ 64) - (1 # 2) <= q.
Proof.
  intros Habs Heven. pose proof Habs as [Hl Hu]%Qabs_Qle_condition. split; intros Hz.
  - assert (Hq : inject_Z (2 ^ 64) <= inject_Z z) by (rewrite <- Zle_Qle; unfold u64_max in *; lia). lra.
  - assert (Hq : inject_Z u64_max <= inject_Z z) by (change (inject_Z (2 ^ 64)) with (inject_Z u64_max + 1) in Hz; lra).
    rewrite <- Zle_Qle in Hq. destruct (decide (z = u64_max)) as [->|]; [exfalso|lia].
    assert (Hodd : Z.even u64_max = true); [apply Heven|done].
    assert (Hd : inject_Z u64_max - q == - (1 # 2)) by (change (inject_Z (2 ^ 64)) with (inject_Z u64_max + 1) in Hz; lra).
    by rewrite Hd.
Qed.
Lemma nearest_u64_max (q : Q) (z : Z) :
  Qabs (inject_Z z - q) <= 1 # 2 -> inject_Z u64_max < q -> (z <= u64_max)%Z -> z = u64_max.
Proof.
  intros [Hl Hu]%Qabs_Qle_condition Hq Hz.
  assert (H1 : inject_Z (u64_max - 1) < inject_Z z).
  { unfold Z.sub. rewrite inject_Z_plus. change (inject_Z (- (1))) with (- (1)). lra. }
  rewrite <- Zlt_Qlt in H1. lia.
Qed.

(** C27: Converting to an amount succeeds exactly for the values without a negative sign
    that are below [2^64 - 1/2], and rounds them to the nearest integer, from halfway
    between two to the even one; the others are refused, each with its error, and every
    value below zero has a negative sign. So the values above [u64::MAX] and below
    [2^64 - 1/2], for which the documentation promises the error, are accepted and become
    [u64::MAX]. An amount made a decimal converts back to itself. *)
Theorem Decimal_amount_nearest (d : Decimal) (a : Amount) :
  match Decimal_amount d with
  | Ok r => nd_is_sign_negative (Decimal_value d) = false /\ dval d < inject_Z (2 ^ 64) - (1 # 2) /\
            Qabs (inject_Z (amt r) - dval d) <= 1 # 2 /\
            (Qabs (inject_Z (amt r) - dval d) == 1 # 2 -> Z.even (amt r) = true)
  | Err e => (e = ECoins "Amounts may not be negative" /\ nd_is_sign_negative (Decimal_value d) = true)
             \/ (e = ECoins "Amounts may not be greater than u64::MAX" /\ nd_is_sign_negative (Decimal_value d) = false /\
                 inject_Z (2 ^ 64) - (1 # 2) <= dval d)
  | Panic _ => False
  end /\
  (dval d < 0 -> Decimal_amount d = Err (ECoins "Amounts may not be negative")) /\
  (inject_Z u64_max < dval d -> dval d < inject_Z (2 ^ 64) - (1 # 2) -> nd_is_sign_negative (Decimal_value d) = false ->
   Decimal_amount d = Ok (Amount_of u64_max)) /\
  Decimal_amount (Decimal_from_Amount a) = Ok a.
Proof.
  split_and!; [|unfold Decimal_amount; intros Hd; by rewrite (nd_sign_spec _ Hd)| |apply Decimal_amount_from_Amount].
  - destruct (nd_is_sign_negative (Decimal_value d)) eqn:Hs; [unfold Decimal_amount; rewrite Hs; by left|].
    destruct (Decimal_amount_eq d Hs) as (z & Habs & Heven & Hz & ->).
    pose proof (rounds_past_u64 _ _ Habs Heven) as Hmax. destruct (Z.leb_spec z u64_max).
    + rewrite amt_of by (unfold is_u64; lia). split_and!; [done| |done..]. apply Qnot_le_lt. rewrite <- Hmax. lia.
    + right. split_and!; [done..|by apply Hmax].
  - intros Hm Hlt Hs. destruct (Decimal_amount_eq d Hs) as (z & Habs & Heven & Hz & ->).
    pose proof (rounds_past_u64 _ _ Habs Heven) as Hmax. destruct (Z.leb_spec z u64_max) as [Hle|Hgt].
    + by rewrite (nearest_u64_max _ _ Habs Hm Hle).
    + apply Hmax in Hgt. lra.
Qed.

(** A decimal survives its derived encoding, of 17 bytes; the length the derived
    [encoding_length] announces is 16, one less than what is written outside of
    compatibility mode. *)
Theorem Decimal_derived_codec `{Profile} `{CompatMode} (d : Decimal) (rest : bytes) :
  exists bs, Simple_encode 0 d = Ok bs /\ Simple_decode 0 (bs ++ rest) = Ok (d, rest) /\
    Simple_encoding_length Decimal_encoding_length d = Ok 16%nat /\
    length bs = (16 + if compat_mode then 0 else 1)%nat.
Proof.
  assert (H0u : is_u8 0%Z) by done.
  exists (simple_prefix 0 ++ enc (mkAdapter d)). split_and!.
  - exact (@encode_enc Decimal _ _ (Simple_CodecSpec 0%Z H0u) d).
  - exact (@decode_enc Decimal _ _ (Simple_CodecSpec 0%Z H0u) d rest (or_introl I)).
  - done.
  - rewrite length_app. change (enc (mkAdapter d)) with (nd_serialize (Decimal_value d)).
    rewrite nd_serialize_length. unfold simple_prefix. destruct compat_mode; simpl; lia.
Qed.

(** The operators agree with exact arithmetic where the result is a decimal. *)
Lemma Decimal_sub_Amount_exact d a :
  representable (dval d - inject_Z (amt a)) ->
  exists r, Decimal_sub_Amount d a = MOk r /\ dval r == dval d - inject_Z (amt a).
Proof.
  intros Hr. unfold Decimal_sub_Amount.
  destruct (nd_sub_spec (Decimal_value d) (Decimal_value (Decimal_from_Amount a))) as (c & -> & Hc).
  { destruct Hr as (m & e & ? & ? & Hm). exists m, e. split_and!; [lia..|].
    fold (dval d). fold (dval (Decimal_from_Amount a)). by rewrite dval_from_Amount. }
  exists (mkDecimal c). split; [done|]. unfold dval at 1. cbn [Decimal_value]. rewrite Hc.
  fold (dval d). fold (dval (Decimal_from_Amount a)). by rewrite dval_from_Amount.
Qed.
Lemma Decimal_add_Amount_exact d a :
  representable (inject_Z (amt a) + dval d) ->
  exists r, Decimal_add_Amount d a = MOk r /\ dval r == dval d + inject_Z (amt a).
Proof.
  intros Hr. unfold Decimal_add_Amount, Amount_add_Decimal.
  destruct (nd_add_spec (Decimal_value (Decimal_from_Amount a)) (Decimal_value d)) as (c & -> & Hc).
  { destruct Hr as (m & e & ? & ? & Hm). exists m, e. split_and!; [lia..|].
    fold (dval d). fold (dval (Decimal_from_Amount a)). by rewrite dval_from_Amount. }
  exists (mkDecimal c). split; [done|]. unfold dval at 1. cbn [Decimal_value]. rewrite Hc.
  fold (dval d). fold (dval (Decimal_from_Amount a)). rewrite dval_from_Amount. ring.
Qed.
Lemma Decimal_add_exact a b c :
  Decimal_add a b = MOk c -> representable (dval a + dval b) -> dval c == dval a + dval b.
Proof.
  unfold Decimal_add. intros Hc Hr. destruct (nd_add_spec _ _ Hr) as (d & Hd & Hv). rewrite Hd in Hc. by injection Hc as <-.
Qed.
Lemma Decimal_sub_exact a b c :
  Decimal_sub a b = MOk c -> representable (dval a - dval b) -> dval c == dval a - dval b.
Proof.
  unfold Decimal_sub. intros Hc Hr. destruct (nd_sub_spec _ _ Hr) as (d & Hd & Hv). rewrite Hd in Hc. by injection Hc as <-.
Qed.
Lemma Decimal_mul_Amount_exact d a c :
  Decimal_mul_Amount d a = MOk c -> representable (inject_Z (amt a) * dval d) -> dval c == inject_Z (amt a) * dval d.
Proof.
  unfold Decimal_mul_Amount. intros Hc Hr. destruct (nd_mul_spec (Decimal_value (Decimal_from_Amount a)) (Decimal_value d)) as (x & Hx & Hv).
  { destruct Hr as (m & e & ? & ? & Hm). exists m, e. split_and!; [lia..|].
    fold (dval d). fold (dval (Decimal_from_Amount a)). by rewrite dval_from_Amount. }
  rewrite Hx in Hc. injection Hc as <-. unfold dval at 1. cbn [Decimal_value]. rewrite Hv.
  fold (dval d). fold (dval (Decimal_from_Amount a)). by rewrite dval_from_Amount.
Qed.
Lemma representable_eq q r : q == r -> representable q -> representable r.
Proof. intros He (m & e & ? & ? & Hq). exists m, e. split_and!; [lia..|]. by rewrite <- He. Qed.
Lemma Decimal_ltb_Amount d a : is_lt (Decimal_cmp_Amount d a) = true <-> dval d < inject_Z (amt a).
Proof.
  unfold Decimal_cmp_Amount. rewrite nd_cmp_spec. fold (dval d). fold (dval (Decimal_from_Amount a)).
  rewrite dval_from_Amount. unfold is_lt. destruct (Qcompare_spec (dval d) (inject_Z (amt a))); split; intros; try done; lra.
Qed.

(** Taking a whole amount that is there away from a decimal never leaves the
    representable values. *)
Lemma representable_sub_Amount d a :
  inject_Z (amt a) <= dval d -> representable (dval d - inject_Z (amt a)).
Proof.
  intros Hle. destruct (nd_representable (Decimal_value d)) as (m & e & He & Hm & Hq). fold (dval d) in Hq.
  exists (m - amt a * 10 ^ e)%Z, e. pose proof (amt_range a) as [Ha _].
  assert (Hp : (0 < 10 ^ e)%Z) by (apply Z.pow_pos_nonneg; lia).
  assert (Heq : (dval d - inject_Z (amt a)) * inject_Z (10 ^ e) == inject_Z (m - amt a * 10 ^ e)).
  { unfold Z.sub. rewrite inject_Z_plus, inject_Z_opp, inject_Z_mult, <- Hq. ring. }
  split_and!; [lia..| |done].
  assert (H0 : (0 <= m - amt a * 10 ^ e)%Z).
  { rewrite Zle_Qle, <- Heq. apply Qmult_le_0_compat; [lra|]. change 0 with (inject_Z 0). rewrite <- Zle_Qle. lia. }
  assert (0 <= amt a * 10 ^ e)%Z by (apply Z.mul_nonneg_nonneg; lia). lia.
Qed.
End DecimalSpec.
