(* ===== verification/DecimalInst.v ===== *)
(** * A decimal arithmetic that satisfies the laws

    The interface of [Decimal.v] is inhabited: values are a sign, a scale and a
    96-bit integer, as the crate documents them, and an operation returns the exact
    result rounded to the largest scale at which it fits. It is used to evaluate the
    definitions on concrete inputs; it is not a translation of the crate. *)

From stdpp Require Import base tactics numbers list strings gmap.
From Stdlib Require Import ZArith QArith Qabs Qround Lia Lqa.
From S2P Require Import Prelude Bytes Codec StateIface StructState Coins SimpleState Decimal.
#[local] Open Scope Z_scope.

Definition scale_range (z : Z) : bool := (0 <=? z) && (z <=? 28).
Record Scale := mkScale { scale_val : Z; scale_ok : scale_range scale_val = true }.
Definition to_scale (z : Z) : Scale :=
  match decide (scale_range z = true) with left Hz => mkScale z Hz | right _ => mkScale 0 eq_refl end.
Lemma scale_eq (a b : Scale) : scale_val a = scale_val b -> a = b.
Proof. destruct a as [x Hx], b as [y Hy]. simpl. intros ->. f_equal. apply (proof_irrel _ _). Qed.
Lemma scale_bound (a : Scale) : 0 <= scale_val a <= 28.
Proof. pose proof (scale_ok a) as Hr. unfold scale_range in Hr. lia. Qed.
Lemma to_scale_val z : 0 <= z <= 28 -> scale_val (to_scale z) = z.
Proof. intros Hz. unfold to_scale. destruct (decide _) as [|Hn]; [done|]. unfold scale_range in Hn. lia. Qed.

Record Dec := mkDec { Dec_neg : u8; Dec_scale : Scale; Dec_mant : uint 12 }.

Definition pow10 (e : Z) : positive := Z.to_pos (10 ^ e).
Definition dec_num (d : Dec) : Z := if uint_val (Dec_neg d) =? 0 then uint_val (Dec_mant d) else - uint_val (Dec_mant d).
Definition dec_val (d : Dec) : Q := dec_num d # pow10 (scale_val (Dec_scale d)).
Definition dec_of (m e : Z) : Dec := mkDec (to_uint 1 (if m <? 0 then 1 else 0)) (to_scale e) (to_uint 12 (Z.abs m)).

(** The nearest integer, a half away from zero. *)
Definition Qnearest (q : Q) : Z := (2 * Qnum q + Zpos (Qden q)) / (2 * Zpos (Qden q)).

(** The largest scale from [n] down at which the value fits. *)
Fixpoint dec_search (n : nat) (q : Q) : option Dec :=
  let e := Z.of_nat n in
  if Z.abs (Qnum q) * 10 ^ e <=? (2 ^ 96 - 1) * Zpos (Qden q)
  then Some (dec_of (Qnearest (q * inject_Z (10 ^ e))) e)
  else match n with O => None | S n' => dec_search n' q end.
Definition dec_of_Q (q : Q) : option Dec := dec_search 28 q.

Lemma pow10_pos e : 0 <= e -> Zpos (pow10 e) = 10 ^ e.
Proof. intros. unfold pow10. rewrite Z2Pos.id; [done|]. apply Z.pow_pos_nonneg; lia. Qed.

Lemma dec_num_of m e : Z.abs m < 2 ^ 96 -> dec_num (dec_of m e) = m.
Proof.
  intros Hm. unfold dec_num, dec_of. cbn [Dec_neg Dec_mant].
  rewrite (uint_val_to 12) by (change (256 ^ Z.of_nat 12) with (2 ^ 96); lia).
  destruct (Z.ltb_spec m 0); rewrite (uint_val_to 1) by (simpl; lia); simpl; lia.
Qed.
Lemma dec_val_of m e : Z.abs m < 2 ^ 96 -> 0 <= e <= 28 -> (dec_val (dec_of m e) * inject_Z (10 ^ e) == inject_Z m)%Q.
Proof.
  intros Hm He. unfold dec_val. rewrite dec_num_of by done. cbn [dec_of Dec_scale].
  rewrite to_scale_val by done. unfold Qeq. cbn [Qmult Qnum Qden inject_Z].
  rewrite Pos.mul_1_r, pow10_pos by lia. lia.
Qed.

Lemma Qnearest_inject q z : (q == inject_Z z)%Q -> Qnearest q = z.
Proof.
  unfold Qeq, Qnearest, inject_Z. simpl. intros Hq. rewrite Z.mul_1_r in Hq. rewrite Hq.
  replace (2 * (z * Zpos (Qden q)) + Zpos (Qden q)) with (Zpos (Qden q) + z * (2 * Zpos (Qden q))) by ring.
  rewrite Z.div_add by lia. rewrite Z.div_small by lia. lia.
Qed.
Lemma Qnearest_spec q : (Qabs (inject_Z (Qnearest q) - q) <= 1 # 2)%Q.
Proof.
  apply Qabs_Qle_condition. unfold Qnearest. destruct q as [n d]. cbn [Qnum Qden].
  pose proof (Z.div_mod (2 * n + Zpos d) (2 * Zpos d) ltac:(lia)) as Hd.
  pose proof (Z.mod_pos_bound (2 * n + Zpos d) (2 * Zpos d) ltac:(lia)) as Hb.
  set (z := (2 * n + Zpos d) / (2 * Zpos d)) in *.
  unfold Qle, Qminus, Qplus, Qopp, inject_Z. cbn [Qnum Qden]. split; nia.
Qed.

(** The nearest integer, a half to the even one. *)
Definition Qround_even (q : Q) : Z :=
  let z := Qnearest q in if Qeq_bool (inject_Z z - q) (1 # 2) && Z.odd z then z - 1 else z.
Lemma Qround_even_spec q : (Qabs (inject_Z (Qround_even q) - q) <= 1 # 2)%Q.
Proof.
  unfold Qround_even. pose proof (Qnearest_spec q) as Hq. destruct (Qeq_bool _ _) eqn:Hb; cbn [andb]; [|done]. destruct (Z.odd _); [|done].
  apply Qeq_bool_iff in Hb. apply Qabs_Qle_condition. unfold Z.sub. rewrite inject_Z_plus. change (inject_Z (- (1))) with (- (1))%Q. lra.
Qed.
(** [Qnearest] rounds a half up, so one that is left is above the value. *)
Lemma Qnearest_up q : (- (1 # 2) < inject_Z (Qnearest q) - q)%Q.
Proof.
  unfold Qnearest. destruct q as [n d]. cbn [Qnum Qden].
  pose proof (Z.div_mod (2 * n + Zpos d) (2 * Zpos d) ltac:(lia)) as Hd.
  pose proof (Z.mod_pos_bound (2 * n + Zpos d) (2 * Zpos d) ltac:(lia)) as Hb.
  set (z := (2 * n + Zpos d) / (2 * Zpos d)) in *.
  unfold Qlt, Qminus, Qplus, Qopp, inject_Z. cbn [Qnum Qden]. nia.
Qed.
Lemma Qround_even_even q : (Qabs (inject_Z (Qround_even q) - q) == 1 # 2)%Q -> Z.even (Qround_even q) = true.
Proof.
  unfold Qround_even. pose proof (Qnearest_up q) as Hu. destruct (Qeq_bool _ _) eqn:Hb; cbn [andb].
  - destruct (Z.odd _) eqn:Ho; intros _.
    + by rewrite Z.even_sub, <- (Z.negb_odd (Qnearest q)), Ho.
    + by rewrite <- Z.negb_odd, Ho.
  - apply Qeq_bool_neq in Hb. set (x := (inject_Z (Qnearest q) - q)%Q) in *. intros Ha. exfalso.
    destruct (Qlt_le_dec x 0) as [Hx|Hx]; [rewrite Qabs_neg in Ha by lra; lra|]. rewrite Qabs_pos in Ha by done. done.
Qed.

(** A representable value is found exactly. *)
Lemma fits_iff q e m : 0 <= e -> (q * inject_Z (10 ^ e) == inject_Z m)%Q ->
  Z.abs (Qnum q) * 10 ^ e <= (2 ^ 96 - 1) * Zpos (Qden q) <-> Z.abs m < 2 ^ 96.
Proof.
  intros He. unfold Qeq. cbn [Qmult Qnum Qden inject_Z]. rewrite Pos.mul_1_r. intros Hq.
  assert (Ha : Z.abs (Qnum q) * 10 ^ e = Z.abs m * Zpos (Qden q)).
  { rewrite <- (Z.abs_eq (10 ^ e)) by (apply Z.pow_nonneg; lia). rewrite <- Z.abs_mul.
    replace (Qnum q * 10 ^ e) with (m * Zpos (Qden q)) by lia. rewrite Z.abs_mul. lia. }
  rewrite Ha, <- Z.mul_le_mono_pos_r by lia. lia.
Qed.
Lemma dec_search_exact n q m e :
  0 <= e <= Z.of_nat n -> (n <= 28)%nat -> Z.abs m < 2 ^ 96 -> (q * inject_Z (10 ^ e) == inject_Z m)%Q ->
  exists c, dec_search n q = Some c /\ (dec_val c == q)%Q.
Proof.
  intros He Hn Hm Hq.
  assert (Hscale : forall n', e <= n' -> (q * inject_Z (10 ^ n') == inject_Z (m * 10 ^ (n' - e)))%Q).
  { intros n' Hn'. rewrite inject_Z_mult, <- Hq, <- Qmult_assoc, <- inject_Z_mult, <- Z.pow_add_r by lia.
    by replace (e + (n' - e)) with n' by lia. }
  assert (Hfound : forall n', e <= n' <= 28 -> Z.abs (m * 10 ^ (n' - e)) < 2 ^ 96 ->
    (dec_val (dec_of (Qnearest (q * inject_Z (10 ^ n'))) n') == q)%Q).
  { intros n' Hn' Hlt.
    pose proof (Hscale n' ltac:(lia)) as Hex. rewrite (Qnearest_inject _ _ Hex). pose proof (dec_val_of _ n' Hlt ltac:(lia)) as Hv. rewrite <- Hex in Hv.
    apply Qmult_inj_r in Hv; [done|]. change 0%Q with (inject_Z 0). rewrite inject_Z_injective.
    pose proof (Z.pow_pos_nonneg 10 n'). lia. }
  assert (Hfit : forall n', e <= n' <= 28 -> Z.abs (Qnum q) * 10 ^ n' <= (2 ^ 96 - 1) * Zpos (Qden q) ->
    (dec_val (dec_of (Qnearest (q * inject_Z (10 ^ n'))) n') == q)%Q).
  { intros n' Hn' Hle. apply Hfound; [done|]. apply (fits_iff q n' _ ltac:(lia) (Hscale n' ltac:(lia))), Hle. }
  induction n as [|n IH]; cbn [dec_search];
    (case_match eqn:Hle; [apply Z.leb_le in Hle; eexists; split; [done|]; apply Hfit; [lia|done]|apply Z.leb_gt in Hle]).
  - apply (fits_iff q e m ltac:(lia) Hq) in Hm. assert (e = 0) as -> by lia. change (Z.of_nat 0) with 0 in Hle. lia.
  - apply IH; [|lia]. destruct (decide (e = Z.of_nat (S n))) as [->|]; [|lia].
    apply (fits_iff q (Z.of_nat (S n)) m ltac:(lia) Hq) in Hm. lia.
Qed.
Lemma dec_of_Q_exact q : representable q -> exists c, dec_of_Q q = Some c /\ (dec_val c == q)%Q.
Proof. intros (m & e & He & Hm & Hq). by apply (dec_search_exact 28 q m e). Qed.

#[export] Instance Dec_NumDecimal : NumDecimal := {|
  NumDec := Dec;
  nd_checked_add a b := dec_of_Q (dec_val a + dec_val b)%Q;
  nd_checked_sub a b := dec_of_Q (dec_val a - dec_val b)%Q;
  nd_checked_mul a b := dec_of_Q (dec_val a * dec_val b)%Q;
  nd_checked_div a b := if Qeq_bool (dec_val b) 0 then None else dec_of_Q (dec_val a / dec_val b)%Q;
  nd_cmp a b := Qcompare (dec_val a) (dec_val b);
  nd_is_sign_negative a := negb (uint_val (Dec_neg a) =? 0);
  nd_is_zero a := Qeq_bool (dec_val a) 0;
  nd_abs a := mkDec (to_uint 1 0) (Dec_scale a) (Dec_mant a);
  nd_round a := dec_of (Qround_even (dec_val a)) 0;
  nd_to_u64 a := let z := Qfloor (dec_val a) in if uint_range 8 z then Some (to_uint 8 z) else None;
  nd_from_u64 n := dec_of (uint_val n) 0;
  nd_ZERO := dec_of 0 0;
  nd_ONE := dec_of 1 0;
  nd_default := dec_of 0 0;
  nd_serialize a := to_be_bytes 1 (uint_val (Dec_neg a)) ++ to_be_bytes 3 (scale_val (Dec_scale a)) ++ to_be_bytes 12 (uint_val (Dec_mant a));
  nd_deserialize bs := mkDec (to_uint 1 (from_be_bytes (take 1 bs))) (to_scale (from_be_bytes (take 3 (drop 1 bs)))) (to_uint 12 (from_be_bytes (drop 4 bs)))
|}.

Lemma dec_num_bound d : Z.abs (dec_num d) < 2 ^ 96.
Proof.
  pose proof (proj1 (uint_range_spec _ _) (uint_ok _ (Dec_mant d))) as Hm. change (256 ^ Z.of_nat 12) with (2 ^ 96) in Hm.
  unfold dec_num. destruct (_ =? 0); lia.
Qed.

Lemma Qround_even_bound d : Z.abs (Qround_even (dec_val d)) < 2 ^ 96.
Proof.
  pose proof (dec_num_bound d) as Hn. pose proof (scale_bound (Dec_scale d)) as [He _].
  pose proof (Qround_even_spec (dec_val d)) as [Hl Hu]%Qabs_Qle_condition. set (z := Qround_even (dec_val d)) in *.
  assert (Hq : (- inject_Z (2 ^ 96 - 1) <= dec_val d <= inject_Z (2 ^ 96 - 1))%Q).
  { unfold dec_val, Qle, Qopp, inject_Z. cbn [Qnum Qden]. split; nia. }
  assert (H1 : (inject_Z z < inject_Z (2 ^ 96))%Q) by (change (inject_Z (2 ^ 96)) with (inject_Z (2 ^ 96 - 1) + 1)%Q; lra).
  assert (H2 : (inject_Z (- 2 ^ 96) < inject_Z z)%Q) by (change (inject_Z (- 2 ^ 96)) with (- inject_Z (2 ^ 96 - 1) - 1)%Q; lra).
  rewrite <- Zlt_Qlt in H1, H2. lia.
Qed.

#[export] Instance Dec_NumDecimalSpec : NumDecimalSpec.
Proof.
  refine {| nd_val := dec_val : NumDec -> Q |}.
  - intros a b. apply dec_of_Q_exact.
  - intros a b. apply dec_of_Q_exact.
  - intros a b. apply dec_of_Q_exact.
  - intros a b Hb. cbn. destruct (Qeq_bool (dec_val b) 0) eqn:E; [by apply Qeq_bool_iff in E|]. apply dec_of_Q_exact.
  - intros a b Hb. cbn. by rewrite (proj2 (Qeq_bool_iff _ _) Hb).
  - intros a. apply Qeq_bool_iff.
  - done.
  - done.
  - intros a. exists (dec_num a), (scale_val (Dec_scale a)). split_and!; [apply scale_bound..|apply dec_num_bound|].
    cbn. unfold dec_val, Qeq. cbn [Qmult Qnum Qden inject_Z]. rewrite Pos.mul_1_r, pow10_pos by apply scale_bound. lia.
  - done.
  - intros a. unfold nd_abs, Dec_NumDecimal, dec_val, dec_num. cbn [Dec_neg Dec_scale Dec_mant]. unfold Qabs.
    pose proof (proj1 (uint_range_spec _ _) (uint_ok _ (Dec_mant a))). cbn [uint_val to_uint]. change (uint_wrap 1 0 =? 0) with true. cbn iota.
    destruct (uint_val (Dec_neg a) =? 0); unfold Qeq; cbn [Qnum Qden]; rewrite ?Z.abs_opp, Z.abs_eq by lia; done.
  - done.
  - intros a. unfold dec_val, dec_num, Qlt. cbn. destruct (uint_val (Dec_neg a) =? 0); [|done].
    pose proof (proj1 (uint_range_spec _ _) (uint_ok _ (Dec_mant a))). nia.
  - intros n. pose proof (proj1 (uint_range_spec _ _) (uint_ok _ n)) as Hn. change (256 ^ Z.of_nat 8) with (2 ^ 64) in Hn.
    pose proof (dec_val_of (uint_val n) 0 ltac:(lia) ltac:(lia)) as Hv. change (inject_Z (10 ^ 0)) with 1%Q in Hv.
    by rewrite Qmult_1_r in Hv.
  - intros n. pose proof (proj1 (uint_range_spec _ _) (uint_ok _ n)). cbn.
    by rewrite (proj2 (Z.ltb_ge _ _)) by lia.
  - intros a. exists (Qround_even (dec_val a)). split; [|split; [apply Qround_even_spec|apply Qround_even_even]].
    pose proof (dec_val_of _ 0 (Qround_even_bound a) ltac:(lia)) as Hv. change (inject_Z (10 ^ 0)) with 1%Q in Hv.
    by rewrite Qmult_1_r in Hv.
  - intros a z Hz. unfold nd_to_u64, Dec_NumDecimal. cbv zeta. by rewrite (Qfloor_comp _ _ Hz), Qfloor_Z.
  - intros a. unfold nd_serialize, Dec_NumDecimal. by rewrite !length_app, !to_be_bytes_length.
  - intros [n e m]. unfold nd_serialize, nd_deserialize, Dec_NumDecimal. cbn [Dec_neg Dec_scale Dec_mant].
    pose proof (scale_bound e) as He.
    assert (He3 : uint_range 3 (scale_val e) = true) by (apply uint_range_spec; simpl; lia).
    rewrite take_app_length', !drop_app_length', take_app_length', !from_to_be_bytes, !to_uint_val
      by (done || apply uint_ok || by rewrite to_be_bytes_length).
    f_equal; [by apply scale_eq, to_scale_val|].
    rewrite app_assoc, drop_app_length' by by rewrite length_app, !to_be_bytes_length.
    by rewrite from_to_be_bytes, to_uint_val by apply uint_ok.
Defined.

(** *** Witnesses *)

(** Seven and a half rounds to eight and so does eight and a half; a value above
    [u64::MAX] by a quarter becomes [u64::MAX]. *)
Lemma Decimal_amount_nearest_witness :
  Decimal_amount (mkDecimal (dec_of 75 1)) = Ok (Amount_of 8) /\
  Decimal_amount (mkDecimal (dec_of 85 1)) = Ok (Amount_of 8) /\
  (Qabs (inject_Z 8 - (75 # 10)) <= 1 # 2)%Q /\
  Decimal_amount (mkDecimal (dec_of (-75) 1)) = Err (ECoins "Amounts may not be negative") /\
  Decimal_amount (mkDecimal (dec_of (u64_max * 100 + 25) 2)) = Ok (Amount_of u64_max).
Proof.
  assert (Hv : Decimal_amount (mkDecimal (dec_of 75 1)) = Ok (Amount_of 8)).
  { unfold Decimal_amount. cbn [Decimal_value nd_is_sign_negative Dec_NumDecimal]. by vm_compute. }
  split; [done|]. split; [by vm_compute|]. split; [|split].
  - pose proof (Decimal_amount_nearest (mkDecimal (dec_of 75 1)) (Amount_of 1)) as [Hn _]. rewrite Hv in Hn. apply Hn.
  - pose proof (Decimal_amount_nearest (mkDecimal (dec_of (-75) 1)) (Amount_of 1)) as (_ & Hneg & _). apply Hneg. by vm_compute.
  - pose proof (Decimal_amount_nearest (mkDecimal (dec_of (u64_max * 100 + 25) 2)) (Amount_of 1)) as (_ & _ & Hmax & _).
    apply Hmax; by vm_compute.
Defined.

Lemma Decimal_derived_codec_witness :
  let P := {| overflow_checks := true; debug_assertions := true |} in
  let C := {| compat_mode := false |} in
  exists bs, Simple_encode 0 (mkDecimal (dec_of 75 1)) = Ok bs /\ length bs = 17%nat /\
    Simple_decode 0 (bs ++ [9]) = Ok (mkDecimal (dec_of 75 1), [9]).
Proof.
  intros P C. destruct (Decimal_derived_codec (mkDecimal (ND := Dec_NumDecimal) (dec_of 75 1)) [9]) as (bs & He & Hd & _ & Hl).
  by exists bs.
Defined.
