(* ===== verification/Share.v ===== *)
(** * Shares (src/coins/share.rs, src/coins/multishare.rs)

    [Share] is a coin whose amount is a decimal, [MultiShare] a map of such amounts
    by denomination. Amounts are taken and given in whole coins; the fraction stays
    behind. *)

From stdpp Require Import base tactics numbers list strings gmap.
From Stdlib Require Import ZArith QArith Qabs Lia Lqa.
From S2P Require Import Prelude Bytes BTree StoreIface StoreIter NullStore BufStore PrefixStore Codec StateIface StructState MapColl MapSpec MapProps MapCall MapIter Fields SimpleState Coins Decimal DecimalInst.
#[local] Open Scope Z_scope.

Section Share.
Context `{ND : NumDecimal}.

Abbreviation Share := (Struct2 0 Decimal PhantomData).
Definition mkShare (shares : Decimal) : Share := mkStruct2 shares mkPhantomData.
Definition Share_shares (self : Share) : Decimal := field0 self.
Definition Share_new : Share := mkShare (Decimal_from_u64 (to_uint 8 0)).
Definition Share_amount (self : Share) : res Amount := Decimal_amount (Share_shares self).
Definition Share_balance_Amount (self : Share) : res Amount := Decimal_amount (Share_shares self).
Definition Share_balance_Decimal (self : Share) : res Decimal := Ok (Share_shares self).
Definition Share_from_Decimal (amount : Decimal) : Share := mkShare amount.
Definition Share_from_Coin (coins : Coin) : Share := mkShare (Decimal_from_Amount (Coin_amount coins)).

(** [self.shares = ..?;] *)
Definition set_shares (r : res Decimal) : M Share unit := fun self =>
  match r with
  | Ok d => (Ok tt, mkShare d)
  | Err e => (Err e, self)
  | Panic w => (Panic w, self)
  end.
Definition Share_take (amount : Amount) : M Share Coin :=
  do self <- getM;
  if is_lt (Decimal_cmp_Amount (Share_shares self) amount) then errM (ECoins "Insufficient balance")
  else
    run set_shares (math_try (Decimal_sub_Amount (Share_shares self) amount));
    retM (Coin_mint amount).
Definition Share_give (coin : Coin) : M Share unit :=
  do self <- getM;
  set_shares (math_try (Decimal_add_Amount (Share_shares self) (Coin_amount coin))).
End Share.

Section MultiShare.
Context `{ND : NumDecimal} {St : Type} `{Profile} `{CompatMode} `{Read St} `{!Write St} `{!Bounded St}.
Implicit Types (b : St).

Record MultiShare := mkMultiShare { MS_shares : Map u8 Decimal }.
Definition in_shares {A} (f : M (Map u8 Decimal) A) : M MultiShare A := zoomM MS_shares (fun m _ => mkMultiShare m) f.

(** [self.shares.iter()?.map(..).collect()] *)
Fixpoint amounts_of (l : list (u8 * Decimal)) : res (list (u8 * Amount)) :=
  match l with
  | [] => Ok []
  | (denom, amount) :: l =>
      let? a := Decimal_amount amount in
      let? rest := amounts_of l in
      Ok ((denom, a) :: rest)
  end.
Definition MultiShare_amounts b (self : MultiShare) : res (list (u8 * Amount)) :=
  let? it := Map_iter (MS_shares self) in
  let? l := MapIter_collect (S (length (Map_children (MS_shares self)) + entry_bound b)) b (MS_shares self) it in
  amounts_of l.

Definition MultiShare_deduct b (amount : Amount) (denom : u8) : M MultiShare unit :=
  in_shares (Map_or_default_assign Decimal_default b denom (fun entry =>
    if is_lt (Decimal_cmp_Amount entry amount) then Err (ECoins "Insufficient balance")
    else math_try (Decimal_sub_Amount entry amount))).
Definition MultiShare_balance_Amount `{Symbol} b (self : MultiShare) : res Amount :=
  let? d := Map_get_or_default Decimal_default b (MS_shares self) INDEX in
  Decimal_amount (Ref_deref d).
Definition MultiShare_balance_Decimal `{Symbol} b (self : MultiShare) : res Decimal :=
  let? d := Map_get_or_default Decimal_default b (MS_shares self) INDEX in
  Ok (Ref_deref d).
Definition MultiShare_take `{Symbol} b (amount : Amount) : M MultiShare Coin :=
  run MultiShare_deduct b amount INDEX;
  retM (Coin_mint amount).
Definition MultiShare_give_denom b (coin : u8 * Amount) : M MultiShare unit :=
  in_shares (Map_or_default_assign Decimal_default b coin.1 (fun entry => math_try (Decimal_add_Amount entry coin.2))).
Definition MultiShare_give `{Symbol} b (coin : Coin) : M MultiShare unit :=
  in_shares (Map_or_default_assign Decimal_default b INDEX (fun entry => math_try (Decimal_add_Amount entry (Coin_amount coin)))).

#[export] Instance MultiShare_Derived : Derived MultiShare 0 (FCons (Map u8 Decimal) FNil).
Proof.
  refine {| to_fields := fun m => fcons (MS_shares m) fnil; of_fields := fun f => mkMultiShare (fhead f) |}; [by intros []|by intros [? []]].
Defined.
#[export] Instance MultiShare_State : State St MultiShare := derived_State (D := MultiShare_Derived).
Definition MultiShare_default : MultiShare := mkMultiShare Map_new.
End MultiShare.

(** ** What taking and giving do *)

Abbreviation Share := (Struct2 0 Decimal PhantomData).
Section ShareSpec.
Context `{NDS : NumDecimalSpec}.
#[local] Open Scope Q_scope.

(** Debiting and crediting one decimal. *)
Definition debit (amount : Amount) (entry : Decimal) : res Decimal :=
  if is_lt (Decimal_cmp_Amount entry amount) then Err (ECoins "Insufficient balance")
  else math_try (Decimal_sub_Amount entry amount).
Lemma debit_ok a d : inject_Z (amt a) <= dval d -> exists r, debit a d = Ok r /\ dval r == dval d - inject_Z (amt a).
Proof.
  intros Hle. unfold debit. destruct (is_lt _) eqn:E; [apply Decimal_ltb_Amount in E; lra|].
  destruct (Decimal_sub_Amount_exact d a (representable_sub_Amount d a Hle)) as (r & -> & Hr). by exists r.
Qed.
Lemma debit_short a d : dval d < inject_Z (amt a) -> debit a d = Err (ECoins "Insufficient balance").
Proof. intros Hlt. unfold debit. by rewrite (proj2 (Decimal_ltb_Amount d a) Hlt). Qed.

(** Taking from a share succeeds exactly when the balance covers the amount, never
    loses precision, and what is left and what was taken add up to what was there;
    a refused [take] changes nothing. *)
Lemma Share_take_conserves (self : Share) (amount : Amount) :
  if Qle_bool (inject_Z (amt amount)) (dval (Share_shares self)) then
    exists self', Share_take amount self = (Ok (Coin_mint amount), self') /\
      dval (Share_shares self') + inject_Z (coin_val (Coin_mint amount)) == dval (Share_shares self)
  else Share_take amount self = (Err (ECoins "Insufficient balance"), self).
Proof.
  unfold Share_take, bindM, getM. destruct (Qle_bool _ _) eqn:E.
  - apply Qle_bool_iff in E. destruct (debit_ok amount _ E) as (r & Hd & Hr). unfold debit in Hd.
    destruct (is_lt _) eqn:Elt; [done|]. rewrite Hd. eexists. split; [done|]. simpl. rewrite Hr, coin_val_mint. ring.
  - assert (Hlt : dval (Share_shares self) < inject_Z (amt amount)).
    { apply Qnot_le_lt. intros Hle. apply Qle_bool_iff in Hle. congruence. }
    by rewrite (proj2 (Decimal_ltb_Amount _ _) Hlt).
Qed.
Lemma Share_give_conserves (self : Share) (coin : Coin) :
  representable (inject_Z (coin_val coin) + dval (Share_shares self)) ->
  exists self', Share_give coin self = (Ok tt, self') /\
    dval (Share_shares self') == dval (Share_shares self) + inject_Z (coin_val coin).
Proof.
  intros Hr. unfold Share_give, bindM, getM. destruct (Decimal_add_Amount_exact _ _ Hr) as (d & -> & Hd).
  eexists. split; [done|]. exact Hd.
Qed.
End ShareSpec.

Section MultiShareSpec.
Context `{NDS : NumDecimalSpec} `{Profile} `{CompatMode} `{WS : WriteSpec St} `{!Bounded St} `{!BoundedSpec St}.
Implicit Types (b : St) (s : Store) (ms : MultiShare) (f : u8 -> option Decimal).
#[local] Open Scope Q_scope.

Definition MultiShare_abs s b ms f : Prop :=
  Map_attached s (MS_shares ms) /\ Map_live (MS_shares ms) /\ Map_abs b (MS_shares ms) f.
(** The balance of a denomination. *)
Definition sbal f (denom : u8) : Q := match f denom with Some d => dval d | None => 0 end.

Lemma sbal_default f k : sbal f k == dval (default Decimal_default (f k)).
Proof. unfold sbal. destruct (f k); simpl; [done|]. symmetry. apply nd_default_spec. Qed.

Lemma representable_sbal f k : representable (sbal f k).
Proof. unfold sbal. destruct (f k) as [d|]; [apply nd_representable|]. by exists 0%Z, 0%Z. Qed.

(** One entry of the map is replaced by what [g] makes of it. *)
Lemma assign_spec s b ms f k (g : Decimal -> res Decimal) :
  Read_inv b -> MultiShare_abs s b ms f ->
  exists d, dval d == sbal f k /\
  match g d with
  | Ok d' => exists ms' f', in_shares (Map_or_default_assign Decimal_default b k g) ms = (Ok tt, ms') /\
      MultiShare_abs s b ms' f' /\ (forall j, sbal f' j == if decide (j = k) then dval d' else sbal f j)
  | Err e => in_shares (Map_or_default_assign Decimal_default b k g) ms = (Err e, ms)
  | Panic w => in_shares (Map_or_default_assign Decimal_default b k g) ms = (Panic w, ms)
  end.
Proof.
  intros Hb (Hm & Hl & Hf). destruct ms as [m]. cbn [MS_shares] in *.
  destruct (Map_or_default_assign_spec (StateSpec0 := Decimal_StateSpec) s b m f k Decimal_default Decimal_default g Hb Hm Hf Hl) as (d & _ & Hx & Hg); [done| |].
  { intros v. simpl. by intros [= <-]. }
  simpl in Hx. subst d. eexists. split; [symmetry; apply sbal_default|].
  unfold in_shares, zoomM. cbn [MS_shares]. destruct (g _) as [d'|e|w]; [|by rewrite Hg..].
  destruct (Hg d' I eq_refl) as (m' & -> & Hm' & Hf' & Hl'). eexists _, (upd (St := St) (StateSpec0 := Decimal_StateSpec) f k (Some d')).
  split; [done|]. split; [by split_and!|]. intros j. unfold sbal. destruct (decide (j = k)) as [->|Hn].
  - by rewrite upd_same.
  - by rewrite upd_other.
Qed.

Lemma MultiShare_deduct_spec s b ms f amount k :
  Read_inv b -> MultiShare_abs s b ms f ->
  if Qle_bool (inject_Z (amt amount)) (sbal f k) then
    exists ms' f', MultiShare_deduct b amount k ms = (Ok tt, ms') /\ MultiShare_abs s b ms' f' /\
      (forall j, sbal f' j == sbal f j - if decide (j = k) then inject_Z (amt amount) else 0)
  else MultiShare_deduct b amount k ms = (Err (ECoins "Insufficient balance"), ms).
Proof.
  intros Hb Hms. destruct (assign_spec s b ms f k (debit amount) Hb Hms) as (d & Hd & Hg).
  change (MultiShare_deduct b amount k ms) with (in_shares (Map_or_default_assign Decimal_default b k (debit amount)) ms).
  destruct (Qle_bool _ _) eqn:E.
  - apply Qle_bool_iff in E. destruct (debit_ok amount d) as (r & Hr & Hv); [lra|]. rewrite Hr in Hg.
    destruct Hg as (ms' & f' & Hrun & Ha & Hj). exists ms', f'. split_and!; [done..|]. intros j. rewrite (Hj j).
    destruct (decide (j = k)) as [->|]; [rewrite Hv, Hd|]; ring.
  - assert (Hlt : dval d < inject_Z (amt amount)).
    { apply Qnot_le_lt. intros Hle. assert (Hq : inject_Z (amt amount) <= sbal f k) by lra. apply Qle_bool_iff in Hq. congruence. }
    rewrite (debit_short amount d Hlt) in Hg. exact Hg.
Qed.

Lemma MultiShare_give_denom_spec s b ms f amount k :
  Read_inv b -> MultiShare_abs s b ms f -> representable (inject_Z (amt amount) + sbal f k) ->
  exists ms' f', MultiShare_give_denom b (k, amount) ms = (Ok tt, ms') /\ MultiShare_abs s b ms' f' /\
    (forall j, sbal f' j == sbal f j + if decide (j = k) then inject_Z (amt amount) else 0).
Proof.
  intros Hb Hms (m & e & He & Hm & Hq).
  destruct (assign_spec s b ms f k (fun d => math_try (Decimal_add_Amount d amount)) Hb Hms) as (d & Hd & Hg).
  destruct (Decimal_add_Amount_exact d amount) as (r & Hr & Hv).
  { exists m, e. split_and!; [lia..|]. by rewrite Hd. }
  rewrite Hr in Hg. destruct Hg as (ms' & f' & Hrun & Ha & Hj). exists ms', f'. split_and!; [done..|]. intros j.
  rewrite (Hj j). destruct (decide (j = k)) as [->|]; [rewrite Hv, Hd|]; ring.
Qed.

(** Taking coins of one symbol out of a multi-asset share succeeds exactly when
    its balance of that denomination covers them: then the fractional balance goes
    down by exactly the coins handed out and no other denomination changes; else it
    is refused and the map is untouched. Giving the coins back restores every
    balance. *)
Theorem MultiShare_take_give `{Symbol} s b ms f amount :
  Read_inv b -> MultiShare_abs s b ms f ->
  if Qle_bool (inject_Z (amt amount)) (sbal f INDEX) then
    exists coin ms1 f1, MultiShare_take b amount ms = (Ok coin, ms1) /\ MultiShare_abs s b ms1 f1 /\
      coin_val coin = amt amount /\
      (forall j, sbal f1 j + (if decide (j = INDEX) then inject_Z (coin_val coin) else 0) == sbal f j) /\
      exists ms2 f2, MultiShare_give b coin ms1 = (Ok tt, ms2) /\ MultiShare_abs s b ms2 f2 /\
        forall j, sbal f2 j == sbal f j
  else MultiShare_take b amount ms = (Err (ECoins "Insufficient balance"), ms).
Proof.
  intros Hb Hms. pose proof (MultiShare_deduct_spec s b ms f amount INDEX Hb Hms) as Hd.
  unfold MultiShare_take, bindM. destruct (Qle_bool _ _); [|by rewrite Hd].
  destruct Hd as (ms1 & f1 & -> & Ha1 & Hj1). eexists _, ms1, f1. split_and!; [done..| |].
  { intros j. rewrite (Hj1 j), coin_val_mint. ring. }
  destruct (representable_sbal f INDEX) as (m & e & He & Hm & Hq).
  destruct (MultiShare_give_denom_spec s b ms1 f1 amount INDEX Hb Ha1) as (ms2 & f2 & Hg & Ha2 & Hj2).
  { exists m, e. split_and!; [lia..|]. rewrite (Hj1 INDEX), decide_True, <- Hq by done. ring. }
  exists ms2, f2. split_and!; [exact Hg|done|]. intros j. rewrite (Hj2 j), (Hj1 j). ring.
Qed.
End MultiShareSpec.

(** *** Witnesses *)

#[local] Instance share_profile : Profile := {| overflow_checks := true; debug_assertions := true |}.
#[local] Instance share_compat : CompatMode := {| compat_mode := false |}.
#[local] Instance share_symbol : Symbol := {| INDEX := to_uint 1 3; NAME := "TEST" |}.

(** Seven and a half coins of denomination 3, in memory. *)
Definition ex_shares : MultiShare := mkMultiShare (mkMap (mkStore [9]) [([3], (to_uint 1 3, Some (mkDecimal (dec_of 75 1))))]).
Definition ex_sbal (k : u8) : option Decimal := if decide (k = to_uint 1 3) then Some (mkDecimal (dec_of 75 1)) else None.
Definition ex_sstore : MapStore := mkBufStore [] mkEmpty.

Lemma ex_sstore_inv : Read_inv ex_sstore.
Proof. split; [by repeat constructor|done]. Qed.
Lemma ex_shares_abs : MultiShare_abs (mkStore [9]) ex_sstore ex_shares ex_sbal.
Proof.
  split_and!.
  - split_and!; [done|by repeat constructor|]. repeat constructor.
  - by repeat constructor.
  - intros k. rewrite u8_enc. cbn [MS_shares Map_children ex_shares bt_get]. unfold ex_sbal.
    destruct (beqb_spec [uint_val k] [3]) as [Hk|Hk].
    + simplify_eq. assert (k = to_uint 1 3) as -> by by apply uint_eq. by rewrite decide_True.
    + rewrite decide_False by (intros ->; by apply Hk). done.
Qed.

Lemma MultiShare_take_give_witness :
  exists coin ms1 f1, MultiShare_take ex_sstore (Amount_of 7) ex_shares = (Ok coin, ms1) /\
    MultiShare_abs (mkStore [9]) ex_sstore ms1 f1 /\ coin_val coin = 7 /\ (sbal f1 (to_uint 1 3) == 1 # 2)%Q.
Proof.
  pose proof (MultiShare_take_give (mkStore [9]) ex_sstore ex_shares ex_sbal (Amount_of 7) ex_sstore_inv ex_shares_abs) as Hthm.
  assert (Hs : (sbal ex_sbal (to_uint 1 3) == 75 # 10)%Q) by (unfold sbal, ex_sbal; by rewrite decide_True).
  assert (Hle : Qle_bool (inject_Z (amt (Amount_of 7))) (sbal ex_sbal INDEX) = true).
  { apply Qle_bool_iff. change INDEX with (to_uint 1 3). rewrite Hs. by vm_compute. }
  rewrite Hle in Hthm. destruct Hthm as (coin & ms1 & f1 & Ht & Ha & Hc & Hj & _).
  exists coin, ms1, f1. split_and!; [done|done|done|]. specialize (Hj (to_uint 1 3)).
  change INDEX with (to_uint 1 3) in Hj. rewrite decide_True, Hc in Hj by done.
  change (inject_Z (amt (Amount_of 7))) with (7 # 1)%Q in Hj. lra.
Defined.
