(* ===== verification/Pool.v ===== *)
(** * The reward pool (src/coins/pool.rs)

    Entries hold shares of the pool; rewards given to the pool are distributed to an
    entry, in proportion to its shares, when it is next accessed (the F1 scheme).
    [get_mut] hands out a reference whose [Drop] brings the totals of the pool up to
    date with what was done to the entry, and records a failure to do so in a flag;
    [get] works on the entry's [RefCell] behind a shared reference. *)

From stdpp Require Import base tactics numbers list strings gmap.
From Stdlib Require Import ZArith QArith Lia.
From S2P Require Import Prelude Bytes BTree StoreIface StoreIter NullStore BufStore PrefixStore Codec StateIface Next StructState MapColl MapSpec MapProps MapCall Fields MapIter SimpleState Coins Decimal.
#[local] Open Scope Z_scope.

(** ** [RefCell] as state *)

Record RefCell (T : Type) := mkRefCell { cell : T }.
Arguments mkRefCell {T} _.
Arguments cell {T} _.

Section RefCell.
Context {St T : Type} {ST : State St T}.
Definition in_cell {A} (f : M T A) : M (RefCell T) A := zoomM cell (fun t _ => mkRefCell t) f.
Definition RefCell_attach (s : Store) : M (RefCell T) unit := in_cell (State_attach s).
Definition RefCell_flush (c : RefCell T) : M St bytes := State_flush (cell c).
Definition RefCell_load (s : Store) (bs : bytes) (b : St) : res (RefCell T * bytes) :=
  let? r := State_load s bs b in Ok (mkRefCell r.1, r.2).
#[export] Instance RefCell_State : State St (RefCell T) :=
  {| State_attach := RefCell_attach; State_flush := RefCell_flush; State_load := RefCell_load |}.
End RefCell.

#[export] Instance RefCell_StateSpec `{WS : WriteSpec St} {T} {ST : State St T} `{!StateSpec St T} : StateSpec St (RefCell T).
Proof.
  refine {| model := model (V := T); valid := fun c => valid (cell c); attached := fun s c => attached s (cell c);
            abs := fun b c x => abs b (cell c) x; State_terminated := State_terminated (V := T);
            flushable := fun s b c => flushable s b (cell c) |}.
  - intros s [t]. apply attached_valid.
  - intros s [t] Ht. destruct (attach_spec s t Ht) as (t' & Ht' & ?). exists (mkRefCell t'). split; [|done].
    cbn. unfold RefCell_attach, in_cell, zoomM. simpl. by rewrite Ht'.
  - intros s [t] Ht. destruct (reattach_spec s t Ht) as (t' & Ht' & ? & ?). exists (mkRefCell t'). split_and!; [|done..].
    cbn. unfold RefCell_attach, in_cell, zoomM. simpl. by rewrite Ht'.
  - intros s b b' [t] x. apply abs_frame.
  - intros s b b' [t]. apply flushable_mono.
  - intros s b [t] x Ht Hb Hf Hx. destruct (flush_spec s b t x Ht Hb Hf Hx) as (bs & b' & ? & ? & ? & ? & Hl).
    exists bs, b'. split_and!; [done..|]. intros b2 rest Hb2 Hag Hr. destruct (Hl b2 rest Hb2 Hag Hr) as (t' & Hl' & ? & ?).
    exists (mkRefCell t'). split_and!; [|done..]. cbn. unfold RefCell_load. by rewrite Hl'.
Defined.

(** ** Entries *)

(** What a pool asks of its values: [Balance<S, Decimal>], [Give<(u8, Amount)>] and
    [Default]. [balance] takes [&self], but a value with cells inside may be changed by
    it all the same. *)
Class PoolValue `{NumDecimal} (St V : Type) := {
  pv_balance : St -> M V Decimal;
  pv_give : St -> u8 * Amount -> M V unit;
  pv_default : V
}.

Section Pool.
Context `{Profile} `{CompatMode} `{ND : NumDecimal} {St : Type} `{Read St} `{!Write St} `{!Bounded St}.
Context {K V : Type} `{Encode K} `{Decode K} {SV : State St V} {PV : PoolValue St V}.
Implicit Types (b : St).

(** [struct Entry]: the shares, the period entry last seen per denomination, and the
    value. *)
Abbreviation PoolEntry := (Struct 0 (FCons Decimal (FCons (Map u8 Decimal) (FCons V FNil)))).
Definition mkEntry (shares : Decimal) (last : Map u8 Decimal) (inner : V) : PoolEntry :=
  mkStruct (fcons shares (fcons last (fcons inner fnil))).
Definition E_shares (e : PoolEntry) : Decimal := fhead (fields e).
Definition E_last_update (e : PoolEntry) : Map u8 Decimal := fhead (ftail (fields e)).
Definition E_inner (e : PoolEntry) : V := fhead (ftail (ftail (fields e))).
Definition Entry_default : RefCell PoolEntry := mkRefCell (mkEntry Decimal_default Map_new pv_default).
Definition in_shares {A} (f : M Decimal A) : M PoolEntry A := zoomM E_shares (fun x e => mkEntry x (E_last_update e) (E_inner e)) f.
Definition in_last_update {A} (f : M (Map u8 Decimal) A) : M PoolEntry A :=
  zoomM E_last_update (fun x e => mkEntry (E_shares e) x (E_inner e)) f.
Definition in_inner {A} (f : M V A) : M PoolEntry A := zoomM E_inner (fun x e => mkEntry (E_shares e) (E_last_update e) x) f.

Record Pool := mkPool {
  contributions : Decimal;
  rewards : Map u8 Decimal;
  shares_issued : Decimal;
  pool_map : Map K (RefCell PoolEntry);
  rewards_this_period : Map u8 Decimal;
  last_period_entry : Map u8 Decimal;
  drop_errored : bool
}.
Definition Pool_default : Pool := mkPool Decimal_default Map_new Decimal_default Map_new Map_new Map_new false.
Definition in_rewards {A} (f : M (Map u8 Decimal) A) : M Pool A := zoomM rewards (fun x p =>
  mkPool (contributions p) x (shares_issued p) (pool_map p) (rewards_this_period p) (last_period_entry p) (drop_errored p)) f.
Definition in_map {A} (f : M (Map K (RefCell PoolEntry)) A) : M Pool A := zoomM pool_map (fun x p =>
  mkPool (contributions p) (rewards p) (shares_issued p) x (rewards_this_period p) (last_period_entry p) (drop_errored p)) f.
Definition in_this_period {A} (f : M (Map u8 Decimal) A) : M Pool A := zoomM rewards_this_period (fun x p =>
  mkPool (contributions p) (rewards p) (shares_issued p) (pool_map p) x (last_period_entry p) (drop_errored p)) f.
Definition in_last_period {A} (f : M (Map u8 Decimal) A) : M Pool A := zoomM last_period_entry (fun x p =>
  mkPool (contributions p) (rewards p) (shares_issued p) (pool_map p) (rewards_this_period p) x (drop_errored p)) f.
Definition set_contributions (x : Decimal) : M Pool unit := fun p => (Ok tt,
  mkPool x (rewards p) (shares_issued p) (pool_map p) (rewards_this_period p) (last_period_entry p) (drop_errored p)).
Definition set_shares_issued (x : Decimal) : M Pool unit := fun p => (Ok tt,
  mkPool (contributions p) (rewards p) x (pool_map p) (rewards_this_period p) (last_period_entry p) (drop_errored p)).
Definition set_drop_errored : M Pool unit := fun p => (Ok tt,
  mkPool (contributions p) (rewards p) (shares_issued p) (pool_map p) (rewards_this_period p) (last_period_entry p) true).

Definition Pool_balance (self : Pool) : res Decimal := Ok (contributions self).

Definition assert_no_unhandled_drop_err (self : Pool) : res unit :=
  if drop_errored self then Err (ECoins "Unhandled pool child drop error") else Ok tt.

(** [map.iter()?], read to its end. *)
Definition iter_all b (m : Map u8 Decimal) : res (list (u8 * Decimal)) :=
  let? it := Map_iter m in
  MapIter_collect (S (length (Map_children m) + entry_bound b)) b m it.

Definition is_positive (d : Decimal) : bool := is_gt (Decimal_cmp_u64 d (to_uint 8 0)).

(** [adjust_entry]: the new period entries come in ascending order of denomination,
    as a [BTreeMap] yields them. *)
Fixpoint adjust_loop b (contributions shares_issued : Decimal) (new_period_entry : list (u8 * Decimal)) : M PoolEntry unit :=
  match new_period_entry with
  | [] => retM tt
  | (denom_index, new_denom_period_entry) :: rest =>
      do shares <- readM (fun e => Ok (E_shares e));
      do delta <- in_last_update (Map_or_default_update Decimal_default b denom_index (fun last_entry =>
        let? delta := math_try (Decimal_div_MD (Decimal_mul_MD (Decimal_mul_MD
          (Decimal_sub new_denom_period_entry last_entry) contributions) shares) shares_issued) in
        Ok (delta, new_denom_period_entry)));
      run (if is_gt (Decimal_cmp delta (Decimal_from_u64 (to_uint 8 0))) then
             do amount_to_give <- liftM (Decimal_amount delta);
             if 1 <=? amt amount_to_give then in_inner (pv_give b (denom_index, amount_to_give)) else retM tt
           else retM tt);
      adjust_loop b contributions shares_issued rest
  end.
Definition adjust_entry b (contributions shares_issued : Decimal) (new_period_entry : list (u8 * Decimal)) : M PoolEntry unit :=
  if is_positive shares_issued then adjust_loop b contributions shares_issued new_period_entry else retM tt.

(** [for reward_entry in self.rewards_this_period.iter()?] *)
Fixpoint add_rewards b (l : list (u8 * Decimal)) : M Pool unit :=
  match l with
  | [] => retM tt
  | (denom_index, reward_this_period) :: l =>
      run in_rewards (Map_or_default_assign Decimal_default b denom_index (fun reward => math_try (Decimal_add reward reward_this_period)));
      add_rewards b l
  end.

(** [map.entry(key)?.or_default()?], only read. *)
Definition read_or_default b (m : Map u8 Decimal) (key : u8) : res Decimal :=
  let? r := Map_get_or_default Decimal_default b m key in Ok (Ref_deref r).

(** The running sum of rewards per share, brought up to the end of the period. *)
Fixpoint close_period b (denoms : list u8) : M Pool (list (u8 * Decimal)) :=
  match denoms with
  | [] => retM []
  | denom_index :: denoms =>
      do p <- getM;
      do entry <- in_last_period (Map_or_default_update Decimal_default b denom_index (fun last_entry =>
        let? reward_this_period := read_or_default b (rewards_this_period p) denom_index in
        let? x := math_try (Decimal_add_MD (Decimal_div reward_this_period (shares_issued p)) last_entry) in
        Ok (x, x)));
      do rest <- close_period b denoms;
      retM ((denom_index, entry) :: rest)
  end.
Fixpoint clear_period b (denoms : list u8) : M Pool unit :=
  match denoms with
  | [] => retM tt
  | denom_index :: denoms =>
      run in_this_period (Map_or_default_assign Decimal_default b denom_index (fun _ => Ok (Decimal_from_u64 (to_uint 8 0))));
      clear_period b denoms
  end.

(** [struct ChildMut]: the key of the entry in memory and the balance it had. *)
Record PoolChildMut := mkPoolChildMut { cm_entry : bytes; initial_balance : Decimal }.

(** A computation on the entry behind the reference. *)
Definition on_entry {A} (key_bytes : bytes) (f : M PoolEntry A) : M Pool A :=
  in_map (ChildMut_call (ChildModified key_bytes) (in_cell f)).

Definition Pool_get_mut b (key : K) : M Pool PoolChildMut :=
  run readM assert_no_unhandled_drop_err;
  do entry <- in_map (do e <- Map_entry b key;
                      do child <- Entry_or_default (St := St) Entry_default e;
                      ChildMut_deref_mut child);
  do l <- readM (fun p => iter_all b (rewards_this_period p));
  let denoms := l.*1 in
  run add_rewards b l;
  do initial_balance <- on_entry entry (in_inner (pv_balance b));
  do p <- getM;
  do period_entries <- (if is_positive (shares_issued p) then close_period b denoms else retM []);
  run clear_period b denoms;
  run on_entry entry (adjust_entry b (contributions p) (shares_issued p) period_entries);
  retM (mkPoolChildMut entry initial_balance).

(** A method of the value, called through the reference. *)
Definition PoolChildMut_call {A} (c : PoolChildMut) (g : M V A) : M Pool A := on_entry (cm_entry c) (in_inner g).

(** [impl Drop]: every failure sets the flag and stops. *)
Definition or_drop_error {A} (r : res A) (k : A -> M Pool unit) : M Pool unit :=
  match r with
  | Ok a => k a
  | Err _ => set_drop_errored
  | Panic w => panicM w
  end.
Definition PoolChildMut_drop b (c : PoolChildMut) : M Pool unit := fun p =>
  let '(end_balance, p) := on_entry (cm_entry c) (in_inner (pv_balance b)) p in
  or_drop_error end_balance (fun end_balance =>
  or_drop_error (MathResult_result (Decimal_sub end_balance (initial_balance c))) (fun balance_change =>
  if nd_is_zero (Decimal_value balance_change) then retM tt
  else
    do p <- getM;
    or_drop_error (if nd_is_zero (Decimal_value (contributions p)) then Ok balance_change
                   else MathResult_result (Decimal_div_MD (Decimal_mul (shares_issued p) balance_change) (contributions p)))
      (fun new_shares =>
    do shares <- on_entry (cm_entry c) (readM (fun e => Ok (E_shares e)));
    or_drop_error (MathResult_result (Decimal_add shares new_shares)) (fun shares =>
    run on_entry (cm_entry c) (in_shares (putM shares));
    do p <- getM;
    or_drop_error (MathResult_result (Decimal_add (contributions p) balance_change)) (fun tokens =>
    run set_contributions tokens;
    do p <- getM;
    or_drop_error (MathResult_result (Decimal_add (shares_issued p) new_shares)) (fun issued =>
    set_shares_issued issued)))))) p.

(** [pool.get_mut(key)?.g()]: the reference is dropped also when [g] fails. *)
Definition Pool_get_mut_call {A} b (key : K) (g : M V A) : M Pool A :=
  do c <- Pool_get_mut b key;
  fun p =>
    let '(r, p) := PoolChildMut_call c g p in
    let '(d, p) := PoolChildMut_drop b c p in
    match d with Panic w => (Panic w, p) | _ => (r, p) end.

(** What the period entries would be, for [get]. *)
Fixpoint peek_period b (p : Pool) (denoms : list u8) : res (list (u8 * Decimal)) :=
  match denoms with
  | [] => Ok []
  | denom_index :: denoms =>
      let? last_entry := read_or_default b (last_period_entry p) denom_index in
      let? reward_this_period := read_or_default b (rewards_this_period p) denom_index in
      let? x := math_try (Decimal_add_MD (Decimal_div reward_this_period (shares_issued p)) last_entry) in
      let? rest := peek_period b p denoms in
      Ok ((denom_index, x) :: rest)
  end.

(** [get(key)?.g()]. [get] takes [&self], but the entry is adjusted in its [RefCell]: a
    value that is in memory changes there, and so does what [g] does to cells inside of
    it; one loaded from the store is a copy. *)
Definition Pool_get_call {A} b (key : K) (g : M V A) : M Pool A :=
  run readM assert_no_unhandled_drop_err;
  do l <- readM (fun p => iter_all b (rewards_this_period p));
  do p <- getM;
  do period_entries <- liftM (if is_positive (shares_issued p) then peek_period b p l.*1 else Ok []);
  do entry <- readM (fun p => Map_get_or_default Entry_default b (pool_map p) key);
  match entry with
  | RefBorrowed _ =>
      do key_bytes <- liftM (Encode_encode key);
      run on_entry key_bytes (adjust_entry b (contributions p) (shares_issued p) period_entries);
      on_entry key_bytes (in_inner g)
  | RefOwned e =>
      let '(r, e) := adjust_entry b (contributions p) (shares_issued p) period_entries (cell e) in
      run liftM r;
      liftM (g (E_inner e)).1
  end.
Definition Pool_get b (key : K) : M Pool V := Pool_get_call b key getM.

(** [range(bounds)?], read to its end: each entry is fetched again by its key. *)
Fixpoint get_each b (keys : list K) : M Pool (list (K * V)) :=
  match keys with
  | [] => retM []
  | key :: keys =>
      do child <- Pool_get b key;
      do rest <- get_each b keys;
      retM ((key, child) :: rest)
  end.

Definition Pool_range b (lo hi : Bound K) : M Pool (list (K * V)) :=
  do l <- readM (fun p =>
    let? it := Map_range (pool_map p) lo hi in
    MapIter_collect (S (length (Map_children (pool_map p)) + entry_bound b)) b (pool_map p) it);
  get_each b l.*1.
Definition Pool_iter b : M Pool (list (K * V)) := Pool_range b Unbounded Unbounded.

Definition Pool_give b (coin : u8 * Amount) : M Pool unit :=
  do p <- getM;
  if Decimal_eq_u64 (contributions p) (to_uint 8 0) then errM (ECoins "Cannot add directly to an empty pool")
  else in_this_period (Map_or_default_assign Decimal_default b coin.1 (fun reward => math_try (Decimal_add_Amount reward coin.2))).
Definition Pool_give_coin b (index : u8) (coin : Coin) : M Pool unit :=
  do p <- getM;
  if Decimal_eq_u64 (contributions p) (to_uint 8 0) then errM (ECoins "Cannot add directly to an empty pool")
  else in_this_period (Map_or_default_assign Decimal_default b index (fun reward => math_try (Decimal_add_Amount reward (Coin_amount coin)))).

(** The derived [State]: [drop_errored] is not stored, and the marker for the symbol is
    the last field. *)
Abbreviation PoolFields := (FCons Decimal (FCons (Map u8 Decimal) (FCons Decimal (FCons (Map K (RefCell PoolEntry))
  (FCons (Map u8 Decimal) (FCons (Map u8 Decimal) (FCons (Skip bool) (FCons PhantomData FNil)))))))).
#[export] Instance Pool_Derived : Derived Pool 0 PoolFields.
Proof.
  refine {| to_fields := fun p => fcons (contributions p) (fcons (rewards p) (fcons (shares_issued p) (fcons (pool_map p)
              (fcons (rewards_this_period p) (fcons (last_period_entry p) (fcons (mkSkip (drop_errored p)) (fcons mkPhantomData fnil)))))));
            of_fields := fun '(fcons c (fcons r (fcons s (fcons m (fcons t (fcons l (fcons (mkSkip d) _))))))) => mkPool c r s m t l d |}.
  - by intros [].
  - by intros [? [? [? [? [? [? [[?] [[] []]]]]]]]].
Defined.
#[export] Instance Pool_State : State St Pool := derived_State (D := Pool_Derived).
End Pool.
