(* ===== verification/PoolSpec.v ===== *)
(** * The totals of a pool

    What [get_mut], a call through its reference and its [Drop] do to the entries and to
    the totals [contributions] and [shares_issued], and what [get] does. *)

From stdpp Require Import base tactics numbers list strings gmap.
From Stdlib Require Import ZArith QArith Lia Lqa.
From S2P Require Import Prelude Bytes BTree StoreIface StoreIter NullStore BufStore PrefixStore Codec StateIface Next StructState SimpleState MapColl MapSpec MapProps MapIter MapCall Fields Coins Decimal DecimalInst Share Pool.
#[local] Open Scope Z_scope.

(** ** Inverting computations that succeed *)

Lemma zoomM_ok {S T A} get set (m : M T A) (s : S) r s' :
  zoomM get set m s = (r, s') -> exists t, m (get s) = (r, t) /\ s' = set t s.
Proof. unfold zoomM. destruct (m (get s)) as [r' t]. intros [= -> <-]. by exists t. Qed.

Section UpdateOk.
Context `{Profile} `{WS : WriteSpec St} `{!Bounded St} `{!BoundedSpec St}.
Context `{KS : KeySpec K} {V : Type} {SV : State St V} `{!StateSpec St V}.

(** A successful assignment through [or_default] keeps the map lawful. *)
Lemma Map_or_default_update_ok {A} s (b : St) (m m' : Map K V) f k dflt (g : V -> res (A * V)) a :
  Read_inv b -> Map_attached s m -> Map_abs b m f -> valid dflt ->
  (forall v, attached (Store_sub s (enc k)) v -> exists x, abs b v x) ->
  (forall v v' a, g v = Ok (a, v') -> attached (Store_sub s (enc k)) v') ->
  Map_or_default_update dflt b k g m = (Ok a, m') ->
  exists y, Map_attached s m' /\ Map_abs b m' (upd f k (Some y)).
Proof.
  intros Hb Hm Hf Hd Habs Hg Hu. unfold Map_or_default_update in Hu. apply bindM_ok in Hu as (e & m1 & He & Hu).
  apply bindM_ok in Hu as (c & m2 & Hc & Hu). apply bindM_ok in Hu as (v & m3 & Hv & Hu).
  unfold readM in Hv. injection Hv as Hv <-. apply bindM_ok in Hu as ([a' v'] & m4 & Hgv & Hu).
  unfold liftM in Hgv. injection Hgv as Hgv <-. apply bindM_ok in Hu as ([] & m5 & Hcall & Hr). injection Hr as _ <-.
  pose proof (Hg _ _ _ Hgv) as Hav. destruct (Habs _ Hav) as [y Hy]. exists y.
  assert (Hcase : m2 = m /\ ((c = ChildUnmodified (Some (k, v))) \/ c = ChildModified (enc k) /\ bt_get (enc k) (Map_children m) = Some (k, Some v))).
  { destruct (Map_entry_spec s b m f k Hb Hm Hf) as [(w & x & Hk & Ha & Hx & Hn & He')|[(o & Hch & Hvo & He')|(Hk & Hch & He')]];
      rewrite He' in He; injection He as <- <-.
    - injection Hc as <- <-. split; [done|]. left. simpl in Hv. by injection Hv as ->.
    - injection Hc as <- <-. split; [done|]. right. simpl in Hv. rewrite Hch in Hv. destruct o; [|done]. by injection Hv as ->.
    - cbn in Hc. unfold bindM, liftM in Hc. rewrite encode_enc in Hc. destruct (State_attach _ dflt) as [[?|?|?] w]; [|done..].
      injection Hc as <- <-. split; [done|]. left. simpl in Hv. by injection Hv as ->. }
  destruct Hcase as [-> Hcase]. pose proof Hm as (_ & Hw & _).
  destruct (insert_child_spec s b m f k (Some v') (Some y) Hm Hf (conj Hav Hy)) as [Hi1 Hi2].
  unfold ChildMut_call, bindM in Hcall. destruct Hcase as [->|[-> Hch]]; simpl in Hcall.
  - unfold bindM, liftM in Hcall. simpl in Hcall. rewrite MapKey_new_ok in Hcall. simpl in Hcall.
    rewrite bt_get_insert, decide_True in Hcall by done. injection Hcall as <-.
    unfold set_children in *. cbn [Map_children Map_store]. by rewrite bt_insert_twice.
  - rewrite Hch, Hch in Hcall. by injection Hcall as <-.
Qed.
End UpdateOk.

(** ** Entries *)

Class PoolValueSpec `{Profile} `{CompatMode} `{NDS : NumDecimalSpec} (St V : Type) `{WS : WriteSpec St} {SV : State St V} `{!StateSpec St V}
    {PV : PoolValue St V} := {
  pv_bal : model (V := V) -> Q;
  pv_default_valid : valid pv_default;
  pv_balance_spec s b v x d v' : Read_inv b -> attached s v -> abs b v x -> pv_balance b v = (Ok d, v') ->
    attached s v' /\ exists x', abs b v' x' /\ (dval d == pv_bal x)%Q /\ (pv_bal x' == pv_bal x)%Q;
  pv_give_spec s b coin v v' x : Read_inv b -> attached s v -> abs b v x -> pv_give b coin v = (Ok tt, v') ->
    attached s v' /\ exists x', abs b v' x'
}.

Section PoolSpec.
Context `{Profile} `{CompatMode} `{NDS : NumDecimalSpec} `{WS : WriteSpec St} `{!Bounded St} `{!BoundedSpec St}.
Context `{KS : KeySpec K} {V : Type} {SV : State St V} `{!StateSpec St V} {PV : PoolValue St V} `{!PoolValueSpec St V}.
Implicit Types (s : Store) (b : St).
Abbreviation PoolEntry := (Struct 0 (FCons Decimal (FCons (Map u8 Decimal) (FCons V FNil)))).
Abbreviation EntryFields := (FCons Decimal (FCons (Map u8 Decimal) (FCons V FNil))).

#[export] Instance Entry_FieldsOk : FieldsOk St EntryFields.
Proof. split; [|done]. simpl. tauto. Qed.
Abbreviation emodel := (model (V := RefCell PoolEntry)).
Definition mk_emodel (shares : Decimal) (last : u8 -> option Decimal) (inner : model (V := V)) : emodel := (shares, (last, (inner, tt))).
Definition em_shares (x : emodel) : Decimal := x.1.
Definition em_inner (x : emodel) : model (V := V) := x.2.2.1.

Lemma entry_attached s (e : PoolEntry) :
  attached s (mkRefCell e) <-> Map_attached (Store_sub s [1]) (E_last_update e) /\ attached (Store_sub s [2]) (E_inner e).
Proof. unfold E_last_update, E_inner. simpl. tauto. Qed.
Lemma entry_abs b (e : PoolEntry) (x : emodel) :
  abs b (mkRefCell e) x <-> E_shares e = em_shares x /\ Map_abs b (E_last_update e) x.2.1 /\ abs b (E_inner e) (em_inner x).
Proof. unfold E_last_update, E_inner, E_shares. simpl. tauto. Qed.

(** The representation of one entry: the value behind a handle and its content. *)
Definition entry_rep s b (e : PoolEntry) (x : emodel) : Prop := attached s (mkRefCell e) /\ abs b (mkRefCell e) x.

Lemma entry_rep_intro s b shares last inner lc (x : model (V := V)) :
  Map_attached (Store_sub s [1]) last -> Map_abs b last lc -> attached (Store_sub s [2]) inner -> abs b inner x ->
  entry_rep s b (mkEntry shares last inner) (mk_emodel shares lc x).
Proof. intros. split; [by apply entry_attached|by apply entry_abs]. Qed.
Lemma entry_rep_elim s b e (x : emodel) :
  entry_rep s b e x -> e = mkEntry (E_shares e) (E_last_update e) (E_inner e) /\ E_shares e = em_shares x /\
    Map_attached (Store_sub s [1]) (E_last_update e) /\ Map_abs b (E_last_update e) x.2.1 /\
    attached (Store_sub s [2]) (E_inner e) /\ abs b (E_inner e) (em_inner x).
Proof.
  intros [[Hm Hi]%entry_attached (Hs & Hl & Hx)%entry_abs]. split_and!; [|done..].
  destruct e as [[? [? [? []]]]]. done.
Qed.

(** A successful adjustment keeps the entry lawful and its shares the same. *)
Lemma adjust_loop_ok s b c si l : Read_inv b -> forall e e' x,
  entry_rep s b e x -> adjust_loop b c si l e = (Ok tt, e') -> exists x', entry_rep s b e' x' /\ em_shares x' = em_shares x.
Proof.
  intros Hb. induction l as [|[d n] l IH]; intros e e' x He Hl; cbn [adjust_loop] in Hl.
  - injection Hl as <-. by exists x.
  - apply bindM_ok in Hl as (sh & e1 & Hsh & Hl). unfold readM in Hsh. injection Hsh as <- <-.
    apply bindM_ok in Hl as (delta & e2 & Hd & Hl). unfold in_last_update in Hd. apply zoomM_ok in Hd as (m & Hd & ->).
    apply entry_rep_elim in He as (He & Hs & Hm & Hma & Hi & Hx).
    edestruct (Map_or_default_update_ok (A := Decimal) (StateSpec0 := Decimal_StateSpec) (Store_sub s [1]) b (E_last_update e) m x.2.1 d Decimal_default)
      as (y & Hm' & Hma'); [exact Hb|exact Hm|exact Hma|done| | |exact Hd|]; [by eexists|done|].
    apply bindM_ok in Hl as ([] & e3 & Hg & Hl).
    assert (Hrep : exists x3, entry_rep s b e3 x3 /\ em_shares x3 = em_shares x).
    { pose proof (entry_rep_intro s b (E_shares e) m (E_inner e) _ _ Hm' Hma' Hi Hx) as Hr2.
      assert (Hsame : e3 = mkEntry (E_shares e) m (E_inner e) -> exists x3, entry_rep s b e3 x3 /\ em_shares x3 = em_shares x).
      { intros ->. eexists. split; [exact Hr2|]. done. }
      destruct (is_gt _); [|apply Hsame; by injection Hg].
      apply bindM_ok in Hg as (a & e4 & Ha & Hg). unfold liftM in Ha. injection Ha as _ <-.
      destruct (1 <=? amt a); [|apply Hsame; by injection Hg].
      unfold in_inner in Hg. apply zoomM_ok in Hg as (v & Hg & ->). cbn [mkEntry E_inner E_shares E_last_update fields fhead ftail] in Hg |- *.
      destruct (pv_give_spec (Store_sub s [2]) b (d, a) (E_inner e) v _ Hb Hi Hx Hg) as (Hv & x' & Hx').
      eexists. split; [apply (entry_rep_intro s b (E_shares e) m v _ x' Hm' Hma' Hv Hx')|]. done. }
    destruct Hrep as (x3 & Hr3 & Hs3). destruct (IH _ _ _ Hr3 Hl) as (x' & Hr' & Hs'). exists x'. split; [done|congruence].
Qed.
Lemma adjust_entry_ok s b c si l e e' x : Read_inv b -> entry_rep s b e x ->
  adjust_entry b c si l e = (Ok tt, e') -> exists x', entry_rep s b e' x' /\ em_shares x' = em_shares x.
Proof.
  unfold adjust_entry. intros Hb He. destruct (is_positive si); [by apply adjust_loop_ok|].
  intros [= <-]. by exists x.
Qed.

(** ** The pool *)

Abbreviation PoolKV := (Pool (K := K) (V := V)).
Abbreviation content := (K -> option emodel).
Implicit Types (p : PoolKV) (f : content) (k : K).

Definition pool_rep s b p f : Prop := Map_attached s (pool_map p) /\ Map_abs b (pool_map p) f.
Definition same_totals p p' : Prop :=
  contributions p' = contributions p /\ shares_issued p' = shares_issued p /\ drop_errored p' = drop_errored p.
Definition entry_at p k (e : PoolEntry) : Prop := bt_get (enc k) (Map_children (pool_map p)) = Some (k, Some (mkRefCell e)).

Lemma same_totals_refl p : same_totals p p.
Proof. done. Qed.
Lemma same_totals_trans p p1 p2 : same_totals p p1 -> same_totals p1 p2 -> same_totals p p2.
Proof. intros (?&?&?) (?&?&?). split_and!; congruence. Qed.

(** A computation on the entry in memory changes that entry only. *)
Lemma on_entry_spec {A} s b p f k e (h : M PoolEntry A) r e' x :
  pool_rep s b p f -> entry_at p k e -> h e = (r, e') -> entry_rep (Store_sub s (enc k)) b e' x ->
  exists p', on_entry (enc k) h p = (r, p') /\ pool_rep s b p' (upd f k (Some x)) /\ entry_at p' k e' /\ same_totals p p'.
Proof.
  intros [Hm Hf] He Hh [Ha Hx]. unfold on_entry, in_map, zoomM, ChildMut_call, bindM, entry_at in *. simpl. rewrite He. simpl.
  rewrite He. unfold in_cell, zoomM. simpl. rewrite Hh. eexists. split; [done|]. split; [|split; [|done]].
  - exact (insert_child_spec s b (pool_map p) f k (Some (mkRefCell e')) (Some x) Hm Hf (conj Ha Hx)).
  - simpl. by rewrite bt_get_insert, decide_True.
Qed.

Lemma on_entry_result {A} p k e (h : M PoolEntry A) : entry_at p k e -> (on_entry (enc k) h p).1 = (h e).1.
Proof.
  intros He. unfold on_entry, in_map, zoomM, ChildMut_call, bindM, entry_at in *. simpl. rewrite He. simpl. rewrite He.
  unfold in_cell, zoomM. simpl. by destruct (h e).
Qed.
(** Asking the entry for its balance. *)
Lemma on_entry_balance s b p f k e x d p' :
  Read_inv b -> pool_rep s b p f -> entry_at p k e -> entry_rep (Store_sub s (enc k)) b e x ->
  on_entry (enc k) (in_inner (pv_balance b)) p = (Ok d, p') ->
  exists e' x', pool_rep s b p' (upd f k (Some x')) /\ entry_at p' k e' /\ entry_rep (Store_sub s (enc k)) b e' x' /\ same_totals p p' /\
    em_shares x' = em_shares x /\ (dval d == pv_bal (em_inner x))%Q /\ (pv_bal (em_inner x') == pv_bal (em_inner x))%Q.
Proof.
  intros Hb Hp He Hrep Hq. pose proof (entry_rep_elim _ _ _ _ Hrep) as (Hee & Hes & Hlm & Hla & Hi & Hix).
  pose proof (on_entry_result p k e (in_inner (pv_balance b)) He) as Hres. rewrite Hq in Hres. cbn [fst] in Hres.
  destruct (in_inner (pv_balance b) e) as [r e'] eqn:Eb. cbn [fst] in Hres. subst r.
  pose proof Eb as Eb'. unfold in_inner in Eb'. apply zoomM_ok in Eb' as (v' & Hv & ->).
  destruct (pv_balance_spec _ b _ _ _ _ Hb Hi Hix Hv) as (Hi' & xi & Hxi & Hd & Hbal).
  pose proof (entry_rep_intro _ b (E_shares e) _ _ _ _ Hlm Hla Hi' Hxi) as Hrep'.
  destruct (on_entry_spec s b p f k e _ _ _ _ Hp He Eb Hrep') as (p1 & Hp1 & Hr1 & He1 & Ht1).
  rewrite Hp1 in Hq. injection Hq as <-. eexists _, _. split; [exact Hr1|]. split; [exact He1|]. split; [exact Hrep'|]. split; [exact Ht1|]. by split_and!.
Qed.

(** The phases of [get_mut] before the entry is adjusted touch the reward maps only. *)
Definition same_entries p p' : Prop := pool_map p' = pool_map p /\ same_totals p p'.
Lemma same_entries_trans p p1 p2 : same_entries p p1 -> same_entries p1 p2 -> same_entries p p2.
Proof. intros [? Ht1] [? Ht2]. split; [congruence|by eapply same_totals_trans]. Qed.
Lemma add_rewards_ok b l : forall p p', add_rewards b l p = (Ok tt, p') -> same_entries p p'.
Proof.
  induction l as [|[d n] l IH]; intros p p' Hl; cbn [add_rewards] in Hl; [by injection Hl as <-|].
  apply bindM_ok in Hl as ([] & p1 & Hq & Hl). unfold in_rewards in Hq. apply zoomM_ok in Hq as (m & _ & ->).
  eapply same_entries_trans, IH, Hl. done.
Qed.
Lemma close_period_ok b l : forall p p' out, close_period b l p = (Ok out, p') -> same_entries p p'.
Proof.
  induction l as [|d l IH]; intros p p' out Hl; cbn [close_period] in Hl; [by injection Hl as _ <-|].
  apply bindM_ok in Hl as (q & p1 & Hq & Hl). injection Hq as <- <-.
  apply bindM_ok in Hl as (x & p1 & Hq & Hl). unfold in_last_period in Hq. apply zoomM_ok in Hq as (m & _ & ->).
  apply bindM_ok in Hl as (rest & p2 & Hq2 & Hl). injection Hl as _ <-. eapply same_entries_trans, IH, Hq2. done.
Qed.
Lemma clear_period_ok b l : forall p p', clear_period b l p = (Ok tt, p') -> same_entries p p'.
Proof.
  induction l as [|d l IH]; intros p p' Hl; cbn [clear_period] in Hl; [by injection Hl as <-|].
  apply bindM_ok in Hl as ([] & p1 & Hq & Hl). unfold in_this_period in Hq. apply zoomM_ok in Hq as (m & _ & ->).
  eapply same_entries_trans, IH, Hl. done.
Qed.

(** An entry made at [k] starts with no shares and no balance. *)
Definition fresh s b k : Prop := forall c, State_attach (Store_sub s (enc k)) (Entry_default (V := V)) = (Ok tt, c) ->
  exists x : emodel, abs b c x /\ (dval (em_shares x) == 0)%Q /\ (pv_bal (em_inner x) == 0)%Q.

Definition balance_of f k : Q := match f k with Some x => pv_bal (em_inner x) | None => 0 end.
Definition shares_of f k : Q := match f k with Some x => dval (em_shares x) | None => 0 end.

Lemma Entry_default_valid : valid (Entry_default (V := V)).
Proof. split; [done|]. split; [by split; constructor|]. split; [apply pv_default_valid|done]. Qed.

(** [self.map.entry(key)?.or_default()?] followed by [get_mut]: the entry is in memory. *)
Lemma open_entry_ok s b p f k kb m :
  Read_inv b -> pool_rep s b p f -> fresh s b k ->
  (do e <- Map_entry b k; do child <- Entry_or_default (St := St) Entry_default e; ChildMut_deref_mut child) (pool_map p) = (Ok kb, m) ->
  kb = enc k /\ exists e x, bt_get (enc k) (Map_children m) = Some (k, Some (mkRefCell e)) /\
    entry_rep (Store_sub s (enc k)) b e x /\ Map_attached s m /\ Map_abs b m (upd f k (Some x)) /\
    (dval (em_shares x) == shares_of f k)%Q /\ (pv_bal (em_inner x) == balance_of f k)%Q.
Proof.
  intros Hb [Hm Hf] Hfr Hq.
  unfold shares_of, balance_of. apply bindM_ok in Hq as (en & m1 & He & Hq). apply bindM_ok in Hq as (ch & m2 & Hc & Hq).
  destruct (Map_entry_spec s b (pool_map p) f k Hb Hm Hf) as [(w & x & Hk & Ha & Hx & Hn & He')|[(o & Hch & Hvo & He')|(Hk & Hch & He')]];
    rewrite He' in He; injection He as <- <-.
  - injection Hc as <- <-. simpl in Hq. unfold bindM, liftM in Hq. simpl in Hq. rewrite MapKey_new_ok in Hq. injection Hq as <- <-.
    split; [done|]. destruct w as [e]. exists e, x. rewrite Hk. split; [simpl; by rewrite bt_get_insert, decide_True|]. split; [done|].
    destruct (insert_child_spec s b (pool_map p) f k (Some (mkRefCell e)) (Some x) Hm Hf (conj Ha Hx)). by split_and!.
  - injection Hc as <- <-. simpl in Hq. rewrite Hch in Hq. destruct o as [[e]|]; [|done]. injection Hq as <- <-. split; [done|].
    destruct (f k) as [x|] eqn:Ek; [|done]. destruct Hvo as [Ha Hx]. exists e, x.
    split; [done|]. split; [done|]. split; [done|]. split; [|done]. eapply Map_abs_ext, Hf. intros j. unfold upd. case_decide as Hj; [|done]. by apply enc_inj in Hj as ->.
  - unfold Entry_or_default, Entry_or_create, bindM, liftM in Hc. rewrite encode_enc, (proj1 Hm) in Hc.
    destruct (attach_spec (Store_sub s (enc k)) _ Entry_default_valid) as ([e] & Hat & Ha). rewrite Hat in Hc. injection Hc as <- <-.
    destruct (Hfr _ Hat) as (x & Hx & Hs0 & Hb0).
    simpl in Hq. unfold bindM, liftM in Hq. simpl in Hq. rewrite MapKey_new_ok in Hq. injection Hq as <- <-. split; [done|].
    exists e, x. rewrite Hk. split; [simpl; by rewrite bt_get_insert, decide_True|]. split; [done|].
    destruct (insert_child_spec s b (pool_map p) f k (Some (mkRefCell e)) (Some x) Hm Hf (conj Ha Hx)). by split_and!.
Qed.

Lemma get_mut_ok s b p f k c p1 :
  Read_inv b -> pool_rep s b p f -> fresh s b k -> Pool_get_mut b k p = (Ok c, p1) ->
  exists e x, cm_entry c = enc k /\ same_totals p p1 /\ pool_rep s b p1 (upd f k (Some x)) /\ entry_at p1 k e /\
    entry_rep (Store_sub s (enc k)) b e x /\ (dval (em_shares x) == shares_of f k)%Q /\ (dval (initial_balance c) == balance_of f k)%Q.
Proof.
  intros Hb [Hm Hf] Hfr Hg. unfold Pool_get_mut in Hg. apply bindM_ok in Hg as ([] & q & Hq & Hg). unfold readM in Hq. injection Hq as _ <-.
  apply bindM_ok in Hg as (kb & q & Hq & Hg). unfold in_map in Hq. apply zoomM_ok in Hq as (m & Hq & ->).
  destruct (open_entry_ok s b p f k kb m Hb (conj Hm Hf) Hfr Hq) as (-> & e & x & Hat & Hrep & Hm1 & Hf1 & Hsh & Hbal).
  apply bindM_ok in Hg as (l & q & Hq2 & Hg). unfold readM in Hq2. injection Hq2 as _ <-.
  apply bindM_ok in Hg as ([] & q1 & Hq1 & Hg). apply add_rewards_ok in Hq1 as [Hqm1 Hqt1]. cbn [pool_map] in Hqm1.
  assert (Hr1 : pool_rep s b q1 (upd f k (Some x))) by (unfold pool_rep; by rewrite Hqm1).
  assert (Ha1 : entry_at q1 k e) by (unfold entry_at; by rewrite Hqm1).
  apply bindM_ok in Hg as (ib & q2 & Hq2 & Hg).
  destruct (on_entry_balance s b q1 _ k e x ib q2 Hb Hr1 Ha1 Hrep Hq2) as (e2 & x2 & Hr2 & Ha2 & Hrep2 & Ht2 & Hes2 & Hdv & Hbv).
  apply bindM_ok in Hg as (q & q3 & Hq3 & Hg). injection Hq3 as <- <-.
  apply bindM_ok in Hg as (pe & q4 & Hq4 & Hg).
  assert (Hs4 : same_entries q2 q4).
  { destruct (is_positive _); [by eapply close_period_ok|]. by injection Hq4 as _ <-. }
  apply bindM_ok in Hg as ([] & q5 & Hq5 & Hg). apply clear_period_ok in Hq5.
  destruct (same_entries_trans _ _ _ Hs4 Hq5) as [Hqm5 Hqt5].
  assert (Hr5 : pool_rep s b q5 (upd (upd f k (Some x)) k (Some x2))) by (unfold pool_rep; by rewrite Hqm5).
  assert (Ha5 : entry_at q5 k e2) by (unfold entry_at; by rewrite Hqm5).
  apply bindM_ok in Hg as ([] & q6 & Hq6 & Hg). injection Hg as <- <-.
  destruct (adjust_entry b (contributions q2) (shares_issued q2) pe e2) as [r e'] eqn:Hadj.
  pose proof (on_entry_result q5 k e2 (adjust_entry b (contributions q2) (shares_issued q2) pe) Ha5) as Hr.
  rewrite Hq6, Hadj in Hr. cbn [fst] in Hr. subst r.
  destruct (adjust_entry_ok _ b _ _ _ e2 e' x2 Hb Hrep2 Hadj) as (x' & Hrep' & Hsx).
  destruct (on_entry_spec s b q5 _ k e2 _ (Ok tt) e' x' Hr5 Ha5 Hadj Hrep')
    as (q6' & Hq6' & Hr6 & Ha6 & Ht6). rewrite Hq6' in Hq6. injection Hq6 as <-.
  exists e', x'. split; [done|]. split; [|split; [|split_and!; [done|done| |by rewrite Hdv]]].
  - eapply same_totals_trans; [|exact Ht6]. eapply same_totals_trans; [|exact Hqt5]. eapply same_totals_trans; [|exact Ht2]. exact Hqt1.
  - destruct Hr6 as [? Hf6]. split; [done|]. eapply Map_abs_ext, Hf6. intros j. unfold upd. by case_decide.
  - by rewrite Hsx, Hes2.
Qed.

Lemma or_drop_error_ok {A} (r : res A) (h : A -> M PoolKV unit) p p' :
  or_drop_error r h p = (Ok tt, p') -> drop_errored p' = false -> exists a, r = Ok a /\ h a p = (Ok tt, p').
Proof.
  unfold or_drop_error. destruct r as [a|?|?]; intros Hr Hd; [by exists a| |done].
  unfold set_drop_errored in Hr. injection Hr as <-. done.
Qed.
Lemma MathResult_result_ok {A} (r : MathResult A) a : MathResult_result r = Ok a -> r = MOk a.
Proof. destruct r; [by intros [= ->]|done]. Qed.

(** The shares the pool issues for a change of the balance behind a reference: as many as
    the change while the pool is empty, and in proportion to the shares issued after. *)
Definition new_shares p (change : Decimal) : res Decimal :=
  if nd_is_zero (Decimal_value (contributions p)) then Ok change
  else MathResult_result (Decimal_div_MD (Decimal_mul (shares_issued p) change) (contributions p)).

(** A reference dropped after the balance changed by [change]: the shares of its entry
    went from [sh] to [sh'], the totals from those of [p] to those of [p']. One number of
    shares is added to both. *)
Definition settled p p' (change sh sh' : Decimal) : Prop :=
  if nd_is_zero (Decimal_value change) then
    sh' = sh /\ contributions p' = contributions p /\ shares_issued p' = shares_issued p
  else exists ns, new_shares p change = Ok ns /\ Decimal_add sh ns = MOk sh' /\
    Decimal_add (contributions p) change = MOk (contributions p') /\ Decimal_add (shares_issued p) ns = MOk (shares_issued p').

Lemma settled_totals p0 p p' change sh sh' :
  contributions p = contributions p0 -> shares_issued p = shares_issued p0 -> settled p p' change sh sh' -> settled p0 p' change sh sh'.
Proof. unfold settled, new_shares. by intros -> ->. Qed.

(** Exactly the shares that [minted] says, where nothing has to be rounded. *)
Definition minted p (change : Q) : Q :=
  if Qeq_bool (dval (contributions p)) 0 then change else (dval (shares_issued p) * change / dval (contributions p))%Q.

Lemma new_shares_exact p ch ns (change : Q) :
  new_shares p ch = Ok ns -> (dval ch == change)%Q -> representable (dval (shares_issued p) * change) -> representable (minted p change) ->
  (dval ns == minted p change)%Q.
Proof.
  unfold new_shares, minted. intros Hn Hc Hr1 Hr2. destruct (nd_is_zero (Decimal_value (contributions p))) eqn:Hz.
  - injection Hn as <-. apply nd_is_zero_spec in Hz. fold (dval (contributions p)) in Hz. by rewrite (proj2 (Qeq_bool_iff _ _) Hz).
  - assert (Hnz : ~ (dval (contributions p) == 0)%Q) by (intros Hq; apply nd_is_zero_spec in Hq; congruence).
    destruct (Qeq_bool (dval (contributions p)) 0) eqn:Hb; [by apply Qeq_bool_iff in Hb|].
    apply MathResult_result_ok in Hn. unfold Decimal_div_MD, Decimal_mul in Hn.
    destruct (nd_mul_spec (Decimal_value (shares_issued p)) (Decimal_value ch)) as (x & Hx & Hxv).
    { eapply representable_eq, Hr1. unfold dval in *. by rewrite Hc. }
    rewrite Hx in Hn. cbn in Hn. unfold Decimal_div in Hn. cbn [Decimal_value] in Hn.
    assert (Hq : (nd_val x / dval (contributions p) == dval (shares_issued p) * change / dval (contributions p))%Q).
    { rewrite Hxv. unfold dval in *. by rewrite Hc. }
    destruct (nd_div_spec x (Decimal_value (contributions p)) Hnz) as (y & Hy & Hyv).
    { eapply representable_eq, Hr2. by rewrite <- Hq. }
    rewrite Hy in Hn. injection Hn as <-. unfold dval at 1. cbn [Decimal_value]. by rewrite Hyv, <- Hq.
Qed.

Lemma minted_zero p (change : Q) : (change == 0)%Q -> (minted p change == 0)%Q.
Proof. intros Hc. unfold minted. destruct (Qeq_bool _ _); [done|]. rewrite Hc. unfold Qdiv. ring. Qed.

(** What a settled reference did to the shares, exactly. *)
Lemma settled_shares p p' ch sh sh' (change : Q) :
  settled p p' ch sh sh' -> (dval ch == change)%Q ->
  representable (dval (shares_issued p) * change) -> representable (minted p change) ->
  representable (dval sh + minted p change) -> representable (dval (shares_issued p) + minted p change) ->
  (dval sh' == dval sh + minted p change)%Q /\ (dval (shares_issued p') == dval (shares_issued p) + minted p change)%Q.
Proof.
  unfold settled. intros Hs Hc Hr1 Hr2 Hr3 Hr4. destruct (nd_is_zero (Decimal_value ch)) eqn:Hz.
  - destruct Hs as (-> & _ & ->). apply nd_is_zero_spec in Hz. fold (dval ch) in Hz.
    rewrite (minted_zero p change) by (by rewrite <- Hc). split; ring.
  - destruct Hs as (ns & Hn & Hsh & _ & Hsi). pose proof (new_shares_exact p ch ns change Hn Hc Hr1 Hr2) as Hv.
    rewrite (Decimal_add_exact _ _ _ Hsh), (Decimal_add_exact _ _ _ Hsi), Hv; [done|eapply representable_eq, Hr4|eapply representable_eq, Hr3]; by rewrite Hv.
Qed.
Lemma settled_contributions p p' ch sh sh' (change : Q) :
  settled p p' ch sh sh' -> (dval ch == change)%Q -> representable (dval (contributions p) + change) ->
  (dval (contributions p') == dval (contributions p) + change)%Q.
Proof.
  unfold settled. intros Hs Hc Hr. destruct (nd_is_zero (Decimal_value ch)) eqn:Hz.
  - destruct Hs as (_ & -> & _). apply nd_is_zero_spec in Hz. fold (dval ch) in Hz. rewrite <- Hc, Hz. ring.
  - destruct Hs as (ns & _ & _ & Hct & _). rewrite (Decimal_add_exact _ _ _ Hct); [by rewrite Hc|].
    eapply representable_eq, Hr. by rewrite Hc.
Qed.

(** What [Drop] does to the entry and the totals when nothing fails. *)
Lemma drop_ok s b p f k e x c p' :
  Read_inv b -> pool_rep s b p f -> entry_at p k e -> entry_rep (Store_sub s (enc k)) b e x -> cm_entry c = enc k ->
  PoolChildMut_drop b c p = (Ok tt, p') -> drop_errored p' = false ->
  exists x' (ed ch : Decimal), pool_rep s b p' (upd f k (Some x')) /\ (pv_bal (em_inner x') == pv_bal (em_inner x))%Q /\
    (dval ed == pv_bal (em_inner x))%Q /\ Decimal_sub ed (initial_balance c) = MOk ch /\
    settled p p' ch (em_shares x) (em_shares x').
Proof.
  intros Hb Hp He0 Hrep0 Hck Hd Hno. unfold PoolChildMut_drop in Hd. rewrite Hck in Hd. rename e into e0, x into x0.
  destruct (on_entry (enc k) (in_inner (pv_balance b)) p) as [eb p1] eqn:Hq.
  apply or_drop_error_ok in Hd as (d & -> & Hd); [|done].
  destruct (on_entry_balance s b p f k e0 x0 d p1 Hb Hp He0 Hrep0 Hq) as (e & x & Hr1 & He1 & Hrep & Ht1 & Hes0 & Hdv & Hbv).
  pose proof (entry_rep_elim _ _ _ _ Hrep) as (Hee & Hes & Hlm & Hla & Hi & Hix).
  rewrite <- Hes0. clear Hq.
  apply or_drop_error_ok in Hd as (ch & Hch%MathResult_result_ok & Hd); [|done].
  destruct Ht1 as (Hc1 & Hs1 & Hde1). destruct (nd_is_zero (Decimal_value ch)) eqn:Hz.
  { injection Hd as <-. exists x, d, ch. split_and!; [done..|]. unfold settled. by rewrite Hz. }
  apply bindM_ok in Hd as (q & p2 & Hq & Hd). injection Hq as <- <-.
  apply or_drop_error_ok in Hd as (ns & Hns & Hd); [|done].
  apply bindM_ok in Hd as (sh & p2 & Hq & Hd).
  destruct (on_entry_spec s b p1 _ k e (readM (fun e => Ok (E_shares e))) (Ok (E_shares e)) e x Hr1 He1 eq_refl Hrep)
    as (p2' & Hp2 & Hr2 & He2 & Ht2). rewrite Hp2 in Hq. injection Hq as <- <-.
  apply or_drop_error_ok in Hd as (sh' & Hsh%MathResult_result_ok & Hd); [|done].
  apply bindM_ok in Hd as ([] & p3 & Hq & Hd).
  set (x' := mk_emodel sh' x.2.1 (em_inner x)).
  destruct (on_entry_spec s b p2' _ k e (in_shares (putM sh')) (Ok tt) (mkEntry sh' (E_last_update e) (E_inner e)) x' Hr2 He2 eq_refl)
    as (p3' & Hp3 & Hr3 & He3 & Ht3).
  { by apply entry_rep_intro. }
  rewrite Hp3 in Hq. injection Hq as <-.
  apply bindM_ok in Hd as (q & p4 & Hq & Hd). injection Hq as <- <-.
  apply or_drop_error_ok in Hd as (tk & Htk%MathResult_result_ok & Hd); [|done].
  apply bindM_ok in Hd as ([] & p4 & Hq & Hd). unfold set_contributions in Hq. injection Hq as <-.
  apply bindM_ok in Hd as (q & p4 & Hq & Hd). injection Hq as <- <-.
  apply or_drop_error_ok in Hd as (si & Hsi%MathResult_result_ok & Hd); [|done]. unfold set_shares_issued in Hd. injection Hd as <-.
  cbn [contributions shares_issued pool_map drop_errored rewards rewards_this_period last_period_entry] in *.
  destruct Ht2 as (Hc2 & Hs2 & _). destruct Ht3 as (Hc3 & Hs3 & _). rewrite Hc3, Hc2, Hc1 in Htk. rewrite Hs3, Hs2, Hs1 in Hsi.
  exists x', d, ch. split_and!; [split; [exact (proj1 Hr3)|]|done|by rewrite Hdv|done|].
  - eapply Map_abs_ext, (proj2 Hr3). intros j. unfold upd. by repeat case_decide.
  - unfold settled. rewrite Hz. exists ns. rewrite <- Hes. split_and!; [|done..].
    unfold new_shares. by rewrite <- Hc1, <- Hs1.
Qed.

(** *** A call through [get_mut] *)

(** The method keeps the value lawful, whether or not it succeeds. *)
Definition lawful_call {A} b (g : M V A) : Prop := forall s v x, attached s v -> abs b v x ->
  attached s (g v).2 /\ exists x', abs b (g v).2 x'.

Definition sum_over (q : K -> Q) (ks : list K) : Q := foldr (fun k acc => (q k + acc)%Q) 0%Q ks.
Lemma sum_over_change (q q' : K -> Q) k ks :
  NoDup ks -> k ∈ ks -> (forall j, j <> k -> (q' j == q j)%Q) -> (sum_over q' ks == sum_over q ks + (q' k - q k))%Q.
Proof.
  intros Hnd Hk Hq. assert (Hout : forall l, k ∉ l -> (sum_over q' l == sum_over q l)%Q).
  { induction l as [|j l IH]; [done|]. intros [Hj Hl]%not_elem_of_cons. simpl. rewrite (Hq j), IH by congruence. ring. }
  induction Hnd as [|j ks Hj Hnd IH]; [by apply elem_of_nil in Hk|]. simpl. apply elem_of_cons in Hk as [->|Hk].
  - rewrite Hout by done. ring.
  - rewrite IH, (Hq j) by (done || congruence). ring.
Qed.

(** C20: Accessing an entry through [get_mut], calling a method of it and dropping the
    reference changes no other entry, and unless a drop error is recorded keeps the
    totals in step. The change that is settled is the difference, computed on decimals,
    of the balance the entry has now and the one it had before, rewards included; the
    shares the code computes from it, the change itself in an empty pool and in
    proportion to the shares issued otherwise, are added to the shares of the entry and,
    the same decimal, to [shares_issued]. Where nothing has to be rounded, the
    [contributions] grow by exactly what the balances of all entries grew, and
    [shares_issued] by what all shares grew, which is change * shares / contributions. *)
Theorem Pool_get_mut_keeps_totals {A} s b p f k (g : M V A) c p1 r p2 p' (ks : list K) :
  Read_inv b -> pool_rep s b p f -> fresh s b k -> lawful_call b g -> NoDup ks -> k ∈ ks ->
  Pool_get_mut b k p = (Ok c, p1) -> PoolChildMut_call c g p1 = (r, p2) ->
  PoolChildMut_drop b c p2 = (Ok tt, p') -> drop_errored p' = false ->
  exists f', pool_rep s b p' f' /\ (forall j, j <> k -> f' j = f j) /\
    (exists before after ch sh sh' : Decimal,
      (dval before == balance_of f k)%Q /\ (dval after == balance_of f' k)%Q /\ Decimal_sub after before = MOk ch /\
      (dval sh == shares_of f k)%Q /\ (dval sh' == shares_of f' k)%Q /\ settled p p' ch sh sh') /\
    let change := (sum_over (balance_of f') ks - sum_over (balance_of f) ks)%Q in
    representable change ->
    (representable (dval (contributions p) + change) -> (dval (contributions p') == dval (contributions p) + change)%Q) /\
    (representable (dval (shares_issued p) * change) -> representable (minted p change) ->
     representable (shares_of f k + minted p change) -> representable (dval (shares_issued p) + minted p change) ->
     (dval (shares_issued p') == dval (shares_issued p) + minted p change)%Q /\
     (sum_over (shares_of f') ks - sum_over (shares_of f) ks == minted p change)%Q).
Proof.
  intros Hb Hp Hfr Hg Hnd Hk Hget Hcall Hdrop Hno.
  destruct (get_mut_ok s b p f k c p1 Hb Hp Hfr Hget) as (e & x & Hck & (Hc1 & Hs1 & _) & Hp1 & He1 & Hrep & Hsh & Hbal).
  pose proof (entry_rep_elim _ _ _ _ Hrep) as (Hee & Hes & Hlm & Hla & Hi & Hix).
  destruct (Hg _ _ _ Hi Hix) as (Hi' & xi & Hxi). destruct (g (E_inner e)) as [r0 v'] eqn:Eg. cbn [snd] in *.
  set (xc := mk_emodel (E_shares e) x.2.1 xi).
  destruct (on_entry_spec s b p1 _ k e (in_inner g) r0 (mkEntry (E_shares e) (E_last_update e) v') xc Hp1 He1)
    as (p2' & Hp2 & Hr2 & He2 & (Hc2 & Hs2 & _)).
  { unfold in_inner, zoomM. by rewrite Eg. }
  { by apply entry_rep_intro. }
  unfold PoolChildMut_call in Hcall. rewrite Hck, Hp2 in Hcall. injection Hcall as <- <-.
  destruct (drop_ok s b p2' _ k _ xc c p' Hb Hr2 He2) as (x' & ed & ch & Hr' & Hin & Hed & Hch & Hset);
    [by apply entry_rep_intro|done|done|done|].
  apply (settled_totals p) in Hset; [|congruence..].
  set (f' := upd (upd (upd f k (Some x)) k (Some xc)) k (Some x')) in *.
  assert (Hf' : forall j, j <> k -> f' j = f j) by (intros j Hj; unfold f'; by rewrite !upd_other).
  assert (Hf'k : f' k = Some x') by (unfold f'; by rewrite upd_same).
  assert (Hsh0 : (dval (em_shares xc) == shares_of f k)%Q) by (rewrite <- Hsh, <- Hes; done).
  assert (Hb' : (dval ed == balance_of f' k)%Q) by (unfold balance_of; rewrite Hf'k, Hin; exact Hed).
  assert (Hs' : (dval (em_shares x') == shares_of f' k)%Q) by (unfold shares_of; by rewrite Hf'k).
  exists f'. split; [done|]. split; [done|]. split; [by exists (initial_balance c), ed, ch, (em_shares xc), (em_shares x')|].
  pose proof (sum_over_change (balance_of f) (balance_of f') k ks Hnd Hk ltac:(intros j Hj; unfold balance_of; by rewrite Hf')) as Hsb.
  pose proof (sum_over_change (shares_of f) (shares_of f') k ks Hnd Hk ltac:(intros j Hj; unfold shares_of; by rewrite Hf')) as Hss.
  cbv zeta. set (change := (sum_over (balance_of f') ks - sum_over (balance_of f) ks)%Q). intros Hrc.
  assert (Hdiff : (change == dval ed - dval (initial_balance c))%Q) by (unfold change; lra).
  assert (Hcv : (dval ch == change)%Q).
  { rewrite Hdiff. apply Decimal_sub_exact; [done|]. by eapply representable_eq, Hrc. }
  split; [by apply (settled_contributions p p' ch _ _ change Hset)|].
  intros Hr1 Hr2' Hr3 Hr4. destruct (settled_shares p p' ch _ _ change Hset Hcv Hr1 Hr2') as [Hx1 Hx2]; [eapply representable_eq, Hr3; by rewrite Hsh0|done|].
  split; [done|]. rewrite Hss, <- Hs', Hx1, Hsh0. ring.
Qed.
(** *** A read through [get] *)

Lemma child_entry_at s p k k' c :
  Map_attached s (pool_map p) -> bt_get (enc k) (Map_children (pool_map p)) = Some (k', Some c) -> entry_at p k (cell c).
Proof. intros Hm Hc. pose proof (child_key _ _ _ _ _ Hm Hc) as ->. unfold entry_at. rewrite Hc. by destruct c. Qed.

(** The period entries [get] adjusts with. *)
Definition peeked b p : res (list (u8 * Decimal)) :=
  let? l := iter_all b (rewards_this_period p) in
  if is_positive (shares_issued p) then peek_period b p l.*1 else Ok [].

(** The steps of [get], for an entry in memory and for any other. *)
Lemma Pool_get_in_memory b p k e v p' :
  entry_at p k e -> Pool_get b k p = (Ok v, p') ->
  exists pe p1, peeked b p = Ok pe /\ on_entry (enc k) (adjust_entry b (contributions p) (shares_issued p) pe) p = (Ok tt, p1) /\
    on_entry (enc k) (in_inner getM) p1 = (Ok v, p').
Proof.
  intros He Hg. unfold Pool_get, Pool_get_call in Hg. apply bindM_ok in Hg as ([] & q & Hq & Hg). unfold readM in Hq. injection Hq as _ <-.
  apply bindM_ok in Hg as (l & q & Hq & Hg). unfold readM in Hq. injection Hq as Hl <-.
  apply bindM_ok in Hg as (q & q1 & Hq & Hg). injection Hq as <- <-.
  apply bindM_ok in Hg as (pe & q & Hq & Hg). unfold liftM in Hq. injection Hq as Hpe <-.
  apply bindM_ok in Hg as (r & q & Hq & Hg). unfold readM in Hq. injection Hq as Hr <-.
  unfold Map_get_or_default, Map_get in Hr. rewrite encode_enc, MapKey_new_ok in Hr. unfold entry_at in He. cbn in Hr. rewrite He in Hr. injection Hr as <-.
  apply bindM_ok in Hg as (kb & q & Hq & Hg). unfold liftM in Hq. rewrite encode_enc in Hq. injection Hq as <- <-.
  apply bindM_ok in Hg as ([] & p1 & Hq & Hg). exists pe, p1. split; [|done]. unfold peeked. by rewrite Hl.
Qed.
Lemma Pool_get_loaded s b p k v p' :
  Map_attached s (pool_map p) -> (forall e, ~ entry_at p k e) -> Pool_get b k p = (Ok v, p') -> p' = p.
Proof.
  intros Hm Hne Hg. unfold Pool_get, Pool_get_call in Hg. apply bindM_ok in Hg as ([] & q & Hq & Hg). unfold readM in Hq. injection Hq as _ <-.
  apply bindM_ok in Hg as (l & q & Hq & Hg). unfold readM in Hq. injection Hq as Hl <-.
  apply bindM_ok in Hg as (q & q1 & Hq & Hg). injection Hq as <- <-.
  apply bindM_ok in Hg as (pe & q & Hq & Hg). unfold liftM in Hq. injection Hq as Hpe <-.
  apply bindM_ok in Hg as (r & q & Hq & Hg). unfold readM in Hq. injection Hq as Hr <-.
  destruct r as [c|c].
  - destruct (adjust_entry _ _ _ _ _) as [r e']. apply bindM_ok in Hg as ([] & q & Hq & Hg). unfold liftM in *.
    injection Hq as _ <-. by injection Hg as _ <-.
  - exfalso. unfold Map_get_or_default, Map_get in Hr. rewrite encode_enc, MapKey_new_ok in Hr. cbn in Hr.
    destruct (bt_get (enc k) (Map_children (pool_map p))) as [[k' [c'|]]|] eqn:Hc; cbn in Hr.
    + by eapply Hne, child_entry_at.
    + clear -Hr. destruct (RefCell_attach _ _) as [[] ?]; done.
    + destruct (Map_get_from_store _ _ _) as [[?|]|?|?]; cbn in Hr; [done| |done..].
      clear -Hr. destruct (RefCell_attach _ _) as [[] ?]; done.
Qed.

(** C21: Reading an entry through [get] is documented not to modify the map. It does not
    when the entry is not in memory, where it works on a copy. An entry that is in memory
    is changed in place: the adjustment with the rewards of the running period, which are
    not closed, is stored in the pool and its value is what the reader sees, but the
    totals stay the same. So the [contributions] fall short of the sum of the balances by
    what the rewards changed the balance read, in addition to what they did before. *)
Theorem Pool_get_unbalances s b p f k v p' (ks : list K) :
  Read_inv b -> pool_rep s b p f -> NoDup ks -> k ∈ ks -> Pool_get b k p = (Ok v, p') ->
  ((forall e, ~ entry_at p k e) -> p' = p) /\
  forall e, entry_at p k e -> exists pe e' f',
    peeked b p = Ok pe /\ adjust_entry b (contributions p) (shares_issued p) pe e = (Ok tt, e') /\
    v = E_inner e' /\ entry_at p' k e' /\ pool_rep s b p' f' /\ (forall j, j <> k -> f' j = f j) /\
    same_totals p p' /\ (shares_of f' k == shares_of f k)%Q /\
    forall seen v', pv_balance b v = (Ok seen, v') ->
      (dval seen == balance_of f' k)%Q /\
      (dval (contributions p') - sum_over (balance_of f') ks ==
       dval (contributions p) - sum_over (balance_of f) ks - (dval seen - balance_of f k))%Q.
Proof.
  intros Hb Hp Hnd Hk Hg. split; [intros Hne; eapply Pool_get_loaded; [apply Hp|done..]|]. intros e He.
  destruct (Pool_get_in_memory b p k e v p' He Hg) as (pe & p1 & Hpe & Ha & Hi).
  destruct Hp as [Hm Hf]. pose proof (Hf k) as Hfk. unfold entry_at in He. rewrite He in Hfk.
  destruct (f k) as [x|] eqn:Hx; [|done]. rewrite (proj1 Hm) in Hfk.
  pose proof (on_entry_result p k e (adjust_entry b (contributions p) (shares_issued p) pe) He) as Hr. rewrite Ha in Hr. cbn [fst] in Hr.
  destruct (adjust_entry b (contributions p) (shares_issued p) pe e) as [r e'] eqn:Hadj. cbn [fst] in Hr. subst r.
  destruct (adjust_entry_ok (Store_sub s (enc k)) b _ _ _ e e' x Hb Hfk Hadj) as (x' & Hrep' & Hsx).
  destruct (on_entry_spec s b p f k e _ _ e' x' (conj Hm Hf) He Hadj Hrep') as (q & Hq & Hr1 & He1 & Ht1).
  rewrite Hq in Ha. injection Ha as <-. pose proof (entry_rep_elim _ _ _ _ Hrep') as (Hee & _ & _ & _ & Hia & Hix).
  destruct (on_entry_spec s b q _ k e' (in_inner getM) (Ok (E_inner e')) e' x' Hr1 He1) as (q2 & Hq2 & Hr2 & He2 & Ht2); [|done|].
  { unfold in_inner, zoomM, getM. by rewrite <- Hee. }
  rewrite Hq2 in Hi. injection Hi as <- <-. set (f' := upd (upd f k (Some x')) k (Some x')) in *.
  assert (Hf' : forall j, j <> k -> f' j = f j) by (intros j Hj; unfold f'; by rewrite !upd_other).
  assert (Hf'k : f' k = Some x') by (unfold f'; by rewrite upd_same).
  exists pe, e', f'. split_and!; [done..|by eapply same_totals_trans|unfold shares_of; by rewrite Hf'k, Hx, Hsx|].
  intros seen v' Hv. destruct (pv_balance_spec _ b _ _ _ _ Hb Hia Hix Hv) as (_ & y & _ & Hsd & _).
  assert (Hseen : (dval seen == balance_of f' k)%Q) by (unfold balance_of; by rewrite Hf'k).
  split; [done|]. destruct (same_totals_trans _ _ _ Ht1 Ht2) as [-> _].
  rewrite (sum_over_change (balance_of f) (balance_of f') k ks Hnd Hk) by (intros j Hj; unfold balance_of; by rewrite Hf').
  rewrite Hseen. ring.
Qed.
End PoolSpec.

(** ** Pools: scenarios

    The tests of src/coins/pool.rs, and what a read through [get] does to a pool. *)

#[local] Instance pool_profile : Profile := {| overflow_checks := true; debug_assertions := true |}.
#[local] Instance pool_compat : CompatMode := {| compat_mode := false |}.

(** A share of symbol 0 as a pool value: giving another denomination is refused. *)
Definition Share_give_denom (coin : u8 * Amount) : M (Struct2 0 Decimal PhantomData) unit :=
  if negb (uint_val coin.1 =? 0) then errM (ECoins "Invalid symbol index")
  else
    do self <- getM;
    set_shares (math_try (Decimal_add_Amount (Share_shares self) coin.2)).
#[local] Instance Share_PoolValue : PoolValue MapStore (Struct2 0 Decimal PhantomData) :=
  {| pv_balance := fun _ => readM Share_balance_Decimal; pv_give := fun _ coin => Share_give_denom coin; pv_default := mkShare Decimal_default |}.

Abbreviation SharePool := (Pool (K := u8) (V := Struct2 0 Decimal PhantomData)).
Definition ex_pstore : MapStore := mkBufStore [] mkEmpty.
Definition alice : u8 := to_uint 1 1.
Definition bob : u8 := to_uint 1 2.
Definition deposit (who : u8) (n : Z) : M SharePool unit := Pool_get_mut_call ex_pstore who (Share_give (Coin_mint (Amount_of n))).
Definition withdraw (who : u8) (n : Z) : M SharePool unit := Pool_get_mut_call ex_pstore who (run Share_take (Amount_of n); retM tt).
Definition touch (who : u8) : M SharePool unit := Pool_get_mut_call ex_pstore who (retM tt).
Definition reward (n : Z) : M SharePool unit := Pool_give ex_pstore (to_uint 1 0, Amount_of n).
Definition look (who : u8) : M SharePool Z :=
  do v <- Pool_get ex_pstore who;
  do a <- liftM (Share_amount v);
  retM (amt a).
Definition pool_balance : M SharePool Z :=
  do d <- readM Pool_balance;
  do a <- liftM (Decimal_amount d);
  retM (amt a).

Example pool_order_a :
  fst ((run deposit alice 50; run reward 100; run deposit bob 50;
        do n0 <- pool_balance; run touch alice; do n1 <- pool_balance;
        do a <- look alice; do b <- look bob; retM [n0; n1; a; b]) Pool_default) = Ok [100; 200; 150; 50].
Proof. vm_compute. reflexivity. Qed.
Example pool_order_b :
  fst ((run deposit alice 50; run deposit bob 50; run reward 100;
        do n0 <- pool_balance; do a <- look alice; do b <- look bob; retM [n0; a; b]) Pool_default) = Ok [100; 100; 100].
Proof. vm_compute. reflexivity. Qed.
Example pool_emptied :
  fst ((run deposit alice 50; run withdraw alice 50; do n0 <- pool_balance;
        run deposit alice 50; run reward 50; run withdraw alice 100; do n1 <- pool_balance;
        retM [n0; n1]) Pool_default) = Ok [0; 0] /\
  fst ((run deposit alice 50; run withdraw alice 50; run reward 50; retM tt) Pool_default) =
    Err (ECoins "Cannot add directly to an empty pool").
Proof. split; vm_compute; reflexivity. Qed.

(** Two depositors of 50 share a reward of 100. Whether or not somebody looks at the
    entry of the first one before both are settled, each then holds 100; but after the
    look the pool accounts for 150 only, and once both have withdrawn what they hold
    its balance is negative. *)
Example pool_look_takes_away :
  let settle (looked : bool) : M SharePool (list Z) :=
    run deposit alice 50; run deposit bob 50; run reward 100;
    run (if looked then do _ <- look alice; retM tt else retM tt);
    run touch alice; run touch bob;
    do a <- look alice; do b <- look bob; do n <- pool_balance; retM [a; b; n] in
  fst (settle false Pool_default) = Ok [100; 100; 200] /\
  fst (settle true Pool_default) = Ok [100; 100; 150] /\
  fst ((run settle true; run withdraw alice 100; run withdraw bob 100; pool_balance) Pool_default) =
    Err (ECoins "Amounts may not be negative").
Proof. vm_compute. done. Qed.

(** *** Witness: the first deposit *)

Lemma Decimal_term : State_terminated (V := Decimal) (St := MapStore).
Proof. done. Qed.
#[local] Instance Share_StateSpec : StateSpec MapStore (Struct2 0 Decimal PhantomData) := Struct2_StateSpec Decimal_term.
#[local] Instance Share_PoolValueSpec : PoolValueSpec MapStore (Struct2 0 Decimal PhantomData).
Proof.
  refine {| pv_bal := fun x : model (V := Struct2 0 Decimal PhantomData) => dval x.1 |}.
  - done.
  - intros s b v x d v' _ Hv Hx Hd. injection Hd as <- <-. split; [done|]. exists x. split; [done|]. split; [|done].
    destruct Hx as [Hx _]. simpl in Hx. unfold Share_shares. by rewrite Hx.
  - intros s b coin v v' x _ _ _ _. split; [done|]. by exists (field0 v', tt).
Defined.

Definition share_model (d : Decimal) : model (StateSpec := Share_StateSpec) := (d, tt).
Lemma ex_pool_rep : pool_rep Store_new ex_pstore (Pool_default : SharePool) (fun _ => None).
Proof. split; [by split_and!; [|constructor|constructor]|]. intros k. done. Qed.

Lemma ex_fresh : fresh (V := Struct2 0 Decimal PhantomData) Store_new ex_pstore alice.
Proof.
  intros c Hc.
  assert (Heq : c = mkRefCell (mkEntry Decimal_default (mkMap (Store_sub (Store_sub Store_new (enc alice)) [1]) []) (mkShare Decimal_default))).
  { change (State_attach (Store_sub Store_new (enc alice)) (Entry_default (V := Struct2 0 Decimal PhantomData))) with
      (Ok tt, mkRefCell (mkEntry Decimal_default (mkMap (Store_sub (Store_sub Store_new (enc alice)) [1]) []) (mkShare Decimal_default))) in Hc.
    by injection Hc. }
  subst c.
  exists (mk_emodel Decimal_default (fun _ => None) (share_model Decimal_default)). split; [|done].
  apply entry_abs. split; [done|]. split; [by intros k|done].
Qed.
Lemma ex_lawful : lawful_call (St := MapStore) ex_pstore (Share_give (Coin_mint (Amount_of 50))).
Proof. intros s v x _ _. split; [done|]. by exists (share_model (field0 (Share_give (Coin_mint (Amount_of 50)) v).2)). Qed.

Definition ex_get : res PoolChildMut * SharePool := Pool_get_mut ex_pstore alice Pool_default.
Definition ex_child : PoolChildMut := match ex_get.1 with Ok c => c | _ => mkPoolChildMut [] Decimal_default end.
Definition ex_called : res unit * SharePool := PoolChildMut_call ex_child (Share_give (Coin_mint (Amount_of 50))) ex_get.2.
Definition ex_dropped : res unit * SharePool := PoolChildMut_drop ex_pstore ex_child ex_called.2.

Lemma ex_get_ok : Pool_get_mut ex_pstore alice (Pool_default : SharePool) = (Ok ex_child, ex_get.2).
Proof.
  assert (Hok : is_ok ex_get.1 = true) by by vm_compute. unfold ex_child. fold ex_get. destruct ex_get as [[c|?|?] p]; done.
Qed.
Lemma ok_pair {A B} (x : res A * B) a : x.1 = Ok a -> x = (Ok a, x.2).
Proof. destruct x. by intros [= ->]. Qed.
Lemma ex_dropped_ok : PoolChildMut_drop ex_pstore ex_child ex_called.2 = (Ok tt, ex_dropped.2) /\ drop_errored ex_dropped.2 = false.
Proof.
  split; [|by vm_compute]. unfold ex_dropped. apply ok_pair. by vm_compute.
Qed.

Lemma Pool_get_mut_keeps_totals_witness :
  exists f', pool_rep Store_new ex_pstore ex_dropped.2 f' /\ f' bob = None /\
    (exists before after ch sh sh' : Decimal, (dval after == balance_of f' alice)%Q /\ Decimal_sub after before = MOk ch /\
      settled Pool_default ex_dropped.2 ch sh sh') /\
    (dval (contributions ex_dropped.2) == inject_Z 50)%Q /\ (dval (shares_issued ex_dropped.2) == inject_Z 50)%Q.
Proof.
  destruct (Pool_get_mut_keeps_totals Store_new ex_pstore Pool_default (fun _ => None) alice
    (Share_give (Coin_mint (Amount_of 50))) ex_child ex_get.2 ex_called.1 ex_called.2 ex_dropped.2 [alice])
    as (f' & Hr & Hf & (before & after & ch & sh & sh' & _ & Ha & Hch & _ & _ & Hs) & _).
  - split; [by repeat constructor|done].
  - apply ex_pool_rep.
  - apply ex_fresh.
  - apply ex_lawful.
  - by apply NoDup_singleton.
  - by left.
  - apply ex_get_ok.
  - apply surjective_pairing.
  - apply ex_dropped_ok.
  - apply ex_dropped_ok.
  - exists f'. split; [done|]. split; [by apply (Hf bob)|]. split; [by exists before, after, ch, sh, sh'|]. split; by vm_compute.
Defined.

(** *** Witness: a look at an entry in memory that is owed a reward *)

Definition d50 : Decimal := Decimal_from_u64 (to_uint 8 50).
Definition ex_alice : Struct 0 (FCons Decimal (FCons (Map u8 Decimal) (FCons (Struct2 0 Decimal PhantomData) FNil))) :=
  mkEntry d50 (mkMap (Store_sub (Store_sub Store_new (enc alice)) [1]) []) (mkShare d50).
Definition ex_look_pool : SharePool :=
  mkPool d50 Map_new d50 (mkMap Store_new [(enc alice, (alice, Some (mkRefCell ex_alice)))])
    (mkMap (Store_sub Store_new [4]) [(enc (to_uint 1 0), (to_uint 1 0, Some (Decimal_from_u64 (to_uint 8 100))))]) Map_new false.

Lemma ex_look_rep : exists f, pool_rep Store_new ex_pstore ex_look_pool f /\ (balance_of f alice == 50)%Q.
Proof.
  exists (fun j => if decide (j = alice) then Some (mk_emodel d50 (fun _ => None) (share_model d50)) else None). split; [split; [split_and!; [done|by repeat constructor|]|]|].
  - constructor; [|constructor]. split; [done|]. intros w [= <-]. apply entry_attached. split; [by split_and!; [|constructor|constructor]|done].
  - intros j. cbn [pool_map ex_look_pool Map_children Map_store bt_get].
    destruct (beqb_spec (enc j) (enc alice)) as [Hj%enc_inj|Hj].
    + rewrite decide_True by done. split.
      * apply entry_attached. subst j. split; [by split_and!; [|constructor|constructor]|done].
      * apply entry_abs. split; [done|]. split; [by intros i|done].
    + rewrite decide_False by congruence. done.
  - unfold balance_of. by rewrite decide_True by done.
Qed.

Definition ex_look : res (Struct2 0 Decimal PhantomData) * SharePool := Pool_get ex_pstore alice ex_look_pool.
Definition ex_seen : Struct2 0 Decimal PhantomData := match ex_look.1 with Ok v => v | _ => mkShare Decimal_default end.
Lemma ex_look_ok : Pool_get ex_pstore alice ex_look_pool = (Ok ex_seen, ex_look.2).
Proof.
  assert (Hok : is_ok ex_look.1 = true) by by vm_compute. unfold ex_seen. change (Pool_get ex_pstore alice ex_look_pool) with ex_look.
  destruct ex_look as [[c|?|?] p]; [reflexivity|discriminate..].
Qed.

Lemma share_balance (x : Struct2 0 Decimal PhantomData) : pv_balance ex_pstore x = (Ok (Share_shares x), x).
Proof. reflexivity. Qed.
Lemma look_gap (c s q : Q) : (c == 50 -> s == 150 -> q == 50 -> c - (q + 0) - (s - q) == -100)%Q.
Proof. intros. lra. Qed.
(** Fifty and a reward of a hundred: 150 are seen, and the pool of 50 is short of 100. *)
Lemma Pool_get_unbalances_witness :
  (dval (contributions ex_look.2) == 50)%Q /\
  exists e' f', entry_at ex_look.2 alice e' /\ pool_rep Store_new ex_pstore ex_look.2 f' /\
    (balance_of f' alice == 150)%Q /\ (dval (contributions ex_look.2) - sum_over (balance_of f') [alice] == -100)%Q.
Proof.
  split; [by vm_compute|]. destruct ex_look_rep as (f & Hf & H50).
  destruct (Pool_get_unbalances Store_new ex_pstore ex_look_pool f alice ex_seen ex_look.2 [alice]) as [_ Hin].
  - split; [by repeat constructor|done].
  - exact Hf.
  - by apply NoDup_singleton.
  - by left.
  - apply ex_look_ok.
  - destruct (Hin ex_alice) as (pe & e' & f' & _ & _ & _ & He & Hr & _ & _ & _ & Hseen); [reflexivity|].
    exists e', f'. split; [done|]. split; [done|]. destruct (Hseen (Share_shares ex_seen) ex_seen) as [Hs Hg].
    { apply share_balance. }
    assert (Hd : (dval (Share_shares ex_seen) == 150)%Q) by by vm_compute.
    split; [exact (Qeq_trans _ _ _ (Qeq_sym _ _ Hs) Hd)|]. refine (Qeq_trans _ _ _ Hg _).
    apply look_gap; [by vm_compute|exact Hd|exact H50].
Defined.
