(* ===== verification/AbciTypes.v ===== *)
(** * What the ABCI plugin puts into the context (src/plugins/abci.rs)

    The timestamp of the block, the validator-set handle, and the buffers for
    events and log messages. [Validators] shares the current voting powers and the
    operator keys with the plugin through [Rc<RefCell<..>>]: those cells are
    entries of an explicit heap, and the handles are positions in it. *)

From stdpp Require Import base tactics numbers list strings gmap.
From Stdlib Require Import ZArith Lia.
From S2P Require Import Prelude Bytes BTree StoreIface Codec StateIface MapColl EntryMap.

Record Time := mkTime { Time_seconds : Z; Time_nanos : Z }.
Definition Time_from_seconds (seconds : Z) : Time := mkTime seconds 0.

(** A consensus key [[u8; 32]], read as a big-endian integer. *)
Abbreviation PubKey := (uint 32).

(** [struct ValidatorEntry] with its derived [Entry]: one key field, and the value
    tuple [(u64,)], whose state is that of its only component. *)
Record ValidatorEntry := mkValidatorEntry { VE_pubkey : PubKey; VE_power : u64 }.
#[export] Instance ValidatorEntry_Entry : EntryTrait ValidatorEntry PubKey u64 :=
  {| into_entry := fun e => (VE_pubkey e, VE_power e); from_entry := fun e => mkValidatorEntry e.1 e.2 |}.
#[export] Instance ValidatorEntry_EntryLaws : EntryLaws ValidatorEntry PubKey u64.
Proof. by split; [intros []|intros []]. Qed.

(** [tendermint_proto]'s messages, as far as the source builds and takes them
    apart. *)
Inductive PublicKeySum := Ed25519 (bs : bytes) | Secp256k1 (bs : bytes).
Record PublicKey := mkPublicKey { PublicKey_sum : option PublicKeySum }.
Record ValidatorUpdate := mkValidatorUpdate { VU_pub_key : option PublicKey; VU_power : Z }.
(** Keys and values of attributes are the bytes of texts. *)
Record EventAttribute := mkEventAttribute { EA_key : string; EA_value : string; EA_index : bool }.
Record Event := mkEvent { Event_type : string; Event_attributes : list EventAttribute }.

Abbreviation VpMap := (EntryMap ValidatorEntry PubKey u64).
Abbreviation OperatorMap := (Map (uint 20) PubKey).

(** The heap of [Rc<RefCell<Option<..>>>] cells. *)
Record Cells := mkCells { vp_cells : list (option VpMap); op_cells : list (option OperatorMap) }.
Definition Cells_empty : Cells := mkCells [] [].
Definition set_vp (loc : nat) (o : option VpMap) (c : Cells) : Cells := mkCells (<[loc := o]> (vp_cells c)) (op_cells c).
Definition set_op (loc : nat) (o : option OperatorMap) (c : Cells) : Cells := mkCells (vp_cells c) (<[loc := o]> (op_cells c)).
(** [Rc::new(RefCell::new(..))]: a new cell. *)
Definition new_vp (o : option VpMap) : M Cells nat := fun c =>
  (Ok (length (vp_cells c)), mkCells (vp_cells c ++ [o]) (op_cells c)).
Definition new_op (o : option OperatorMap) : M Cells nat := fun c =>
  (Ok (length (op_cells c)), mkCells (vp_cells c) (op_cells c ++ [o])).

(** [cell.borrow_mut().as_mut().unwrap()]: a cell emptied by [take] panics, and a
    handle always points to a cell. *)
Definition unwrap_none : string := "called `Option::unwrap()` on a `None` value".
Definition in_vp {A} (loc : nat) (f : M VpMap A) : M Cells A := fun c =>
  match vp_cells c !! loc with
  | Some (Some m) => let '(r, m') := f m in (r, set_vp loc (Some m') c)
  | _ => (Panic unwrap_none, c)
  end.
Definition in_op {A} (loc : nat) (f : M OperatorMap A) : M Cells A := fun c =>
  match op_cells c !! loc with
  | Some (Some m) => let '(r, m') := f m in (r, set_op loc (Some m') c)
  | _ => (Panic unwrap_none, c)
  end.

(** [struct Validators]: the [HashMap] of updates by consensus key. *)
Record Validators := mkValidators {
  V_updates : gmap Z (PubKey * ValidatorUpdate);
  V_current_vp : nat;
  V_cons_key_by_op_addr : nat
}.
Definition Validators_new (current_vp cons_key_by_op_addr : nat) : Validators :=
  mkValidators ∅ current_vp cons_key_by_op_addr.

Record Events := mkEvents { Events_events : list Event }.
Definition Events_default : Events := mkEvents [].
Definition Events_add (event : Event) : M Events unit := fun e => (Ok tt, mkEvents (Events_events e ++ [event])).

Record Logs := mkLogs { Logs_messages : list string }.
Definition Logs_default : Logs := mkLogs [].
Definition Logs_add (message : string) : M Logs unit := fun l => (Ok tt, mkLogs (Logs_messages l ++ [message])).

(** The context slots of these types. *)
Record AbciCtx := mkAbciCtx {
  ctx_time : option Time;
  ctx_validators : option Validators;
  ctx_events : option Events;
  ctx_logs : option Logs;
  ctx_cells : Cells
}.
Definition AbciCtx_empty : AbciCtx := mkAbciCtx None None None None Cells_empty.
