(* ===== verification/Context.v ===== *)
(** * Contexts and the [Paid] context ([src/context.rs], [src/plugins/payable.rs])

    [Context] is a global map from type to value, through which plugins hand data
    to the code they call. Here it is a record with one slot per type the modelled
    components put there, passed as part of the state; [InContext] says which slot
    a type has. [Paid] is the context that carries funds from the payer call to
    the paid call. *)

From stdpp Require Import base tactics numbers list strings gmap.
From Stdlib Require Import ZArith Lia.
From S2P Require Import Prelude Bytes Codec Address Coins AbciTypes.

(** [src/plugins/signer.rs], [struct Signer]. *)
Record Signer := mkSigner { Signer_signer : option Address }.

(** [struct Paid]; the [HashMap<u8, Amount>] is only looked up by key. *)
Record Paid := mkPaid {
  Paid_map : gmap Z Amount;
  running_payer : bool;
  fee_disabled : bool
}.
Definition Paid_default : Paid := mkPaid ∅ false false.

(** [struct ChainId(String)]: the bytes of the identifier. *)
Record ChainId := mkChainId { ChainId_0 : bytes }.

Record ContextMap := mkContextMap {
  ctx_signer : option Signer;
  ctx_paid : option Paid;
  ctx_chain_id : option ChainId;
  ctx_abci : AbciCtx
}.
Definition ContextMap_empty : ContextMap := mkContextMap None None None AbciCtx_empty.

Class InContext (T : Type) := { ctx_get : ContextMap -> option T; ctx_set : option T -> ContextMap -> ContextMap }.
#[export] Instance Signer_InContext : InContext Signer :=
  {| ctx_get := ctx_signer; ctx_set := fun o c => mkContextMap o (ctx_paid c) (ctx_chain_id c) (ctx_abci c) |}.
#[export] Instance Paid_InContext : InContext Paid :=
  {| ctx_get := ctx_paid; ctx_set := fun o c => mkContextMap (ctx_signer c) o (ctx_chain_id c) (ctx_abci c) |}.
#[export] Instance ChainId_InContext : InContext ChainId :=
  {| ctx_get := ctx_chain_id; ctx_set := fun o c => mkContextMap (ctx_signer c) (ctx_paid c) o (ctx_abci c) |}.
Definition set_abci (f : AbciCtx -> AbciCtx) (c : ContextMap) : ContextMap :=
  mkContextMap (ctx_signer c) (ctx_paid c) (ctx_chain_id c) (f (ctx_abci c)).
#[export] Instance Time_InContext : InContext Time :=
  {| ctx_get := fun c => ctx_time (ctx_abci c);
     ctx_set := fun o => set_abci (fun a => mkAbciCtx o (ctx_validators a) (ctx_events a) (ctx_logs a) (ctx_cells a)) |}.
#[export] Instance Validators_InContext : InContext Validators :=
  {| ctx_get := fun c => ctx_validators (ctx_abci c);
     ctx_set := fun o => set_abci (fun a => mkAbciCtx (ctx_time a) o (ctx_events a) (ctx_logs a) (ctx_cells a)) |}.
#[export] Instance Events_InContext : InContext Events :=
  {| ctx_get := fun c => ctx_events (ctx_abci c);
     ctx_set := fun o => set_abci (fun a => mkAbciCtx (ctx_time a) (ctx_validators a) o (ctx_logs a) (ctx_cells a)) |}.
#[export] Instance Logs_InContext : InContext Logs :=
  {| ctx_get := fun c => ctx_logs (ctx_abci c);
     ctx_set := fun o => set_abci (fun a => mkAbciCtx (ctx_time a) (ctx_validators a) (ctx_events a) o (ctx_cells a)) |}.

(** The cells shared between values and contexts. *)
Definition cells (c : ContextMap) : Cells := ctx_cells (ctx_abci c).
Definition set_cells (cs : Cells) : ContextMap -> ContextMap :=
  set_abci (fun a => mkAbciCtx (ctx_time a) (ctx_validators a) (ctx_events a) (ctx_logs a) cs).
Definition in_cells {A} (f : M Cells A) : M ContextMap A := zoomM cells set_cells f.

Section ContextOps.
Context {T : Type} `{InContext T}.
Definition Context_add (ctx : T) : M ContextMap unit := fun c => (Ok tt, ctx_set (Some ctx) c).
Definition Context_resolve (c : ContextMap) : option T := ctx_get c.
Definition Context_remove : M ContextMap unit := fun c => (Ok tt, ctx_set None c).

(** [self.context::<T>().ok_or_else(|| err)?.g()] *)
Definition Context_call {A} (err : Error) (g : M T A) : M ContextMap A := fun c =>
  match Context_resolve c with
  | Some t => let '(r, t') := g t in (r, ctx_set (Some t') c)
  | None => (Err err, c)
  end.
End ContextOps.

(** ** [impl Paid] *)

Definition Paid_entry (denom : Z) (p : Paid) : Amount := default (Amount_of 0) (Paid_map p !! denom).
Definition Paid_set (denom : Z) (a : Amount) (p : Paid) : Paid :=
  mkPaid (<[denom := a]> (Paid_map p)) (running_payer p) (fee_disabled p).

(** [entry(denom).or_insert_with(|| 0.into())] leaves the zero there also when the
    rest fails. *)
Definition Paid_give_denom (amount : Amount) (denom : Z) : M Paid unit := fun p =>
  let entry := Paid_entry denom p in
  match math_try (Amount_add entry amount) with
  | Ok a => (Ok tt, Paid_set denom a p)
  | Err e => (Err e, Paid_set denom entry p)
  | Panic w => (Panic w, Paid_set denom entry p)
  end.
Definition Paid_give `{Symbol} (amount : Amount) : M Paid unit := Paid_give_denom amount (uint_val INDEX).

Definition Paid_take_denom (amount : Amount) (denom : Z) : M Paid unit := fun p =>
  let entry := Paid_entry denom p in
  if Amount_ltb entry amount
  then (Err (ECoins "Insufficient funding for paid call"), Paid_set denom entry p)
  else
    match math_try (Amount_sub entry amount) with
    | Ok a => (Ok tt, Paid_set denom a p)
    | Err e => (Err e, Paid_set denom entry p)
    | Panic w => (Panic w, Paid_set denom entry p)
    end.
Definition Paid_take `{Symbol} (amount : Amount) : M Paid Coin :=
  run Paid_take_denom amount (uint_val INDEX);
  retM (Coin_mint amount).

Definition Paid_balance `{Symbol} (p : Paid) : res Amount :=
  Ok (match Paid_map p !! uint_val INDEX with
      | Some amt => amt
      | None => Amount_of 0
      end).

(** ** Facts *)

(** The funds of one denomination. *)
Definition paid_val (denom : Z) (p : Paid) : Z := amt (Paid_entry denom p).

Lemma paid_val_set d a p : paid_val d (Paid_set d a p) = amt a.
Proof. unfold paid_val, Paid_entry, Paid_set. simpl. by rewrite lookup_insert_eq. Qed.
Lemma paid_val_set_ne d e a p : d <> e -> paid_val d (Paid_set e a p) = paid_val d p.
Proof. intros. unfold paid_val, Paid_entry, Paid_set. simpl. by rewrite lookup_insert_ne. Qed.
Lemma paid_val_range d p : is_u64 (paid_val d p).
Proof. apply amt_range. Qed.

(** Giving adds to one denomination, or fails with nothing changed. *)
Lemma Paid_give_denom_spec a d p :
  exists p', Paid_give_denom a d p =
    (if (paid_val d p + amt a <=? u64_max)%Z then Ok tt else Err EUnknown, p') /\
  running_payer p' = running_payer p /\ fee_disabled p' = fee_disabled p /\
  (forall e, paid_val e p' = paid_val e p +
     if (paid_val d p + amt a <=? u64_max)%Z then if decide (e = d) then amt a else 0 else 0)%Z.
Proof.
  unfold Paid_give_denom. rewrite math_try_add. change (amt (Paid_entry d p)) with (paid_val d p).
  pose proof (paid_val_range d p) as Hp. pose proof (amt_range a) as Ha. unfold is_u64 in *.
  destruct (u64b_spec (paid_val d p + amt a)) as [Hs|Hs], (Z.leb_spec (paid_val d p + amt a) u64_max);
    unfold is_u64 in Hs; try lia; eexists; (split; [done|]); (split; [done|]); (split; [done|]); intros e.
  all: destruct (decide (e = d)) as [->|Hd]; [rewrite paid_val_set|rewrite paid_val_set_ne by done; lia].
  - rewrite amt_of by (unfold is_u64; lia). done.
  - change (amt (Paid_entry d p)) with (paid_val d p). lia.
Qed.

(** Taking removes from one denomination, or fails with nothing changed. *)
Lemma Paid_take_denom_spec a d p :
  exists p', Paid_take_denom a d p =
    (if (amt a <=? paid_val d p)%Z then Ok tt else Err (ECoins "Insufficient funding for paid call"), p') /\
  running_payer p' = running_payer p /\ fee_disabled p' = fee_disabled p /\
  (forall e, paid_val e p' = paid_val e p -
     if (amt a <=? paid_val d p)%Z then if decide (e = d) then amt a else 0 else 0)%Z.
Proof.
  unfold Paid_take_denom, Amount_ltb. rewrite math_try_sub. change (amt (Paid_entry d p)) with (paid_val d p).
  pose proof (paid_val_range d p) as Hp. pose proof (amt_range a) as Ha. unfold is_u64 in *.
  destruct (Z.ltb_spec (paid_val d p) (amt a)), (Z.leb_spec (amt a) (paid_val d p)); try lia;
    eexists; (split; [done|]); (split; [done|]); (split; [done|]); intros e.
  all: destruct (decide (e = d)) as [->|Hd]; [rewrite paid_val_set|rewrite paid_val_set_ne by done; lia].
  - change (amt (Paid_entry d p)) with (paid_val d p). lia.
  - rewrite amt_of by (unfold is_u64; lia). done.
Qed.
