(* ===== verification/Faucet.v ===== *)
(** * The faucet (src/coins/faucet.rs)

    A schedule of coin issuance over periods of equal length, each minting a fixed
    fraction of the one before. [mint] issues what the schedule allows up to the
    block's timestamp and has not been issued yet. *)

From stdpp Require Import base tactics numbers list strings gmap.
From Stdlib Require Import ZArith QArith Lia.
From S2P Require Import Prelude Bytes Codec StateIface Coins AbciTypes Address Context SimpleState Decimal DecimalInst.
#[local] Open Scope Z_scope.

(** [std::time::Duration]; [as_secs] drops the fraction. *)
Record Duration := mkDuration { Duration_secs : u64; Duration_nanos : Z }.
Definition as_secs (d : Duration) : u64 := Duration_secs d.

(** [u32] subtraction. *)
Definition u32_sub `{Profile} (a b : Z) : res Z :=
  if 0 <=? a - b then Ok (a - b)
  else if overflow_checks then Panic "arithmetic overflow" else Ok ((a - b) mod 2 ^ 32).

Section Faucet.
Context `{Profile} `{ND : NumDecimal}.

Record Faucet := mkFaucet {
  Fa_configured : bool;
  amount_minted : Amount;
  start_seconds : Z;
  multiplier_total : Decimal;
  total_to_mint : Amount;
  period_decay : Decimal;
  seconds_per_period : u64;
  num_periods : u32
}.
(** The derived [Default]. *)
Definition Faucet_default : Faucet :=
  mkFaucet false (Amount_of 0) 0 Decimal_default (Amount_of 0) Decimal_default (to_uint 8 0) (to_uint 4 0).

Record FaucetOptions := mkFaucetOptions {
  opt_num_periods : u32;
  opt_period_length : Duration;
  opt_total_coins : Amount;
  opt_period_decay : Decimal;
  opt_start_seconds : Z
}.

(** [for _ in 0..num_periods - 1] *)
Fixpoint sum_multipliers (n : nat) (decay running_multiplier multiplier_total : Decimal) : res Decimal :=
  match n with
  | O => Ok multiplier_total
  | S n =>
      let? running_multiplier := math_try (Decimal_mul running_multiplier decay) in
      let? multiplier_total := math_try (Decimal_add multiplier_total running_multiplier) in
      sum_multipliers n decay running_multiplier multiplier_total
  end.

Definition Faucet_configure (opts : FaucetOptions) : M Faucet unit :=
  do n <- liftM (u32_sub (uint_val (opt_num_periods opts)) 1);
  do multiplier_total <- liftM (sum_multipliers (Z.to_nat n) (opt_period_decay opts)
       (Decimal_from_u64 (to_uint 8 1)) (Decimal_from_u64 (to_uint 8 1)));
  fun self => (Ok tt, mkFaucet true (amount_minted self) (opt_start_seconds opts) multiplier_total
    (opt_total_coins opts) (opt_period_decay opts) (as_secs (opt_period_length opts)) (opt_num_periods opts)).

(** [for i in 0..self.num_periods], from [i] on with [n] periods left. *)
Fixpoint target_loop (n : nat) (self : Faucet) (seconds_since_start i : Z) (total running_multiplier : Decimal) : res Decimal :=
  match n with
  | O => Ok total
  | S n =>
      let? total_to_mint_this_period :=
        math_try (Decimal_div_MD (Amount_mul_Decimal (total_to_mint self) running_multiplier) (multiplier_total self)) in
      let per_period := wrap_i64 (uint_val (seconds_per_period self)) in
      let? period_end := i64_op ((i + 1) * per_period) in
      if seconds_since_start >? period_end then
        let? total := math_try (Decimal_add total total_to_mint_this_period) in
        let? running_multiplier := math_try (Decimal_mul running_multiplier (period_decay self)) in
        target_loop n self seconds_since_start (i + 1) total running_multiplier
      else
        let? period_start := i64_op (i * per_period) in
        let? seconds_into_period := i64_sub seconds_since_start period_start in
        let? period_fraction := math_try (Amount_div (Amount_of (wrap64 seconds_into_period)) (Amount_new (seconds_per_period self))) in
        math_try (Decimal_add_DM total (Decimal_mul period_fraction total_to_mint_this_period))
  end.
Definition target_amount_minted (self : Faucet) (seconds_since_start : Z) : res Amount :=
  let? total := target_loop (Z.to_nat (uint_val (num_periods self))) self seconds_since_start 0
       (Decimal_from_u64 (to_uint 8 0)) (Decimal_from_u64 (to_uint 8 1)) in
  Decimal_amount total.

Definition current_seconds (c : ContextMap) : res Z :=
  let? time := ok_or (Context_resolve (T := Time) c) (ECoins "No Time context") in
  Ok (Time_seconds time).

Definition set_minted (a : Amount) (self : Faucet) : Faucet :=
  mkFaucet (Fa_configured self) a (start_seconds self) (multiplier_total self) (total_to_mint self)
    (period_decay self) (seconds_per_period self) (num_periods self).

Definition Faucet_mint (c : ContextMap) : M Faucet Coin :=
  do self <- getM;
  if negb (Fa_configured self) then errM (ECoins "Faucet must be configured before minting")
  else
    do now <- liftM (current_seconds c);
    do seconds_since_start <- liftM (i64_sub now (start_seconds self));
    if seconds_since_start <=? 0 then retM (Coin_mint (Amount_of 0))
    else
      do target <- liftM (target_amount_minted self seconds_since_start);
      if Amount_ltb (amount_minted self) target then
        do delta <- liftM (math_try (Amount_sub target (amount_minted self)));
        run putM (set_minted target self);
        retM (Coin_mint delta)
      else retM (Coin_mint (Amount_of 0)).

(** ** What a history of calls mints *)

(** What the schedule allows at the time of the context, as far as [mint] gets to
    compute it. *)
Definition allowance (self : Faucet) (c : ContextMap) : option Amount :=
  match current_seconds c with
  | Ok now =>
      match i64_sub now (start_seconds self) with
      | Ok t => if t <=? 0 then None
                else match target_amount_minted self t with Ok a => Some a | _ => None end
      | _ => None
      end
  | _ => None
  end.

(** A sequence of calls, each in its own context; a call that fails hands out
    nothing. *)
Fixpoint mint_all (cs : list ContextMap) : Faucet -> list (res Coin) * Faucet :=
  match cs with
  | [] => fun self => ([], self)
  | c :: cs => fun self =>
      let '(r, self) := Faucet_mint c self in
      let '(rs, self) := mint_all cs self in
      (r :: rs, self)
  end.
Definition minted_val (r : res Coin) : Z := match r with Ok coin => coin_val coin | _ => 0 end.
Definition minted_total (rs : list (res Coin)) : Z := foldr (fun r acc => minted_val r + acc) 0 rs.

(** The most the schedule allowed at any of the times. *)
Definition max_allowance (self : Faucet) (cs : list ContextMap) : Z :=
  foldr (fun c acc => Z.max (match allowance self c with Some a => amt a | None => 0 end) acc) 0 cs.

Lemma target_set_minted a self t : target_amount_minted (set_minted a self) t = target_amount_minted self t.
Proof.
  unfold target_amount_minted. cbn [num_periods set_minted].
  assert (Hl : forall n i total rm, target_loop n (set_minted a self) t i total rm = target_loop n self t i total rm).
  { induction n as [|n IH]; intros i total rm; [done|]. cbn [target_loop]. cbn [set_minted total_to_mint multiplier_total seconds_per_period period_decay].
    repeat (case_match; try done). all: unfold res_bind; repeat (case_match; try done). all: apply IH. }
  by rewrite Hl.
Qed.
Lemma allowance_set_minted a self c : allowance (set_minted a self) c = allowance self c.
Proof.
  unfold allowance. cbn [start_seconds set_minted]. repeat (case_match; try done);
    rewrite target_set_minted in *; congruence.
Qed.

(** One call brings what has been minted up to the allowance, and hands out the
    difference. *)
Lemma Faucet_mint_eq c self :
  Fa_configured self = true ->
  exists r a, Faucet_mint c self = (r, set_minted a self) /\
    amt a = Z.max (amt (amount_minted self)) (match allowance self c with Some a => amt a | None => 0 end) /\
    minted_val r = amt a - amt (amount_minted self).
Proof.
  intros Hc. pose proof (amt_range (amount_minted self)) as [Hm _].
  assert (Hsame : forall r, minted_val r = 0 -> exists r' a, (r, self) = (r', set_minted a self) /\
    amt a = Z.max (amt (amount_minted self)) 0 /\ minted_val r' = amt a - amt (amount_minted self)).
  { intros r Hr. exists r, (amount_minted self). split; [by destruct self|]. lia. }
  unfold Faucet_mint, bindM, getM, allowance, liftM. rewrite Hc. cbn [negb].
  destruct (current_seconds c) as [now|?|?]; [|by apply Hsame..].
  destruct (i64_sub now (start_seconds self)) as [t|?|?]; [|by apply Hsame..].
  destruct (t <=? 0); [by apply Hsame|].
  destruct (target_amount_minted self t) as [target|?|?]; [|by apply Hsame..].
  unfold Amount_ltb. rewrite math_try_sub. pose proof (amt_range target) as [Ht1 Ht2].
  destruct (Z.ltb_spec (amt (amount_minted self)) (amt target)).
  - rewrite (proj2 (Z.leb_le _ _)) by lia. eexists _, target. split; [done|]. simpl minted_val.
    rewrite coin_val_mint, amt_of by (unfold is_u64; lia). lia.
  - eexists _, (amount_minted self). split; [by destruct self|]. simpl minted_val. split; [lia|].
    change (coin_val (Coin_mint (Amount_of 0))) with 0. lia.
Qed.

Lemma max_allowance_set_minted a self cs : max_allowance (set_minted a self) cs = max_allowance self cs.
Proof. induction cs as [|c cs IH]; [done|]. simpl. by rewrite allowance_set_minted, IH. Qed.

Lemma mint_all_spec cs : forall self, Fa_configured self = true ->
  exists a, (mint_all cs self).2 = set_minted a self /\
    amt a = Z.max (amt (amount_minted self)) (max_allowance self cs) /\
    minted_total (mint_all cs self).1 = amt a - amt (amount_minted self).
Proof.
  induction cs as [|c cs IH]; intros self Hc; simpl.
  - exists (amount_minted self). split; [by destruct self|]. pose proof (amt_range (amount_minted self)) as [? _]. lia.
  - destruct (Faucet_mint_eq c self Hc) as (r & a & -> & Ha & Hr).
    destruct (IH (set_minted a self) Hc) as (a' & Hs & Ha' & Ht). destruct (mint_all cs (set_minted a self)) as [rs self'].
    simpl in *. exists a'. split; [by rewrite Hs|]. rewrite max_allowance_set_minted in Ha'. lia.
Qed.

(** C19: Whatever the calls to a configured faucet, and whichever of them fail, the coins
    handed out in total are the growth of [amount_minted], which ends at the most the
    schedule allowed at any of the times called, or stays where it was: how often
    and in which order [mint] is called makes no difference, and nothing is minted
    twice. Only [amount_minted] changes. An unconfigured faucet mints nothing. *)
Theorem Faucet_mint_path_independent (cs : list ContextMap) (self : Faucet) :
  let '(rs, self') := mint_all cs self in
  if Fa_configured self then
    minted_total rs = amt (amount_minted self') - amt (amount_minted self) /\
    amt (amount_minted self') = Z.max (amt (amount_minted self)) (max_allowance self cs) /\
    self' = set_minted (amount_minted self') self
  else self' = self /\ Forall (fun r => r = Err (ECoins "Faucet must be configured before minting")) rs.
Proof.
  destruct (Fa_configured self) eqn:Hc.
  - pose proof (mint_all_spec cs self Hc) as (a & Hs & Ha & Ht). destruct (mint_all cs self) as [rs self'].
    simpl in *. subst self'. by split_and!.
  - assert (Hnone : mint_all cs self = (map (fun _ => Err (ECoins "Faucet must be configured before minting")) cs, self)).
    { induction cs as [|c cs IH]; [done|]. simpl. unfold Faucet_mint, bindM, getM. rewrite Hc. simpl. by rewrite IH. }
    rewrite Hnone. split; [done|]. apply Forall_map. by apply Forall_true.
Qed.
End Faucet.

(** Configuring with no periods does not fail with an error: it panics where
    arithmetic is checked. *)
Lemma Faucet_configure_no_periods `{Profile} `{NumDecimal} (opts : FaucetOptions) (self : Faucet) :
  overflow_checks = true -> uint_val (opt_num_periods opts) = 0 ->
  Faucet_configure opts self = (Panic "arithmetic overflow", self).
Proof. intros Ho Hn. unfold Faucet_configure, bindM, liftM, u32_sub. rewrite Hn. simpl. by rewrite Ho. Qed.

(** ** The schedules of the tests *)

#[local] Instance faucet_profile : Profile := {| overflow_checks := true; debug_assertions := true |}.

Definition at_seconds (t : Z) : ContextMap := snd (Context_add (Time_from_seconds t) ContextMap_empty).

(** Nine periods of ten seconds from second ten on, 210,000,000 coins. *)
Definition nine_periods (decay : MathResult Decimal) : res Faucet :=
  let? d := math_try decay in
  match Faucet_configure (mkFaucetOptions (to_uint 4 9) (mkDuration (to_uint 8 10) 0) (Amount_of 210000000) d 10) Faucet_default with
  | (Ok _, f) => Ok f
  | (Err e, _) => Err e
  | (Panic w, _) => Panic w
  end.
(** The tests' calls: every five seconds, none at thirty, two at sixty. *)
Definition test_calls : list ContextMap :=
  map at_seconds [0; 5; 10; 15; 20; 25; 35; 40; 45; 50; 55; 60; 60; 65; 70; 75; 80; 85; 90; 95; 100; 105; 110].
Definition test_amounts (decay : MathResult Decimal) : res (list Z) :=
  let? f := nine_periods decay in
  Ok (map minted_val (mint_all test_calls f).1).

Example halvenings :
  test_amounts (Amount_div (Amount_of 1) (Amount_of 2)) =
  Ok [0; 0; 0; 52602740; 52602739; 26301370; 39452055; 13150685; 6575343; 6575342;
      3287671; 3287671; 0; 1643836; 1643836; 821917; 821918; 410959; 410959; 205480; 205479; 0; 0].
Proof. vm_compute. reflexivity. Qed.
Example thirdenings :
  test_amounts (Amount_div (Amount_of 2) (Amount_of 3)) =
  Ok [0; 0; 0; 35934745; 35934745; 23956497; 39927495; 15970998; 10647332; 10647331;
      7098222; 7098221; 0; 4732148; 4732147; 3154765; 3154765; 2103177; 2103176; 1402118; 1402118; 0; 0].
Proof. vm_compute. reflexivity. Qed.
