(* ===== verification/Accounts.v ===== *)
(** * Accounts ([src/coins/accounts.rs])

    A single-asset ledger: a [Map] from addresses to coins, with transfers between
    the signer and others, and funding that moves coins into and out of the [Paid]
    context. Every operation is the source's, over the maps of [MapColl] and the
    context of [Context]; the theorems state what it does to the balances, and
    that no call creates value. *)

From stdpp Require Import base tactics numbers list strings gmap.
From Stdlib Require Import ZArith Lia.
From S2P Require Import Prelude Bytes BTree StoreIface StoreIter NullStore BufStore PrefixStore Codec StateIface StructState MapColl MapSpec MapProps MapCall Coins AbciTypes Address Context.

Record Accounts := mkAccounts {
  transfers_allowed : bool;
  transfer_exceptions : Map Address unit;
  accounts : Map Address Coin
}.

Section Ops.
Context {St : Type} `{Profile} `{CompatMode} `{Read St} `{!Write St} `{!Bounded St} `{Symbol}.
Implicit Types (b : St).

(** A method runs on the accounts and the global context. *)
Abbreviation AM := (M (Accounts * ContextMap)).
Definition in_accounts {A} (f : M (Map Address Coin) A) : AM A :=
  zoomM (fun p => accounts p.1)
    (fun m p => (mkAccounts (transfers_allowed p.1) (transfer_exceptions p.1) m, p.2)) f.
Definition in_context {A} (f : M ContextMap A) : AM A := zoomM snd (fun c p => (p.1, c)) f.

Definition Accounts_signer : AM Address :=
  readM (fun p =>
    let? signer := ok_or (Context_resolve (T := Signer) p.2) (ESigner "No Signer context available") in
    ok_or (Signer_signer signer) (ECoins "Unauthorized account action")).

Definition Accounts_take_own_coins b (amount : Amount) : AM Coin :=
  do signer <- Accounts_signer;
  in_accounts (Map_get_mut_call (ECoins "Insufficient funds") b signer (Coin_take amount)).

Definition Accounts_give_own_coins b (coins : Coin) : AM unit :=
  do signer <- Accounts_signer;
  in_accounts (Map_or_default_call Coin_new b signer (Coin_give coins)).

Definition Accounts_transfer b (to : Address) (amount : Amount) : AM unit :=
  do signer <- Accounts_signer;
  do may <- readM (fun p => if transfers_allowed p.1 then Ok true
                            else Map_contains_key b (transfer_exceptions p.1) signer);
  if negb may then errM (ECoins "Transfers are currently disabled")
  else
    do taken_coins <- Accounts_take_own_coins b amount;
    in_accounts (Map_or_default_call Coin_new b to (Coin_give taken_coins)).

Definition Accounts_take_as_funding b (amount : Amount) : AM unit :=
  do taken_coins <- Accounts_take_own_coins b amount;
  in_context (Context_call (ECoins "No Paid context found") (Paid_give (Coin_amount taken_coins))).

Definition Accounts_give_from_funding b (amount : Amount) : AM unit :=
  do taken_coins <- in_context (Context_call (ECoins "No Paid context found") (Paid_take amount));
  Accounts_give_own_coins b taken_coins.

Definition Accounts_give_from_funding_all b : AM unit :=
  do taken_coins <- in_context (Context_call (ECoins "No Paid context found")
    (do balance <- readM Paid_balance; Paid_take balance));
  Accounts_give_own_coins b taken_coins.

Definition Accounts_balance b (a : Accounts) (address : Address) : res Amount :=
  let? r := Map_get b (accounts a) address in
  Ok (match r with Some coin => Coin_amount (Ref_deref coin) | None => Amount_of 0 end).
Definition Accounts_exists b (a : Accounts) (address : Address) : res bool :=
  let? r := Map_get b (accounts a) address in
  Ok (match r with Some _ => true | None => false end).

Definition Accounts_allow_transfers (enabled : bool) : M Accounts unit := fun a =>
  (Ok tt, mkAccounts enabled (transfer_exceptions a) (accounts a)).
Definition Accounts_add_transfer_exception (address : Address) : M Accounts unit :=
  zoomM transfer_exceptions (fun m a => mkAccounts (transfers_allowed a) m (accounts a))
    (Map_insert (St := St) address tt).

Definition Accounts_deposit b (address : Address) (coins : Coin) : AM unit :=
  in_accounts (Map_or_default_call Coin_new b address (Coin_give coins)).
Definition Accounts_withdraw b (address : Address) (amount : Amount) : AM Coin :=
  in_accounts (Map_or_default_call Coin_new b address (Coin_take amount)).

(** The [#[call]] methods, as the derived call type dispatches them. *)
Inductive AccountsCall :=
| CallTransfer (to : Address) (amount : Amount)
| CallTakeAsFunding (amount : Amount)
| CallGiveFromFunding (amount : Amount)
| CallGiveFromFundingAll.
Definition Accounts_call b (call : AccountsCall) : AM unit :=
  match call with
  | CallTransfer to amount => Accounts_transfer b to amount
  | CallTakeAsFunding amount => Accounts_take_as_funding b amount
  | CallGiveFromFunding amount => Accounts_give_from_funding b amount
  | CallGiveFromFundingAll => Accounts_give_from_funding_all b
  end.
End Ops.

(** ** Balances *)

Section Spec.
Context `{Profile} `{CompatMode} `{WS : WriteSpec St} `{!Bounded St} `{!BoundedSpec St} `{Symbol}.
Implicit Types (b : St) (s : Store) (a : Accounts) (m : Map Address Coin) (k : Address).

(** What the ledger holds for each address. *)
Abbreviation ledger := (Address -> option (model (V := Coin))).
Definition bal (f : ledger) k : Z := match f k with Some x => model_val x | None => 0%Z end.
Definition total (f : ledger) (ks : list Address) : Z := foldr (fun k acc => (bal f k + acc)%Z) 0%Z ks.

(** [f'] is [f] with [d] more at [k]. *)
Definition moved (f f' : ledger) k (d : Z) : Prop :=
  forall j, bal f' j = (bal f j + if decide (j = k) then d else 0)%Z.

Lemma bal_range f k : is_u64 (bal f k).
Proof. unfold bal. destruct (f k); [apply model_val_range|done]. Qed.

Lemma moved_total f f' k d ks : moved f f' k d -> NoDup ks -> k ∈ ks -> total f' ks = (total f ks + d)%Z.
Proof.
  intros Hm. assert (Hout : forall l, k ∉ l -> total f' l = total f l).
  { induction l as [|j l IH]; [done|]. intros [Hj Hl]%not_elem_of_cons. simpl. rewrite IH by done.
    rewrite (Hm j), decide_False by done. lia. }
  induction 1 as [|j ks Hj Hnd IH]; [by intros ?%elem_of_nil|]. intros [->|Hk]%elem_of_cons; simpl.
  - rewrite (Hm j), decide_True, Hout by done. lia.
  - rewrite (Hm j), decide_False by (by intros ->). rewrite IH by done. lia.
Qed.

Lemma moved_upd f k x :
  moved f (upd f k (Some x)) k (model_val x - bal f k).
Proof.
  intros j. destruct (decide (j = k)) as [->|Hn].
  - unfold bal at 1. rewrite upd_same. lia.
  - unfold bal. rewrite upd_other by done. lia.
Qed.

Lemma moved_zero f f' k : moved f f' k 0 <-> forall j, bal f' j = bal f j.
Proof. split; intros Hm j; [rewrite (Hm j); case_decide; lia|rewrite (Hm j); case_decide; lia]. Qed.

(** The representation of a ledger. *)
Definition Accounts_abs s b a (f : ledger) : Prop :=
  Map_attached (Store_sub s [2%Z]) (accounts a) /\ Map_live (accounts a) /\ Map_abs b (accounts a) f.

(** Crediting and debiting one account. *)
Lemma credit_spec s b m f k c :
  Read_inv b -> Map_attached s m -> Map_live m -> Map_abs b m f ->
  exists m' f', Map_or_default_call Coin_new b k (Coin_give c) m =
    (if (bal f k + coin_val c <=? u64_max)%Z then Ok tt else Err EUnknown, m') /\
    Map_attached s m' /\ Map_live m' /\ Map_abs b m' f' /\
    moved f f' k (if (bal f k + coin_val c <=? u64_max)%Z then coin_val c else 0).
Proof.
  intros Hb Hm Hl Hf.
  destruct (Map_or_default_call_spec s b m f k Coin_new (model_of 0) (Coin_give c) Hb Hm Hf Hl) as (v & _ & Hx & Hcall).
  { apply coin_valid. }
  { intros v. simpl. intros [= <-]. apply coin_abs_of. }
  assert (Hv : coin_val v = bal f k).
  { rewrite (coin_abs_val _ _ _ Hx). unfold bal. by destruct (f k). }
  rewrite <- Hv. pose proof (amt_range (Coin_amount c)) as Hc. pose proof (bal_range f k) as Hk.
  pose proof (Coin_give_eq c v) as Hg.
  destruct (Z.leb_spec (coin_val v + coin_val c) u64_max) as [Hle|Hle].
  - destruct (Hcall _ _ (model_of (coin_val v + coin_val c)) Hg) as (m' & -> & Hm' & Hf' & Hl'); [done|apply coin_abs_of|].
    eexists _, _. split_and!; [done..|]. pose proof (moved_upd f k (model_of (coin_val v + coin_val c))) as Hmv.
    rewrite model_val_of in Hmv by (unfold is_u64 in *; change (coin_val c) with (amt (Coin_amount c)) in *; lia).
    by replace (coin_val v + coin_val c - bal f k)%Z with (coin_val c) in Hmv by lia.
  - destruct (Hcall _ _ (default (model_of 0) (f k)) Hg) as (m' & -> & Hm' & Hf' & Hl'); [done|done|].
    eexists _, _. split_and!; [done..|]. pose proof (moved_upd f k (default (model_of 0) (f k))) as Hmv.
    rewrite <- (coin_abs_val _ _ _ Hx), Hv, Z.sub_diag in Hmv. done.
Qed.

(** The account exists and holds the amount. *)
Definition has_funds (f : ledger) k (amount : Amount) : bool :=
  match f k with Some _ => (amt amount <=? bal f k)%Z | None => false end.

Lemma debit_spec s b m f k amount :
  Read_inv b -> Map_attached s m -> Map_live m -> Map_abs b m f ->
  let ok := has_funds f k amount in
  exists m' f', Map_get_mut_call (ECoins "Insufficient funds") b k (Coin_take amount) m =
    (if ok then Ok (Coin_mint amount) else Err (ECoins "Insufficient funds"), m') /\
    Map_attached s m' /\ Map_live m' /\ Map_abs b m' f' /\
    moved f f' k (if ok then (- amt amount) else 0)%Z.
Proof.
  intros Hb Hm Hl Hf. cbv zeta. unfold has_funds.
  pose proof (Map_get_mut_call_spec s b m f k (ECoins "Insufficient funds") (Coin_take amount) Hb Hm Hf Hl) as Hcall.
  pose proof (moved_upd f k) as Hmv. pose proof (bal_range f k) as Hr. pose proof (amt_range amount) as Ha.
  assert (bal f k = match f k with Some x => model_val x | None => 0%Z end) as Hbal by done.
  destruct (f k) as [x|] eqn:Ek.
  - destruct Hcall as (v & _ & Hx & Hcall). pose proof (coin_abs_val _ _ _ Hx) as Hv.
    pose proof (Coin_take_eq amount v) as Hg. rewrite !Hbal, <- !Hv. destruct (Z.leb_spec (amt amount) (coin_val v)) as [Hle|Hle].
    + destruct (Hcall _ _ (model_of (coin_val v - amt amount)) Hg) as (m' & -> & Hm' & Hf' & Hl'); [done|apply coin_abs_of|].
      eexists _, _. split_and!; [done..|].
      specialize (Hmv (model_of (coin_val v - amt amount))). rewrite model_val_of in Hmv by (unfold is_u64 in *; lia).
      rewrite Hbal, <- Hv in Hmv. by replace (coin_val v - amt amount - coin_val v)%Z with (- amt amount)%Z in Hmv by lia.
    + destruct (Hcall _ _ x Hg) as (m' & -> & Hm' & Hf' & Hl'); [done|done|].
      eexists _, _. split_and!; [done..|]. specialize (Hmv x). by rewrite Hbal, Z.sub_diag in Hmv.
  - rewrite Hcall. exists m, f. split_and!; [done..|]. by apply moved_zero.
Qed.
(** Only the balances change. *)
Definition same_flags a a' : Prop :=
  transfers_allowed a' = transfers_allowed a /\ transfer_exceptions a' = transfer_exceptions a.
Definition signed_by (c : ContextMap) k : Prop := Context_resolve c = Some (mkSigner (Some k)).

Lemma signer_ok a c k : signed_by c k -> Accounts_signer (a, c) = (Ok k, (a, c)).
Proof. unfold signed_by. intros Hc. unfold Accounts_signer, readM. simpl in *. by rewrite Hc. Qed.

Lemma deposit_spec s b a c f k coins :
  Read_inv b -> Accounts_abs s b a f ->
  let ok := (bal f k + coin_val coins <=? u64_max)%Z in
  exists a' f', Accounts_deposit b k coins (a, c) = (if ok then Ok tt else Err EUnknown, (a', c)) /\
    Accounts_abs s b a' f' /\ same_flags a a' /\ moved f f' k (if ok then coin_val coins else 0%Z).
Proof.
  intros Hb (Hm & Hl & Hf). cbv zeta. destruct (credit_spec _ b _ f k coins Hb Hm Hl Hf) as (m' & f' & Hc & ? & ? & ? & ?).
  unfold Accounts_deposit, in_accounts, zoomM. cbn [fst]. rewrite Hc. eexists _, f'. by split_and!.
Qed.

Lemma take_own_spec s b a c f from amount :
  Read_inv b -> Accounts_abs s b a f -> signed_by c from ->
  let ok := has_funds f from amount in
  exists a' f', Accounts_take_own_coins b amount (a, c) =
      (if ok then Ok (Coin_mint amount) else Err (ECoins "Insufficient funds"), (a', c)) /\
    Accounts_abs s b a' f' /\ same_flags a a' /\ moved f f' from (if ok then (- amt amount) else 0)%Z.
Proof.
  intros Hb (Hm & Hl & Hf) Hc. cbv zeta.
  destruct (debit_spec _ b _ f from amount Hb Hm Hl Hf) as (m' & f' & Hd & ? & ? & ? & ?).
  unfold Accounts_take_own_coins, bindM. rewrite (signer_ok a c from Hc).
  unfold in_accounts, zoomM. cbn [fst]. rewrite Hd. eexists _, f'. by split_and!.
Qed.

Lemma give_own_spec s b a c f k coins :
  Read_inv b -> Accounts_abs s b a f -> signed_by c k ->
  let ok := (bal f k + coin_val coins <=? u64_max)%Z in
  exists a' f', Accounts_give_own_coins b coins (a, c) = (if ok then Ok tt else Err EUnknown, (a', c)) /\
    Accounts_abs s b a' f' /\ same_flags a a' /\ moved f f' k (if ok then coin_val coins else 0%Z).
Proof.
  intros Hb Ha Hc. unfold Accounts_give_own_coins, bindM. rewrite (signer_ok a c k Hc). by apply deposit_spec.
Qed.

(** C6: [transfer] by a signer who may transfer and has the funds moves exactly the
    amount from the signer to the receiver and changes no other balance; a
    transfer to oneself changes none. Without the permission or the funds it
    fails and no balance changes; the only other failure is a receiver whose
    balance would not fit a [u64], and then the signer has already been debited.
    It never panics. *)
Theorem Accounts_transfer_moves s b a c f (fe : Address -> option unit) from to amount :
  Read_inv b -> Accounts_abs s b a f -> Map_abs b (transfer_exceptions a) fe -> signed_by c from ->
  exists r a' f', Accounts_transfer b to amount (a, c) = (r, (a', c)) /\ Accounts_abs s b a' f' /\ same_flags a a' /\
    (if transfers_allowed a || (if fe from is Some _ then true else false) then
       if has_funds f from amount then
         if bool_decide (to = from) || (bal f to + amt amount <=? u64_max)%Z
         then r = Ok tt /\ forall j, bal f' j = (bal f j - (if decide (j = from) then amt amount else 0)
                                                   + if decide (j = to) then amt amount else 0)%Z
         else r = Err EUnknown /\ moved f f' from (- amt amount)
       else r = Err (ECoins "Insufficient funds") /\ forall j, bal f' j = bal f j
     else r = Err (ECoins "Transfers are currently disabled") /\ a' = a /\ f' = f).
Proof.
  intros Hb Ha He Hc. unfold Accounts_transfer, bindM. rewrite (signer_ok a c from Hc).
  unfold readM at 1. cbn [fst]. pose proof (Map_contains_key_spec b _ _ from Hb He) as Hck. rewrite Hck.
  replace (if transfers_allowed a then Ok true else _)
    with (Ok (transfers_allowed a || (if fe from is Some _ then true else false))) by by destruct (transfers_allowed a).
  destruct (transfers_allowed a || _); simpl; [|exists (Err (ECoins "Transfers are currently disabled")), a, f; by split_and!].
  destruct (take_own_spec s b a c f from amount Hb Ha Hc) as (a1 & f1 & -> & Ha1 & [Hs1 Hs1'] & Hm1).
  destruct (has_funds f from amount) eqn:Eok.
  2:{ eexists _, a1, f1. split_and!; try done. by apply (proj1 (moved_zero f f1 from)). }
  destruct (deposit_spec s b a1 c f1 to (Coin_mint amount) Hb Ha1) as (a2 & f2 & Hd & Ha2 & [Hs2 Hs2'] & Hm2).
  unfold Accounts_deposit in Hd. rewrite Hd. eexists _, a2, f2. split; [done|]. split; [done|]. split; [by split; congruence|].
  rewrite coin_val_mint in *. clear Hd.
  assert (Hbal : (amt amount <= bal f from)%Z) by (unfold has_funds in Eok; destruct (f from); [by apply Z.leb_le|done]).
  pose proof (bal_range f from). pose proof (amt_range amount). unfold is_u64 in *.
  rewrite (Hm1 to) in *. destruct (decide (to = from)) as [->|Hn].
  - rewrite bool_decide_true by done. simpl. rewrite (proj2 (Z.leb_le _ _)) in * by lia. split; [done|].
    intros j. rewrite (Hm2 j), (Hm1 j). case_decide; lia.
  - rewrite bool_decide_false, Z.add_0_r in * by done. simpl. destruct (_ <=? u64_max)%Z; split; try done.
    + intros j. rewrite (Hm2 j), (Hm1 j). repeat case_decide; lia.
    + intros j. rewrite (Hm2 j), (Hm1 j). repeat case_decide; lia.
Qed.

(** The value in the ledger over the addresses [ks] and in the [Paid] context. *)
Definition funds (c : ContextMap) : Z :=
  match Context_resolve (T := Paid) c with Some p => paid_val (uint_val INDEX) p | None => 0%Z end.
Definition paid_flags (c : ContextMap) : option (bool * bool) :=
  (fun p => (running_payer p, fee_disabled p)) <$> ctx_paid c.
Definition receiver (call : AccountsCall) : list Address :=
  match call with CallTransfer to _ => [to] | _ => [] end.

Lemma Context_give_spec c amount :
  exists r c', Context_call (ECoins "No Paid context found") (Paid_give amount) c = (r, c') /\
    (forall w, r <> Panic w) /\ ctx_signer c' = ctx_signer c /\ paid_flags c' = paid_flags c /\
    funds c' = (funds c + if is_ok r then amt amount else 0)%Z.
Proof.
  unfold Context_call, funds, Paid_give, Context_resolve. simpl. destruct (ctx_paid c) as [p|] eqn:Ep.
  - destruct (Paid_give_denom_spec amount (uint_val INDEX) p) as (p' & -> & Hr & Hd & Hv).
    eexists _, _. split; [done|]. unfold paid_flags. simpl. rewrite Ep. simpl. rewrite Hv, Hr, Hd, decide_True by done.
    by destruct (_ <=? _)%Z.
  - eexists _, c. split; [done|]. split; [done|]. split; [done|]. split; [done|]. by rewrite Ep.
Qed.

Lemma Context_take_spec c amount :
  exists r c', Context_call (ECoins "No Paid context found") (Paid_take amount) c = (r, c') /\
    (r = Ok (Coin_mint amount) \/ exists e, r = Err e) /\ ctx_signer c' = ctx_signer c /\ paid_flags c' = paid_flags c /\
    funds c' = (funds c - if is_ok r then amt amount else 0)%Z.
Proof.
  unfold Context_call, funds, Paid_take, Context_resolve, bindM. simpl. destruct (ctx_paid c) as [p|] eqn:Ep.
  - destruct (Paid_take_denom_spec amount (uint_val INDEX) p) as (p' & -> & Hr & Hd & Hv).
    specialize (Hv (uint_val INDEX)). rewrite decide_True in Hv by done. unfold paid_flags.
    destruct (_ <=? _)%Z; eexists _, _; (split; [done|]); simpl; rewrite Ep; simpl; rewrite Hv, Hr, Hd; (split; [eauto|]); by split_and!.
  - eexists _, c. split; [done|]. split; [eauto|]. split; [done|]. split; [done|]. rewrite Ep. simpl. lia.
Qed.

(** A call conserves the value in the ledger and the context when it succeeds,
    and never adds to it. *)
Definition conserves s b a c f (ks : list Address) (out : res unit * (Accounts * ContextMap)) : Prop :=
  (forall w, out.1 <> Panic w) /\
  same_flags a out.2.1 /\ ctx_signer out.2.2 = ctx_signer c /\ paid_flags out.2.2 = paid_flags c /\
  exists f', Accounts_abs s b out.2.1 f' /\
    (out.1 = Ok tt -> total f' ks + funds out.2.2 = total f ks + funds c)%Z /\
    (total f' ks + funds out.2.2 <= total f ks + funds c)%Z.

Section Conserve.
Context (s : Store) (b : St) (a : Accounts) (c : ContextMap) (f : ledger) (from : Address) (ks : list Address).
Hypothesis Hb : Read_inv b.
Hypothesis Ha : Accounts_abs s b a f.
Hypothesis Hc : signed_by c from.
Hypothesis Hks : NoDup ks.
Hypothesis Hfrom : from ∈ ks.

Lemma transfer_conserves fe to amount :
  Map_abs b (transfer_exceptions a) fe -> to ∈ ks -> conserves s b a c f ks (Accounts_transfer b to amount (a, c)).
Proof.
  intros He Hto. unfold Accounts_transfer, bindM. rewrite (signer_ok a c from Hc). unfold readM at 1. cbn [fst].
  pose proof (Map_contains_key_spec b _ _ from Hb He) as ->.
  replace (if transfers_allowed a then Ok true else _)
    with (Ok (transfers_allowed a || (if fe from is Some _ then true else false))) by by destruct (transfers_allowed a).
  destruct (transfers_allowed a || _); simpl; [|split_and!; [done..|]; exists f; split_and!; done].
  destruct (take_own_spec s b a c f from amount Hb Ha Hc) as (a1 & f1 & -> & Ha1 & Hs1 & Hm1).
  apply moved_total with (ks := ks) in Hm1; [|done..]. destruct (has_funds f from amount).
  2:{ destruct Hs1 as [? ?]. split_and!; [done..|]. exists f1. simpl. rewrite Hm1. split_and!; [done..|lia]. }
  destruct (deposit_spec s b a1 c f1 to (Coin_mint amount) Hb Ha1) as (a2 & f2 & Hd & Ha2 & Hs2 & Hm2).
  unfold Accounts_deposit in Hd. rewrite Hd. apply moved_total with (ks := ks) in Hm2; [|done..].
  pose proof (amt_range amount) as [? _]. rewrite coin_val_mint in *.
  assert (same_flags a a2) as [? ?] by (destruct Hs1, Hs2; split; congruence).
  destruct (_ <=? _)%Z; (split_and!; [done..|]); exists f2; simpl; rewrite Hm2, Hm1; split_and!; try done; lia.
Qed.

Lemma take_as_funding_conserves amount : conserves s b a c f ks (Accounts_take_as_funding b amount (a, c)).
Proof.
  unfold Accounts_take_as_funding, bindM.
  destruct (take_own_spec s b a c f from amount Hb Ha Hc) as (a1 & f1 & -> & Ha1 & Hs1 & Hm1).
  apply moved_total with (ks := ks) in Hm1; [|done..]. destruct (has_funds f from amount).
  2:{ destruct Hs1 as [? ?]. split_and!; [done..|]. exists f1. simpl. rewrite Hm1. split_and!; [done..|lia]. }
  unfold in_context, zoomM. cbn [snd Coin_mint Coin_amount field0]. change (Coin_amount (Coin_mint amount)) with amount.
  destruct (Context_give_spec c amount) as (r & c' & -> & Hr & Hs & Hpf & Hf).
  pose proof (amt_range amount) as [? _]. destruct Hs1 as [? ?]. split_and!; [done..|]. exists f1. cbn [fst snd]. rewrite Hm1, Hf.
  split_and!; [done..| |]; [intros ->; simpl; lia|]. destruct (is_ok r); lia.
Qed.

Lemma give_own_conserves c' amount :
  ctx_signer c' = ctx_signer c -> paid_flags c' = paid_flags c -> funds c' = (funds c - amt amount)%Z ->
  conserves s b a c f ks (Accounts_give_own_coins b (Coin_mint amount) (a, c')).
Proof.
  intros Hs Hpf Hf. assert (Hc' : signed_by c' from) by (unfold signed_by, Context_resolve in *; simpl in *; congruence).
  destruct (give_own_spec s b a c' f from (Coin_mint amount) Hb Ha Hc') as (a1 & f1 & -> & Ha1 & Hs1 & Hm1).
  apply moved_total with (ks := ks) in Hm1; [|done..]. rewrite coin_val_mint in *. pose proof (amt_range amount) as [? _].
  destruct Hs1 as [? ?].
  destruct (_ <=? _)%Z; (split_and!; [done..|]); exists f1; simpl; rewrite Hm1, Hf; split_and!; try done; lia.
Qed.

Lemma give_from_funding_conserves amount : conserves s b a c f ks (Accounts_give_from_funding b amount (a, c)).
Proof.
  unfold Accounts_give_from_funding, bindM, in_context, zoomM. cbn [snd fst].
  destruct (Context_take_spec c amount) as (r & c' & -> & [->|[e ->]] & Hs & Hpf & Hf); cbn [is_ok] in Hf.
  - by apply give_own_conserves.
  - split_and!; [done..|]. exists f. simpl. rewrite Hf. split_and!; [done..|lia].
Qed.

Lemma give_from_funding_all_conserves : conserves s b a c f ks (Accounts_give_from_funding_all b (a, c)).
Proof.
  unfold Accounts_give_from_funding_all, bindM at 1, in_context, zoomM. cbn [snd fst].
  destruct (ctx_paid c) as [p|] eqn:Ep.
  - destruct (Context_take_spec c (Paid_entry (uint_val INDEX) p)) as (r & c' & Ht & Hr & Hs & Hpf & Hf).
    assert (He : Context_call (ECoins "No Paid context found")
        (do balance <- readM Paid_balance; Paid_take balance) c = (r, c')).
    { rewrite <- Ht. unfold Context_call, Context_resolve. simpl. rewrite Ep. unfold bindM at 1, readM, Paid_balance, Paid_entry.
      by destruct (Paid_map p !! uint_val INDEX). }
    rewrite He. destruct Hr as [->|[e ->]]; cbn [is_ok] in Hf.
    + by apply give_own_conserves.
    + split_and!; [done..|]. exists f. simpl. rewrite Hf. split_and!; [done..|lia].
  - unfold Context_call, Context_resolve. simpl. rewrite Ep. split_and!; [done..|]. exists f. by split_and!.
Qed.

Lemma call_conserves fe call :
  Map_abs b (transfer_exceptions a) fe -> (forall k, k ∈ receiver call -> k ∈ ks) ->
  conserves s b a c f ks (Accounts_call b call (a, c)).
Proof.
  intros He Hto. destruct call as [to amount|amount|amount|]; simpl.
  - eapply transfer_conserves; try done. apply Hto. left.
  - by eapply take_as_funding_conserves.
  - by eapply give_from_funding_conserves.
  - by eapply give_from_funding_all_conserves.
Qed.
End Conserve.

(** C5: no account call creates value. Whatever the call (a transfer, funding
    taken or given back), when it succeeds the balances of the ledger together
    with the funds in the [Paid] context sum to what they were, over any set of
    addresses that has the signer and the receiver; when it fails they sum to no
    more. No call panics. *)
Theorem Accounts_calls_conserve s b a c f (fe : Address -> option unit) from ks call :
  Read_inv b -> Accounts_abs s b a f -> Map_abs b (transfer_exceptions a) fe -> signed_by c from ->
  NoDup ks -> from ∈ ks -> (forall k, k ∈ receiver call -> k ∈ ks) ->
  exists r a' c' f', Accounts_call b call (a, c) = (r, (a', c')) /\ (forall w, r <> Panic w) /\
    Accounts_abs s b a' f' /\
    (r = Ok tt -> total f' ks + funds c' = total f ks + funds c)%Z /\
    (total f' ks + funds c' <= total f ks + funds c)%Z.
Proof.
  intros Hb Ha He Hc Hks Hfrom Hto.
  pose proof (call_conserves s b a c f from ks Hb Ha Hc Hks Hfrom _ call He Hto) as Hcons.
  destruct (Accounts_call b call (a, c)) as [r [a' c']]. destruct Hcons as (Hp & _ & _ & _ & f' & Ha' & H1' & H2').
  exists r, a', c', f'. by split_and!.
Qed.
End Spec.

(** *** Witnesses: one account with 100 coins, transfers allowed *)

#[export] Instance ex_symbol : Symbol := {| INDEX := to_uint 1 42; NAME := "TEST" |}.
#[local] Instance ex_compat : CompatMode := {| compat_mode := false |}.
Definition ex_addr (z : Z) : Address := mkAddress (to_uint 20 z).
Definition ex_astore : MapStore := mkBufStore [] mkEmpty.
Definition ex_accounts : Accounts :=
  mkAccounts true (mkMap (mkStore [7; 1]%Z) [])
    (mkMap (mkStore [7; 2]%Z) [(enc (ex_addr 1), (ex_addr 1, Some (Coin_mint (Amount_of 100))))]).
Definition ex_ledger (k : Address) : option (model (St := MapStore) (V := Coin)) :=
  if decide (k = ex_addr 1) then Some (model_of (St := MapStore) 100) else None.
Definition ex_ctx : ContextMap :=
  mkContextMap (Some (mkSigner (Some (ex_addr 1)))) (Some Paid_default) None AbciCtx_empty.

Lemma ex_astore_inv : Read_inv ex_astore.
Proof. split; [by repeat constructor|done]. Qed.
Lemma ex_astore_view : view ex_astore = ∅.
Proof. by vm_compute. Qed.
Lemma ex_accounts_abs : Accounts_abs (mkStore [7]%Z) ex_astore ex_accounts ex_ledger.
Proof.
  split_and!.
  - split_and!; [done|by repeat constructor|]. constructor; [|constructor]. by split.
  - constructor; [by eexists|constructor].
  - intros k. cbn [Map_children accounts ex_accounts bt_get Map_store]. unfold ex_ledger.
    destruct (beqb_spec (enc k) (enc (ex_addr 1))) as [->%enc_inj|Hk].
    + rewrite decide_True by done. split; [done|]. apply coin_abs_of.
    + rewrite decide_False by congruence. unfold store_holds. by rewrite ex_astore_view, lookup_empty.
Qed.
Lemma ex_exceptions_abs : Map_abs ex_astore (transfer_exceptions ex_accounts) (fun _ : Address => None : option unit).
Proof. intros k. cbn [Map_children transfer_exceptions ex_accounts bt_get]. unfold store_holds. by rewrite ex_astore_view, lookup_empty. Qed.

Lemma Accounts_transfer_moves_witness :
  exists r a' f', Accounts_transfer ex_astore (ex_addr 2) (Amount_of 30) (ex_accounts, ex_ctx) = (r, (a', ex_ctx)) /\
    Accounts_abs (mkStore [7]%Z) ex_astore a' f' /\ same_flags ex_accounts a' /\
    (r = Ok tt /\ forall j, bal f' j = (bal ex_ledger j - (if decide (j = ex_addr 1) then 30 else 0)
                                          + if decide (j = ex_addr 2) then 30 else 0)%Z).
Proof.
  pose proof (Accounts_transfer_moves (mkStore [7]%Z) ex_astore ex_accounts ex_ctx) as Hthm.
  apply (Hthm ex_ledger (fun _ => None) (ex_addr 1) (ex_addr 2) (Amount_of 30)
           ex_astore_inv ex_accounts_abs ex_exceptions_abs eq_refl).
Defined.

Lemma Accounts_calls_conserve_witness :
  exists r a' c' f', Accounts_call ex_astore (CallTakeAsFunding (Amount_of 30)) (ex_accounts, ex_ctx) = (r, (a', c')) /\
    (forall w, r <> Panic w) /\ Accounts_abs (mkStore [7]%Z) ex_astore a' f' /\
    (r = Ok tt -> total f' [ex_addr 1] + funds c' = total ex_ledger [ex_addr 1] + funds ex_ctx)%Z /\
    (total f' [ex_addr 1] + funds c' <= total ex_ledger [ex_addr 1] + funds ex_ctx)%Z.
Proof.
  pose proof (Accounts_calls_conserve (mkStore [7]%Z) ex_astore ex_accounts ex_ctx) as Hthm.
  apply (Hthm ex_ledger (fun _ => None) (ex_addr 1) [ex_addr 1] (CallTakeAsFunding (Amount_of 30))
           ex_astore_inv ex_accounts_abs ex_exceptions_abs eq_refl).
  - apply NoDup_singleton.
  - by left.
  - by intros k ?%elem_of_nil.
Defined.
