(* ===== verification/Plugins.v ===== *)
(** * Call plugins ([src/plugins/nonce.rs], [payable.rs], [fee.rs], [chain_commitment.rs])

    A plugin wraps an inner value and its calls: [ChainCommitmentPlugin] checks
    the chain, [NoncePlugin] the replay protection, [PayablePlugin] pairs a payer
    with a paid call and [FeePlugin] deducts the fee. The inner value is any type
    with a [Call] ([src/call.rs], [trait Call]); the plugins compose as in
    [DefaultPlugins]. *)

From stdpp Require Import base tactics numbers list strings gmap.
From Stdlib Require Import ZArith Lia.
From S2P Require Import Prelude Bytes BTree StoreIface StoreIter NullStore BufStore PrefixStore Codec StateIface StructState MapColl MapSpec MapProps MapCall Coins Address Context.

(** [trait Call]: the call type [C] of a value, and running a call on it. *)
Class Call (T C : Type) := { Call_call : C -> M (T * ContextMap) unit }.

(** ** [NoncePlugin] *)

Definition NONCE_INCREASE_LIMIT : Z := 1000.

Record NoncePlugin (T : Type) := mkNoncePlugin { Nonce_map : Map Address u64; Nonce_inner : T }.
Arguments mkNoncePlugin {T} _ _.
Arguments Nonce_map {T} _.
Arguments Nonce_inner {T} _.
Record NonceCall (C : Type) := mkNonceCall { NonceCall_nonce : option u64; NonceCall_inner_call : C }.
Arguments mkNonceCall {C} _ _.
Arguments NonceCall_nonce {C} _.
Arguments NonceCall_inner_call {C} _.

Section NonceOps.
Context {St : Type} `{Profile} `{CompatMode} `{Read St} `{!Write St} `{!Bounded St}.
Context {T C : Type} {CT : Call T C}.
Implicit Types (b : St).

Definition Nonce_nonce b (p : NoncePlugin T) (address : Address) : res u64 :=
  let? r := Map_get_or_default (to_uint 8 0) b (Nonce_map p) address in Ok (Ref_deref r).

Definition in_nonces {A} (f : M (Map Address u64) A) : M (NoncePlugin T * ContextMap) A :=
  zoomM (fun p => Nonce_map p.1) (fun m p => (mkNoncePlugin m (Nonce_inner p.1), p.2)) f.
Definition in_nonce_inner {A} (f : M (T * ContextMap) A) : M (NoncePlugin T * ContextMap) A :=
  zoomM (fun p => (Nonce_inner p.1, p.2)) (fun ic p => (mkNoncePlugin (Nonce_map p.1) ic.1, ic.2)) f.

(** The message of a refused nonce computes the accepted range. *)
Definition Nonce_call b (call : NonceCall C) : M (NoncePlugin T * ContextMap) unit :=
  do signer <- readM (fun p =>
    ok_or (Context_resolve (T := Signer) p.2) (ENonce "Nonce could not resolve the Signer context"));
  match Signer_signer signer, NonceCall_nonce call with
  | Some pub_key, Some nonce =>
      do e <- in_nonces (Map_entry b pub_key);
      do child <- in_nonces (Entry_or_default (St := St) (to_uint 8 0) e);
      do expected_nonce <- readM (fun p => ChildMut_deref (Nonce_map p.1) child);
      if (uint_val nonce <=? uint_val expected_nonce)%Z then
        do lo <- liftM (u64_add (uint_val expected_nonce) 1);
        do hi <- liftM (u64_add (uint_val expected_nonce) NONCE_INCREASE_LIMIT);
        errM (ENonce "Nonce is not valid.")
      else
        do increase <- liftM (u64_sub (uint_val nonce) (uint_val expected_nonce));
        if (NONCE_INCREASE_LIMIT <? increase)%Z then errM (ENonce "Nonce increase is too large")
        else
          run in_nonces (ChildMut_modify child (fun _ => nonce));
          in_nonce_inner (Call_call (NonceCall_inner_call call))
  | None, None => in_nonce_inner (Call_call (NonceCall_inner_call call))
  | Some _, None => errM (ENonce "Signed calls must include a nonce")
  | None, Some _ => errM (ENonce "Unsigned calls must not include a nonce")
  end.
#[export] Instance NoncePlugin_Call b : Call (NoncePlugin T) (NonceCall C) := {| Call_call := Nonce_call b |}.
End NonceOps.

(** ** [PayablePlugin] *)

Record PaidCall (C : Type) := mkPaidCall { PaidCall_payer : C; PaidCall_paid : C }.
Arguments mkPaidCall {C} _ _.
Arguments PaidCall_payer {C} _.
Arguments PaidCall_paid {C} _.
Inductive PayableCall (C : Type) := PayablePaid (calls : PaidCall C) | PayableUnpaid (call : C).
Arguments PayablePaid {C} _.
Arguments PayableUnpaid {C} _.

(** The plugin struct only wraps [inner]; it is the inner value here. *)
Record PayablePlugin (T : Type) := mkPayablePlugin { Payable_inner : T }.
Arguments mkPayablePlugin {T} _.
Arguments Payable_inner {T} _.

Section PayableOps.
Context {T C : Type} {CT : Call T C}.

Definition in_payable_inner {A} (f : M (T * ContextMap) A) : M (PayablePlugin T * ContextMap) A :=
  zoomM (fun p => (Payable_inner p.1, p.2)) (fun ic p => (mkPayablePlugin ic.1, ic.2)) f.
Definition in_payable_ctx {A} (f : M ContextMap A) : M (PayablePlugin T * ContextMap) A :=
  zoomM snd (fun c p => (p.1, c)) f.

Definition set_running_payer (v : bool) : M Paid unit := fun p =>
  (Ok tt, mkPaid (Paid_map p) v (fee_disabled p)).

(** [self.context::<Paid>().unwrap()] *)
Definition unwrap_paid {A} (g : M Paid A) : M ContextMap A := fun c =>
  match Context_resolve (T := Paid) c with
  | Some p => let '(r, p') := g p in (r, ctx_set (Some p') c)
  | None => (Panic "called `Option::unwrap()` on a `None` value", c)
  end.

Definition Payable_call (call : PayableCall C) : M (PayablePlugin T * ContextMap) unit :=
  run in_payable_ctx (Context_remove (T := Paid));
  match call with
  | PayableUnpaid call => in_payable_inner (Call_call call)
  | PayablePaid calls =>
      let ctx := mkPaid (Paid_map Paid_default) true (fee_disabled Paid_default) in
      run in_payable_ctx (Context_add ctx);
      run in_payable_inner (Call_call (PaidCall_payer calls));
      run in_payable_ctx (unwrap_paid (set_running_payer false));
      run in_payable_inner (Call_call (PaidCall_paid calls));
      retM tt
  end.
#[export] Instance PayablePlugin_Call : Call (PayablePlugin T) (PayableCall C) := {| Call_call := Payable_call |}.
End PayableOps.

(** ** [FeePlugin] *)

Definition MIN_FEE : Amount := Amount_of 10000.

Record FeePlugin (T : Type) := mkFeePlugin { Fee_inner : T }.
Arguments mkFeePlugin {T} _.
Arguments Fee_inner {T} _.

Section FeeOps.
Context `{Symbol} {T C : Type} {CT : Call T C}.

Definition in_fee_inner {A} (f : M (T * ContextMap) A) : M (FeePlugin T * ContextMap) A :=
  zoomM (fun p => (Fee_inner p.1, p.2)) (fun ic p => (mkFeePlugin ic.1, ic.2)) f.
Definition in_fee_ctx {A} (f : M ContextMap A) : M (FeePlugin T * ContextMap) A :=
  zoomM snd (fun c p => (p.1, c)) f.

(** [if !paid.running_payer && !paid.fee_disabled { paid.take(MIN_FEE)?.burn() }] *)
Definition Fee_take_fee : M Paid unit :=
  do running <- readM (fun p => Ok (negb (running_payer p) && negb (fee_disabled p)));
  if running : bool then
    do fee_payment <- Paid_take MIN_FEE;
    retM (Coin_burn fee_payment)
  else retM tt.

Definition Fee_call (call : C) : M (FeePlugin T * ContextMap) unit :=
  run in_fee_ctx (Context_call (ECoins "Minimum fee not paid") Fee_take_fee);
  in_fee_inner (Call_call call).
#[export] Instance FeePlugin_Call : Call (FeePlugin T) C := {| Call_call := Fee_call |}.
End FeeOps.

(** [disable_fee()] *)
Definition disable_fee : M ContextMap unit := fun c =>
  match Context_resolve (T := Paid) c with
  | Some paid => (Ok tt, ctx_set (Some (mkPaid (Paid_map paid) (running_payer paid) true)) c)
  | None => (Ok tt, c)
  end.

(** ** [ChainCommitmentPlugin] *)

(** [String::from_utf8] succeeds on the well-formed sequences of the Unicode
    standard (table 3-7). *)
Definition is_cont (b : Z) : bool := ((128 <=? b) && (b <=? 191))%Z.
Definition in_rangeb (lo hi b : Z) : bool := ((lo <=? b) && (b <=? hi))%Z.
Fixpoint utf8_valid (fuel : nat) (bs : bytes) : bool :=
  match fuel, bs with
  | _, [] => true
  | O, _ => false
  | S n, b :: r =>
      if in_rangeb 0 127 b then utf8_valid n r
      else if in_rangeb 194 223 b then
        match r with c :: r' => is_cont c && utf8_valid n r' | _ => false end
      else if in_rangeb 224 239 b then
        match r with
        | c :: d :: r' =>
            (if b =? 224 then in_rangeb 160 191 c else if b =? 237 then in_rangeb 128 159 c else is_cont c)%Z
              && is_cont d && utf8_valid n r'
        | _ => false
        end
      else if in_rangeb 240 244 b then
        match r with
        | c :: d :: e :: r' =>
            (if b =? 240 then in_rangeb 144 191 c else if b =? 244 then in_rangeb 128 143 c else is_cont c)%Z
              && is_cont d && is_cont e && utf8_valid n r'
        | _ => false
        end
      else false
  end.
Definition from_utf8_unwrap (bs : bytes) : res bytes :=
  if utf8_valid (length bs) bs then Ok bs else Panic "called `Result::unwrap()` on an `Err` value".

(** [chain_id] is a [LengthVec<u8, u8>]: its bytes. *)
Record ChainCommitmentPlugin (T : Type) := mkChainCommitment { CC_chain_id : bytes; CC_inner : T }.
Arguments mkChainCommitment {T} _ _.
Arguments CC_chain_id {T} _.
Arguments CC_inner {T} _.

Section ChainOps.
Context {T C : Type} {CT : Call T C} `{Decode C}.

Definition in_cc_inner {A} (f : M (T * ContextMap) A) : M (ChainCommitmentPlugin T * ContextMap) A :=
  zoomM (fun p => (CC_inner p.1, p.2)) (fun ic p => (mkChainCommitment (CC_chain_id p.1) ic.1, ic.2)) f.
Definition in_cc_ctx {A} (f : M ContextMap A) : M (ChainCommitmentPlugin T * ContextMap) A :=
  zoomM snd (fun c p => (p.1, c)) f.

Definition CC_call (call : bytes) : M (ChainCommitmentPlugin T * ContextMap) unit :=
  do chain_id <- readM (fun p => Ok (CC_chain_id p.1));
  if length chain_id =? 0 then errM (EApp "Chain ID not set")
  else if length call <? length chain_id then errM (EApp "Invalid chain ID length")
  else
    let call_chain_id := take (length chain_id) call in
    if negb (beqb call_chain_id chain_id) then
      (** the message shows the chain's identifier as text *)
      do shown <- liftM (from_utf8_unwrap chain_id);
      errM (EApp "Invalid chain ID")
    else
      do inner_call <- liftM (Decode_decode (drop (length chain_id) call));
      do id <- liftM (from_utf8_unwrap chain_id);
      run in_cc_ctx (Context_add (mkChainId id));
      in_cc_inner (Call_call (C := C) inner_call.1).
End ChainOps.
