(* ===== verification/PaidCalls.v ===== *)
(** * Paid calls: [PayablePlugin] over [FeePlugin], and over [Accounts]

    The composition of the two plugins is characterised for any inner value, and
    then instantiated with the ledger: what a paid pair of account calls does to
    the sum of the balances. The encoding of the pair ([PaidCall]) is here too. *)

From stdpp Require Import base tactics numbers list strings gmap.
From Stdlib Require Import ZArith Lia.
From S2P Require Import Prelude Bytes BTree StoreIface StoreIter NullStore BufStore PrefixStore Codec StateIface StructState MapColl MapSpec MapProps MapCall Coins AbciTypes Address Context Accounts Plugins.

(** The context a payer call starts in. *)
Definition payer_ctx (c : ContextMap) : ContextMap :=
  ctx_set (Some (mkPaid ∅ true false)) (ctx_set (None : option Paid) c).

Definition with_paid (p : Paid) (c : ContextMap) : ContextMap := ctx_set (Some p) c.
Definition stop_payer (p : Paid) : Paid := mkPaid (Paid_map p) false (fee_disabled p).

Section PayFee.
Context `{Symbol} {T C : Type} {CT : Call T C}.
Implicit Types (t : T) (c : ContextMap).

(** The two plugins around an inner value. *)
Definition paid_app (t : T) : PayablePlugin (FeePlugin T) := mkPayablePlugin (mkFeePlugin t).
Definition app_out (out : res unit * (T * ContextMap)) : res unit * (PayablePlugin (FeePlugin T) * ContextMap) :=
  (out.1, (paid_app out.2.1, out.2.2)).

Lemma Fee_take_fee_running p : running_payer p = true -> Fee_take_fee p = (Ok tt, p).
Proof. intros Hp. unfold Fee_take_fee, bindM, readM. by rewrite Hp. Qed.
Lemma Fee_take_fee_disabled p : fee_disabled p = true -> Fee_take_fee p = (Ok tt, p).
Proof. intros Hp. unfold Fee_take_fee, bindM, readM. by rewrite Hp, andb_false_r. Qed.

Lemma Fee_take_fee_due p :
  running_payer p = false -> fee_disabled p = false ->
  exists p', Fee_take_fee p =
    (if (10000 <=? paid_val (uint_val INDEX) p)%Z then Ok tt else Err (ECoins "Insufficient funding for paid call"), p') /\
    running_payer p' = false /\ fee_disabled p' = false /\
    forall d, paid_val d p' = (paid_val d p -
      if (10000 <=? paid_val (uint_val INDEX) p)%Z then if decide (d = uint_val INDEX) then 10000 else 0 else 0)%Z.
Proof.
  intros Hr Hd. destruct (Paid_take_denom_spec MIN_FEE (uint_val INDEX) p) as (p' & Ht & Hr' & Hd' & Hv).
  exists p'. rewrite Hr', Hd'. change (amt MIN_FEE) with 10000%Z in *.
  split; [|done]. unfold Fee_take_fee, bindM, readM. rewrite Hr, Hd. simpl. unfold Paid_take, bindM. rewrite Ht.
  by destruct (_ <=? _)%Z.
Qed.

(** The fee plugin's call in a context with funds. *)
Lemma Fee_call_eq ic t c p r p' :
  ctx_paid c = Some p -> Fee_take_fee p = (r, p') ->
  Fee_call ic (mkFeePlugin t, c) =
  match r with
  | Ok _ => let '(r', (t', c')) := Call_call ic (t, with_paid p' c) in (r', (mkFeePlugin t', c'))
  | Err e => (Err e, (mkFeePlugin t, with_paid p' c))
  | Panic w => (Panic w, (mkFeePlugin t, with_paid p' c))
  end.
Proof.
  intros Hp Ht. unfold Fee_call, bindM, in_fee_ctx, Context_call, zoomM, Context_resolve. simpl. rewrite Hp, Ht.
  destruct r; [|done..]. unfold in_fee_inner, zoomM. simpl. unfold with_paid. simpl.
  by destruct (Call_call ic _) as [r' [t' c']].
Qed.

Lemma with_paid_eta c p : ctx_paid c = Some p -> with_paid p c = c.
Proof. destruct c as [s o i]. simpl. by intros ->. Qed.

(** The payer half runs without a fee in a fresh [Paid] context; what follows
    depends on its outcome. *)
Definition after_payer (paid : C) (out : res unit * (T * ContextMap))
  : res unit * (PayablePlugin (FeePlugin T) * ContextMap) :=
  match out with
  | (Ok _, (t1, c1)) =>
      match ctx_paid c1 with
      | Some p1 =>
          let '(r, (f, c2)) := Fee_call paid (mkFeePlugin t1, with_paid (stop_payer p1) c1) in (r, (mkPayablePlugin f, c2))
      | None => (Panic "called `Option::unwrap()` on a `None` value", (paid_app t1, c1))
      end
  | (Err e, (t1, c1)) => (Err e, (paid_app t1, c1))
  | (Panic w, (t1, c1)) => (Panic w, (paid_app t1, c1))
  end.

Lemma Payable_call_paid payer paid t c :
  Payable_call (PayablePaid (mkPaidCall payer paid)) (paid_app t, c) =
  after_payer paid (Call_call payer (t, payer_ctx c)).
Proof.
  unfold Payable_call, bindM at 1, in_payable_ctx at 1, zoomM at 1, Context_remove.
  cbn [fst snd]. unfold bindM at 1, in_payable_ctx at 1, zoomM at 1, Context_add. cbn [fst snd].
  change (mkPaid (Paid_map Paid_default) true (fee_disabled Paid_default)) with (mkPaid ∅ true false).
  fold (payer_ctx c). unfold bindM at 1, in_payable_inner at 1, zoomM at 1. cbn [fst snd Payable_inner paid_app PaidCall_payer Call_call FeePlugin_Call].
  rewrite (Fee_call_eq payer t (payer_ctx c) (mkPaid ∅ true false) (Ok tt) (mkPaid ∅ true false)) by done.
  rewrite with_paid_eta by done. destruct (Call_call payer (t, payer_ctx c)) as [[[]|e|w] [t1 c1]]; [|done..].
  unfold after_payer. cbn [fst snd].
  unfold bindM at 1, in_payable_ctx, zoomM at 1, unwrap_paid, Context_resolve. cbn [fst snd ctx_get Paid_InContext].
  destruct (ctx_paid c1) as [p1|]; [|done].
  cbn [set_running_payer]. unfold bindM, in_payable_inner, zoomM. cbn [fst snd Payable_inner PaidCall_paid].
  fold (stop_payer p1). fold (with_paid (stop_payer p1) c1).
  destruct (Fee_call paid _) as [r [f c2]]. by destruct r as [[]| |].
Qed.

(** with fees required, a paid pair of calls takes exactly the minimum fee out of
    what the payer call put into the [Paid] context before the paid call starts,
    and the paid call does not start if that is not enough; an unpaid call never
    reaches the inner value. This holds for any inner value whose payer call
    leaves the [Paid] context there and does not disable the fee. *)
Theorem paid_call_takes_fee payer paid t c t1 c1 p1 :
  Call_call payer (t, payer_ctx c) = (Ok tt, (t1, c1)) -> ctx_paid c1 = Some p1 -> fee_disabled p1 = false ->
  (forall ic, Payable_call (PayableUnpaid ic) (paid_app t, c) =
     (Err (ECoins "Minimum fee not paid"), (paid_app t, ctx_set (None : option Paid) c))) /\
  exists p2, running_payer p2 = false /\
    Payable_call (PayablePaid (mkPaidCall payer paid)) (paid_app t, c) =
      (if (10000 <=? paid_val (uint_val INDEX) p1)%Z then app_out (Call_call paid (t1, with_paid p2 c1))
       else (Err (ECoins "Insufficient funding for paid call"), (paid_app t1, with_paid p2 c1))) /\
    forall d, paid_val d p2 = (paid_val d p1 -
      if (10000 <=? paid_val (uint_val INDEX) p1)%Z then if decide (d = uint_val INDEX) then 10000 else 0 else 0)%Z.
Proof.
  intros Hpayer Hp1 Hd. split; [done|].
  destruct (Fee_take_fee_due (stop_payer p1) eq_refl Hd) as (p2 & Ht & Hr & _ & Hv).
  exists p2. split; [done|]. split; [|exact Hv]. rewrite Payable_call_paid, Hpayer. unfold after_payer. rewrite Hp1.
  rewrite (Fee_call_eq paid t1 (with_paid (stop_payer p1) c1) (stop_payer p1) _ p2 eq_refl Ht).
  change (paid_val (uint_val INDEX) (stop_payer p1)) with (paid_val (uint_val INDEX) p1).
  change (with_paid p2 (with_paid (stop_payer p1) c1)) with (with_paid p2 c1).
  destruct (_ <=? _)%Z; [|done]. by destruct (Call_call paid _) as [r [t' c']].
Qed.
End PayFee.

(** ** Paid calls on a ledger *)

Section PaidAccounts.
Context `{Profile} `{CompatMode} `{WS : WriteSpec St} `{!Bounded St} `{!BoundedSpec St} `{Symbol}.
Implicit Types (s : Store) (b : St) (a : Accounts) (c : ContextMap).

#[local] Instance Accounts_Call (b : St) : Call Accounts AccountsCall := {| Call_call := Accounts_call b |}.

Lemma funds_with_paid p c : funds (with_paid p c) = paid_val (uint_val INDEX) p.
Proof. done. Qed.

(** C28: a paid pair of account calls that succeeds takes exactly the fee out of the
    ledger, together with what is left over in the [Paid] context; a pair that
    fails, at either call or at the fee, never leaves more in the ledger and the
    context than there was. It never panics. *)
Theorem paid_account_calls_conserve s b a c f (fe : Address -> option unit) from ks payer paid :
  Read_inv b -> Accounts_abs s b a f -> Map_abs b (transfer_exceptions a) fe -> signed_by c from ->
  NoDup ks -> from ∈ ks -> (forall k, k ∈ receiver payer ++ receiver paid -> k ∈ ks) ->
  exists r a' c' f',
    Payable_call (CT := FeePlugin_Call (CT := Accounts_Call b)) (PayablePaid (mkPaidCall payer paid)) (paid_app a, c)
      = (r, (paid_app a', c')) /\
    (forall w, r <> Panic w) /\ Accounts_abs s b a' f' /\
    (r = Ok tt -> total f' ks + funds c' + 10000 = total f ks)%Z /\
    (total f' ks + funds c' <= total f ks)%Z.
Proof.
  intros Hb Ha He Hc Hks Hfrom Hto. assert (Hc0 : signed_by (payer_ctx c) from) by exact Hc.
  assert (Hf0 : funds (payer_ctx c) = 0%Z) by done. rewrite Payable_call_paid. cbn [Call_call Accounts_Call].
  pose proof (call_conserves s b a (payer_ctx c) f from ks Hb Ha Hc0 Hks Hfrom _ payer He
    (fun k Hk => Hto k (proj2 (elem_of_app _ _ _) (or_introl Hk)))) as Hcons.
  destruct (Accounts_call b payer (a, payer_ctx c)) as [r1 [a1 c1]].
  destruct Hcons as (Hnp & [Hs1 Hs2] & Hsig & Hfl & f1 & Ha1 & Hok & Hle). cbn [fst snd] in *. rewrite Hf0 in *.
  destruct r1 as [[]|e|w]; [|exists (Err e), a1, c1, f1; split_and!; [done..|lia]|by destruct (Hnp w)].
  specialize (Hok eq_refl). unfold after_payer.
  unfold paid_flags in Hfl. simpl in Hfl. destruct (ctx_paid c1) as [p1|] eqn:Ep1; [|done]. injection Hfl as Hrun Hdis.
  assert (Hfp : funds c1 = paid_val (uint_val INDEX) p1) by (unfold funds, Context_resolve; simpl; by rewrite Ep1).
  destruct (Fee_take_fee_due (stop_payer p1) eq_refl Hdis) as (p2 & Ht & _ & _ & Hv).
  rewrite (Fee_call_eq paid a1 (with_paid (stop_payer p1) c1) (stop_payer p1) _ p2 eq_refl Ht).
  change (with_paid p2 (with_paid (stop_payer p1) c1)) with (with_paid p2 c1).
  change (paid_val (uint_val INDEX) (stop_payer p1)) with (paid_val (uint_val INDEX) p1) in *.
  specialize (Hv (uint_val INDEX)). change (paid_val (uint_val INDEX) (stop_payer p1)) with (paid_val (uint_val INDEX) p1) in Hv.
  rewrite decide_True in Hv by done.
  destruct (_ <=? _)%Z.
  2:{ exists (Err (ECoins "Insufficient funding for paid call")), a1, (with_paid p2 c1), f1. rewrite funds_with_paid.
      split_and!; [done..|lia]. }
  assert (Hc2 : signed_by (with_paid p2 c1) from) by (unfold signed_by, Context_resolve in *; simpl in *; congruence).
  rewrite <- Hs2 in He.
  pose proof (call_conserves s b a1 (with_paid p2 c1) f1 from ks Hb Ha1 Hc2 Hks Hfrom _ paid He
    (fun k Hk => Hto k (proj2 (elem_of_app _ _ _) (or_intror Hk)))) as Hcons2.
  cbn [Call_call Accounts_Call]. destruct (Accounts_call b paid (a1, with_paid p2 c1)) as [r2 [a2 c2]].
  destruct Hcons2 as (Hnp2 & _ & _ & _ & f2 & Ha2 & Hok2 & Hle2). cbn [fst snd] in *. rewrite funds_with_paid in *.
  exists r2, a2, c2, f2. split_and!; try done; [|lia]. intros Hr. specialize (Hok2 Hr). lia.
Qed.
End PaidAccounts.

(** ** The encoding of a [PaidCall] *)

Definition MAX_SUBCALL_LEN : Z := 200000.

Section PaidCallCodec.
Context {C : Type} `{Encode C} `{Decode C}.

(** [len().try_into()] to a [u32]. *)
Definition u32_len (bs : bytes) : res u32 :=
  if (Z.of_nat (length bs) <? 2 ^ 32)%Z then Ok (to_uint 4 (Z.of_nat (length bs)))
  else Err (EEd "Unexpected byte: 0").
Definition PaidCall_encode (c : PaidCall C) : res bytes :=
  let? payer_call_bytes := Encode_encode (PaidCall_payer c) in
  let? payer_call_len := u32_len payer_call_bytes in
  let? paid_call_bytes := Encode_encode (PaidCall_paid c) in
  let? paid_call_len := u32_len paid_call_bytes in
  let? l1 := Encode_encode payer_call_len in
  let? l2 := Encode_encode paid_call_len in
  Ok (l1 ++ payer_call_bytes ++ l2 ++ paid_call_bytes).

(** [reader.read_exact] into a buffer of [n] bytes. *)
Definition read_exact (n : nat) (bs : bytes) : res (bytes * bytes) :=
  if length bs <? n then Err (EEd "failed to fill whole buffer") else Ok (take n bs, drop n bs).

Definition PaidCall_decode (bs : bytes) : res (PaidCall C * bytes) :=
  let? '(payer_call_len, bs) := Decode_decode (K := u32) bs in
  if (MAX_SUBCALL_LEN <? uint_val payer_call_len)%Z then Err (EEd "Unexpected byte: 32")
  else
    let? '(payer_call_bytes, bs) := read_exact (Z.to_nat (uint_val payer_call_len)) bs in
    let? '(paid_call_len, bs) := Decode_decode (K := u32) bs in
    if (MAX_SUBCALL_LEN <? uint_val payer_call_len)%Z then Err (EEd "Unexpected byte: 32")
    else
      let? '(paid_call_bytes, bs) := read_exact (Z.to_nat (uint_val paid_call_len)) bs in
      let? payer := Decode_decode payer_call_bytes in
      let? paid := Decode_decode paid_call_bytes in
      Ok (mkPaidCall payer.1 paid.1, bs).
End PaidCallCodec.

Section PaidCallSpec.
Context `{CS : CodecSpec C}.

Lemma u32_len_ok bs : (Z.of_nat (length bs) < 2 ^ 32)%Z ->
  exists n, u32_len bs = Ok n /\ uint_val n = Z.of_nat (length bs).
Proof.
  intros Hl. exists (to_uint 4 (Z.of_nat (length bs))). unfold u32_len. rewrite (proj2 (Z.ltb_lt _ _)) by done.
  split; [done|]. simpl. unfold uint_wrap. apply Z.mod_small. change (256 ^ Z.of_nat 4)%Z with (2 ^ 32)%Z. lia.
Qed.

Lemma read_exact_app bs rest n : n = length bs -> read_exact n (bs ++ rest) = Ok (bs, rest).
Proof.
  intros ->. unfold read_exact. rewrite length_app, (proj2 (Nat.ltb_ge _ _)) by lia.
  by rewrite take_app_length, drop_app_length.
Qed.

Lemma decode_u32 (n : u32) rest : Decode_decode (enc n ++ rest) = Ok (n, rest).
Proof. by apply decode_enc; left. Qed.

(** decoding what [PaidCall::encode] wrote gives the pair back and consumes
    exactly its bytes, [encoding_length] of them. The limit on the length of a
    call is applied to the payer call only: a payer call longer than 200000 bytes
    is refused, a paid call of any length (below 2^32) is accepted. *)
Theorem PaidCall_roundtrip payer paid rest :
  (Z.of_nat (length (enc payer)) < 2 ^ 32)%Z -> (Z.of_nat (length (enc paid)) < 2 ^ 32)%Z ->
  exists bs, PaidCall_encode (mkPaidCall payer paid) = Ok bs /\
    length bs = length (enc payer) + length (enc paid) + 8 /\
    PaidCall_decode (bs ++ rest) =
      (if (MAX_SUBCALL_LEN <? Z.of_nat (length (enc payer)))%Z then Err (EEd "Unexpected byte: 32")
       else Ok (mkPaidCall payer paid, rest)).
Proof.
  intros H1' H2'. destruct (u32_len_ok _ H1') as (n1 & Hn1 & Hv1). destruct (u32_len_ok _ H2') as (n2 & Hn2 & Hv2).
  exists (enc n1 ++ enc payer ++ enc n2 ++ enc paid). split; [|split].
  - unfold PaidCall_encode. cbn [PaidCall_payer PaidCall_paid]. rewrite !encode_enc. simpl. rewrite Hn1. simpl.
    by rewrite Hn2.
  - assert (Hlen : forall n : u32, length (enc n) = 4).
    { intros n. change (length (to_be_bytes 4 (uint_val n)) = 4). by rewrite to_be_bytes_length. }
    rewrite !length_app, !Hlen. lia.
  - unfold PaidCall_decode. rewrite <- !app_assoc, decode_u32. cbn [res_bind]. rewrite Hv1.
    destruct (MAX_SUBCALL_LEN <? _)%Z; [done|].
    rewrite read_exact_app by lia. cbn [res_bind]. rewrite decode_u32. cbn [res_bind].
    rewrite read_exact_app by lia. cbn [res_bind].
    rewrite <- (app_nil_r (enc payer)), <- (app_nil_r (enc paid)), !decode_enc by by right. done.
Qed.
End PaidCallSpec.

(** *** Witnesses *)

(** An inner value whose every call adds 12000 to the funds. *)
#[local] Instance funder_Call : Call nat unit :=
  {| Call_call := fun _ p =>
       let '(r, c) := Context_call (ECoins "No Paid context found") (Paid_give (Amount_of 12000)) p.2 in (r, (S p.1, c)) |}.

Lemma paid_call_takes_fee_witness :
  exists p2, running_payer p2 = false /\ paid_val 42 p2 = 2000%Z /\
    Payable_call (PayablePaid (mkPaidCall tt tt)) (paid_app 0, ContextMap_empty) =
      app_out (Call_call tt (1, mkContextMap None (Some p2) None AbciCtx_empty)).
Proof.
  destruct (paid_call_takes_fee tt tt 0 ContextMap_empty 1
    (mkContextMap None (Some (mkPaid {[ 42%Z := Amount_of 12000 ]} true false)) None AbciCtx_empty)
    (mkPaid {[ 42%Z := Amount_of 12000 ]} true false)) as [_ (p2 & Hr & Hc & Hv)]; [by vm_compute|done|done|].
  exists p2. split; [done|]. split; [|exact Hc]. specialize (Hv 42%Z). by vm_compute in Hv.
Defined.

#[local] Instance ex_compat2 : CompatMode := {| compat_mode := false |}.

Definition ex_rich : Accounts :=
  mkAccounts true (mkMap (mkStore [7; 1]%Z) [])
    (mkMap (mkStore [7; 2]%Z) [(enc (ex_addr 1), (ex_addr 1, Some (Coin_mint (Amount_of 50000))))]).
Definition ex_rich_ledger (k : Address) : option (model (St := MapStore) (V := Coin)) :=
  if decide (k = ex_addr 1) then Some (model_of (St := MapStore) 50000) else None.
Lemma ex_rich_abs : Accounts_abs (mkStore [7]%Z) ex_astore ex_rich ex_rich_ledger.
Proof.
  split_and!.
  - split_and!; [done|by repeat constructor|]. constructor; [|constructor]. by split.
  - constructor; [by eexists|constructor].
  - intros k. cbn [Map_children accounts ex_rich bt_get Map_store]. unfold ex_rich_ledger.
    destruct (beqb_spec (enc k) (enc (ex_addr 1))) as [->%enc_inj|Hk].
    + rewrite decide_True by done. split; [done|]. apply coin_abs_of.
    + rewrite decide_False by congruence. unfold store_holds. by rewrite ex_astore_view, lookup_empty.
Qed.

(** Putting up 10000 for the fee and then sending 30 to another account. *)
Lemma paid_account_calls_conserve_witness :
  exists r a' c' f',
    Payable_call (CT := FeePlugin_Call (CT := Accounts_Call ex_astore))
      (PayablePaid (mkPaidCall (CallTakeAsFunding MIN_FEE) (CallTransfer (ex_addr 2) (Amount_of 30))))
      (paid_app ex_rich, ex_ctx) = (r, (paid_app a', c')) /\
    (forall w, r <> Panic w) /\ Accounts_abs (mkStore [7]%Z) ex_astore a' f' /\
    (r = Ok tt -> total f' [ex_addr 1; ex_addr 2] + funds c' + 10000 = total ex_rich_ledger [ex_addr 1; ex_addr 2])%Z /\
    (total f' [ex_addr 1; ex_addr 2] + funds c' <= total ex_rich_ledger [ex_addr 1; ex_addr 2])%Z.
Proof.
  pose proof (paid_account_calls_conserve (mkStore [7]%Z) ex_astore ex_rich ex_ctx) as Hthm.
  apply (Hthm ex_rich_ledger (fun _ => None) (ex_addr 1) [ex_addr 1; ex_addr 2]
           (CallTakeAsFunding MIN_FEE) (CallTransfer (ex_addr 2) (Amount_of 30))
           ex_astore_inv ex_rich_abs ex_exceptions_abs eq_refl).
  - apply NoDup_cons. split; [|apply NoDup_singleton]. rewrite list_elem_of_singleton. intros He%(f_equal (fun a => uint_val (Address_bytes a))). by vm_compute in He.
  - by left.
  - intros k Hk. simpl in Hk. right. exact Hk.
Defined.

Lemma PaidCall_roundtrip_witness :
  exists bs, PaidCall_encode (mkPaidCall (to_uint 1 3) (to_uint 1 4)) = Ok bs /\ length bs = 10 /\
    PaidCall_decode (bs ++ [9]%Z) = Ok (mkPaidCall (to_uint 1 3) (to_uint 1 4), [9]%Z).
Proof.
  destruct (PaidCall_roundtrip (to_uint 1 3) (to_uint 1 4) [9]%Z) as (bs & He & Hl & Hd); [by vm_compute..|].
  exists bs. split; [exact He|]. split; [exact Hl|]. rewrite Hd. by vm_compute.
Defined.
