(* ===== verification/AbciStore.v ===== *)
(** * What the ABCI server needs of a store ([src/abci/mod.rs])

    The [ABCIStore] trait and its in-memory implementation [MemStore]; the
    messages of [tendermint_proto], which are parameters; and [StoreProg], the
    code an application runs on the store it is handed: a handler receives a
    handle and can only read and write through it, so it is a finite tree of
    store operations, each of which may branch on the answer (also on an error,
    or on a panic it catches). *)

From stdpp Require Import base tactics numbers list strings gmap.
From Stdlib Require Import ZArith Lia.
From S2P Require Import Prelude Bytes BTree StoreIface StoreIter NullStore BufStore.

(** ** Code that uses a store *)

Inductive StoreProg (A : Type) :=
| PRet (r : res A)
| PGet (key : bytes) (f : res (option bytes) -> StoreProg A)
| PGetNext (key : bytes) (f : res (option KV) -> StoreProg A)
| PGetPrev (key : option bytes) (f : res (option KV) -> StoreProg A)
| PPut (key value : bytes) (f : res unit -> StoreProg A)
| PDelete (key : bytes) (f : res unit -> StoreProg A).
Arguments PRet {A} r.
Arguments PGet {A} key f.
Arguments PGetNext {A} key f.
Arguments PGetPrev {A} key f.
Arguments PPut {A} key value f.
Arguments PDelete {A} key f.

Fixpoint run_prog `{Read St} `{!Write St} {A} (p : StoreProg A) : M St A := fun s =>
  match p with
  | PRet r => (r, s)
  | PGet key f => run_prog (f (Read_get s key)) s
  | PGetNext key f => run_prog (f (Read_get_next s key)) s
  | PGetPrev key f => run_prog (f (Read_get_prev s key)) s
  | PPut key value f => let '(r, s') := Write_put key value s in run_prog (f r) s'
  | PDelete key f => let '(r, s') := Write_delete key s in run_prog (f r) s'
  end.

(** A program that looks keys up and writes, but does not iterate. *)
Fixpoint point_prog {A} (p : StoreProg A) : Prop :=
  match p with
  | PRet _ => True
  | PGet _ f => forall r, point_prog (f r)
  | PGetNext _ _ | PGetPrev _ _ => False
  | PPut _ _ f | PDelete _ f => forall r, point_prog (f r)
  end.

(** What a program means, on a finite map instead of a store. *)
Definition view_next (v : View) (key : bytes) : option KV :=
  head (range_entries v (Excluded key) Unbounded).
Definition view_prev (v : View) (key : option bytes) : option KV :=
  last (range_entries v Unbounded (if key is Some key then Excluded key else Unbounded)).

Fixpoint exec {A} (p : StoreProg A) (v : View) : res A * View :=
  match p with
  | PRet r => (r, v)
  | PGet key f => exec (f (Ok (v !! key))) v
  | PGetNext key f => exec (f (Ok (view_next v key))) v
  | PGetPrev key f => exec (f (Ok (view_prev v key))) v
  | PPut key value f => exec (f (Ok tt)) (<[key := value]> v)
  | PDelete key f => exec (f (Ok tt)) (delete key v)
  end.

(** ** Messages *)

(** The requests and responses of [tendermint_proto::v0_34::abci], with the
    fields the server reads, and the text an error is displayed as (derived by
    [thiserror]). *)
Class Messages := {
  Header : Type;
  Header_height : Header -> Z;
  Header_time_seconds : Header -> option Z;
  RequestInitChain : Type;
  RequestBeginBlock : Type;
  RequestBeginBlock_header : RequestBeginBlock -> option Header;
  RequestDeliverTx : Type;
  RequestEndBlock : Type;
  RequestEndBlock_height : RequestEndBlock -> Z;
  RequestCheckTx : Type;
  RequestQuery : Type;
  Snapshot : Type;
  (** [Snapshot { chunks, hash, height, ..Default::default() }] *)
  Snapshot_of : forall (chunks : Z) (hash : bytes) (height : Z), Snapshot;
  Snapshot_chunks : Snapshot -> Z;
  Snapshot_hash : Snapshot -> bytes;
  Snapshot_height : Snapshot -> Z;
  RequestOfferSnapshot : Type;
  RequestOfferSnapshot_snapshot : RequestOfferSnapshot -> option Snapshot;
  RequestOfferSnapshot_app_hash : RequestOfferSnapshot -> bytes;
  RequestLoadSnapshotChunk : Type;
  RequestLoadSnapshotChunk_height : RequestLoadSnapshotChunk -> Z;
  RequestLoadSnapshotChunk_chunk : RequestLoadSnapshotChunk -> Z;
  RequestApplySnapshotChunk : Type;
  RequestApplySnapshotChunk_chunk : RequestApplySnapshotChunk -> bytes;
  RequestApplySnapshotChunk_index : RequestApplySnapshotChunk -> Z;
  RequestApplySnapshotChunk_sender : RequestApplySnapshotChunk -> string;
  ResponseInitChain : Type;
  ResponseInitChain_default : ResponseInitChain;
  ResponseBeginBlock : Type;
  ResponseBeginBlock_default : ResponseBeginBlock;
  ResponseDeliverTx : Type;
  ResponseDeliverTx_default : ResponseDeliverTx;
  ResponseEndBlock : Type;
  ResponseEndBlock_default : ResponseEndBlock;
  ResponseCheckTx : Type;
  ResponseCheckTx_default : ResponseCheckTx;
  ResponseQuery : Type;
  ResponseQuery_default : ResponseQuery;
  (** [ResponseQuery { code, log, info, height, .. }], its other fields empty. *)
  ResponseQuery_failed : forall (code : Z) (log info : string) (height : Z), ResponseQuery;
  ResponseOfferSnapshot : Type;
  ResponseOfferSnapshot_default : ResponseOfferSnapshot;
  (** The default response with its result set. *)
  ResponseOfferSnapshot_reject : ResponseOfferSnapshot;
  ResponseOfferSnapshot_accept : ResponseOfferSnapshot;
  Error_to_string : Error -> string
}.

(** ** [trait ABCIStore] *)

Class ABCIStore `{Messages} (St : Type) `{Read St} `{!Write St} := {
  ABCIStore_height : St -> res Z;
  ABCIStore_root_hash : St -> res bytes;
  ABCIStore_commit : Header -> M St unit;
  ABCIStore_list_snapshots : St -> res (list Snapshot);
  ABCIStore_load_snapshot_chunk : St -> RequestLoadSnapshotChunk -> res bytes;
  ABCIStore_offer_snapshot : RequestOfferSnapshot -> M St ResponseOfferSnapshot;
  ABCIStore_apply_snapshot_chunk : RequestApplySnapshotChunk -> M St unit
}.

(** ** [MemStore] *)

Record MemStore := mkMemStore { MemStore_height : Z; MemStore_store : MapStore }.

Definition MemStore_new : MemStore := mkMemStore 0 MapStore_new.

Definition MemStore_get (s : MemStore) (key : bytes) : res (option bytes) :=
  Read_get (MemStore_store s) key.
Definition MemStore_get_next (s : MemStore) (key : bytes) : res (option KV) :=
  Read_get_next (MemStore_store s) key.
Definition MemStore_get_prev (s : MemStore) (key : option bytes) : res (option KV) :=
  Read_get_prev (MemStore_store s) key.

Definition in_MemStore {A} : M MapStore A -> M MemStore A :=
  zoomM MemStore_store (fun t s => mkMemStore (MemStore_height s) t).
Definition MemStore_put (key value : bytes) : M MemStore unit := in_MemStore (Write_put key value).
Definition MemStore_delete (key : bytes) : M MemStore unit := in_MemStore (Write_delete key).

#[export] Instance MemStore_Read : Read MemStore :=
  {| Read_get := MemStore_get; Read_get_next := MemStore_get_next; Read_get_prev := MemStore_get_prev |}.
#[export] Instance MemStore_Write : Write MemStore :=
  {| Write_put := MemStore_put; Write_delete := MemStore_delete |}.

Section MemStore.
Context `{Messages}.
Definition MemStore_commit (header : Header) : M MemStore unit := fun s =>
  (Ok tt, mkMemStore (wrap64 (Header_height header)) (MemStore_store s)).

#[export] Instance MemStore_ABCIStore : ABCIStore MemStore :=
  {| ABCIStore_height s := Ok (MemStore_height s);
     ABCIStore_root_hash s := Ok [];
     ABCIStore_commit := MemStore_commit;
     ABCIStore_list_snapshots s := Ok [];
     ABCIStore_load_snapshot_chunk s _ := Panic "not implemented";
     ABCIStore_offer_snapshot _ := retM ResponseOfferSnapshot_default;
     ABCIStore_apply_snapshot_chunk _ := panicM "not implemented" |}.
End MemStore.

(** ** The laws the server's theorems are proved against

    [iter] says whether the store's iteration can be relied on; without it only
    lookups and writes can. *)

Class StoreLaws (iter : bool) (St : Type) `{Read St} `{!Write St} := {
  law_inv : St -> Prop;
  law_view : St -> View;
  law_get s k : law_inv s -> Read_get s k = Ok (law_view s !! k);
  law_get_next s k :
    iter = true -> law_inv s -> exists r, Read_get_next s k = Ok r /\ is_first (law_view s) (blt k) r;
  law_get_prev s k :
    iter = true -> law_inv s -> exists r, Read_get_prev s k = Ok r /\ is_last (law_view s) (before k) r;
  law_put s k x :
    law_inv s -> exists s', Write_put k x s = (Ok tt, s') /\ law_inv s' /\ law_view s' = <[k := x]> (law_view s);
  law_delete s k :
    law_inv s -> exists s', Write_delete k s = (Ok tt, s') /\ law_inv s' /\ law_view s' = delete k (law_view s)
}.

Class ABCIStoreLaws (iter : bool) (St : Type) `{AS : ABCIStore St} `{!StoreLaws iter St} := {
  (** The headers the store can commit. *)
  law_header : Header -> Prop;
  law_commit s h :
    law_inv s -> law_header h -> exists s', ABCIStore_commit h s = (Ok tt, s') /\ law_inv s' /\
      law_view s' = law_view s /\ ABCIStore_height s' = Ok (wrap64 (Header_height h));
  law_root_hash s : law_inv s -> exists hash, ABCIStore_root_hash s = Ok hash
}.

(** A store that keeps the full contract and accepts every key. *)
Section FullLaws.
Context `{WS : WriteSpec St} (all : forall s k, writable s k).

Definition full_StoreLaws iter : StoreLaws iter St.
Proof.
  refine {| law_inv := Read_inv; law_view := view |}.
  - apply Read_get_spec.
  - intros s k _. apply Read_get_next_spec.
  - intros s k _. apply Read_get_prev_spec.
  - intros s k x Hs. destruct (Write_put_spec s k x Hs (all _ _)) as (s' & H1 & H2 & H3 & _). eauto.
  - intros s k Hs. destruct (Write_delete_spec s k Hs) as (s' & H1 & H2 & H3 & _). eauto.
Defined.
End FullLaws.

#[export] Instance MapStore_StoreLaws iter : StoreLaws iter MapStore :=
  full_StoreLaws (fun _ _ => I) iter.

#[export] Instance MemStore_StoreLaws iter : StoreLaws iter MemStore.
Proof.
  refine {| law_inv s := law_inv (StoreLaws := MapStore_StoreLaws iter) (MemStore_store s);
            law_view s := law_view (StoreLaws := MapStore_StoreLaws iter) (MemStore_store s) |}.
  - intros s k Hs. exact (law_get (MemStore_store s) k Hs).
  - intros s k Hi Hs. exact (law_get_next (MemStore_store s) k Hi Hs).
  - intros s k Hi Hs. exact (law_get_prev (MemStore_store s) k Hi Hs).
  - intros s k x Hs. destruct (law_put (MemStore_store s) k x Hs) as (t & Hp & Ht & Hv).
    exists (mkMemStore (MemStore_height s) t). unfold Write_put at 1; simpl.
    unfold MemStore_put, in_MemStore, zoomM. by rewrite Hp.
  - intros s k Hs. destruct (law_delete (MemStore_store s) k Hs) as (t & Hp & Ht & Hv).
    exists (mkMemStore (MemStore_height s) t). unfold Write_delete at 1; simpl.
    unfold MemStore_delete, in_MemStore, zoomM. by rewrite Hp.
Defined.

#[export] Instance MemStore_ABCIStoreLaws `{Messages} iter : ABCIStoreLaws iter MemStore.
Proof. refine {| law_header _ := True |}; [intros s h Hs _; by eexists|by eexists]. Defined.

(** ** A write buffer keeps the laws *)

Section BufLaws.
Context {iter : bool} `{SL : StoreLaws iter St}.

Definition laws_ReadSpec (Hi : iter = true) : ReadSpec St :=
  {| Read_inv := law_inv; view := law_view; Read_get_spec := law_get;
     Read_get_next_spec s k := law_get_next s k Hi;
     Read_get_prev_spec s k := law_get_prev s k Hi |}.

Definition buf_inv (b : BufStore St) : Prop := bt_wf (BufStore_map b) /\ law_inv (BufStore_store b).
Definition buf_view (b : BufStore St) : View :=
  overlay (bt_map (BufStore_map b)) (law_view (BufStore_store b)).

#[export] Instance BufStore_StoreLaws : StoreLaws iter (BufStore St).
Proof.
  refine {| law_inv := buf_inv; law_view := buf_view |}.
  - intros b k [Hm Hs]. cbn. unfold BufStore_get, buf_view.
    rewrite overlay_lookup, bt_get_lookup.
    destruct (bt_map (BufStore_map b) !! k) as [[x|]|]; [done..|]. by apply law_get.
  - intros b k Hi Hb. apply (BufStore_get_next_spec (RS := laws_ReadSpec Hi) b k Hb).
  - intros b k Hi Hb. apply (BufStore_get_prev_spec (RS := laws_ReadSpec Hi) b k Hb).
  - intros b k x [Hm Hs]. eexists. split; [done|]. split; [split; simpl; auto with orga|].
    unfold buf_view; simpl. by rewrite bt_insert_map, overlay_insert_some.
  - intros b k [Hm Hs]. eexists. split; [done|]. split; [split; simpl; auto with orga|].
    unfold buf_view; simpl. by rewrite bt_insert_map, overlay_insert_none.
Defined.

(** [flush] over a store that keeps the laws. *)
Lemma laws_flush m : forall s : St,
  bt_wf m -> law_inv s ->
  exists s', BufStore_flush_loop m s = (Ok tt, mkBufStore [] s') /\ law_inv s' /\
             law_view s' = overlay (bt_map m) (law_view s).
Proof.
  induction m as [|[k o] m IH]; intros s Hm Hs; simpl; [exists s; by rewrite overlay_empty|].
  pose proof (bt_map_head _ _ _ Hm) as Hnone. apply bt_wf_cons in Hm as [Hm _].
  assert (exists s1, flush_entry k o s = (Ok tt, s1) /\ law_inv s1 /\
      overlay (bt_map m) (law_view s1) = overlay (bt_map ((k, o) :: m)) (law_view s))
    as (s1 & -> & Hs1 & Hv1).
  { destruct o as [x|]; simpl.
    - destruct (law_put s k x Hs) as (s1 & -> & Hs1 & Hv). exists s1. by rewrite Hv, <- overlay_push_some.
    - destruct (law_delete s k Hs) as (s1 & -> & Hs1 & Hv). exists s1. by rewrite Hv, <- overlay_push_none. }
  destruct (IH s1 Hm Hs1) as (s' & -> & Hs' & Hv'). exists s'. by rewrite Hv', Hv1.
Qed.

(** ** A program on a lawful store does what it means *)

Lemma view_next_first v k : is_first v (blt k) (view_next v k).
Proof.
  unfold view_next.
  pose proof (range_entries_elem v (Excluded k) Unbounded) as Hin.
  pose proof (range_entries_wf v (Excluded k) Unbounded) as Hwf.
  assert (Hb : forall j, bounds_contains (Excluded k, Unbounded) j = true <-> blt k j)
    by (intros j; unfold bounds_contains; simpl; rewrite andb_true_r; by destruct (bltb_spec k j)).
  destruct (range_entries v (Excluded k) Unbounded) as [|[j x] l]; simpl.
  - intros j y Hj Hlt. assert ((j, y) ∈ @nil KV) by (apply Hin; by rewrite Hb). set_solver.
  - destruct (Hin j x) as [[Hj1 Hj2] _]; [left|]. rewrite Hb in Hj1. split_and!; [done..|].
    intros j' y Hj' Hlt. assert ((j', y) ∈ (j, x) :: l) as [Heq|Hl]%elem_of_cons by (apply Hin; by rewrite Hb).
    + injection Heq as -> ->. by right.
    + apply bt_wf_cons in Hwf as [_ Hf]. rewrite Forall_forall in Hf. left. exact (Hf _ Hl).
Qed.

Lemma bt_wf_snoc_above {V} (l : BTree V) j (x : V) k y :
  bt_wf (l ++ [(j, x)]) -> (k, y) ∈ l -> blt k j.
Proof.
  induction l as [|[k' y'] l IH]; simpl; [set_solver|].
  intros [Hl Hf]%bt_wf_cons [Heq|Hin]%elem_of_cons; [|auto].
  injection Heq as -> ->. rewrite Forall_forall in Hf. apply (Hf (j, x)). set_solver.
Qed.

Lemma view_prev_last v k : is_last v (before k) (view_prev v k).
Proof.
  unfold view_prev.
  set (hi := if k is Some k then Excluded k else Unbounded).
  pose proof (range_entries_elem v Unbounded hi) as Hin.
  pose proof (range_entries_wf v Unbounded hi) as Hwf.
  assert (Hb : forall j, bounds_contains (Unbounded, hi) j = true <-> before k j)
    by (intros j; unfold bounds_contains, hi; destruct k as [k|]; simpl; [by destruct (bltb_spec j k)|done]).
  destruct (range_entries v Unbounded hi) as [|[j x] l _] using rev_ind; simpl.
  - intros j y Hj Hlt. assert ((j, y) ∈ @nil KV) by (apply Hin; by rewrite Hb). set_solver.
  - rewrite last_snoc. destruct (Hin j x) as [[Hj1 Hj2] _]; [set_solver|]. rewrite Hb in Hj1.
    split_and!; [done..|]. intros j' y Hj' Hlt.
    assert ((j', y) ∈ l ++ [(j, x)]) as [Hl|Heq]%elem_of_app by (apply Hin; by rewrite Hb).
    + left. by eapply bt_wf_snoc_above.
    + apply list_elem_of_singleton in Heq as [= -> ->]. by right.
Qed.

Lemma view_next_unique v k r : is_first v (blt k) r -> r = view_next v k.
Proof. intros Hr. exact (is_first_unique v (blt k) _ _ Hr (view_next_first v k)). Qed.
Lemma view_prev_unique v k r : is_last v (before k) r -> r = view_prev v k.
Proof. intros Hr. exact (is_last_unique v (before k) _ _ Hr (view_prev_last v k)). Qed.

Lemma run_prog_exec {A} (p : StoreProg A) : forall s : St,
  law_inv s -> (iter = false -> point_prog p) ->
  exists s', run_prog p s = ((exec p (law_view s)).1, s') /\ law_inv s' /\
             law_view s' = (exec p (law_view s)).2.
Proof.
  induction p as [r|k f IH|k f IH|k f IH|k x f IH|k f IH]; intros s Hs Hp; cbn [run_prog exec].
  - by exists s.
  - rewrite (law_get s k Hs). apply IH; [done|]. intros Hi. by apply Hp.
  - destruct iter eqn:Hi; [|by destruct Hp].
    destruct (law_get_next s k eq_refl Hs) as (r & -> & ->%view_next_unique). by apply IH.
  - destruct iter eqn:Hi; [|by destruct Hp].
    destruct (law_get_prev s k eq_refl Hs) as (r & -> & ->%view_prev_unique). by apply IH.
  - destruct (law_put s k x Hs) as (s1 & -> & Hs1 & Hv1).
    destruct (IH (Ok tt) s1 Hs1) as (s' & -> & Hs' & Hv'); [intros Hi; by apply Hp|].
    exists s'. by rewrite <- Hv1.
  - destruct (law_delete s k Hs) as (s1 & -> & Hs1 & Hv1).
    destruct (IH (Ok tt) s1 Hs1) as (s' & -> & Hs' & Hv'); [intros Hi; by apply Hp|].
    exists s'. by rewrite <- Hv1.
Qed.
End BufLaws.
