(* ===== verification/AbciPlugin.v ===== *)
(** * The ABCI plugin (src/plugins/abci.rs)

    [ABCIPlugin] wraps the application: it sets up the contexts a handler may use,
    runs the handler, collects the events and log messages it left, and turns the
    validator changes it made into the updates the node reports. The messages of
    [tendermint_proto] are parameters with the fields the plugin reads. *)

From stdpp Require Import base tactics numbers list strings gmap.
From Stdlib Require Import ZArith Lia.
From S2P Require Import Prelude Bytes BTree StoreIface StoreIter NullStore BufStore PrefixStore Codec StateIface StructState MapColl MapSpec MapProps MapIter Next EntryMap Coins AbciTypes Address Context Plugins AbciStore.

Record Timestamp := mkTimestamp { Timestamp_seconds : Z; Timestamp_nanos : Z }.

Class PluginMessages `{Messages} := {
  LastCommitInfo : Type;
  Evidence : Type;
  RequestInitChain_time : RequestInitChain -> option Timestamp;
  RequestInitChain_chain_id : RequestInitChain -> string;
  RequestInitChain_validators : RequestInitChain -> list ValidatorUpdate;
  RequestInitChain_app_state_bytes : RequestInitChain -> bytes;
  RequestInitChain_initial_height : RequestInitChain -> Z;
  Header_time : Header -> option Timestamp;
  RequestBeginBlock_hash : RequestBeginBlock -> bytes;
  RequestBeginBlock_last_commit_info : RequestBeginBlock -> option LastCommitInfo;
  RequestBeginBlock_byzantine_validators : RequestBeginBlock -> list Evidence
}.

(** The order in which a [HashMap] is iterated over or drained is not specified. *)
Class HashOrder := {
  hash_iter : forall {V : Type}, gmap Z V -> list (Z * V);
  hash_iter_perm {V} (m : gmap Z V) : hash_iter m ≡ₚ map_to_list m
}.

(** ** The contexts of the messages *)

Record Validator := mkValidator { Validator_pubkey : PubKey; Validator_power : u64 }.
(** [From<ValidatorUpdate> for Validator]: the conversions are unwrapped. *)
Definition Validator_from (update : ValidatorUpdate) : res Validator :=
  let? pub_key := unwrap (VU_pub_key update) unwrap_none in
  let? sum := unwrap (PublicKey_sum pub_key) unwrap_none in
  let pubkey_bytes := match sum with Ed25519 bs => bs | Secp256k1 bs => bs end in
  if negb (length pubkey_bytes =? 32)%nat then Panic "called `Result::unwrap()` on an `Err` value"
  else if negb (0 <=? VU_power update)%Z then Panic "called `Result::unwrap()` on an `Err` value"
  else Ok (mkValidator (to_uint 32 (from_be_bytes pubkey_bytes)) (to_uint 8 (VU_power update))).
Fixpoint Validators_from (l : list ValidatorUpdate) : res (list Validator) :=
  match l with
  | [] => Ok []
  | u :: l => let? v := Validator_from u in let? vs := Validators_from l in Ok (v :: vs)
  end.

Section Ctxs.
Context `{PM : PluginMessages}.
Record InitChainCtx := mkInitChainCtx {
  IC_time : option Timestamp;
  IC_chain_id : string;
  IC_validators : list Validator;
  IC_app_state_bytes : bytes;
  IC_initial_height : Z
}.
Definition InitChainCtx_from (req : RequestInitChain) : res InitChainCtx :=
  let? validators := Validators_from (RequestInitChain_validators req) in
  Ok (mkInitChainCtx (RequestInitChain_time req) (RequestInitChain_chain_id req) validators
        (RequestInitChain_app_state_bytes req) (RequestInitChain_initial_height req)).

Record BeginBlockCtx := mkBeginBlockCtx {
  BB_hash : bytes;
  BB_height : Z;
  BB_header : Header;
  BB_last_commit_info : option LastCommitInfo;
  BB_byzantine_validators : list Evidence
}.
Definition BeginBlockCtx_from (req : RequestBeginBlock) : res BeginBlockCtx :=
  let? header := unwrap (RequestBeginBlock_header req) "Missing header in BeginBlock" in
  let height := wrap64 (Header_height header) in
  Ok (mkBeginBlockCtx (RequestBeginBlock_hash req) height header
        (RequestBeginBlock_last_commit_info req) (RequestBeginBlock_byzantine_validators req)).

Record EndBlockCtx := mkEndBlockCtx { EB_height : Z }.
Definition EndBlockCtx_from (req : RequestEndBlock) : EndBlockCtx := mkEndBlockCtx (wrap64 (RequestEndBlock_height req)).
End Ctxs.

(** [trait App], as far as the plugin uses it: the block hooks and [Call]. *)
Class App `{PM : PluginMessages} (T C : Type) := {
  App_init_chain : InitChainCtx -> M (T * ContextMap) unit;
  App_begin_block : BeginBlockCtx -> M (T * ContextMap) unit;
  App_end_block : EndBlockCtx -> M (T * ContextMap) unit;
  App_Call : Call T C
}.
#[export] Existing Instance App_Call.

(** ** [impl Validators] *)

Section ValidatorsOps.
Context {St : Type} `{Profile} `{Read St} `{!Write St} `{!Bounded St}.
Implicit Types (b : St).

Definition to_vec32 (k : PubKey) : bytes := to_be_bytes 32 (uint_val k).
Definition insert_update (pub_key : PubKey) (u : ValidatorUpdate) (v : Validators) : Validators :=
  mkValidators (<[uint_val pub_key := (pub_key, u)]> (V_updates v)) (V_current_vp v) (V_cons_key_by_op_addr v).

(** [.unwrap()] on a result. *)
Definition unwrapM {S A} (f : M S A) : M S A := fun s =>
  match f s with
  | (Err _, s') => (Panic "called `Result::unwrap()` on an `Err` value", s')
  | r => r
  end.

Definition Validators_set_voting_power (pub_key : PubKey) (power : u64) : M (Validators * Cells) unit :=
  let key := mkPublicKey (Some (Ed25519 (to_vec32 pub_key))) in
  do loc <- readM (fun p => Ok (V_current_vp p.1));
  run zoomM snd (fun c p => (p.1, c))
        (in_vp loc (unwrapM (EntryMap_insert (St := St) (mkValidatorEntry pub_key power))));
  fun p => (Ok tt, (insert_update pub_key (mkValidatorUpdate (Some key) (wrap_i64 (uint_val power))) p.1, p.2)).

Definition Validators_set_operator (consensus_key : PubKey) (operator_address : uint 20) : M (Validators * Cells) unit :=
  do loc <- readM (fun p => Ok (V_cons_key_by_op_addr p.1));
  zoomM snd (fun c p => (p.1, c)) (in_op loc (Map_insert (St := St) operator_address consensus_key)).

Definition Validators_consensus_key b (op_key : uint 20) (p : Validators * Cells) : res (option PubKey) :=
  match op_cells p.2 !! V_cons_key_by_op_addr p.1 with
  | Some (Some m) => let? r := Map_get b m op_key in Ok (Ref_deref <$> r)
  | _ => Panic unwrap_none
  end.

(** [self.current_vp.borrow().as_ref().ok_or_else(..)?.iter()?], read to its end. *)
Definition Validators_collect b (p : Validators * Cells) : res (list ValidatorEntry) :=
  match vp_cells p.2 !! V_current_vp p.1 with
  | Some (Some m) =>
      let? it := EntryMap_iter m in
      EntryIter_collect (S (length (Map_children (EntryMap_map m)) + entry_bound b)) b m it
  | _ => Err (EApp "Validator set not available")
  end.
Fixpoint sum_powers (l : list ValidatorEntry) (sum : Z) : res Z :=
  match l with
  | [] => Ok sum
  | v :: l => let? sum := u64_add sum (uint_val (VE_power v)) in sum_powers l sum
  end.
Definition Validators_total_voting_power b (p : Validators * Cells) : res Z :=
  let? l := Validators_collect b p in sum_powers l 0.
Definition Validators_entries b (p : Validators * Cells) : res (list ValidatorEntry) := Validators_collect b p.
End ValidatorsOps.

(** ** The plugin *)

Abbreviation UpdateMap := (Map PubKey ValidatorUpdate).

Record ABCIPlugin (T : Type) := mkABCIPlugin {
  AP_inner : T;
  AP_validator_updates : option (gmap Z (PubKey * ValidatorUpdate));
  AP_updates : UpdateMap;
  AP_time : option Timestamp;
  AP_events : option (list Event);
  AP_current_vp : nat;
  AP_cons_key_by_op_addr : nat;
  AP_logs : option (list string)
}.
Arguments mkABCIPlugin {T} _ _ _ _ _ _ _ _.
Arguments AP_inner {T} _.
Arguments AP_validator_updates {T} _.
Arguments AP_updates {T} _.
Arguments AP_time {T} _.
Arguments AP_events {T} _.
Arguments AP_current_vp {T} _.
Arguments AP_cons_key_by_op_addr {T} _.
Arguments AP_logs {T} _.

Inductive ABCICall `{Messages} (C : Type) :=
| CallInitChain (req : RequestInitChain)
| CallBeginBlock (req : RequestBeginBlock)
| CallEndBlock (req : RequestEndBlock)
| CallDeliverTx (call : C)
| CallCheckTx (call : C).
Arguments CallInitChain {_ C} _.
Arguments CallBeginBlock {_ C} _.
Arguments CallEndBlock {_ C} _.
Arguments CallDeliverTx {_ C} _.
Arguments CallCheckTx {_ C} _.

Section PluginOps.
Context `{Profile} `{CompatMode} `{PM : PluginMessages} `{HO : HashOrder}.
Context {St : Type} `{Read St} `{!Write St} `{!Bounded St} {SVU : State St ValidatorUpdate}.
Context {T C : Type} {ST : State St T} {AI : App T C}.
Implicit Types (b : St).
Abbreviation Plugin := (ABCIPlugin T).

Definition set_inner (t : T) (p : Plugin) : Plugin :=
  mkABCIPlugin t (AP_validator_updates p) (AP_updates p) (AP_time p) (AP_events p) (AP_current_vp p) (AP_cons_key_by_op_addr p) (AP_logs p).
Definition set_validator_updates u (p : Plugin) : Plugin :=
  mkABCIPlugin (AP_inner p) u (AP_updates p) (AP_time p) (AP_events p) (AP_current_vp p) (AP_cons_key_by_op_addr p) (AP_logs p).
Definition set_updates u (p : Plugin) : Plugin :=
  mkABCIPlugin (AP_inner p) (AP_validator_updates p) u (AP_time p) (AP_events p) (AP_current_vp p) (AP_cons_key_by_op_addr p) (AP_logs p).
Definition set_time t (p : Plugin) : Plugin :=
  mkABCIPlugin (AP_inner p) (AP_validator_updates p) (AP_updates p) t (AP_events p) (AP_current_vp p) (AP_cons_key_by_op_addr p) (AP_logs p).
Definition set_events e (p : Plugin) : Plugin :=
  mkABCIPlugin (AP_inner p) (AP_validator_updates p) (AP_updates p) (AP_time p) e (AP_current_vp p) (AP_cons_key_by_op_addr p) (AP_logs p).
Definition set_logs l (p : Plugin) : Plugin :=
  mkABCIPlugin (AP_inner p) (AP_validator_updates p) (AP_updates p) (AP_time p) (AP_events p) (AP_current_vp p) (AP_cons_key_by_op_addr p) l.

Definition in_inner {A} (f : M (T * ContextMap) A) : M (Plugin * ContextMap) A :=
  zoomM (fun p => (AP_inner p.1, p.2)) (fun ic p => (set_inner ic.1 p.1, ic.2)) f.
Definition in_updates {A} (f : M UpdateMap A) : M (Plugin * ContextMap) A :=
  zoomM (fun p => AP_updates p.1) (fun m p => (set_updates m p.1, p.2)) f.
Definition in_ctx {A} (f : M ContextMap A) : M (Plugin * ContextMap) A :=
  zoomM snd (fun c p => (p.1, c)) f.
Definition set_plugin (f : Plugin -> Plugin) : M (Plugin * ContextMap) unit := fun p => (Ok tt, (f p.1, p.2)).

Definition create_time_ctx (time : option Timestamp) : M ContextMap unit :=
  match time with
  | Some timestamp => Context_add (mkTime (Timestamp_seconds timestamp) (Timestamp_nanos timestamp))
  | None => retM tt
  end.

(** The block [BeginBlock], [EndBlock], [DeliverTx] and [CheckTx] share: the
    handler runs with empty buffers for events and logs; events are kept only when
    it succeeds. A panic passes through. *)
Definition unwrap_ctx {X A} `{InContext X} (f : X -> A) (c : ContextMap) : res A :=
  match Context_resolve (T := X) c with Some x => Ok (f x) | None => Panic unwrap_none end.
Definition with_buffers (handler : M (Plugin * ContextMap) unit) : M (Plugin * ContextMap) unit :=
  run in_ctx (Context_add Events_default);
  run in_ctx (Context_add Logs_default);
  run set_plugin (set_events (Some []));
  run set_plugin (set_logs (Some []));
  fun p =>
    match handler p with
    | (Panic w, p') => (Panic w, p')
    | (outcome, p') =>
        (run (if outcome is Ok _ then
                do es <- in_ctx (readM (unwrap_ctx (X := Events) Events_events));
                set_plugin (set_events (Some es))
              else retM tt);
         do ms <- in_ctx (readM (unwrap_ctx (X := Logs) Logs_messages));
         run set_plugin (set_logs (Some ms));
         run in_ctx (Context_remove (T := Events));
         run in_ctx (Context_remove (T := Logs));
         liftM outcome) p'
    end.

Definition ABCI_dispatch (call : ABCICall C) : M (Plugin * ContextMap) unit :=
  match call with
  | CallInitChain req =>
      do ctx <- liftM (InitChainCtx_from req);
      run set_plugin (set_time (IC_time ctx));
      run in_ctx (create_time_ctx (IC_time ctx));
      in_inner (App_init_chain ctx)
  | CallBeginBlock req =>
      with_buffers (
        do ctx <- liftM (BeginBlockCtx_from req);
        run set_plugin (set_time (Header_time (BB_header ctx)));
        run in_ctx (create_time_ctx (Header_time (BB_header ctx)));
        in_inner (App_begin_block ctx))
  | CallEndBlock req => with_buffers (in_inner (App_end_block (EndBlockCtx_from req)))
  | CallDeliverTx inner_call => with_buffers (in_inner (Call_call inner_call))
  | CallCheckTx inner_call => with_buffers (in_inner (Call_call inner_call))
  end.

(** The loop over [validators.updates]. *)
Fixpoint apply_updates b (loc : nat) (l : list (Z * (PubKey * ValidatorUpdate))) : M (Plugin * ContextMap) unit :=
  match l with
  | [] => retM tt
  | (_, (pubkey, update)) :: l =>
      run in_updates (Map_insert (St := St) pubkey update);
      run (if (0 <? VU_power update)%Z
           then in_ctx (in_cells (in_vp loc (EntryMap_insert (St := St) (mkValidatorEntry pubkey (to_uint 8 (VU_power update))))))
           else in_ctx (in_cells (in_vp loc (EntryMap_delete b (mkValidatorEntry pubkey (to_uint 8 0))))));
      apply_updates b loc l
  end.

Fixpoint remove_updates b (keys : list PubKey) : M (Plugin * ContextMap) unit :=
  match keys with
  | [] => retM tt
  | key :: keys => run in_updates (Map_remove b key); remove_updates b keys
  end.
Definition ABCI_build_updates b : M (Plugin * ContextMap) unit :=
  do entries <- readM (fun p =>
    let m := AP_updates p.1 in
    let? it := Map_iter m in
    MapIter_collect (S (length (Map_children m) + entry_bound b)) b m it);
  let update_map := foldl (fun m kv => <[uint_val kv.1 := kv]> m) ∅ entries in
  run remove_updates b entries.*1;
  set_plugin (set_validator_updates (Some update_map)).

Definition ABCI_finish b : M (Plugin * ContextMap) unit :=
  do validators <- in_ctx (readM (unwrap_ctx (X := Validators) id));
  run in_ctx (in_cells (in_vp (V_current_vp validators) (retM tt)));
  run apply_updates b (V_current_vp validators) (hash_iter (V_updates validators));
  ABCI_build_updates b.

(** [ContextRemover] removes the context however the function is left. *)
Definition with_context_remover {A} (f : M (Plugin * ContextMap) A) : M (Plugin * ContextMap) A := fun p =>
  let '(r, p') := f p in (r, (p'.1, ctx_set (T := Validators) None p'.2)).

Definition ABCI_call b (call : ABCICall C) : M (Plugin * ContextMap) unit :=
  with_context_remover (
    do validators <- readM (fun p => Ok (Validators_new (AP_current_vp p.1) (AP_cons_key_by_op_addr p.1)));
    run in_ctx (Context_add validators);
    do time <- readM (fun p => Ok (AP_time p.1));
    run in_ctx (create_time_ctx time);
    run ABCI_dispatch call;
    ABCI_finish b).

(** ** [State for ABCIPlugin] *)

(** [Default], with new cells. *)
Definition ABCI_default (inner : T) : M ContextMap Plugin :=
  do vp <- in_cells (new_vp (Some EntryMap_default));
  do op <- in_cells (new_op (Some Map_new));
  retM (mkABCIPlugin inner None Map_new None None vp op None).

(** [cell.borrow_mut().attach(..)]: the [Option] in the cell is attached. *)
Definition attach_vp (loc : nat) (s : Store) : M Cells unit := fun c =>
  match vp_cells c !! loc with
  | Some o => let '(r, o') := option_attach (St := St) s o in (r, set_vp loc o' c)
  | None => (Panic unwrap_none, c)
  end.
Definition attach_op (loc : nat) (s : Store) : M Cells unit := fun c =>
  match op_cells c !! loc with
  | Some o => let '(r, o') := option_attach (St := St) s o in (r, set_op loc o' c)
  | None => (Panic unwrap_none, c)
  end.
Definition ABCI_attach (s : Store) : M (Plugin * ContextMap) unit :=
  run in_inner (zoomM fst (fun t p => (t, p.2)) (State_attach (Store_sub s [0%Z])));
  run in_updates (Map_attach (St := St) (Store_sub s [1%Z]));
  do p <- readM (fun p => Ok p.1);
  run in_ctx (in_cells (attach_vp (AP_current_vp p) (Store_sub s [2%Z])));
  in_ctx (in_cells (attach_op (AP_cons_key_by_op_addr p) (Store_sub s [3%Z]))).

(** [flush] consumes the plugin and empties the cells; the bytes of the two maps go
    to a buffer that is dropped. *)
Definition on_store {A} (f : M St A) : M (St * ContextMap) A := zoomM fst (fun b p => (b, p.2)) f.
Definition on_ctx {A} (f : M ContextMap A) : M (St * ContextMap) A := zoomM snd (fun c p => (p.1, c)) f.
Definition take_vp (loc : nat) : M Cells (option VpMap) := fun c =>
  match vp_cells c !! loc with
  | Some o => (Ok o, set_vp loc None c)
  | None => (Panic unwrap_none, c)
  end.
Definition take_op (loc : nat) : M Cells (option OperatorMap) := fun c =>
  match op_cells c !! loc with
  | Some o => (Ok o, set_op loc None c)
  | None => (Panic unwrap_none, c)
  end.
Definition ABCI_flush (p : Plugin) : M (St * ContextMap) bytes :=
  do out <- on_store (Flusher_version [] 0);
  do bs0 <- on_store (State_flush (AP_inner p));
  do bs1 <- on_store (Map_flush (AP_updates p));
  do vp <- on_ctx (in_cells (take_vp (AP_current_vp p)));
  do _ignored <- on_store (option_flush vp);
  do op <- on_ctx (in_cells (take_op (AP_cons_key_by_op_addr p)));
  do _ignored <- on_store (option_flush op);
  retM (out ++ bs0 ++ bs1).

Definition ABCI_load (s : Store) (bs : bytes) : M (St * ContextMap) Plugin :=
  do '(inner, updates, vp, op) <- (fun p =>
    let '(r, _) := (do inner <- Loader_load_child (U := T) p.1;
                    do updates <- Loader_load_child (U := UpdateMap) p.1;
                    do vp <- Loader_load_child (U := VpMap) p.1;
                    do op <- Loader_load_child (U := OperatorMap) p.1;
                    retM (inner, updates, vp, op)) (Loader_new s bs 0) in (r, p));
  do vp <- on_ctx (in_cells (new_vp (Some vp)));
  do op <- on_ctx (in_cells (new_op (Some op)));
  retM (mkABCIPlugin inner None updates None None vp op None).
End PluginOps.
