(* ===== verification/SdkCompat.v ===== *)
(** * Cosmos SDK transactions (src/plugins/sdk_compat.rs)

    Transactions of the Cosmos SDK, as JSON or as protobuf messages, the bytes that are
    signed for them, and the plugin that turns them into native calls. The JSON, base64
    and protobuf libraries are parameters; their errors are texts. *)

From stdpp Require Import base tactics numbers list strings gmap pretty.
From Stdlib Require Import ZArith Lia.
From S2P Require Import Prelude Bytes Codec Encoding Address Coins AbciTypes Context Plugins.
#[local] Open Scope Z_scope.

Definition MAX_CALL_SIZE : Z := 65535.
Definition NATIVE_CALL_FLAG : Z := 255.

(** An error of a library, made into one of this crate's by [map_err]. *)
Definition map_err {A} (f : string -> Error) (r : string + A) : res A :=
  match r with inl e => Err (f e) | inr a => Ok a end.

(** ** The transactions *)

(** [serde_json::Value] *)
Class JsonLib := { JsonValue : Type }.

Section Types.
Context `{JsonLib}.
Record SdkMsg := mkSdkMsg { SdkMsg_type : string; SdkMsg_value : JsonValue }.
Record SdkCoin := mkSdkCoin { SdkCoin_amount : string; SdkCoin_denom : string }.
Record SdkFee := mkSdkFee { SdkFee_amount : list SdkCoin; SdkFee_gas : string }.
Record SdkPubKey := mkSdkPubKey { SdkPubKey_type : string; SdkPubKey_value : string }.
Record SdkSignature := mkSdkSignature { SdkSignature_pub_key : SdkPubKey; SdkSignature_signature : string; SdkSignature_type : option string }.
Record AminoTx := mkAminoTx { Amino_msg : list SdkMsg; Amino_fee : SdkFee; Amino_memo : string; Amino_signatures : list SdkSignature }.
(** The chain identifier is its bytes, as in the context. *)
Record SignDoc := mkSignDoc {
  SD_account_number : string;
  SD_chain_id : bytes;
  SD_fee : SdkFee;
  SD_memo : string;
  SD_msgs : list SdkMsg;
  SD_sequence : string
}.
End Types.

(** What is used of [serde_json], [base64], [cosmrs] and [prost]. *)
Class SdkLib `{JsonLib} := {
  AminoTx_to_vec : AminoTx -> string + bytes;
  AminoTx_from_slice : bytes -> string + AminoTx;
  SignDoc_to_vec : SignDoc -> string + bytes;
  base64_encode : bytes -> string;
  base64_decode : string -> string + bytes;
  CosmrsTx : Type;
  CosmrsTx_from_bytes : bytes -> string + CosmrsTx;
  (** [ProtoTx::from(tx).encode_to_vec()] *)
  CosmrsTx_encode_to_vec : CosmrsTx -> bytes;
  CosmrsTx_body_bytes : CosmrsTx -> string + bytes;
  CosmrsTx_auth_info_bytes : CosmrsTx -> string + bytes;
  CosmrsTx_signatures : CosmrsTx -> list bytes;
  SignerPublicKey : Type;
  (** the public keys of [auth_info.signer_infos] *)
  CosmrsTx_signer_keys : CosmrsTx -> list (option SignerPublicKey);
  (** [single()], as bytes *)
  SignerPublicKey_single : SignerPublicKey -> option bytes;
  (** [SignDoc { body_bytes, auth_info_bytes, chain_id, account_number }.into_bytes()] *)
  CosmrsSignDoc_into_bytes : bytes -> bytes -> bytes -> Z -> string + bytes
}.

(** What JSON promises: the document can be read back ([SignDoc] derives [Deserialize]). *)
Class SdkLaws `{SdkLib} := {
  SignDoc_from_slice : bytes -> option SignDoc;
  SignDoc_roundtrip d bs : SignDoc_to_vec d = inr bs -> SignDoc_from_slice bs = Some d
}.

Section Tx.
Context `{SL : SdkLib}.

Inductive Tx := TxAmino (tx : AminoTx) | TxProtobuf (tx : CosmrsTx).

(** The bytes of a transaction, and whether they are too many. *)
Definition Tx_bytes (tx : Tx) : res bytes :=
  match tx with
  | TxAmino tx => map_err (fun _ => UnexpectedByte 0) (AminoTx_to_vec tx)
  | TxProtobuf tx => Ok (CosmrsTx_encode_to_vec tx)
  end.
Definition Tx_encoding_length (tx : Tx) : res nat := let? bs := Tx_bytes tx in Ok (length bs).
Definition Tx_encode (tx : Tx) : res bytes :=
  let? bs := Tx_bytes tx in
  if MAX_CALL_SIZE <? Z.of_nat (length bs) then Err (UnexpectedByte 0) else Ok bs.
(** Reads to the end; [b'{'] is 123. *)
Definition Tx_decode (bs : bytes) : res (Tx * bytes) :=
  if MAX_CALL_SIZE <? Z.of_nat (length bs) then Err (UnexpectedByte 0)
  else
    match bs with
    | [] => Err (UnexpectedByte 0)
    | c :: _ =>
        if 123 =? c then
          let? tx := map_err (fun _ => UnexpectedByte 123) (AminoTx_from_slice bs) in Ok (TxAmino tx, [])
        else
          let? tx := map_err EEd (CosmrsTx_from_bytes bs) in Ok (TxProtobuf tx, [])
    end.
#[export] Instance Tx_Encode : Encode Tx := {| Encode_encode := Tx_encode |}.
#[export] Instance Tx_Decode : Decode Tx := {| Decode_decode := Tx_decode |}.

Definition sign_bytes (tx : Tx) (chain_id : bytes) (nonce : Z) : res bytes :=
  match tx with
  | TxAmino tx =>
      let sign_tx := mkSignDoc "0" chain_id (Amino_fee tx) (Amino_memo tx) (Amino_msg tx) (pretty nonce) in
      map_err EApp (SignDoc_to_vec sign_tx)
  | TxProtobuf tx =>
      let? body_bytes := map_err EApp (CosmrsTx_body_bytes tx) in
      let? auth_info_bytes := map_err EApp (CosmrsTx_auth_info_bytes tx) in
      map_err EApp (CosmrsSignDoc_into_bytes body_bytes auth_info_bytes chain_id 0)
  end.

(** [arr.copy_from_slice(&vec)] for an array of [n] bytes. *)
Definition copy_array (n : nat) (src : bytes) : res bytes :=
  if (length src =? n)%nat then Ok src else Panic "source slice length does not match destination slice length".

Definition first_signature (tx : AminoTx) : res SdkSignature := ok_or (head (Amino_signatures tx)) (EApp "No signatures provided").
Definition sender_pubkey (tx : Tx) : res bytes :=
  let? pubkey_vec :=
    match tx with
    | TxAmino tx =>
        let? sig := first_signature tx in
        map_err EApp (base64_decode (SdkPubKey_value (SdkSignature_pub_key sig)))
    | TxProtobuf tx =>
        let? info := ok_or (head (CosmrsTx_signer_keys tx)) (EApp "No auth info provided") in
        let? public_key := ok_or info (EApp "No public key provided") in
        ok_or (SignerPublicKey_single public_key) (EApp "Invalid public key")
    end in
  copy_array 33 pubkey_vec.
Definition signature (tx : Tx) : res bytes :=
  let? sig_vec :=
    match tx with
    | TxAmino tx => let? sig := first_signature tx in map_err EApp (base64_decode (SdkSignature_signature sig))
    | TxProtobuf tx => ok_or (head (CosmrsTx_signatures tx)) (EApp "No signatures provided")
    end in
  copy_array 64 sig_vec.
Definition sig_type (tx : Tx) : res (option string) :=
  match tx with
  | TxAmino tx => let? sig := first_signature tx in Ok (SdkSignature_type sig)
  | TxProtobuf _ => Ok None
  end.
End Tx.

(** ** [ConvertSdkTx] and the plugin *)

(** [convert(&self, ..)] may add contexts. *)
Class ConvertSdkTx `{SdkLib} (T O : Type) := { ConvertSdkTx_convert : T -> Tx -> M ContextMap O }.

Inductive SdkCall `{SdkLib} (C : Type) := CallNative (call : C) | CallSdk (tx : Tx).
Arguments CallNative {_ _ C} _.
Arguments CallSdk {_ _ C} _.

Section CallCodec.
Context `{SL : SdkLib} {C : Type} `{Encode C} `{Decode C}.
Definition SdkCall_encode (call : SdkCall C) : res bytes :=
  match call with
  | CallNative native => let? bs := Encode_encode native in Ok (NATIVE_CALL_FLAG :: bs)
  | CallSdk tx => Encode_encode tx
  end.
Definition SdkCall_decode (bs : bytes) : res (SdkCall C * bytes) :=
  if MAX_CALL_SIZE <? Z.of_nat (length bs) then Err (UnexpectedByte 0)
  else
    match bs with
    | [] => Err (EEd "unexpected end of file")
    | c :: rest =>
        if c =? NATIVE_CALL_FLAG then
          let? native := Decode_decode (K := C) rest in Ok (CallNative native.1, [])
        else
          let? tx := Decode_decode (K := Tx) bs in Ok (CallSdk tx.1, [])
    end.
End CallCodec.

Record SdkCompatPlugin (T : Type) := mkSdkCompatPlugin { SdkCompat_inner : T }.
Arguments mkSdkCompatPlugin {T} _.
Arguments SdkCompat_inner {T} _.

Section Plugin.
Context `{SL : SdkLib} {T C : Type} {CT : Call T C} {CV : ConvertSdkTx T C}.
Definition in_sdk_inner {A} (f : M (T * ContextMap) A) : M (SdkCompatPlugin T * ContextMap) A :=
  zoomM (fun p => (SdkCompat_inner p.1, p.2)) (fun ic p => (mkSdkCompatPlugin ic.1, ic.2)) f.
Definition in_sdk_ctx {A} (f : M ContextMap A) : M (SdkCompatPlugin T * ContextMap) A :=
  zoomM snd (fun c p => (p.1, c)) f.

Definition SdkCompat_call (call : SdkCall C) : M (SdkCompatPlugin T * ContextMap) unit :=
  do call <- match call with
             | CallNative call => retM call
             | CallSdk tx => do p <- getM; in_sdk_ctx (ConvertSdkTx_convert (SdkCompat_inner p.1) tx)
             end;
  in_sdk_inner (Call_call call).
#[export] Instance SdkCompatPlugin_Call : Call (SdkCompatPlugin T) (SdkCall C) := {| Call_call := SdkCompat_call |}.
End Plugin.
