(* ===== verification/Signer.v ===== *)
(** * Signatures (src/plugins/signer.rs)

    [SignerPlugin] verifies the signature of a call and tells the code it runs who
    signed it, through the [Signer] context. The curve library is a parameter. How the
    plugins turn a transaction of the Cosmos SDK into a call, each adding its part, is
    here too ([impl ConvertSdkTx] in signer.rs, chain_commitment.rs, nonce.rs,
    payable.rs and fee.rs), and the nonce a signature commits to ([trait GetNonce]). *)

From stdpp Require Import base tactics numbers list strings gmap pretty.
From Stdlib Require Import ZArith Lia.
From S2P Require Import Prelude Bytes BTree StoreIface StoreIter NullStore BufStore PrefixStore Codec StateIface StructState Encoding MapColl MapSpec MapProps MapCall Address Coins AbciTypes Context Plugins SdkCompat.
#[local] Open Scope Z_scope.

(** [s.as_bytes()] of a text of ASCII characters. *)
Fixpoint string_bytes (s : string) : bytes :=
  match s with
  | EmptyString => []
  | String c s => Z.of_nat (Ascii.nat_of_ascii c) :: string_bytes s
  end.

(** What is used of the [secp256k1] crate; messages are their 32 bytes. *)
Class Secp256k1 := {
  PublicKey : Type;
  PublicKey_from_slice : bytes -> string + PublicKey;
  serialize_uncompressed : PublicKey -> bytes;
  serialize_uncompressed_length k : length (serialize_uncompressed k) = 65%nat;
  Signature : Type;
  Signature_from_compact : bytes -> string + Signature;
  verify_ecdsa : bytes -> Signature -> PublicKey -> string + unit
}.

(** [Adr36Msg] and the structs in it; the parts that are constants in the code too. *)
Record Adr36Msg := mkAdr36Msg {
  A36_account_number : string;
  A36_chain_id : string;
  A36_fee_amount : list Z;
  A36_fee_gas : string;
  A36_memo : string;
  A36_msg_type : string;
  A36_msg_data : string;
  A36_msg_signer : string;
  A36_sequence : string
}.
Class Adr36Lib := { Adr36Msg_to_vec : Adr36Msg -> string + bytes }.

(** [Vec<u8>] is its bytes, up to the end of the input. *)
#[export] Instance bytes_Encode : Encode bytes := {| Encode_encode := fun bs => Ok bs |}.
#[export] Instance bytes_Decode : Decode bytes := {| Decode_decode := fun bs => Ok (bs, []) |}.

(** [trait GetNonce] *)
Class GetNonce (T : Type) := { GetNonce_nonce : T -> Address -> res u64 }.

Record SignerPlugin (T : Type) := mkSignerPlugin { Signer_inner : T }.
Arguments mkSignerPlugin {T} _.
Arguments Signer_inner {T} _.

Section Calls.
Context `{SL : SdkLib}.
Inductive SigType := SigNative | SigAdr36 | SigSdk (tx : Tx) | SigEthPersonalSign (tx : Tx).
(** [signature] has 64 bytes and [pubkey] 33. *)
Record SignerCall := mkSignerCall {
  SC_signature : option bytes;
  SC_pubkey : option bytes;
  SC_sigtype : SigType;
  SC_call_bytes : bytes
}.
End Calls.

Section Signer.
Context `{Profile} `{Hashes} `{Bech32} `{SL : SdkLib} `{SP : Secp256k1} `{AL : Adr36Lib}.

(** The address of a key the way Ethereum forms it. *)
Definition eth_address (pubkey : PublicKey) : res Address :=
  let? eth_pubkey := copy_array 64 (drop 1 (serialize_uncompressed pubkey)) in
  Address_from_pubkey_eth eth_pubkey.
Definition SignerCall_address (call : SignerCall) : res Address :=
  let? pubkey_bytes := ok_or (SC_pubkey call) (ESigner "No pubkey specified") in
  match SC_sigtype call with
  | SigEthPersonalSign _ =>
      let? pubkey := map_err ESecp256k1 (PublicKey_from_slice pubkey_bytes) in
      eth_address pubkey
  | _ => Address_from_pubkey pubkey_bytes
  end.

Definition adr36_bytes (call_bytes : bytes) (address : Address) : res bytes :=
  let data_b64 := base64_encode call_bytes in
  let msg := mkAdr36Msg "0" "" [] "0" "" "sign/MsgSignData" data_b64 (Address_to_string address) "0" in
  map_err EApp (Adr36Msg_to_vec msg).

(** [sdk_to_signercall] *)
Definition sdk_to_signercall (sdk_tx : Tx) : res SignerCall :=
  let? signature := signature sdk_tx in
  let? pubkey := sender_pubkey sdk_tx in
  let? sig_type := sig_type sdk_tx in
  let? sigtype := match sig_type with
                  | None => Ok (SigSdk sdk_tx)
                  | Some t =>
                      if decide (t = "sdk"%string) then Ok (SigSdk sdk_tx)
                      else if decide (t = "eth"%string) then Ok (SigEthPersonalSign sdk_tx)
                      else Err (EApp "Unknown signature type")
                  end in
  Ok (mkSignerCall (Some signature) (Some pubkey) sigtype []).
Definition sender_address (sdk_tx : Tx) : res Address :=
  let? signer_call := sdk_to_signercall sdk_tx in SignerCall_address signer_call.

(** [Message::from_digest_slice] *)
Definition from_digest_slice (digest : bytes) : res bytes :=
  if (length digest =? 32)%nat then Ok digest else Err (ESecp256k1 "malformed message").
(** The text an Ethereum wallet puts before what it signs. *)
Definition eth_prefix : bytes := 25 :: string_bytes "Ethereum Signed Message:" ++ [10].

Section Plugin.
Context {T C : Type} {CT : Call T C} {GN : GetNonce T} `{Decode C}.
Implicit Types (p : SignerPlugin T * ContextMap).

Definition in_signer_inner {A} (f : M (T * ContextMap) A) : M (SignerPlugin T * ContextMap) A :=
  zoomM (fun p => (Signer_inner p.1, p.2)) (fun ic p => (mkSignerPlugin ic.1, ic.2)) f.
Definition in_signer_ctx {A} (f : M ContextMap A) : M (SignerPlugin T * ContextMap) A :=
  zoomM snd (fun c p => (p.1, c)) f.

Definition sdk_sign_bytes p (tx : Tx) (address : Address) : res bytes :=
  let? last := GetNonce_nonce (Signer_inner p.1) address in
  let? nonce := u64_add (uint_val last) 1 in
  let? chain_id := ok_or (Context_resolve (T := ChainId) p.2) (EApp "Chain ID not found") in
  sign_bytes tx (ChainId_0 chain_id) nonce.

(** The message that has to be signed, and by which address. *)
Definition signed_message p (call : SignerCall) (pubkey_bytes : bytes) (pubkey : PublicKey) : res (bytes * Address) :=
  match SC_sigtype call with
  | SigNative =>
      let? addr := Address_from_pubkey pubkey_bytes in
      Ok (Sha256 (SC_call_bytes call), addr)
  | SigAdr36 =>
      let? addr := Address_from_pubkey pubkey_bytes in
      let? bs := adr36_bytes (SC_call_bytes call) addr in
      Ok (Sha256 bs, addr)
  | SigSdk tx =>
      let? addr := Address_from_pubkey pubkey_bytes in
      let? bs := sdk_sign_bytes p tx addr in
      Ok (Sha256 bs, addr)
  | SigEthPersonalSign tx =>
      let? addr := eth_address pubkey in
      let? sdk_bytes := sdk_sign_bytes p tx addr in
      let bs := eth_prefix ++ string_bytes (pretty (length sdk_bytes)) ++ sdk_bytes in
      let? msg := from_digest_slice (Keccak256 bs) in
      Ok (msg, addr)
  end.
Definition Signer_verify p (call : SignerCall) : res (option Address) :=
  match SC_pubkey call, SC_signature call with
  | Some pubkey_bytes, Some signature =>
      let? pubkey := map_err ESecp256k1 (PublicKey_from_slice pubkey_bytes) in
      let? '(msg, addr) := signed_message p call pubkey_bytes pubkey in
      let? signature := map_err ESecp256k1 (Signature_from_compact signature) in
      let? _ := map_err ESecp256k1 (verify_ecdsa msg signature pubkey) in
      Ok (Some addr)
  | None, None => Ok None
  | _, _ => Err (ESigner "Malformed transaction")
  end.

Definition Signer_call (call : SignerCall) : M (SignerPlugin T * ContextMap) unit :=
  run in_signer_ctx (Context_remove (T := Signer));
  do signer <- readM (fun p => Signer_verify p call);
  run match signer with
      | Some signer =>
          in_signer_ctx (Context_call (ECoins "No Events context available")
            (Events_add (mkEvent "message" [mkEventAttribute "sender" (Address_to_string signer) true])))
      | None => retM tt
      end;
  run in_signer_ctx (Context_add (mkSigner signer));
  do inner_call <- liftM (Decode_decode (K := C) (SC_call_bytes call));
  in_signer_inner (Call_call inner_call.1).
#[export] Instance SignerPlugin_Call : Call (SignerPlugin T) SignerCall := {| Call_call := Signer_call |}.
End Plugin.
End Signer.

(** ** From SDK transactions to calls *)

Section Convert.
Context `{Profile} `{CompatMode} `{Hashes} `{Bech32} `{SL : SdkLib} `{SP : Secp256k1}.
Context {St : Type} `{Read St} `{!Write St} `{!Bounded St}.
Implicit Types (b : St).

#[export] Instance NoncePlugin_GetNonce {T} b : GetNonce (NoncePlugin T) := {| GetNonce_nonce := Nonce_nonce b |}.
#[export] Instance ChainCommitmentPlugin_GetNonce {T} {GN : GetNonce T} : GetNonce (ChainCommitmentPlugin T) :=
  {| GetNonce_nonce := fun p => GetNonce_nonce (CC_inner p) |}.

Definition Signer_convert {T C} {CV : ConvertSdkTx T C} `{Encode C} (p : SignerPlugin T) (sdk_tx : Tx) : M ContextMap SignerCall :=
  do signer_call <- liftM (sdk_to_signercall sdk_tx);
  do inner <- ConvertSdkTx_convert (Signer_inner p) sdk_tx;
  do call_bytes <- liftM (Encode_encode inner);
  retM (mkSignerCall (SC_signature signer_call) (SC_pubkey signer_call) (SC_sigtype signer_call) call_bytes).
#[export] Instance SignerPlugin_ConvertSdkTx {T C} {CV : ConvertSdkTx T C} `{Encode C} : ConvertSdkTx (SignerPlugin T) SignerCall :=
  {| ConvertSdkTx_convert := Signer_convert |}.

Definition CC_convert {T C} {CV : ConvertSdkTx T C} `{Encode C} (p : ChainCommitmentPlugin T) (sdk_tx : Tx) : M ContextMap bytes :=
  do id <- liftM (from_utf8_unwrap (CC_chain_id p));
  run Context_add (mkChainId id);
  do inner_call <- ConvertSdkTx_convert (CC_inner p) sdk_tx;
  do inner_bytes <- liftM (Encode_encode inner_call);
  retM (CC_chain_id p ++ inner_bytes).
#[export] Instance ChainCommitmentPlugin_ConvertSdkTx {T C} {CV : ConvertSdkTx T C} `{Encode C} : ConvertSdkTx (ChainCommitmentPlugin T) bytes :=
  {| ConvertSdkTx_convert := CC_convert |}.

Definition Nonce_convert {T C} {CV : ConvertSdkTx T C} b (p : NoncePlugin T) (sdk_tx : Tx) : M ContextMap (NonceCall C) :=
  do address <- liftM (sender_address sdk_tx);
  do last <- liftM (Nonce_nonce b p address);
  do nonce <- liftM (u64_add (uint_val last) 1);
  do inner_call <- ConvertSdkTx_convert (Nonce_inner p) sdk_tx;
  retM (mkNonceCall (Some (to_uint 8 nonce)) inner_call).
#[export] Instance NoncePlugin_ConvertSdkTx {T C} {CV : ConvertSdkTx T C} b : ConvertSdkTx (NoncePlugin T) (NonceCall C) :=
  {| ConvertSdkTx_convert := Nonce_convert b |}.

Definition Payable_convert {T C} {CV : ConvertSdkTx T (PaidCall C)} (p : PayablePlugin T) (sdk_tx : Tx) : M ContextMap (PayableCall C) :=
  do paid_call <- ConvertSdkTx_convert (Payable_inner p) sdk_tx;
  retM (PayablePaid paid_call).
#[export] Instance PayablePlugin_ConvertSdkTx {T C} {CV : ConvertSdkTx T (PaidCall C)} : ConvertSdkTx (PayablePlugin T) (PayableCall C) :=
  {| ConvertSdkTx_convert := Payable_convert |}.

Definition Fee_convert {T O} {CV : ConvertSdkTx T O} (p : FeePlugin T) (sdk_tx : Tx) : M ContextMap O := ConvertSdkTx_convert (Fee_inner p) sdk_tx.
#[export] Instance FeePlugin_ConvertSdkTx {T O} {CV : ConvertSdkTx T O} : ConvertSdkTx (FeePlugin T) O := {| ConvertSdkTx_convert := Fee_convert |}.
End Convert.
