(* ===== verification/PluginHooks.v ===== *)
(** * The hooks and queries of the plugins

    The block hooks of the call plugins (the modules [abci] in src/plugins), which pass on
    to the inner value, except that [ChainCommitmentPlugin] takes over the identifier of
    the chain when it starts; and [QueryPlugin] (src/plugins/query.rs), with raw reads of
    the store and calls that are simulated. Together they make [DefaultPlugins]
    (src/plugins/mod.rs). *)

From stdpp Require Import base tactics numbers list strings gmap.
From Stdlib Require Import ZArith Lia.
From S2P Require Import Prelude Bytes BTree StoreIface StoreIter NullStore BufStore PrefixStore Codec StateIface StructState Encoding MapColl MapSpec MapProps MapCall Address Coins AbciTypes Context Plugins AbciStore AbciPlugin SdkCompat Signer.
#[local] Open Scope Z_scope.

(** ** Queries *)

(** [trait Query]; values with cells may change behind the shared reference. *)
Class Query (T Q : Type) := { Query_query : Q -> M (T * ContextMap) unit }.

Record QueryPlugin (T : Type) := mkQueryPlugin { QP_store : Store; QP_inner : T }.
Arguments mkQueryPlugin {T} _ _.
Arguments QP_store {T} _.
Arguments QP_inner {T} _.

Inductive PluginQuery (Q C : Type) :=
| QQuery (query : Q)
| QCall (call : C)
| QRawKey (key : bytes)
| QRawNext (key : bytes)
| QRawPrev (key : option bytes).
Arguments QQuery {Q C} _.
Arguments QCall {Q C} _.
Arguments QRawKey {Q C} _.
Arguments QRawNext {Q C} _.
Arguments QRawPrev {Q C} _.

Section QueryOps.
Context {St : Type} `{Read St}.
Context {T C Q : Type} {CT : Call T C} {QT : Query T Q}.
Implicit Types (b : St).

Definition in_query_inner {A} (f : M (T * ContextMap) A) : M (QueryPlugin T * ContextMap) A :=
  zoomM (fun p => (QP_inner p.1, p.2)) (fun ic p => (mkQueryPlugin (QP_store p.1) ic.1, ic.2)) f.
Definition Query_call (call : C) : M (QueryPlugin T * ContextMap) unit := in_query_inner (Call_call call).
#[export] Instance QueryPlugin_Call : Call (QueryPlugin T) C := {| Call_call := Query_call |}.

Definition discard {A} (r : res A) : res unit := let? _ := r in Ok tt.
Definition QueryPlugin_query b (query : PluginQuery Q C) : M (QueryPlugin T * ContextMap) unit :=
  match query with
  | QQuery query => in_query_inner (Query_query query)
  | QCall call => in_query_inner (Call_call call)
  | QRawKey key => readM (fun p => discard (Store_get (Store_with_prefix (QP_store p.1) []) b key))
  | QRawNext key => readM (fun p => discard (Store_get_next (Store_with_prefix (QP_store p.1) []) b key))
  | QRawPrev key => readM (fun p => discard (Store_get_prev (Store_with_prefix (QP_store p.1) []) b key))
  end.
#[export] Instance QueryPlugin_Query b : Query (QueryPlugin T) (PluginQuery Q C) := {| Query_query := QueryPlugin_query b |}.
#[export] Instance ChainCommitmentPlugin_Query : Query (ChainCommitmentPlugin T) Q := {| Query_query := fun q => in_cc_inner (Query_query q) |}.
#[export] Instance FeePlugin_Query : Query (FeePlugin T) Q := {| Query_query := fun q => in_fee_inner (Query_query q) |}.
End QueryOps.

Section QueryState.
Context {St T : Type} {ST : State St T}.
Definition QP_attach (store : Store) : M (QueryPlugin T) unit :=
  run (fun p => (Ok tt, mkQueryPlugin store (QP_inner p)));
  zoomM QP_inner (fun i p => mkQueryPlugin (QP_store p) i) (State_attach store).
Definition QP_flush (p : QueryPlugin T) : M St bytes := State_flush (QP_inner p).
Definition QP_load (store : Store) (bs : bytes) (b : St) : res (QueryPlugin T * bytes) :=
  let? inner := State_load store bs b in Ok (mkQueryPlugin store inner.1, inner.2).
#[export] Instance QueryPlugin_State : State St (QueryPlugin T) :=
  {| State_attach := QP_attach; State_flush := QP_flush; State_load := QP_load |}.
End QueryState.

(** ** The block hooks *)

Section Hooks.
Context `{Profile} `{CompatMode} `{PM : PluginMessages} `{Hashes} `{Bech32} `{SL : SdkLib} `{SP : Secp256k1} `{AL : Adr36Lib}.
Context {St : Type} `{Read St} `{!Write St} `{!Bounded St}.
Context {T C : Type} {AI : App T C}.

(** [.as_bytes().to_vec().try_into()?] *)
Definition to_chain_id (id : bytes) : res bytes :=
  let? v := LengthVec_try_from (P := u8) (to_uint 1 <$> id) in
  Ok (uint_val <$> LengthVec_values v).
Definition CC_init_chain (ctx : InitChainCtx) : M (ChainCommitmentPlugin T * ContextMap) unit :=
  do id <- readM (fun p => ok_or (Context_resolve (T := ChainId) p.2) (EApp "Chain ID context not set"));
  do chain_id <- liftM (to_chain_id (ChainId_0 id));
  run (fun p => (Ok tt, (mkChainCommitment chain_id (CC_inner p.1), p.2)));
  in_cc_inner (App_init_chain ctx).

#[export] Instance FeePlugin_App `{Symbol} : App (FeePlugin T) C :=
  {| App_init_chain := fun ctx => in_fee_inner (App_init_chain ctx);
     App_begin_block := fun ctx => in_fee_inner (App_begin_block ctx);
     App_end_block := fun ctx => in_fee_inner (App_end_block ctx);
     App_Call := FeePlugin_Call |}.
#[export] Instance PayablePlugin_App : App (PayablePlugin T) (PayableCall C) :=
  {| App_init_chain := fun ctx => in_payable_inner (App_init_chain ctx);
     App_begin_block := fun ctx => in_payable_inner (App_begin_block ctx);
     App_end_block := fun ctx => in_payable_inner (App_end_block ctx);
     App_Call := PayablePlugin_Call |}.
#[export] Instance NoncePlugin_App (b : St) : App (NoncePlugin T) (NonceCall C) :=
  {| App_init_chain := fun ctx => in_nonce_inner (App_init_chain ctx);
     App_begin_block := fun ctx => in_nonce_inner (App_begin_block ctx);
     App_end_block := fun ctx => in_nonce_inner (App_end_block ctx);
     App_Call := NoncePlugin_Call b |}.
#[export] Instance ChainCommitmentPlugin_App `{Decode C} : App (ChainCommitmentPlugin T) bytes :=
  {| App_init_chain := CC_init_chain;
     App_begin_block := fun ctx => in_cc_inner (App_begin_block ctx);
     App_end_block := fun ctx => in_cc_inner (App_end_block ctx);
     App_Call := {| Call_call := CC_call (C := C) |} |}.
#[export] Instance SignerPlugin_App {GN : GetNonce T} `{Decode C} : App (SignerPlugin T) SignerCall :=
  {| App_init_chain := fun ctx => in_signer_inner (App_init_chain ctx);
     App_begin_block := fun ctx => in_signer_inner (App_begin_block ctx);
     App_end_block := fun ctx => in_signer_inner (App_end_block ctx);
     App_Call := SignerPlugin_Call (C := C) |}.
#[export] Instance SdkCompatPlugin_App {CV : ConvertSdkTx T C} : App (SdkCompatPlugin T) (SdkCall C) :=
  {| App_init_chain := fun ctx => in_sdk_inner (App_init_chain ctx);
     App_begin_block := fun ctx => in_sdk_inner (App_begin_block ctx);
     App_end_block := fun ctx => in_sdk_inner (App_end_block ctx);
     App_Call := SdkCompatPlugin_Call |}.
#[export] Instance QueryPlugin_App : App (QueryPlugin T) C :=
  {| App_init_chain := fun ctx => in_query_inner (App_init_chain ctx);
     App_begin_block := fun ctx => in_query_inner (App_begin_block ctx);
     App_end_block := fun ctx => in_query_inner (App_end_block ctx);
     App_Call := QueryPlugin_Call |}.
End Hooks.

(** [DefaultPlugins<S, T>] *)
Definition DefaultPlugins (T : Type) : Type :=
  QueryPlugin (SdkCompatPlugin (SignerPlugin (ChainCommitmentPlugin (NoncePlugin (PayablePlugin (FeePlugin T)))))).
