(* ===== verification/CallItems.v ===== *)
(** * Calls and queries of composed values (src/call.rs, src/query.rs, macros/src/field_call.rs)

    A call or query of a value made of others names the part it is for: the field of a
    struct or tuple, the element of a list or array. [Item] tells calls of fields from
    those of methods by the first byte. *)

From stdpp Require Import base tactics numbers list strings gmap.
From Stdlib Require Import ZArith Lia.
From S2P Require Import Prelude Bytes BTree StoreIface StoreIter NullStore BufStore PrefixStore Codec StateIface StructState Encoding Keys MapColl MapSpec MapProps MapCall Address Coins AbciTypes Context Plugins SdkCompat Signer PluginHooks.
#[local] Open Scope Z_scope.

Definition CALL_PREFIX_OFFSET : Z := 64.
Definition QUERY_PREFIX_OFFSET : Z := 128.

(** ** Parts of a value *)

(** Calling a part of a value, within the contexts. *)
Definition in_part {T U A} (get : T -> U) (set : U -> T -> T) (f : M (U * ContextMap) A) : M (T * ContextMap) A :=
  zoomM (fun p => (get p.1, p.2)) (fun uc p => (set uc.1 p.1, uc.2)) f.
(** The element at an index, and what happens where there is none. *)
Definition in_element {T A} (index : nat) (none : Error) (f : M (T * ContextMap) A) : M (list T * ContextMap) A :=
  fun p =>
    match p.1 !! index with
    | Some t => let '(r, (t', c)) := f (t, p.2) in (r, (<[index := t']> p.1, c))
    | None => (Err none, p)
    end.

Inductive Tuple2 (A B : Type) := Tuple2Field0 (a : A) | Tuple2Field1 (b : B).
Arguments Tuple2Field0 {A B} _.
Arguments Tuple2Field1 {A B} _.
Inductive Tuple3 (A B C : Type) := Tuple3Field0 (a : A) | Tuple3Field1 (b : B) | Tuple3Field2 (c : C).
Arguments Tuple3Field0 {A B C} _.
Arguments Tuple3Field1 {A B C} _.
Arguments Tuple3Field2 {A B C} _.
Inductive Tuple4 (A B C D : Type) := Tuple4Field0 (a : A) | Tuple4Field1 (b : B) | Tuple4Field2 (c : C) | Tuple4Field3 (d : D).
Arguments Tuple4Field0 {A B C D} _.
Arguments Tuple4Field1 {A B C D} _.
Arguments Tuple4Field2 {A B C D} _.
Arguments Tuple4Field3 {A B C D} _.

(** ** Calls *)

Section Calls.
Context {T C : Type} {CT : Call T C}.

Definition RefCell_call (call : C) : M (T * ContextMap) unit := Call_call call.
(** [StdResult<T, E>]; the text of the error stands for [err.to_string()]. *)
Definition Result_call (call : C) : M ((string + T) * ContextMap) unit := fun p =>
  match p.1 with
  | inr inner => let '(r, (inner', c)) := Call_call call (inner, p.2) in (r, (inr inner', c))
  | inl err => (Err (ECall err), p)
  end.
Definition Option_call (call : C) : M (option T * ContextMap) unit := fun p =>
  match p.1 with
  | Some inner => let '(r, (inner', c)) := Call_call call (inner, p.2) in (r, (Some inner', c))
  | None => (Err (ECall "Call option is None"), p)
  end.
Definition Vec_call (call : u32 * C) : M (list T * ContextMap) unit :=
  in_element (Z.to_nat (uint_val call.1)) (EApp "Index out of bounds") (Call_call call.2).
(** [[T; N]] *)
Definition array_call (N : nat) (call : u64 * C) : M (list T * ContextMap) unit :=
  let index := Z.to_nat (uint_val call.1) in
  if (N <=? index)%nat then errM (ECall "Call index out of bounds")
  else fun p =>
    match p.1 !! index with
    | Some _ => in_element index EUnknown (Call_call call.2) p
    | None => (Panic "index out of bounds", p)
    end.
Definition noop_call (_ : unit) : M (T * ContextMap) unit := retM tt.

Context {T1 C1 : Type} {CT1 : Call T1 C1} {T2 C2 : Type} {CT2 : Call T2 C2} {T3 C3 : Type} {CT3 : Call T3 C3}.
Definition tuple2_call (call : Tuple2 C C1) : M ((T * T1) * ContextMap) unit :=
  match call with
  | Tuple2Field0 call => in_part fst (fun t p => (t, p.2)) (Call_call call)
  | Tuple2Field1 call => in_part snd (fun t p => (p.1, t)) (Call_call call)
  end.
Definition tuple3_call (call : Tuple3 C C1 C2) : M ((T * T1 * T2) * ContextMap) unit :=
  match call with
  | Tuple3Field0 call => in_part (fun p => p.1.1) (fun t p => (t, p.1.2, p.2)) (Call_call call)
  | Tuple3Field1 call => in_part (fun p => p.1.2) (fun t p => (p.1.1, t, p.2)) (Call_call call)
  | Tuple3Field2 call => in_part snd (fun t p => (p.1, t)) (Call_call call)
  end.
Definition tuple4_call (call : Tuple4 C C1 C2 C3) : M ((T * T1 * T2 * T3) * ContextMap) unit :=
  match call with
  | Tuple4Field0 call => in_part (fun p => p.1.1.1) (fun t p => (t, p.1.1.2, p.1.2, p.2)) (Call_call call)
  | Tuple4Field1 call => in_part (fun p => p.1.1.2) (fun t p => (p.1.1.1, t, p.1.2, p.2)) (Call_call call)
  | Tuple4Field2 call => in_part (fun p => p.1.2) (fun t p => (p.1.1, t, p.2)) (Call_call call)
  | Tuple4Field3 call => in_part snd (fun t p => (p.1, t)) (Call_call call)
  end.

(** [maybe_call], for a value with calls. *)
Definition maybe_call `{Decode C} (subcall : bytes) : M (T * ContextMap) unit :=
  do call <- liftM (Decode_decode (K := C) subcall);
  Call_call call.1.
End Calls.

(** ** Queries *)

Section Queries.
Context {T Q : Type} {QT : Query T Q}.

Definition Result_query (query : Q) : M ((string + T) * ContextMap) unit := fun p =>
  match p.1 with
  | inr inner => let '(r, (inner', c)) := Query_query query (inner, p.2) in (r, (inr inner', c))
  | inl err => (Err (EQuery err), p)
  end.
Definition Option_query (query : Q) : M (option T * ContextMap) unit := fun p =>
  match p.1 with
  | Some inner => let '(r, (inner', c)) := Query_query query (inner, p.2) in (r, (Some inner', c))
  | None => (Ok tt, p)
  end.
Definition noop_query (_ : unit) : M (T * ContextMap) unit := retM tt.
Definition array_query (N : nat) (query : u64 * Q) : M (list T * ContextMap) unit :=
  let index := Z.to_nat (uint_val query.1) in
  if (N <=? index)%nat then errM (EQuery "Query index out of bounds")
  else fun p =>
    match p.1 !! index with
    | Some _ => in_element index EUnknown (Query_query query.2) p
    | None => (Panic "index out of bounds", p)
    end.

Context {T1 Q1 : Type} {QT1 : Query T1 Q1} {T2 Q2 : Type} {QT2 : Query T2 Q2} {T3 Q3 : Type} {QT3 : Query T3 Q3}.
Definition tuple2_query (query : Tuple2 Q Q1) : M ((T * T1) * ContextMap) unit :=
  match query with
  | Tuple2Field0 query => in_part fst (fun t p => (t, p.2)) (Query_query query)
  | Tuple2Field1 query => in_part snd (fun t p => (p.1, t)) (Query_query query)
  end.
Definition tuple3_query (query : Tuple3 Q Q1 Q2) : M ((T * T1 * T2) * ContextMap) unit :=
  match query with
  | Tuple3Field0 query => in_part (fun p => p.1.1) (fun t p => (t, p.1.2, p.2)) (Query_query query)
  | Tuple3Field1 query => in_part (fun p => p.1.2) (fun t p => (p.1.1, t, p.2)) (Query_query query)
  | Tuple3Field2 query => in_part snd (fun t p => (p.1, t)) (Query_query query)
  end.
Definition tuple4_query (query : Tuple4 Q Q1 Q2 Q3) : M ((T * T1 * T2 * T3) * ContextMap) unit :=
  match query with
  | Tuple4Field0 query => in_part (fun p => p.1.1.1) (fun t p => (t, p.1.1.2, p.1.2, p.2)) (Query_query query)
  | Tuple4Field1 query => in_part (fun p => p.1.1.2) (fun t p => (p.1.1.1, t, p.1.2, p.2)) (Query_query query)
  | Tuple4Field2 query => in_part (fun p => p.1.2) (fun t p => (p.1.1, t, p.2)) (Query_query query)
  | Tuple4Field3 query => in_part snd (fun t p => (p.1, t)) (Query_query query)
  end.
End Queries.

(** ** Items: a call of a field or of a method *)

Inductive Item (F Me : Type) := ItemField (field : F) | ItemMethod (method : Me).
Arguments ItemField {F Me} _.
Arguments ItemMethod {F Me} _.

Section ItemCodec.
Context {F Me : Type} `{Encode F} `{Decode F} `{Encode Me} `{Decode Me}.
(** 64 for calls, 128 for queries *)
Context (PREFIX_OFFSET : Z).

Definition Item_encode (item : Item F Me) : res bytes :=
  match item with
  | ItemField field => Encode_encode field
  | ItemMethod method =>
      let? bs := Encode_encode method in
      match bs with
      | b :: rest => if b <? PREFIX_OFFSET then Ok (b + PREFIX_OFFSET :: rest) else Err (EEd "UnencodableVariant")
      | [] => Err (EEd "UnencodableVariant")
      end
  end.
Definition Item_decode (input : bytes) : res (Item F Me * bytes) :=
  match input with
  | [] => Err (EEd "failed to fill whole buffer")
  | prefix :: rest =>
      if prefix <? PREFIX_OFFSET then
        let? field := Decode_decode (K := F) (prefix :: rest) in Ok (ItemField field.1, field.2)
      else
        let? method := Decode_decode (K := Me) (prefix - PREFIX_OFFSET :: rest) in Ok (ItemMethod method.1, method.2)
  end.
End ItemCodec.
Definition QueryItem_encode {F Me} `{Encode F} `{Encode Me} : Item F Me -> res bytes := Item_encode QUERY_PREFIX_OFFSET.
Definition QueryItem_decode {F Me} `{Decode F} `{Decode Me} : bytes -> res (Item F Me * bytes) := Item_decode QUERY_PREFIX_OFFSET.

(** [impl Call for T where T: FieldCall + MethodCall] *)
Class FieldCall (T F : Type) := { field_call : F -> M (T * ContextMap) unit }.
Class MethodCall (T Me : Type) := { method_call : Me -> M (T * ContextMap) unit }.
(** The default, for a type without methods. *)
Definition no_method_call {T} (_ : unit) : M (T * ContextMap) unit := errM (ECall "Method not found").
Definition item_call {T F Me} `{FieldCall T F} `{MethodCall T Me} (call : Item F Me) : M (T * ContextMap) unit :=
  match call with
  | ItemField call => field_call call
  | ItemMethod call => method_call call
  end.
Class FieldQuery (T F : Type) := { field_query : F -> M (T * ContextMap) unit }.
Class MethodQuery (T Me : Type) := { method_query : Me -> M (T * ContextMap) unit }.
Definition no_method_query {T} (_ : unit) : M (T * ContextMap) unit := errM (EQuery "Method not found").
Definition item_query {T F Me} `{FieldQuery T F} `{MethodQuery T Me} (query : Item F Me) : M (T * ContextMap) unit :=
  match query with
  | ItemField query => field_query query
  | ItemMethod query => method_query query
  end.

(** ** The derived calls of fields *)

(** [enum KeyOp] of src/describe.rs *)
Inductive KeyOp := KeyAppend (prefix : bytes) | KeyAbsolute (prefix : bytes).
Definition KeyOp_apply (op : KeyOp) (store : Store) : Store :=
  match op with
  | KeyAbsolute prefix => Store_with_prefix store prefix
  | KeyAppend prefix => Store_sub store prefix
  end.
Definition KeyOp_apply_bytes (op : KeyOp) (bs : bytes) : bytes :=
  match op with
  | KeyAbsolute prefix => prefix
  | KeyAppend prefix => bs ++ prefix
  end.

(** The generated enum, a variant per field with calls and [Noop]: one field and the rest.
    [keyop] is the answer of [field_keyop] for the field. *)
Inductive FieldCallNoop := Noop.
Inductive FieldCallOr (C R : Type) := FieldVariant (subcall : C) | OtherVariant (call : R).
Arguments FieldVariant {C R} _.
Arguments OtherVariant {C R} _.

Definition Noop_encode (_ : FieldCallNoop) : res bytes := Ok [].
Definition Noop_decode (_ : bytes) : res (FieldCallNoop * bytes) := Err (UnexpectedByte 123).
Definition Noop_field_call {T} (_ : FieldCallNoop) : M (T * ContextMap) unit := retM tt.
#[export] Instance Noop_Encode : Encode FieldCallNoop := {| Encode_encode := Noop_encode |}.
#[export] Instance Noop_Decode : Decode FieldCallNoop := {| Decode_decode := Noop_decode |}.
#[export] Instance Noop_FieldCall {T} : FieldCall T FieldCallNoop := {| field_call := Noop_field_call |}.

Section FieldCalls.
Context {C R : Type} `{Encode C} `{Decode C} `{Encode R} `{Decode R}.
Context (keyop : option KeyOp).
Definition FieldCallOr_encode (call : FieldCallOr C R) : res bytes :=
  match call with
  | FieldVariant subcall =>
      match keyop with
      | Some (KeyAppend bs) => let? sub := Encode_encode subcall in Ok (bs ++ sub)
      | Some (KeyAbsolute _) | None => Err (EEd "UnencodableVariant")
      end
  | OtherVariant call => Encode_encode call
  end.
Definition decode_other (bs : bytes) : res (FieldCallOr C R * bytes) :=
  let? call := Decode_decode (K := R) bs in Ok (OtherVariant call.1, call.2).
Definition FieldCallOr_decode (bs : bytes) : res (FieldCallOr C R * bytes) :=
  match keyop with
  | Some (KeyAppend prefix) =>
      if starts_with prefix bs then
        let? subcall := Decode_decode (K := C) (drop (length prefix) bs) in Ok (FieldVariant subcall.1, [])
      else decode_other bs
  | _ => decode_other bs
  end.
Definition FieldCallOr_field_call {T U} {CU : Call U C} `{FieldCall T R} (get : T -> U) (set : U -> T -> T) (call : FieldCallOr C R) : M (T * ContextMap) unit :=
  match call with
  | FieldVariant subcall => in_part get set (Call_call subcall)
  | OtherVariant call => field_call call
  end.
End FieldCalls.

(** ** What is encoded is what is called *)

(** The value is encoded to the bytes and decoded from them. *)
Definition roundtrips {K} `{Encode K} `{Decode K} (x : K) (bs : bytes) : Prop :=
  Encode_encode x = Ok bs /\ Decode_decode bs = Ok (x, []).

Section Items.
Context {F Me : Type} `{Encode F} `{Decode F} `{Encode Me} `{Decode Me} (o : Z).
Lemma item_field_routes (f : F) b bs : roundtrips f (b :: bs) ->
  Item_encode (Me := Me) o (ItemField f) = Ok (b :: bs) /\
  Item_decode (Me := Me) o (b :: bs) =
    if b <? o then Ok (ItemField f, [])
    else let? m := Decode_decode (K := Me) (b - o :: bs) in Ok (ItemMethod m.1, m.2).
Proof. intros [He Hd]. split; [done|]. unfold Item_decode. destruct (b <? o); [|done]. by rewrite Hd. Qed.
Lemma item_method_routes (m : Me) b bs : 0 <= b -> roundtrips m (b :: bs) ->
  if b <? o then Item_encode (F := F) o (ItemMethod m) = Ok (b + o :: bs) /\ Item_decode (F := F) o (b + o :: bs) = Ok (ItemMethod m, [])
  else Item_encode (F := F) o (ItemMethod m) = Err (EEd "UnencodableVariant").
Proof.
  intros Hb [He Hd]. unfold Item_encode. rewrite He. cbn [res_bind]. destruct (b <? o); [|done]. split; [done|].
  unfold Item_decode. rewrite (proj2 (Z.ltb_ge _ _)) by lia. rewrite Z.add_simpl_r, Hd. done.
Qed.
End Items.

Section Fields.
Context {C R : Type} `{Encode C} `{Decode C} `{Encode R} `{Decode R} (p : bytes).
#[local] Instance field_Encode : Encode (FieldCallOr C R) := {| Encode_encode := FieldCallOr_encode (Some (KeyAppend p)) |}.
#[local] Instance field_Decode : Decode (FieldCallOr C R) := {| Decode_decode := FieldCallOr_decode (Some (KeyAppend p)) |}.
Lemma field_variant_roundtrips (c : C) bs : roundtrips c bs -> roundtrips (K := FieldCallOr C R) (FieldVariant c) (p ++ bs).
Proof.
  intros [He Hd]. split; cbn.
  - by rewrite He.
  - rewrite starts_with_app, drop_app_length. by rewrite Hd.
Qed.
Lemma other_variant_roundtrips (r : R) bs : starts_with p bs = false -> roundtrips r bs -> roundtrips (K := FieldCallOr C R) (OtherVariant r) bs.
Proof. intros Hp [He Hd]. split; cbn; [done|]. rewrite Hp. unfold decode_other. by rewrite Hd. Qed.
End Fields.

Section Derived.
Context {C R Me : Type} {EC : Encode C} {DC : Decode C} {ER : Encode R} {DR : Decode R} {EM : Encode Me} {DM : Decode Me} (o k : Z).
#[local] Instance here_Encode : Encode (FieldCallOr C R) := field_Encode [k].
#[local] Instance here_Decode : Decode (FieldCallOr C R) := field_Decode [k].
Abbreviation encode := (Item_encode (F := FieldCallOr C R) (Me := Me) o).
Abbreviation decode := (Item_decode (F := FieldCallOr C R) (Me := Me) o).

(** C40: the derived calls. A call of the field with prefix [k] is encoded with [k] in
    front, and so that it is decoded to itself if [k] is below the offset; if it is not,
    the bytes are read as a call of a method instead. A call of another field is not
    mistaken for this one's. Of the calls of methods those whose first byte is below the
    offset are decoded to themselves, and others cannot be encoded. *)
Theorem derived_calls_route :
  (forall (c : C) bs, roundtrips c bs ->
     encode (ItemField (FieldVariant c)) = Ok (k :: bs) /\
     decode (k :: bs) =
       if k <? o then Ok (ItemField (FieldVariant c), [])
       else let? m := Decode_decode (K := Me) (k - o :: bs) in Ok (ItemMethod m.1, m.2)) /\
  (forall (r : R) b bs, roundtrips r (b :: bs) -> b <> k -> b < o ->
     encode (ItemField (OtherVariant r)) = Ok (b :: bs) /\ decode (b :: bs) = Ok (ItemField (OtherVariant r), [])) /\
  (forall (m : Me) b bs, 0 <= b -> roundtrips m (b :: bs) ->
     if b <? o then encode (ItemMethod m) = Ok (b + o :: bs) /\ decode (b + o :: bs) = Ok (ItemMethod m, [])
     else encode (ItemMethod m) = Err (EEd "UnencodableVariant")).
Proof.
  split_and!.
  - intros c bs Hc. by apply (item_field_routes (Me := Me) o), (field_variant_roundtrips [k]).
  - intros r b bs Hr Hb Ho.
    assert (Hk : starts_with [k] (b :: bs) = false) by (cbn; by rewrite (proj2 (Z.eqb_neq _ _))).
    destruct (item_field_routes (Me := Me) o _ b bs (other_variant_roundtrips (C := C) [k] r (b :: bs) Hk Hr)) as [? Hd].
    by rewrite (proj2 (Z.ltb_lt _ _) Ho) in Hd.
  - intros m b bs Hb Hm. by apply item_method_routes.
Qed.
End Derived.

(** A struct with two fields with calls, at the prefixes 0 and 64: a call of the first
    one is that, a call of the second one is read as a call of the first method. *)
#[local] Instance second_Encode : Encode (FieldCallOr u8 FieldCallNoop) := field_Encode [64].
#[local] Instance second_Decode : Decode (FieldCallOr u8 FieldCallNoop) := field_Decode [64].
#[local] Instance both_Encode : Encode (FieldCallOr u8 (FieldCallOr u8 FieldCallNoop)) := field_Encode [0].
#[local] Instance both_Decode : Decode (FieldCallOr u8 (FieldCallOr u8 FieldCallNoop)) := field_Decode [0].
Lemma derived_calls_route_witness :
  let first : FieldCallOr u8 (FieldCallOr u8 FieldCallNoop) := FieldVariant (to_uint 1 5) in
  let second : FieldCallOr u8 (FieldCallOr u8 FieldCallNoop) := OtherVariant (FieldVariant (to_uint 1 5)) in
  Item_decode (Me := u16) 64 [0; 5] = Ok (ItemField first, []) /\
  Item_encode (Me := u16) 64 (ItemField second) = Ok [64; 5] /\
  Item_decode (F := FieldCallOr u8 (FieldCallOr u8 FieldCallNoop)) (Me := u16) 64 [64; 5] = Ok (ItemMethod (to_uint 2 5), []).
Proof.
  cbv zeta. split; [|split; vm_compute; reflexivity].
  apply (derived_calls_route (R := FieldCallOr u8 FieldCallNoop) (Me := u16) 64 0). by vm_compute.
Defined.
