(* ===== verification/AbciPluginSpec.v ===== *)
(** * What the ABCI plugin does with validator updates and contexts

    The laws of [AbciPlugin]: the contexts a handler sees are gone when it is done,
    events are kept only for handlers that succeed, and the validator changes of a
    handler end up in the map of updates for the node and in the current voting
    powers. *)

From stdpp Require Import base tactics numbers list strings gmap.
From Stdlib Require Import ZArith Lia.
From S2P Require Import Prelude Bytes BTree StoreIface StoreIter NullStore BufStore PrefixStore Codec StateIface StructState MapColl MapSpec MapProps MapIter MapIterSpec Next EntryMap LeafMap Coins AbciTypes Context Plugins AbciStore AbciPlugin.

(** ** Updates *)

(** Every update is filed under its own key. *)
Definition keyed (U : gmap Z (PubKey * ValidatorUpdate)) : Prop := forall z e, U !! z = Some e -> uint_val e.1 = z.

(** The voting powers after a set of updates: a power that is not positive removes
    the validator. *)
Definition power_of (u : ValidatorUpdate) : option u64 :=
  if (0 <? VU_power u)%Z then Some (to_uint 8 (VU_power u)) else None.
Definition powers_after (U : gmap Z (PubKey * ValidatorUpdate)) (g : PubKey -> option u64) : PubKey -> option u64 :=
  fun k => match U !! uint_val k with Some e => power_of e.2 | None => g k end.

Section UpdSpec.
Context `{Profile} `{WS : WriteSpec St} `{!Bounded St} `{!BoundedSpec St} `{HO : HashOrder}.

(** A fold of updates at distinct keys. *)
Lemma foldl_upd {X} {SX : State St X} {SS : StateSpec St X} (h : PubKey * ValidatorUpdate -> option (model (V := X))) l :
  forall f (k : PubKey), Forall (fun e => uint_val e.2.1 = e.1) l -> NoDup l.*1 ->
  foldl (fun f e => upd f e.2.1 (h e.2)) f l k =
    match (list_to_map l : gmap Z (PubKey * ValidatorUpdate)) !! uint_val k with Some e => h e | None => f k end.
Proof.
  induction l as [|[z e] l IH]; intros f k Hl Hn; [done|].
  apply Forall_cons in Hl as [Hz Hl]. apply NoDup_cons in Hn as [Hni Hn]. cbn [fst snd] in *. cbn [foldl].
  rewrite IH by done. cbn [list_to_map foldr]. destruct (decide (uint_val k = z)) as [Hk|Hne].
  - rewrite Hk, (not_elem_of_list_to_map_1 _ _ Hni), lookup_insert_eq.
    assert (k = e.1) as -> by (apply uint_eq; congruence). apply upd_same.
  - rewrite lookup_insert_ne by done. destruct (_ !! uint_val k); [done|]. apply upd_other. simpl. by intros ->.
Qed.

Lemma hash_iter_keyed U : keyed U -> Forall (fun e => uint_val e.2.1 = e.1) (hash_iter U).
Proof. intros HU. rewrite hash_iter_perm. apply Forall_forall. intros [z e] Hin%elem_of_map_to_list. by apply HU. Qed.
Lemma hash_iter_NoDup {V} (U : gmap Z V) : NoDup (hash_iter U).*1.
Proof. rewrite hash_iter_perm. apply NoDup_fst_map_to_list. Qed.
Lemma hash_iter_map {V} (U : gmap Z V) : list_to_map (hash_iter U) = U.
Proof.
  rewrite <- (list_to_map_to_list U) at 2. apply list_to_map_proper; [apply hash_iter_NoDup|apply hash_iter_perm].
Qed.

Lemma insert_update_keyed k u v : keyed (V_updates v) -> keyed (V_updates (insert_update k u v)).
Proof.
  intros Hv z e. simpl. intros [[<- <-]|[_ He]]%lookup_insert_Some; [done|]. by apply Hv.
Qed.
End UpdSpec.

Section PluginSpec.
Context `{Profile} `{CompatMode} `{PM : PluginMessages} `{HO : HashOrder}.
Context `{WS : WriteSpec St} `{!Bounded St} `{!BoundedSpec St} `{CU : CodecSpec ValidatorUpdate}.
Context {T C : Type} {AI : App T C}.
Implicit Types (b : St) (p : ABCIPlugin T) (c : ContextMap).

(** [Adapter<ValidatorUpdate>] is stored as its encoding. *)
#[local] Instance VU_State : State St ValidatorUpdate := leaf_State.
#[local] Instance VU_StateSpec : StateSpec St ValidatorUpdate := leaf_StateSpec ValidatorUpdate.

(** The content of the voting powers and of the update map. *)
Abbreviation vp_abs := (EntryMap_abs (T := ValidatorEntry) (K := PubKey) (V := u64) (SV := uint_State 8) (StateSpec0 := uint_StateSpec 8)).
Abbreviation vp_attached := (EntryMap_attached (T := ValidatorEntry) (K := PubKey) (V := u64) (SV := uint_State 8) (StateSpec0 := uint_StateSpec 8)).
Abbreviation vp_upd := (upd (K := PubKey) (V := u64) (SV := uint_State 8) (StateSpec0 := uint_StateSpec 8)).
Abbreviation up_abs := (Map_abs (K := PubKey) (V := ValidatorUpdate) (SV := VU_State) (StateSpec0 := VU_StateSpec)).
Abbreviation up_attached := (Map_attached (K := PubKey) (V := ValidatorUpdate) (SV := VU_State) (StateSpec0 := VU_StateSpec)).
Abbreviation up_upd := (upd (K := PubKey) (V := ValidatorUpdate) (SV := VU_State) (StateSpec0 := VU_StateSpec)).

Lemma set_updates_id p : set_updates (AP_updates p) p = p.
Proof. by destruct p. Qed.
Lemma set_cells_id c : set_cells (cells c) c = c.
Proof. by destruct c as [? ? ? []]. Qed.
Lemma set_vp_id loc o cs : vp_cells cs !! loc = Some o -> set_vp loc o cs = cs.
Proof. intros Hl. unfold set_vp. rewrite list_insert_id by done. by destruct cs. Qed.
Lemma set_vp_twice loc o o' cs : set_vp loc o (set_vp loc o' cs) = set_vp loc o cs.
Proof. unfold set_vp. simpl. by rewrite list_insert_insert_eq. Qed.
Lemma set_vp_lookup loc o o' cs : vp_cells cs !! loc = Some o' -> vp_cells (set_vp loc o cs) !! loc = Some o.
Proof. intros Hl. simpl. apply list_lookup_insert_eq. by apply lookup_lt_Some in Hl. Qed.
Lemma set_cells_twice cs cs' c : set_cells cs (set_cells cs' c) = set_cells cs c.
Proof. done. Qed.
Lemma cells_set cs c : cells (set_cells cs c) = cs.
Proof. done. Qed.

(** Running an operation on the map in a cell. *)
Lemma in_vp_run {A} loc (f : M VpMap A) vm r vm' p c :
  vp_cells (cells c) !! loc = Some (Some vm) -> f vm = (r, vm') ->
  in_ctx (in_cells (in_vp loc f)) (p, c) = (r, (p, set_cells (set_vp loc (Some vm') (cells c)) c)).
Proof. intros Hl Hf. unfold in_ctx, in_cells, zoomM, in_vp. simpl. by rewrite Hl, Hf. Qed.
Lemma in_updates_run {A} (f : M UpdateMap A) r m' p c :
  f (AP_updates p) = (r, m') -> in_updates f (p, c) = (r, (set_updates m' p, c)).
Proof. intros Hf. unfold in_updates, zoomM. simpl. by rewrite Hf. Qed.

Lemma VpMap_insert_spec s b (vm : VpMap) (g : PubKey -> option u64) (k : PubKey) (w : u64) :
  vp_attached s vm -> vp_abs b vm g ->
  exists vm', EntryMap_insert (St := St) (mkValidatorEntry k w) vm = (Ok tt, vm') /\
    vp_attached s vm' /\ vp_abs b vm' (vp_upd g k (Some w)).
Proof.
  intros Ha Hg. destruct (Map_insert_spec (StateSpec0 := uint_StateSpec 8) s b (EntryMap_map vm) g k w Ha Hg I) as (v' & Hv & _ & Hins).
  injection Hv as <-. destruct (Hins w eq_refl) as (m' & Hi & Hr). exists (mkEntryMap m'). split; [|exact Hr].
  unfold EntryMap_insert, on_map. cbn [into_entry ValidatorEntry_Entry VE_pubkey VE_power]. by rewrite Hi.
Qed.
Lemma VpMap_delete_spec s b (vm : VpMap) (g : PubKey -> option u64) (k : PubKey) (w : u64) :
  Read_inv b -> vp_attached s vm -> vp_abs b vm g ->
  exists vm', EntryMap_delete b (mkValidatorEntry k w) vm = (Ok tt, vm') /\
    vp_attached s vm' /\ vp_abs b vm' (vp_upd g k None).
Proof.
  intros Hb Ha Hg. destruct (Map_remove_raw_spec (StateSpec0 := uint_StateSpec 8) s b (EntryMap_map vm) g k Hb Ha Hg) as (o & m' & Hr & _ & Hrest).
  exists (mkEntryMap m'). split; [|exact Hrest]. unfold EntryMap_delete. cbn [into_entry ValidatorEntry_Entry VE_pubkey VE_power].
  unfold bindM, on_map, Map_remove, bindM. by rewrite Hr.
Qed.

Lemma VpMap_update_spec s b (vm : VpMap) (g : PubKey -> option u64) (k : PubKey) (u : ValidatorUpdate) :
  Read_inv b -> vp_attached s vm -> vp_abs b vm g ->
  exists vm', (if (0 <? VU_power u)%Z then EntryMap_insert (St := St) (mkValidatorEntry k (to_uint 8 (VU_power u)))
               else EntryMap_delete b (mkValidatorEntry k (to_uint 8 0))) vm = (Ok tt, vm') /\
    vp_attached s vm' /\ vp_abs b vm' (vp_upd g k (power_of u)).
Proof.
  intros Hb Ha Hg. unfold power_of.
  destruct (0 <? VU_power u)%Z; [apply (VpMap_insert_spec s b vm g)|apply (VpMap_delete_spec s b vm g)]; done.
Qed.

Lemma apply_updates_spec s1 s2 b loc l : Read_inv b ->
  forall p c vm (f : PubKey -> option ValidatorUpdate) (g : PubKey -> option u64),
  up_attached s1 (AP_updates p) -> up_abs b (AP_updates p) f ->
  vp_cells (cells c) !! loc = Some (Some vm) -> vp_attached s2 vm -> vp_abs b vm g ->
  exists m' vm', apply_updates b loc l (p, c) = (Ok tt, (set_updates m' p, set_cells (set_vp loc (Some vm') (cells c)) c)) /\
    up_attached s1 m' /\ up_abs b m' (foldl (fun f e => up_upd f e.2.1 (Some e.2.2)) f l) /\
    vp_attached s2 vm' /\ vp_abs b vm' (foldl (fun g e => vp_upd g e.2.1 (power_of e.2.2)) g l).
Proof.
  intros Hb. induction l as [|[z [k u]] l IH]; intros p c vm f g Hm Hf Hc Hv Hg.
  { exists (AP_updates p), vm. rewrite set_vp_id, set_cells_id, set_updates_id by done. done. }
  destruct (Map_insert_spec (StateSpec0 := VU_StateSpec) s1 b (AP_updates p) f k u Hm Hf I) as (u' & Hu & _ & Hins). injection Hu as <-.
  destruct (Hins u eq_refl) as (m1 & Hi & Hm1 & Hf1).
  destruct (VpMap_update_spec s2 b vm g k u Hb Hv Hg) as (vm1 & Hv1 & Hva & Hg1).
  destruct (IH (set_updates m1 p) (set_cells (set_vp loc (Some vm1) (cells c)) c) vm1 _ _ Hm1 Hf1
    (set_vp_lookup _ _ _ _ Hc) Hva Hg1) as (m' & vm' & Hrun & Hrest).
  exists m', vm'. split; [|exact Hrest]. cbn [apply_updates]. unfold bindM at 1.
  rewrite (in_updates_run _ _ _ _ _ Hi). unfold bindM at 1.
  assert (Hif : (if (0 <? VU_power u)%Z
     then in_ctx (in_cells (in_vp loc (EntryMap_insert (St := St) (mkValidatorEntry k (to_uint 8 (VU_power u))))))
     else in_ctx (in_cells (in_vp loc (EntryMap_delete b (mkValidatorEntry k (to_uint 8 0)))))) (set_updates m1 p, c)
     = (Ok tt, (set_updates m1 p, set_cells (set_vp loc (Some vm1) (cells c)) c))).
  { destruct (0 <? VU_power u)%Z; by apply (in_vp_run _ _ vm). }
  rewrite Hif, Hrun. rewrite cells_set, set_vp_twice, set_cells_twice. done.
Qed.

Lemma remove_updates_spec s b ks : Read_inv b -> forall p c (f : PubKey -> option ValidatorUpdate),
  up_attached s (AP_updates p) -> up_abs b (AP_updates p) f ->
  exists m', remove_updates b ks (p, c) = (Ok tt, (set_updates m' p, c)) /\ up_attached s m' /\
    up_abs b m' (foldl (fun f k => up_upd f k None) f ks).
Proof.
  intros Hb. induction ks as [|k ks IH]; intros p c f Hm Hf.
  { exists (AP_updates p). by rewrite set_updates_id. }
  destruct (Map_remove_raw_spec (StateSpec0 := VU_StateSpec) s b (AP_updates p) f k Hb Hm Hf) as (o & m1 & Hr & _ & Hm1 & Hf1).
  destruct (IH (set_updates m1 p) c _ Hm1 Hf1) as (m' & Hrun & Hrest). exists m'. split; [|exact Hrest].
  cbn [remove_updates]. unfold bindM. rewrite (in_updates_run (Map_remove b k) (Ok (ReadOnly_new <$> o)) m1); [rewrite Hrun; done|].
  unfold Map_remove, bindM. by rewrite Hr.
Qed.
Lemma foldl_clear (ks : list PubKey) (f : PubKey -> option ValidatorUpdate) k :
  (forall k, is_Some (f k) -> k ∈ ks) -> foldl (fun f k => up_upd f k None) f ks k = None.
Proof.
  revert f. induction ks as [|j ks IH]; intros f Hf; simpl.
  - destruct (f k) eqn:E; [|done]. assert (k ∈ []) by (apply Hf; by rewrite E). set_solver.
  - apply IH. intros k' Hk'. destruct (decide (k' = j)) as [->|Hne]; [rewrite upd_same in Hk'; by destruct Hk'|].
    rewrite upd_other in Hk' by done. apply Hf in Hk'. set_solver.
Qed.

(** Nothing is stored under the prefix of the updates, so every entry is in memory. *)
Definition none_stored (s : Store) b : Prop := Store_view s b = ∅.
Lemma foldl_insert_lookup (l : list (PubKey * ValidatorUpdate)) : forall (m : gmap Z (PubKey * ValidatorUpdate)) z,
  NoDup l.*1 -> foldl (fun m kv => <[uint_val kv.1 := kv]> m) m l !! z =
    match list_find (fun kv => uint_val kv.1 = z) l with Some (_, kv) => Some kv | None => m !! z end.
Proof.
  induction l as [|kv l IH]; intros m z Hn; [done|]. cbn [foldl list_find]. apply NoDup_cons in Hn as [Hni Hn]. rewrite IH by done.
  destruct (decide (uint_val kv.1 = z)) as [He|Hne].
  - destruct (list_find _ l) as [[i kv']|] eqn:E; [|by rewrite He, lookup_insert_eq].
    apply list_find_Some in E as (Hl & Hz & _). exfalso. apply Hni.
    assert (kv.1 = kv'.1) as -> by (apply uint_eq; congruence). apply list_elem_of_fmap. exists kv'. split; [done|].
    by eapply list_elem_of_lookup_2.
  - destruct (list_find _ l) as [[i kv']|]; simpl; [done|]. by rewrite lookup_insert_ne.
Qed.

(** [build_updates] hands the whole content of the map over and empties it. *)
Lemma ABCI_build_updates_spec s b p c (f : PubKey -> option ValidatorUpdate) :
  Read_inv b -> none_stored s b -> up_attached s (AP_updates p) -> up_abs b (AP_updates p) f ->
  exists m' U, ABCI_build_updates b (p, c) = (Ok tt, (set_validator_updates (Some U) (set_updates m' p), c)) /\
    up_attached s m' /\ up_abs b m' (fun _ => None) /\
    (forall z e, U !! z = Some e <-> uint_val e.1 = z /\ f e.1 = Some e.2).
Proof.
  intros Hb Hns Hm Hf. destruct (Map_fresh_tidy (K := PubKey) s b Hns) as [Ht Hff].
  destruct (Map_iter_collects (StateSpec0 := VU_StateSpec) s b (AP_updates p) f _ Hb Hm Hf Ht Hff (Nat.lt_succ_diag_r _)) as (it & out & Hit & Hout & Hs & Hin & Hall).
  destruct (remove_updates_spec s b out.*1 Hb p c f Hm Hf) as (m' & Hrm & Hm' & Hf').
  assert (Hnd : NoDup out.*1).
  { clear -Hs. induction Hs as [|[k u] l Hl IH Hx]; [constructor|]. simpl. constructor; [|done].
    intros ([k' u'] & -> & Hin')%list_elem_of_fmap. rewrite Forall_forall in Hx. specialize (Hx _ Hin'). simpl in Hx.
    by apply blt_irrefl in Hx. }
  exists m', (foldl (fun m kv => <[uint_val kv.1 := kv]> m) ∅ out). split_and!.
  - unfold ABCI_build_updates, bindM, readM. cbn [fst snd]. rewrite Hit. cbn [res_bind]. rewrite Hout, Hrm. done.
  - done.
  - eapply Map_abs_ext; [|exact Hf']. intros k. apply foldl_clear. intros k' Hk'. by apply Hin.
  - intros z e. rewrite foldl_insert_lookup by done. rewrite Forall_forall in Hall. split.
    + destruct (list_find _ out) as [[i kv]|] eqn:E; [|by rewrite lookup_empty]. intros [= <-].
      apply list_find_Some in E as (Hl & Hz & _). split; [done|]. apply list_elem_of_lookup_2 in Hl. apply Hall in Hl.
      destruct (f kv.1) as [x|] eqn:Efk; simpl in Hl; [|done]. destruct Hl as [_ ->]. done.
    + intros [Hz He]. assert (e.1 ∈ out.*1) as ([k u] & Hk & Hku)%list_elem_of_fmap by (apply Hin; by rewrite He).
      pose proof (Hall _ Hku) as Hv. simpl in Hk, Hv. subst k. rewrite He in Hv. destruct Hv as [_ Hv]. simpl in Hv.
      destruct (list_find_elem_of (fun kv => uint_val kv.1 = z) out (e.1, u) Hku Hz) as [[i kv] E]. rewrite E.
      apply list_find_Some in E as (Hl & Hz' & _). f_equal.
      assert (kv.1 = e.1) as Hk1 by (apply uint_eq; congruence).
      assert (kv = (e.1, u)) as ->; [|destruct e; simpl in *; by subst].
      apply list_elem_of_lookup_2 in Hl. apply Hall in Hl. rewrite Hk1, He in Hl. destruct Hl as [_ Hl]. simpl in Hl.
      destruct kv; simpl in *; by subst.
Qed.

Lemma ABCI_finish_spec s b p c v vm (g : PubKey -> option u64) :
  Read_inv b -> none_stored (Store_sub s [1%Z]) b ->
  Context_resolve (T := Validators) c = Some v -> keyed (V_updates v) ->
  up_attached (Store_sub s [1%Z]) (AP_updates p) -> up_abs b (AP_updates p) (fun _ => None) ->
  vp_cells (cells c) !! V_current_vp v = Some (Some vm) -> vp_attached (Store_sub s [2%Z]) vm -> vp_abs b vm g ->
  exists m' vm', ABCI_finish b (p, c) =
      (Ok tt, (set_validator_updates (Some (V_updates v)) (set_updates m' p), set_cells (set_vp (V_current_vp v) (Some vm') (cells c)) c)) /\
    up_attached (Store_sub s [1%Z]) m' /\ up_abs b m' (fun _ => None) /\
    vp_attached (Store_sub s [2%Z]) vm' /\ vp_abs b vm' (powers_after (V_updates v) g).
Proof.
  intros Hb Hns Hc HU Hm Hf Hl Hv Hg.
  destruct (apply_updates_spec (Store_sub s [1%Z]) (Store_sub s [2%Z]) b (V_current_vp v) (hash_iter (V_updates v)) Hb p c vm _ g Hm Hf Hl Hv Hg)
    as (m1 & vm' & Hap & Hm1 & Hf1 & Hv' & Hg').
  destruct (ABCI_build_updates_spec (Store_sub s [1%Z]) b (set_updates m1 p) (set_cells (set_vp (V_current_vp v) (Some vm') (cells c)) c) _ Hb Hns Hm1 Hf1)
    as (m' & U & Hbu & Hm' & Hf' & HUe).
  assert (U = V_updates v) as ->.
  { apply map_eq. intros z. apply option_eq. intros e. rewrite HUe.
    rewrite (foldl_upd (SS := VU_StateSpec) (fun e => Some e.2)) by eauto using hash_iter_keyed, hash_iter_NoDup.
    rewrite hash_iter_map. split.
    - intros [<- He]. destruct (V_updates v !! uint_val e.1) as [e'|] eqn:E; [|done]. injection He as He.
      f_equal. pose proof (HU _ _ E) as Hk. apply uint_eq in Hk. destruct e, e'; simpl in *; by subst.
    - intros He. split; [by apply HU|]. pose proof (HU _ _ He) as Hk. by rewrite Hk, He. }
  exists m', vm'. split_and!; [|done..|].
  - unfold ABCI_finish, bindM. unfold in_ctx at 1, zoomM at 1, readM, unwrap_ctx. cbn [snd]. rewrite Hc. unfold id.
    rewrite (in_vp_run (V_current_vp v) (retM tt) vm (Ok tt) vm) by done. rewrite set_vp_id, set_cells_id by done.
    cbn [fst]. by rewrite Hap, Hbu.
  - eapply Map_abs_ext; [|exact Hg']. intros k.
    rewrite (foldl_upd (SS := uint_StateSpec 8) (fun e => power_of e.2)) by eauto using hash_iter_keyed, hash_iter_NoDup.
    by rewrite hash_iter_map.
Qed.

End PluginSpec.

(** ** Contexts *)

Section Contexts.
Context `{Profile} `{CompatMode} `{PM : PluginMessages} `{HO : HashOrder}.
Context {St : Type} `{Read St} `{!Write St} `{!Bounded St} {SVU : State St ValidatorUpdate}.
Context {T C : Type} {AI : App T C}.
Implicit Types (b : St) (p : ABCIPlugin T) (c : ContextMap) (pc : ABCIPlugin T * ContextMap).

(** The contexts a handler starts with. *)
Definition enter p c : ContextMap :=
  (create_time_ctx (AP_time p) (ctx_set (Some (Validators_new (AP_current_vp p) (AP_cons_key_by_op_addr p))) c)).2.

Lemma ABCI_call_eq b call p c :
  ABCI_call b call (p, c) =
    match ABCI_dispatch call (p, enter p c) with
    | (Ok _, pc) => with_context_remover (ABCI_finish b) pc
    | (r, pc) => (r, (pc.1, ctx_set (T := Validators) None pc.2))
    end.
Proof.
  unfold ABCI_call, with_context_remover, enter, bindM, readM, in_ctx, zoomM, create_time_ctx, Context_add, retM.
  cbn [fst snd]. destruct (AP_time p); cbn [fst snd]; by destruct (ABCI_dispatch call _) as [[[]| |] [? ?]].
Qed.

(** The buffers and what the plugin has collected from them. *)
Definition buffers pc := (Context_resolve (T := Events) pc.2, Context_resolve (T := Logs) pc.2, AP_events pc.1, AP_logs pc.1).

Lemma in_updates_buffers {A} (f : M UpdateMap A) pc : buffers (in_updates f pc).2 = buffers pc.
Proof. unfold in_updates, zoomM. by destruct (f _). Qed.
Lemma in_vp_buffers {A} loc (f : M VpMap A) pc : buffers (in_ctx (in_cells (in_vp loc f)) pc).2 = buffers pc.
Proof.
  unfold in_ctx, in_cells, zoomM, in_vp. destruct pc as [p [? ? ? []]]. simpl.
  by destruct (vp_cells _ !! loc) as [[?|]|]; [destruct (f _)|..].
Qed.
Lemma bind_buffers {A B} (m : M (ABCIPlugin T * ContextMap) A) (k : A -> M _ B) pc :
  (forall pc, buffers (m pc).2 = buffers pc) -> (forall a pc, buffers (k a pc).2 = buffers pc) ->
  buffers (bindM m k pc).2 = buffers pc.
Proof. intros Hm Hk. unfold bindM. specialize (Hm pc). destruct (m pc) as [[a| |] pc']; [|done..]. by rewrite Hk. Qed.
Hint Resolve in_updates_buffers in_vp_buffers : orga.

Lemma apply_updates_buffers b loc l pc : buffers (apply_updates b loc l pc).2 = buffers pc.
Proof.
  revert pc. induction l as [|[z [k u]] l IH]; intros pc; [done|]. cbn [apply_updates].
  apply bind_buffers; [auto with orga|]. intros _ pc1. apply bind_buffers; [|auto]. destruct (0 <? _)%Z; auto with orga.
Qed.
Lemma remove_updates_buffers b ks pc : buffers (remove_updates b ks pc).2 = buffers pc.
Proof. revert pc. induction ks as [|k ks IH]; intros pc; [done|]. cbn [remove_updates]. apply bind_buffers; auto with orga. Qed.
Lemma ABCI_finish_buffers b pc : buffers (ABCI_finish b pc).2 = buffers pc.
Proof.
  unfold ABCI_finish. apply bind_buffers; [by intros [? ?]|]. intros v pc1.
  apply bind_buffers; [auto with orga|]. intros _ pc2. apply bind_buffers; [apply apply_updates_buffers|]. intros _ pc3.
  unfold ABCI_build_updates. apply bind_buffers; [done|]. intros es pc4. apply bind_buffers; [apply remove_updates_buffers|].
  by intros _ pc5.
Qed.

(** What is left of the buffers by the handlers that have them. *)
Lemma with_buffers_spec handler pc :
  match with_buffers handler pc with
  | (Panic _, _) => True
  | (r, pc') => exists pc1 ls, Context_resolve (T := Logs) pc1.2 = Some ls /\
      handler (set_logs (Some []) (set_events (Some []) pc.1), ctx_set (Some Logs_default) (ctx_set (Some Events_default) pc.2)) = (r, pc1) /\
      (if r is Ok _ then exists es, Context_resolve (T := Events) pc1.2 = Some es /\ buffers pc' = (None, None, Some (Events_events es), Some (Logs_messages ls))
       else buffers pc' = (None, None, AP_events pc1.1, Some (Logs_messages ls))) /\
      AP_inner pc'.1 = AP_inner pc1.1
  end.
Proof.
  unfold with_buffers, bindM at 1 2 3 4, in_ctx, zoomM, Context_add, set_plugin. cbn [fst snd].
  destruct (handler _) as [[[]|e|w] [p1 c1]] eqn:E; [| |done].
  - unfold bindM, readM, unwrap_ctx. cbn [fst snd]. destruct (Context_resolve (T := Events) c1) as [es|] eqn:Ee; [|done].
    cbn [fst snd]. destruct (Context_resolve (T := Logs) c1) as [ls|] eqn:El; [|done].
    unfold Context_remove, liftM. simpl. exists (p1, c1), ls. split_and!; [done..| |done]. by exists es.
  - unfold bindM, readM, unwrap_ctx, retM. cbn [fst snd]. destruct (Context_resolve (T := Logs) c1) as [ls|] eqn:El; [|done].
    unfold Context_remove, liftM. simpl. exists (p1, c1), ls. by split_and!.
Qed.
End Contexts.
