(* ===== verification/InternalApp.v ===== *)
(** * [InternalApp] (src/abci/node.rs)

    The adapter from an application state to the ABCI [Application] trait: every
    request loads the plugin from the store it is handed, runs one call on it under
    a mutex, and flushes it back. The store and the global contexts are the state;
    the app is given per store, since its calls read through the store. *)

From stdpp Require Import base tactics numbers list strings gmap.
From Stdlib Require Import ZArith Lia.
From S2P Require Import Prelude Bytes BTree StoreIface StoreIter NullStore BufStore PrefixStore Codec StateIface StructState MapColl MapSpec MapProps MapIter Next EntryMap Coins AbciTypes Address Context Plugins AbciStore AbciPlugin.

(** The responses, with the fields the adapter sets. *)
Class AppMessages `{PM : PluginMessages} := {
  RequestDeliverTx_tx : RequestDeliverTx -> bytes;
  RequestCheckTx_tx : RequestCheckTx -> bytes;
  ResponseInitChain_validators : list ValidatorUpdate -> ResponseInitChain;
  ResponseBeginBlock_events : list Event -> ResponseBeginBlock;
  ResponseEndBlock_of : forall (events : list Event) (validator_updates : list ValidatorUpdate), ResponseEndBlock;
  ResponseDeliverTx_of : forall (code : Z) (log : string) (events : list Event), ResponseDeliverTx;
  ResponseCheckTx_of : forall (code : Z) (log : string) (events : list Event), ResponseCheckTx
}.

(** The environment variable [ORGA_STATIC_VALSET]. *)
Class StaticValset := { ORGA_STATIC_VALSET : option string }.

(** [Mutex<T>]: the value and whether a panic poisoned it. *)
Record Mutex (T : Type) := mkMutex { Mutex_data : T; Mutex_poisoned : bool }.
Arguments mkMutex {T} _ _.
Arguments Mutex_data {T} _.
Arguments Mutex_poisoned {T} _.

Section Locking.
Context {T X : Type}.

(** [m.lock().unwrap().f()]: the guard is held while [f] runs, so a panic in [f]
    poisons the mutex. *)
Definition lock_unwrap {A} (f : M (T * X) A) : M (Mutex T * X) A := fun p =>
  if Mutex_poisoned p.1 then (Panic "PoisonError", p)
  else
    let '(r, (t, x)) := f (Mutex_data p.1, p.2) in
    (r, (mkMutex t (if r is Panic _ then true else false), x)).

(** [catch_unwind(f).map_err(|_| Error::Call("Panicked"))]: both kinds of failure
    become values. *)
Definition catch_unwind {S A} (err : Error) (f : M S A) : M S (Error + A) := fun s =>
  match f s with
  | (Ok a, s') => (Ok (inr a), s')
  | (Err e, s') => (Ok (inl e), s')
  | (Panic _, s') => (Ok (inl err), s')
  end.
End Locking.

Section InternalApp.
Context `{Profile} `{CompatMode} `{AM : AppMessages} `{HO : HashOrder} `{StaticValset}.
Context {St : Type} `{Read St} `{!Write St} `{!Bounded St} {SVU : State St ValidatorUpdate}.
Context {T C : Type} {ST : State St T} `{Default T} {DC : Decode C} (AI : St -> App T C).
Implicit Types (b : St).
Abbreviation Plugin := (ABCIPlugin T).
Abbreviation Op := (fun A => St -> M (Mutex Plugin * ContextMap) A).

(** The root handle. *)
Definition root : Store := Store_new.

(** Bring the first state of a chain into the store. *)
Definition IA_init : M (St * ContextMap) bytes :=
  do default <- on_ctx (ABCI_default (default (T := T)));
  do default <- (fun p =>
    let '(r, pc) := ABCI_attach (St := St) root (default, p.2) in
    (res_bind r (fun _ => Ok pc.1), (p.1, pc.2)));
  do encoded_bytes <- ABCI_flush default;
  run on_store (Store_put root [] encoded_bytes);
  retM encoded_bytes.

Definition IA_run {A} (op : Op A) : M (St * ContextMap) A :=
  do got <- on_store (readM (fun b => Store_get root b []));
  do state_bytes <- match got with Some inner => retM inner | None => IA_init end;
  do state <- ABCI_load root state_bytes;
  fun p =>
    let '(r, (state, ctx)) := op p.1 (mkMutex state false, p.2) in
    match r with
    | Panic w => (Panic w, (p.1, ctx))
    | _ =>
        (* [if let Ok(state) = state.into_inner()] *)
        (run (if Mutex_poisoned state then retM tt
              else
                do bytes <- ABCI_flush (Mutex_data state);
                on_store (Store_put root [] bytes));
         liftM r) (p.1, ctx)
    end.

(** The call, by the app over the store. *)
Definition call_on b (call : ABCICall C) : M (Plugin * ContextMap) unit := ABCI_call (AI := AI b) b call.

(** [self.f.take()] *)
Definition take_validator_updates : M (Plugin * ContextMap) (option (gmap Z (PubKey * ValidatorUpdate))) := fun p =>
  (Ok (AP_validator_updates p.1), (set_validator_updates None p.1, p.2)).
Definition take_events : M (Plugin * ContextMap) (list Event) := fun p =>
  (Ok (from_option id [] (AP_events p.1)), (set_events None p.1, p.2)).
Definition take_logs : M (Plugin * ContextMap) (list string) := fun p =>
  (Ok (from_option id [] (AP_logs p.1)), (set_logs None p.1, p.2)).
Definition expect {S A} (why : string) (o : option A) : M S A := liftM (unwrap o why).

(** [updates.drain_updates().for_each(..)] *)
Definition drain_updates (updates : gmap Z (PubKey * ValidatorUpdate)) : list ValidatorUpdate :=
  (fun e => e.2.2) <$> hash_iter updates.

Definition IA_init_chain (req : RequestInitChain) : M (St * ContextMap) ResponseInitChain :=
  do updates <- IA_run (fun b => lock_unwrap (
    run call_on b (CallInitChain req);
    do u <- take_validator_updates;
    expect "ABCI plugin did not create initial validator updates" u));
  retM (ResponseInitChain_validators (drain_updates updates)).

Definition IA_begin_block (req : RequestBeginBlock) : M (St * ContextMap) ResponseBeginBlock :=
  do '(events, _) <- IA_run (fun b => lock_unwrap (
    run call_on b (CallBeginBlock req);
    do events <- take_events;
    do logs <- take_logs;
    retM (events, logs)));
  retM (ResponseBeginBlock_events events).

(** The flag is read for every update. *)
Definition static_valset : bool :=
  match ORGA_STATIC_VALSET with
  | Some flag => negb (String.eqb flag "0") && negb (String.eqb flag "false")
  | None => false
  end.
Definition IA_end_block (req : RequestEndBlock) : M (St * ContextMap) ResponseEndBlock :=
  do '(updates, events, _) <- IA_run (fun b => lock_unwrap (
    run call_on b (CallEndBlock req);
    do u <- take_validator_updates;
    do updates <- expect "ABCI plugin did not create validator update map" u;
    do events <- take_events;
    do logs <- take_logs;
    retM (updates, events, logs)));
  retM (ResponseEndBlock_of events (List.filter (fun _ => negb static_valset) (drain_updates updates))).

(** Decoding the transaction takes no account of bytes that are left over. *)
Definition run_tx (wrap : C -> ABCICall C) (tx : bytes) b : M (Mutex Plugin * ContextMap) unit :=
  do '(inner_call, _) <- liftM (Decode_decode tx);
  lock_unwrap (call_on b (wrap inner_call)).

Definition join_lines (logs : list string) : string := String.concat (String (Ascii.ascii_of_nat 10) EmptyString) logs.
(** The text of a failed transaction. *)
Definition failed_log (err : Error) (logs : list string) : string :=
  match logs with [] => Error_to_string err | _ => join_lines logs end.

Definition IA_deliver_tx (req : RequestDeliverTx) : M (St * ContextMap) ResponseDeliverTx :=
  do '(res, events, logs) <- IA_run (fun b =>
    do res <- catch_unwind (ECall "Panicked") (run_tx CallDeliverTx (RequestDeliverTx_tx req) b);
    lock_unwrap (
      do events <- take_events;
      do logs <- take_logs;
      retM (res, events, logs)));
  retM (match res with
        | inr _ => ResponseDeliverTx_of 0 (join_lines logs) events
        | inl err => ResponseDeliverTx_of 1 (failed_log err logs) []
        end).

(** Unlike [deliver_tx], a poisoned mutex is passed over. *)
Definition IA_check_tx (req : RequestCheckTx) : M (St * ContextMap) ResponseCheckTx :=
  do '(res, events, logs) <- IA_run (fun b =>
    do res <- catch_unwind (ECall "Panicked") (run_tx CallCheckTx (RequestCheckTx_tx req) b);
    do poisoned <- readM (fun p => Ok (Mutex_poisoned p.1));
    if poisoned : bool then retM (res, [], [])
    else lock_unwrap (
      do events <- take_events;
      do logs <- take_logs;
      retM (res, events, logs)));
  retM (match res with
        | inr _ => ResponseCheckTx_of 0 (join_lines logs) events
        | inl err => ResponseCheckTx_of 1 (failed_log err logs) []
        end).
End InternalApp.
