(* ===== verification/InternalAppSpec.v ===== *)
(** * What the node adapter does to the chain

    [chain_state]: the store holds a plugin whose parts have a given abstract
    content. Every request of [InternalApp] takes a store with one content to a
    store with the content the handler produced, whether the handler succeeded or
    failed; the updates a transaction makes to the validator set are applied to the
    voting powers but are not part of what the next [EndBlock] reports. *)

From stdpp Require Import base tactics numbers list strings gmap.
From Stdlib Require Import ZArith Lia.
From S2P Require Import Prelude Bytes BTree StoreIface StoreIter NullStore BufStore PrefixStore Codec StateIface StructState MapColl MapSpec MapProps MapIter MapIterSpec Next EntryMap Coins AbciTypes Context Plugins AbciStore AbciPlugin AbciPluginSpec InternalApp.

(** ** Frames between the fields *)

Lemma field_disjoint s (i j : Z) : i <> j ->
  disjoint_prefixes (Store_prefix (Store_sub s [i])) (Store_prefix (Store_sub s [j])).
Proof.
  intros Hij. apply disjoint_sub. unfold disjoint_prefixes. simpl.
  rewrite (proj2 (Z.eqb_neq i j)), (proj2 (Z.eqb_neq j i)) by congruence. done.
Qed.
Lemma field_frame `{WS : WriteSpec St} s (i j : Z) (b b' : St) :
  i <> j -> only_under (Store_sub s [j]) b b' -> agree_under (Store_sub s [i]) b b'.
Proof. intros Hij Hu. eapply only_under_agree; [|exact Hu]. by apply field_disjoint. Qed.

(** Flushing a map writes no bytes of its own, and loading reads none. *)
Lemma Map_flush_load `{Profile} `{WS : WriteSpec St} `{!Bounded St} `{!BoundedSpec St} `{KS : KeySpec K} {V : Type} {SV : State St V} `{!StateSpec St V}
    (s : Store) (b : St) (m : Map K V) f :
  Map_attached s m -> Read_inv b -> Forall (child_flushable s b) (Map_children m) -> Map_abs b m f ->
  exists b', Map_flush m b = (Ok [], b') /\ Read_inv b' /\ only_under s b b' /\ keeps_writable b b' /\
    forall b2, Read_inv b2 -> agree_under s b' b2 -> exists m' : Map K V, Map_load s [] b2 = Ok (m', []) /\ Map_attached s m' /\ Map_abs b2 m' f.
Proof.
  intros Hm Hb Hfl Hf. destruct (Map_flush_spec s b m f Hm Hb Hfl Hf) as (b' & E & Hb' & Hu & Hk & Hl).
  exists b'. split_and!; [done..|]. intros b2 Hb2 Hag. exists (mkMap s []). split_and!; [done| |by apply Hl].
  split_and!; [done|constructor..].
Qed.

(** ** The content of the chain *)

Section Rep.
Context `{Profile} `{CompatMode} `{WS : WriteSpec St} `{!Bounded St} `{!BoundedSpec St} `{CU : CodecSpec ValidatorUpdate}.
Context {T : Type} {ST : State St T} `{!StateSpec St T}.
Implicit Types (b : St) (p : ABCIPlugin T) (cs : Cells) (c : ContextMap).
#[local] Existing Instance VU_State.
#[local] Existing Instance VU_StateSpec.

Abbreviation F := (fun i : Z => Store_sub root [i]).
Abbreviation vp_abs := (EntryMap_abs (T := ValidatorEntry) (K := PubKey) (V := u64) (SV := uint_State 8) (StateSpec0 := uint_StateSpec 8)).
Abbreviation vp_attached := (EntryMap_attached (T := ValidatorEntry) (K := PubKey) (V := u64) (SV := uint_State 8) (StateSpec0 := uint_StateSpec 8)).
Abbreviation vp_upd := (upd (K := PubKey) (V := u64) (SV := uint_State 8) (StateSpec0 := uint_StateSpec 8)).
Abbreviation up_abs := (Map_abs (K := PubKey) (V := ValidatorUpdate) (SV := VU_State) (StateSpec0 := VU_StateSpec)).
Abbreviation up_attached := (Map_attached (K := PubKey) (V := ValidatorUpdate) (SV := VU_State) (StateSpec0 := VU_StateSpec)).
Abbreviation up_upd := (upd (K := PubKey) (V := ValidatorUpdate) (SV := VU_State) (StateSpec0 := VU_StateSpec)).
Abbreviation op_abs := (Map_abs (K := uint 20) (V := PubKey) (SV := uint_State 32) (StateSpec0 := uint_StateSpec 32)).
Abbreviation op_attached := (Map_attached (K := uint 20) (V := PubKey) (SV := uint_State 32) (StateSpec0 := uint_StateSpec 32)).
Implicit Types (x : model (V := T)) (g : PubKey -> option u64) (o : uint 20 -> option PubKey).

(** The parts of a plugin stand for the application state [x], the voting powers
    [g] and the operator keys [o]; no updates are pending. *)
Record plugin_rep b p cs x g o : Prop := {
  pr_inner : attached (F 0%Z) (AP_inner p);
  pr_x : abs b (AP_inner p) x;
  pr_updates : up_attached (F 1%Z) (AP_updates p);
  pr_empty : up_abs b (AP_updates p) (fun _ => None);
  pr_vp : exists vm, vp_cells cs !! AP_current_vp p = Some (Some vm) /\ vp_attached (F 2%Z) vm /\ vp_abs b vm g;
  pr_op : exists om, op_cells cs !! AP_cons_key_by_op_addr p = Some (Some om) /\ op_attached (F 3%Z) om /\ op_abs b om o
}.

(** The keys of the plugin are within the limits of the store. *)
Definition roomy b : Prop :=
  Store_writable root b [] /\ (forall k : PubKey, Store_writable (F 2%Z) b (enc k)) /\ (forall a : uint 20, Store_writable (F 3%Z) b (enc a)).
Lemma roomy_mono b b' : keeps_writable b b' -> roomy b -> roomy b'.
Proof.
  intros Hk (E0 & E2 & E3). split_and!; [destruct E0|intros k; destruct (E2 k)|intros k; destruct (E3 k)]; (split; [done|by apply Hk]).
Qed.

(** The fields that are not stored. *)
Definition fresh p : Prop :=
  AP_validator_updates p = None /\ AP_time p = None /\ AP_events p = None /\ AP_logs p = None.

(** The bytes load into such a plugin, from any store that agrees on the rest. *)
Definition state_at b (bs : bytes) x g o : Prop := forall b2 c, Read_inv b2 -> agree_under root b b2 ->
  exists p cs, ABCI_load root bs (b2, c) = (Ok p, (b2, set_cells cs c)) /\ fresh p /\ plugin_rep b2 p cs x g o.
Definition chain_state b x g o : Prop :=
  Read_inv b /\ none_stored (F 1%Z) b /\ exists bs, view b !! [] = Some bs /\ state_at b bs x g o.

(** ** Loading *)

Lemma ABCI_load_ok b c bs (t : T) (m : UpdateMap) (vm : VpMap) (om : OperatorMap) :
  State_load (F 0%Z) bs b = Ok (t, []) -> State_load (F 1%Z) [] b = Ok (m, []) ->
  State_load (F 2%Z) [] b = Ok (vm, []) -> State_load (F 3%Z) [] b = Ok (om, []) ->
  ABCI_load root ((if compat_mode then [] else [0%Z]) ++ bs) (b, c) =
    (Ok (mkABCIPlugin t None m None None (length (vp_cells (cells c))) (length (op_cells (cells c))) None),
     (b, set_cells (mkCells (vp_cells (cells c) ++ [Some vm]) (op_cells (cells c) ++ [Some om])) c)).
Proof.
  intros E0 E1 E2 E3. unfold ABCI_load, bindM at 1. cbn [fst].
  pose proof (load_child_ok (ver := 0) root 0 b bs [] t ltac:(lia) ltac:(by rewrite app_nil_r)) as L0.
  pose proof (load_child_ok (ver := 0) root 1 b [] [] m ltac:(lia) E1) as L1.
  pose proof (load_child_ok (ver := 0) root 2 b [] [] vm ltac:(lia) E2) as L2.
  pose proof (load_child_ok (ver := 0) root 3 b [] [] om ltac:(lia) E3) as L3.
  rewrite !andb_false_r in L1, L2, L3. rewrite andb_true_r, app_nil_r in L0.
  unfold bindM at 1. unfold Loader_new. replace (if compat_mode then [] else [0%Z]) with (if negb compat_mode then [0%Z] else [])
    by by destruct compat_mode.
  rewrite L0. unfold bindM at 1. change (0 + 1)%Z with 1%Z. cbn [app] in L1, L2, L3. rewrite L1.
  unfold bindM at 1. change (1 + 1)%Z with 2%Z. rewrite L2.
  unfold bindM at 1. change (2 + 1)%Z with 3%Z. rewrite L3. done.
Qed.

Lemma EntryMap_load_ok s b (vm : Map PubKey u64) :
  Map_load s [] b = Ok (vm, []) -> State_load s [] b = Ok (mkEntryMap vm : VpMap, []).
Proof.
  intros Hl. unfold Map_load in Hl. cbn [State_load EntryMap_State]. unfold EntryMap_load, EntryMap_attach, on_map, EntryMap_default.
  cbn [EntryMap_map]. destruct (Map_attach s Map_new) as [[[]| |] m2]; [|discriminate Hl..]. by injection Hl as ->.
Qed.

(** ** Flushing *)

(** Flushing a map without content into a store that has nothing under it leaves
    nothing under it. *)
Lemma flush_empty_children s (l : BTree (PubKey * option ValidatorUpdate)) : forall b b',
  Read_inv b -> none_stored s b -> Forall (fun e => e.2.2 = None) l ->
  flush_children s l b = (Ok tt, b') -> none_stored s b'.
Proof.
  induction l as [|[kb [k o]] l IH]; intros b b' Hb Hn Hl; cbn [flush_children].
  { unfold retM. by intros [= <-]. }
  apply Forall_cons in Hl as [Ho Hl]. cbn [snd] in Ho. subst o. unfold bindM, liftM. rewrite encode_enc.
  unfold Map_apply_change, bindM.
  destruct (Map_remove_from_store_spec s b (enc k) Hb) as (e & b1 & -> & Hb1 & _ & Hv1 & _). unfold retM.
  apply IH; [done| |done]. apply map_empty. intros q. unfold Store_view. rewrite strip_lookup, Hv1.
  destruct (starts_with _ _); [done|]. rewrite <- strip_lookup. fold (Store_view s b). by rewrite Hn.
Qed.

Lemma empty_children_None s b (m : UpdateMap) :
  up_attached s m -> up_abs b m (fun _ => None) -> Forall (fun e => e.2.2 = None) (Map_children m).
Proof.
  intros (_ & Hw & Hc) Hf. apply Forall_forall. intros [kb [k o]] Hin. rewrite Forall_forall in Hc.
  pose proof (Hc _ Hin) as [Hkb _]. cbn [fst snd] in Hkb |- *. subst kb. specialize (Hf k). rewrite bt_get_lookup in Hf.
  apply bt_elem in Hin; [|done]. rewrite Hin in Hf. by destruct o.
Qed.

Lemma updates_flush_spec b (m : UpdateMap) :
  Read_inv b -> none_stored (F 1%Z) b -> up_attached (F 1%Z) m -> up_abs b m (fun _ => None) ->
  exists b', Map_flush m b = (Ok [], b') /\ Read_inv b' /\ only_under (F 1%Z) b b' /\ keeps_writable b b' /\
    none_stored (F 1%Z) b' /\
    forall b2, Read_inv b2 -> agree_under (F 1%Z) b' b2 ->
      exists m', State_load (F 1%Z) [] b2 = Ok (m', []) /\ up_attached (F 1%Z) m' /\ up_abs b2 m' (fun _ => None).
Proof.
  intros Hb Hn Hm Hf. pose proof (empty_children_None _ _ _ Hm Hf) as Hnone.
  assert (Hfl : Forall (child_flushable (F 1%Z) b) (Map_children m)).
  { eapply Forall_impl; [exact Hnone|]. intros e He v Hv. by rewrite He in Hv. }
  destruct (Map_flush_spec (F 1%Z) b m _ Hm Hb Hfl Hf) as (b' & Hfl' & Hb' & Hu & Hk & Hload).
  exists b'. split_and!; [done..| |].
  - pose proof Hm as (Hs & _). unfold Map_flush, bindM in Hfl'. rewrite Hs in Hfl'.
    destruct (flush_children (F 1%Z) (Map_children m) b) as [[[]| |] b1] eqn:E; [|done..]. injection Hfl' as <-.
    by apply (flush_empty_children (F 1%Z) (Map_children m) b).
  - intros b2 Hb2 Hag. exists (mkMap (F 1%Z) []). split_and!; [done| |by apply Hload]. split_and!; [done|constructor..].
Qed.

Lemma agree_root (i : Z) b b2 : agree_under root b b2 -> agree_under (F i) b b2.
Proof. apply agree_under_sub. Qed.
Lemma none_stored_frame b b2 : agree_under (F 1%Z) b b2 -> view b !! [1%Z] = view b2 !! [1%Z] -> none_stored (F 1%Z) b -> none_stored (F 1%Z) b2.
Proof.
  intros Hag He Hn. apply map_empty. intros q. unfold Store_view. rewrite strip_lookup.
  assert (Hq : view b !! (Store_prefix (F 1%Z) ++ q) = None).
  { rewrite <- strip_lookup. fold (Store_view (F 1%Z) b). by rewrite Hn. }
  destruct q as [|x q]; [change (view b2 !! [1%Z] = None); by rewrite <- He|]. by rewrite <- Hag.
Qed.
Lemma none_stored_root b b2 : agree_under root b b2 -> none_stored (F 1%Z) b -> none_stored (F 1%Z) b2.
Proof. intros Hag. apply none_stored_frame; [by apply agree_root|]. by apply (Hag [1%Z]). Qed.

Lemma flusher_version_run b : Flusher_version [] 0 b = (Ok (if compat_mode then [] else [0%Z]), b).
Proof. unfold Flusher_version. by destruct compat_mode. Qed.

Lemma ABCI_flush_spec b p c x g o :
  Read_inv b -> none_stored (F 1%Z) b -> plugin_rep b p (cells c) x g o -> roomy b -> flushable (F 0%Z) b (AP_inner p) ->
  exists bs b' cs', ABCI_flush p (b, c) = (Ok bs, (b', set_cells cs' c)) /\ Read_inv b' /\ keeps_writable b b' /\
    none_stored (F 1%Z) b' /\ state_at b' bs x g o.
Proof.
  intros Hb Hns [Hi Hx Hup Hem (vm & Hvl & Hva & Hg) (om & Hol & Hoa & Ho)] Hroom Hf0.
  destruct (flush_spec (F 0%Z) b (AP_inner p) x Hi Hb Hf0 Hx) as (bs & b0 & E0 & Hb0 & Hu0 & Hk0 & Hl0).
  destruct (updates_flush_spec b0 (AP_updates p) Hb0) as (b1 & E1 & Hb1 & Hu1 & Hk1 & Hn1 & Hl1).
  { eapply none_stored_frame; [by apply (field_frame root 1 0)| |done]. symmetry. apply Hu0. intros r Hr [= He]. }
  { done. } { eapply Map_abs_frame, Hem; [exact Hup|]. by apply (field_frame root 1 0). }
  destruct (Map_flush_load (StateSpec0 := uint_StateSpec 8) (F 2%Z) b1 (EntryMap_map vm) g Hva Hb1) as (b2 & E2 & Hb2 & Hu2 & Hk2 & Hl2).
  { apply Forall_forall. intros e _ v _. split; [|done]. eapply roomy_mono in Hroom as (_ & Hr & _); [apply Hr|]. eauto with orga. }
  { eapply (abs_frame (StateSpec := Map_StateSpec) (F 2%Z) b b1 (EntryMap_map vm)), Hg; [exact Hva|].
    eapply agree_under_trans; [by apply (field_frame root 2 0)|by apply (field_frame root 2 1)]. }
  destruct (Map_flush_load (StateSpec0 := uint_StateSpec 32) (F 3%Z) b2 om o Hoa Hb2) as (b3 & E3 & Hb3 & Hu3 & Hk3 & Hl3).
  { apply Forall_forall. intros e _ v _. split; [|done]. eapply roomy_mono in Hroom as (_ & _ & Hr); [apply Hr|]. eauto with orga. }
  { eapply (abs_frame (StateSpec := Map_StateSpec) (F 3%Z) b b2 om), Ho; [exact Hoa|].
    eapply agree_under_trans; [by apply (field_frame root 3 0)|].
    eapply agree_under_trans; [by apply (field_frame root 3 1)|by apply (field_frame root 3 2)]. }
  exists ((if compat_mode then [] else [0%Z]) ++ bs), b3,
    (set_op (AP_cons_key_by_op_addr p) None (set_vp (AP_current_vp p) None (cells c))).
  split_and!; [|done|eauto with orga| |].
  - unfold ABCI_flush. erewrite bindM_run; [|apply zoomM_run, flusher_version_run].
    erewrite bindM_run; [|apply zoomM_run; exact E0]. erewrite bindM_run; [|apply zoomM_run; exact E1].
    erewrite bindM_run; [|apply zoomM_run, zoomM_run; unfold take_vp; cbn [snd]; by rewrite Hvl].
    erewrite bindM_run; [|apply zoomM_run; unfold option_flush; erewrite bindM_run; [done|exact E2]].
    erewrite bindM_run; [|apply zoomM_run, zoomM_run; unfold take_op; cbn [snd]; by rewrite cells_set; cbn [op_cells set_vp]; rewrite Hol].
    erewrite bindM_run; [|apply zoomM_run; unfold option_flush; erewrite bindM_run; [done|exact E3]].
    unfold retM. by rewrite app_nil_r.
  - assert (Hag : agree_under (F 1%Z) b1 b3).
    { eapply agree_under_trans; [by apply (field_frame root 1 2)|by apply (field_frame root 1 3)]. }
    eapply none_stored_frame; [exact Hag| |exact Hn1]. transitivity (view b2 !! [1%Z]).
    + symmetry. apply Hu2. intros r Hr [= He].
    + symmetry. apply Hu3. intros r Hr [= He].
  - intros b4 c4 Hb4 Hag4.
    destruct (Hl0 b4 [] Hb4) as (t' & L0 & Ht' & Hx'); [|by right|].
    { eapply agree_under_trans; [by apply (field_frame root 0 1)|].
      eapply agree_under_trans; [by apply (field_frame root 0 2)|].
      eapply agree_under_trans; [by apply (field_frame root 0 3)|by apply agree_root]. }
    destruct (Hl1 b4 Hb4) as (m' & L1 & Hm' & Hf').
    { eapply agree_under_trans; [by apply (field_frame root 1 2)|].
      eapply agree_under_trans; [by apply (field_frame root 1 3)|by apply agree_root]. }
    destruct (Hl2 b4 Hb4) as (vm' & L2 & Hv' & Hg').
    { eapply agree_under_trans; [by apply (field_frame root 2 3)|by apply agree_root]. }
    destruct (Hl3 b4 Hb4) as (om' & L3 & Ho' & Hoo'); [by apply agree_root|].
    rewrite app_nil_r in L0. do 2 eexists. split; [apply (ABCI_load_ok b4 c4 bs t' m' (mkEntryMap vm') om'); [done..| |done]|].
    { by apply EntryMap_load_ok. } split; [done|]. split; try done; simpl.
    + exists (mkEntryMap vm'). split; [|done]. by rewrite list_lookup_middle.
    + exists om'. split; [|done]. by rewrite list_lookup_middle.
Qed.
End Rep.

(** ** One request *)

Section Run.
Context `{Profile} `{CompatMode} `{AM : AppMessages} `{HO : HashOrder} `{StaticValset}.
Context `{WS : WriteSpec St} `{!Bounded St} `{!BoundedSpec St} `{CU : CodecSpec ValidatorUpdate}.
Context {T C : Type} {ST : State St T} `{!StateSpec St T} `{Default T} {DC : Decode C} (AI : St -> App T C).
Implicit Types (b : St) (p : ABCIPlugin T) (cs : Cells) (c : ContextMap).
#[local] Existing Instance VU_State.
#[local] Existing Instance VU_StateSpec.
Implicit Types (x : model (V := T)) (g : PubKey -> option u64) (o : uint 20 -> option PubKey).

(** Loading the plugin of a chain with a state. *)
Lemma IA_run_load {A} (op : St -> M (Mutex (ABCIPlugin T) * ContextMap) A) b c x g o :
  chain_state b x g o ->
  exists p cs, fresh p /\ plugin_rep b p cs x g o /\ none_stored (Store_sub root [1%Z]) b /\
    IA_run op (b, c) =
      (let '(r, (state, ctx)) := op b (mkMutex p false, set_cells cs c) in
       match r with
       | Panic w => (Panic w, (b, ctx))
       | _ => (run (if Mutex_poisoned state then retM tt
                    else do bytes <- ABCI_flush (Mutex_data state); on_store (Store_put root [] bytes));
               liftM r) (b, ctx)
       end).
Proof.
  intros (Hb & Hns & bs & Hv & Hst). destruct (Hst b c Hb (agree_under_refl _ _)) as (p & cs & Hl & Hfr & Hrep).
  exists p, cs. split_and!; [done..|]. unfold IA_run.
  erewrite bindM_run; [|apply zoomM_run; unfold readM; rewrite Store_get_spec by done; unfold Store_view; cbn [fst];
    rewrite strip_lookup; change (Store_prefix root ++ []) with (@nil Z); by rewrite Hv].
  erewrite bindM_run; [|done]. erewrite bindM_run; [|exact Hl]. done.
Qed.

(** Writing the plugin back. *)
Lemma IA_store_back {A} b c p (r : res A) x g o :
  Read_inv b -> none_stored (Store_sub root [1%Z]) b -> roomy b ->
  plugin_rep b p (cells c) x g o -> flushable (Store_sub root [0%Z]) b (AP_inner p) ->
  exists b' cs', (run (do bytes <- ABCI_flush p; on_store (Store_put root [] bytes)); liftM r) (b, c) = (r, (b', set_cells cs' c)) /\
    chain_state b' x g o /\ roomy b'.
Proof.
  intros Hb Hns Hw Hrep Hfl. destruct (ABCI_flush_spec b p c x g o Hb Hns Hrep Hw Hfl) as (bs & b1 & cs' & E & Hb1 & Hk1 & Hn1 & Hst).
  destruct (Store_put_spec root b1 [] bs Hb1) as (b2 & E2 & Hb2 & Hv2 & Hk2); [eapply roomy_mono in Hw as [Hr _]; [exact Hr|done]|].
  assert (Hag : agree_under root b1 b2).
  { intros q Hq. rewrite Hv2, lookup_insert_ne; [done|]. simpl. congruence. }
  exists b2, cs'. split_and!.
  - erewrite bindM_run; [|erewrite bindM_run; [|exact E]; apply zoomM_run; exact E2]. done.
  - split_and!; [done|by eapply none_stored_root|]. exists bs. split; [by rewrite Hv2, lookup_insert_eq|].
    intros b3 c3 Hb3 Hag3. apply Hst; [done|]. by eapply agree_under_trans.
  - eapply roomy_mono, Hw. intros k Hk. apply Hk2, Hk1, Hk.
Qed.

(** ** What a handler does *)

(** A handler [f], started on application state [x] and the shared maps [g] and
    [o], ends with [r], having left [x'], [g'] and [o'], the updates [U] in the
    context and [es], [ls] in the buffers. It neither removes nor replaces the
    contexts it was given. *)
Definition effect b (f : M (T * ContextMap) unit) x g o (r : res unit) x' g' o' U (es : list Event) (ls : list string) : Prop :=
  forall t c v p, AP_inner p = t -> AP_current_vp p = V_current_vp v -> AP_cons_key_by_op_addr p = V_cons_key_by_op_addr v ->
    plugin_rep b p (cells c) x g o ->
    Context_resolve (T := Validators) c = Some v -> V_updates v = ∅ ->
    Context_resolve (T := Events) c = Some Events_default -> Context_resolve (T := Logs) c = Some Logs_default ->
    exists t' c' v', f (t, c) = (r, (t', c')) /\
      plugin_rep b (set_inner t' p) (cells c') x' g' o' /\ flushable (Store_sub root [0%Z]) b t' /\
      Context_resolve (T := Validators) c' = Some v' /\ V_updates v' = U /\ keyed U /\
      V_current_vp v' = V_current_vp v /\
      Context_resolve (T := Events) c' = Some (mkEvents es) /\ Context_resolve (T := Logs) c' = Some (mkLogs ls).

(** The handler of a call that runs one with buffers. *)
Definition handler_of b (call : ABCICall C) : option (M (T * ContextMap) unit) :=
  match call with
  | CallEndBlock req => Some (App_end_block (App := AI b) (EndBlockCtx_from req))
  | CallDeliverTx call | CallCheckTx call => Some (Call_call (Call := App_Call (App := AI b)) call)
  | _ => None
  end.
Lemma dispatch_handler b call f : handler_of b call = Some f -> ABCI_dispatch (AI := AI b) call = with_buffers (in_inner f).
Proof. destruct call; simpl; intros [= <-]; done. Qed.

Definition drop_buffers c : ContextMap := ctx_set (T := Logs) None (ctx_set (T := Events) None c).
Definition with_empty_buffers p c : ABCIPlugin T * ContextMap :=
  (set_logs (Some []) (set_events (Some []) p), ctx_set (Some Logs_default) (ctx_set (Some Events_default) c)).

Lemma with_buffers_ok handler p c p1 c1 es ls :
  handler (with_empty_buffers p c) = (Ok tt, (p1, c1)) ->
  Context_resolve (T := Events) c1 = Some (mkEvents es) -> Context_resolve (T := Logs) c1 = Some (mkLogs ls) ->
  with_buffers handler (p, c) = (Ok tt, (set_logs (Some ls) (set_events (Some es) p1), drop_buffers c1)).
Proof.
  intros Hh He Hl. unfold with_buffers, bindM at 1 2 3 4, in_ctx, zoomM, Context_add, set_plugin. cbn [fst snd].
  unfold with_empty_buffers in Hh. rewrite Hh. unfold bindM, readM, unwrap_ctx. cbn [fst snd]. rewrite He. cbn [fst snd]. by rewrite Hl.
Qed.
Lemma with_buffers_err handler p c p1 c1 ls e :
  handler (with_empty_buffers p c) = (Err e, (p1, c1)) -> Context_resolve (T := Logs) c1 = Some (mkLogs ls) ->
  with_buffers handler (p, c) = (Err e, (set_logs (Some ls) p1, drop_buffers c1)).
Proof.
  intros Hh Hl. unfold with_buffers, bindM at 1 2 3 4, in_ctx, zoomM, Context_add, set_plugin. cbn [fst snd].
  unfold with_empty_buffers in Hh. rewrite Hh. unfold bindM, readM, unwrap_ctx, retM. cbn [fst snd]. by rewrite Hl.
Qed.
Lemma with_buffers_panic handler p c pc1 w :
  handler (with_empty_buffers p c) = (Panic w, pc1) -> with_buffers handler (p, c) = (Panic w, pc1).
Proof.
  intros Hh. unfold with_buffers, bindM at 1 2 3 4, in_ctx, zoomM, Context_add, set_plugin. cbn [fst snd].
  unfold with_empty_buffers in Hh. by rewrite Hh.
Qed.

(** The parts that are stored do not depend on the others. *)
Lemma plugin_rep_same b p p' cs x g o :
  AP_inner p' = AP_inner p -> AP_updates p' = AP_updates p -> AP_current_vp p' = AP_current_vp p ->
  AP_cons_key_by_op_addr p' = AP_cons_key_by_op_addr p -> plugin_rep b p cs x g o -> plugin_rep b p' cs x g o.
Proof. intros E1 E2 E3 E4 [? ? ? ? ? ?]. by split; rewrite ?E1, ?E2, ?E3, ?E4. Qed.

Definition outcome b p' c' (r : res unit) x' g' o' U (es : list Event) (ls : list string) : Prop :=
  AP_logs p' = Some ls /\ flushable (Store_sub root [0%Z]) b (AP_inner p') /\
  match r with
  | Ok _ => AP_validator_updates p' = Some U /\ AP_events p' = Some es /\ plugin_rep b p' (cells c') x' (powers_after U g') o'
  | _ => AP_validator_updates p' = None /\ AP_events p' = Some [] /\ plugin_rep b p' (cells c') x' g' o'
  end.

(** The state a handler is run in. *)
Lemma effect_dispatch b f p c x g o r x' g' o' U es ls :
  fresh p -> plugin_rep b p (cells c) x g o -> effect b f x g o r x' g' o' U es ls ->
  exists t' c' v', in_inner f (with_empty_buffers p (enter p c)) = (r, (set_inner t' (with_empty_buffers p (enter p c)).1, c')) /\
    plugin_rep b (set_inner t' (with_empty_buffers p (enter p c)).1) (cells c') x' g' o' /\
    flushable (Store_sub root [0%Z]) b t' /\
    Context_resolve (T := Validators) c' = Some v' /\ V_updates v' = U /\ keyed U /\ V_current_vp v' = AP_current_vp p /\
    Context_resolve (T := Events) c' = Some (mkEvents es) /\ Context_resolve (T := Logs) c' = Some (mkLogs ls).
Proof.
  intros (_ & Ht & _ & _) Hrep He. unfold with_empty_buffers, enter. rewrite Ht. unfold create_time_ctx, retM. cbn [fst snd].
  set (p0 := set_logs (Some []) (set_events (Some []) p)).
  set (c0 := ctx_set (Some Logs_default) (ctx_set (Some Events_default)
    (ctx_set (Some (Validators_new (AP_current_vp p) (AP_cons_key_by_op_addr p))) c))).
  destruct (He (AP_inner p) c0 (Validators_new (AP_current_vp p) (AP_cons_key_by_op_addr p)) p0) as (t' & c' & v' & Hf & Hrest);
    [done..| |done|done|done|done|].
  { by apply (plugin_rep_same b p). }
  exists t', c', v'. split; [|exact Hrest]. unfold in_inner, zoomM. fold c0. cbn [fst snd].
  change (AP_inner p0) with (AP_inner p). by rewrite Hf.
Qed.

Lemma ABCI_call_effect b call f p c x g o r x' g' o' U es ls :
  handler_of b call = Some f -> Read_inv b -> none_stored (Store_sub root [1%Z]) b -> fresh p ->
  plugin_rep b p (cells c) x g o -> effect b f x g o r x' g' o' U es ls -> (forall w, r <> Panic w) ->
  exists p' c', call_on AI b call (p, c) = (r, (p', c')) /\ outcome b p' c' r x' g' o' U es ls.
Proof.
  intros Hh Hb Hns Hfr Hrep He Hr.
  destruct (effect_dispatch b f p c x g o r x' g' o' U es ls Hfr Hrep He) as (t' & c1 & v' & Hf & Hrep1 & Hfl & Hv & HU & HUk & Hloc & Hes & Hls).
  unfold call_on. rewrite ABCI_call_eq, (dispatch_handler b call f Hh).
  destruct r as [[]|e|w]; [| |by destruct (Hr w)].
  - rewrite (with_buffers_ok _ _ _ _ _ _ _ Hf Hes Hls). unfold with_context_remover.
    set (p1 := set_logs (Some ls) (set_events (Some es) (set_inner t' (with_empty_buffers p (enter p c)).1))).
    pose proof Hrep1 as [Hi Hx Hup Hem (vm & Hvl & Hva & Hg) Hop].
    destruct (ABCI_finish_spec root b p1 (drop_buffers c1) v' vm g' Hb Hns) as (m' & vm' & Hfin & Hm' & Hf' & Hva' & Hg');
      [exact Hv|by rewrite HU|exact Hup|exact Hem|rewrite Hloc; exact Hvl|exact Hva|exact Hg|].
    rewrite Hfin. do 2 eexists. split; [done|]. split_and!; [done|exact Hfl|by rewrite <- HU|done|].
    split; [exact Hi|exact Hx|exact Hm'|exact Hf'| |exact Hop]. exists vm'. split; [|by rewrite HU in Hg'].
    cbn [fst snd AP_current_vp set_validator_updates set_updates set_vp vp_cells cells ctx_set Validators_InContext set_abci ctx_abci ctx_cells set_cells].
    rewrite Hloc. apply list_lookup_insert_eq. by apply lookup_lt_Some in Hvl.
  - rewrite (with_buffers_err _ _ _ _ _ _ _ Hf Hls). do 2 eexists. split; [done|]. destruct Hfr as (Hvu & _).
    split_and!; [done|done|exact Hvu|done|]. by eapply plugin_rep_same, Hrep1.
Qed.

(** A call under the lock, by its effect. *)
Lemma lock_effect b call f p c x g o r x' g' o' U es ls :
  handler_of b call = Some f -> Read_inv b -> none_stored (Store_sub root [1%Z]) b -> fresh p ->
  plugin_rep b p (cells c) x g o -> effect b f x g o r x' g' o' U es ls -> (forall w, r <> Panic w) ->
  exists p' c', lock_unwrap (call_on AI b call) (mkMutex p false, c) = (r, (mkMutex p' false, c')) /\ outcome b p' c' r x' g' o' U es ls.
Proof.
  intros Hh Hb Hns Hfr Hrep He Hr.
  destruct (ABCI_call_effect b call f p c x g o r x' g' o' U es ls Hh Hb Hns Hfr Hrep He Hr) as (p' & c' & Hc & Ho).
  exists p', c'. split; [|done]. unfold lock_unwrap. cbn [fst snd Mutex_data Mutex_poisoned]. rewrite Hc.
  destruct r; [done..|]. by destruct (Hr why).
Qed.

Definition after (r : res unit) U g : PubKey -> option u64 := if r is Ok _ then powers_after U g else g.
Lemma outcome_rep b p' c' r x' g' o' U es ls : outcome b p' c' r x' g' o' U es ls -> plugin_rep b p' (cells c') x' (after r U g') o'.
Proof. intros (_ & _ & Hr). destruct r; by destruct Hr as (_ & _ & Hr). Qed.
Lemma outcome_events b p' c' r x' g' o' U es ls : outcome b p' c' r x' g' o' U es ls ->
  from_option id [] (AP_events p') = if r is Ok _ then es else [].
Proof. intros (_ & _ & Hr). destruct r; by destruct Hr as (_ & -> & _). Qed.

Lemma deliver_tx_run b c req call rest x g o r x' g' o' U es ls :
  chain_state b x g o -> roomy b -> Decode_decode (RequestDeliverTx_tx req) = Ok (call, rest) ->
  effect b (Call_call (Call := App_Call (App := AI b)) call) x g o r x' g' o' U es ls -> (forall w, r <> Panic w) ->
  exists b' c', IA_deliver_tx AI req (b, c) =
      (Ok (match r with Ok _ => ResponseDeliverTx_of 0 (join_lines ls) es | Err e => ResponseDeliverTx_of 1 (failed_log e ls) []
           | Panic _ => ResponseDeliverTx_default end), (b', c')) /\
    chain_state b' x' (after r U g') o' /\ roomy b'.
Proof.
  intros Hcs Hroom Hdec He Hr. unfold IA_deliver_tx. pose proof Hcs as (Hb & _).
  match goal with |- context [IA_run ?op] => destruct (IA_run_load op b c x g o Hcs) as (p & cs & Hfr & Hrep & Hns & Hrun) end.
  destruct (lock_effect b (CallDeliverTx call) _ p (set_cells cs c) x g o r x' g' o' U es ls eq_refl Hb Hns Hfr Hrep He Hr)
    as (p' & c' & Hlk & Ho).
  pose proof (outcome_rep _ _ _ _ _ _ _ _ _ _ Ho) as Hrep'. pose proof (outcome_events _ _ _ _ _ _ _ _ _ _ Ho) as Hev.
  destruct Ho as (Hlog & Hfl & _).
  assert (Htx : run_tx AI CallDeliverTx (RequestDeliverTx_tx req) b (mkMutex p false, set_cells cs c) = (r, (mkMutex p' false, c'))).
  { unfold run_tx. erewrite bindM_run; [|unfold liftM; by rewrite Hdec]. exact Hlk. }
  destruct (IA_store_back b c' (set_logs None (set_events None p'))
     (Ok ((match r with Ok u => inr u | Err e => inl e | Panic _ => inl (ECall "Panicked") end : Error + unit), if r is Ok _ then es else [], ls))
     x' (after r U g') o' Hb Hns Hroom) as (b' & cs' & Hback & Hcs' & Hroom').
  { by eapply plugin_rep_same, Hrep'. } { exact Hfl. }
  exists b', (set_cells cs' c'). split; [|done].
  rewrite (bindM_run _ _ _ ((match r with Ok u => inr u | Err e => inl e | Panic _ => inl (ECall "Panicked") end : Error + unit),
    if r is Ok _ then es else [], ls) (b', set_cells cs' c')).
  2: { rewrite Hrun. unfold bindM at 1, catch_unwind. rewrite Htx.
       unfold lock_unwrap, take_events, take_logs, bindM, retM. cbn [fst snd].
       destruct r as [[]|e|w]; [| |by destruct (Hr w)]; cbn [Mutex_poisoned Mutex_data fst snd]; rewrite Hev;
         change (AP_logs (set_events None p')) with (AP_logs p'); rewrite Hlog; cbn [from_option]; exact Hback. }
  unfold retM. by destruct r as [[]|e|w]; [| |destruct (Hr w)].
Qed.

Lemma end_block_run b c req x g o x' g' o' U es ls :
  chain_state b x g o -> roomy b ->
  effect b (App_end_block (App := AI b) (EndBlockCtx_from req)) x g o (Ok tt) x' g' o' U es ls ->
  exists b' c', IA_end_block AI req (b, c) =
      (Ok (ResponseEndBlock_of es (List.filter (fun _ => negb static_valset) (drain_updates U))), (b', c')) /\
    chain_state b' x' (powers_after U g') o' /\ roomy b'.
Proof.
  intros Hcs Hroom He. unfold IA_end_block. pose proof Hcs as (Hb & _).
  match goal with |- context [IA_run ?op] => destruct (IA_run_load op b c x g o Hcs) as (p & cs & Hfr & Hrep & Hns & Hrun) end.
  destruct (ABCI_call_effect b (CallEndBlock req) _ p (set_cells cs c) x g o (Ok tt) x' g' o' U es ls eq_refl Hb Hns Hfr Hrep He ltac:(done))
    as (p' & c' & Hcall & Hlog & Hfl & Hvu & Hev & Hrep').
  destruct (IA_store_back b c' (set_logs None (set_events None (set_validator_updates None p'))) (Ok (U, es, ls))
     x' (powers_after U g') o' Hb Hns Hroom) as (b' & cs' & Hback & Hcs' & Hroom').
  { by eapply plugin_rep_same, Hrep'. } { exact Hfl. }
  exists b', (set_cells cs' c'). split; [|done].
  erewrite bindM_run; [|rewrite Hrun; unfold lock_unwrap; cbn [fst snd Mutex_data Mutex_poisoned]].
  2: { unfold bindM at 1. rewrite Hcall. unfold take_validator_updates, expect, take_events, take_logs, bindM, retM, liftM.
       cbn [fst snd]. rewrite Hvu. cbn [unwrap from_option]. change (AP_events (set_validator_updates None p')) with (AP_events p').
       change (AP_logs (set_events None (set_validator_updates None p'))) with (AP_logs p'). rewrite Hev, Hlog.
       cbn [from_option fst snd Mutex_poisoned Mutex_data]. exact Hback. }
  done.
Qed.

(** A handler that panics whenever it is started on this state. *)
Definition panics b (f : M (T * ContextMap) unit) x g o : Prop :=
  forall t c v p, AP_inner p = t -> AP_current_vp p = V_current_vp v -> AP_cons_key_by_op_addr p = V_cons_key_by_op_addr v ->
    plugin_rep b p (cells c) x g o ->
    Context_resolve (T := Validators) c = Some v -> V_updates v = ∅ ->
    Context_resolve (T := Events) c = Some Events_default -> Context_resolve (T := Logs) c = Some Logs_default ->
    exists w tc, f (t, c) = (Panic w, tc).

Lemma lock_panics b call f p c x g o :
  handler_of b call = Some f -> fresh p -> plugin_rep b p (cells c) x g o -> panics b f x g o ->
  exists w p' c', lock_unwrap (call_on AI b call) (mkMutex p false, c) = (Panic w, (mkMutex p' true, c')).
Proof.
  intros Hh (_ & Ht & _) Hrep Hp.
  set (p0 := set_logs (Some []) (set_events (Some []) p)).
  set (c0 := ctx_set (Some Logs_default) (ctx_set (Some Events_default) (enter p c))).
  destruct (Hp (AP_inner p) c0 (Validators_new (AP_current_vp p) (AP_cons_key_by_op_addr p)) p0) as (w & [t' c'] & Hf); try done.
  { unfold c0, enter. rewrite Ht. by apply (plugin_rep_same b p). }
  { unfold c0, enter. by rewrite Ht. }
  assert (Hin : in_inner f (with_empty_buffers p (enter p c)) = (Panic w, (set_inner t' p0, c'))).
  { unfold in_inner, zoomM, with_empty_buffers. fold c0. cbn [fst snd]. change (AP_inner _) with (AP_inner p). by rewrite Hf. }
  do 3 eexists. unfold lock_unwrap. cbn [fst snd Mutex_data Mutex_poisoned]. unfold call_on.
  rewrite ABCI_call_eq, (dispatch_handler b call f Hh), (with_buffers_panic _ _ _ _ _ Hin). done.
Qed.

Lemma deliver_tx_panics b c req call rest x g o :
  chain_state b x g o -> Decode_decode (RequestDeliverTx_tx req) = Ok (call, rest) ->
  panics b (Call_call (Call := App_Call (App := AI b)) call) x g o ->
  exists c', IA_deliver_tx AI req (b, c) = (Panic "PoisonError", (b, c')).
Proof.
  intros Hcs Hdec Hp. unfold IA_deliver_tx.
  match goal with |- context [IA_run ?op] => destruct (IA_run_load op b c x g o Hcs) as (p & cs & Hfr & Hrep & Hns & Hrun) end.
  destruct (lock_panics b (CallDeliverTx call) _ p (set_cells cs c) x g o eq_refl Hfr Hrep Hp) as (w & p' & c' & Hlk).
  exists c'. unfold bindM at 1. rewrite Hrun. unfold bindM at 1, catch_unwind, run_tx.
  rewrite (bindM_run _ _ _ (call, rest) (mkMutex p false, set_cells cs c)) by (unfold liftM; by rewrite Hdec).
  rewrite Hlk. done.
Qed.

Lemma check_tx_panics b c req call rest x g o :
  chain_state b x g o -> Decode_decode (RequestCheckTx_tx req) = Ok (call, rest) ->
  panics b (Call_call (Call := App_Call (App := AI b)) call) x g o ->
  exists c', IA_check_tx AI req (b, c) = (Ok (ResponseCheckTx_of 1 (Error_to_string (ECall "Panicked")) []), (b, c')).
Proof.
  intros Hcs Hdec Hp. unfold IA_check_tx.
  match goal with |- context [IA_run ?op] => destruct (IA_run_load op b c x g o Hcs) as (p & cs & Hfr & Hrep & Hns & Hrun) end.
  destruct (lock_panics b (CallCheckTx call) _ p (set_cells cs c) x g o eq_refl Hfr Hrep Hp) as (w & p' & c' & Hlk).
  exists c'. unfold bindM at 1. rewrite Hrun. unfold bindM at 1, catch_unwind, run_tx.
  rewrite (bindM_run _ _ _ (call, rest) (mkMutex p false, set_cells cs c)) by (unfold liftM; by rewrite Hdec).
  rewrite Hlk. done.
Qed.
End Run.
