(* ===== verification/InternalAppProps.v ===== *)
(** * Properties of the ABCI plugin and the node adapter

    What a transaction does to the chain when it succeeds, fails or panics, what
    the node learns of validator changes, and which contexts are left behind; with
    a small application as a concrete instance. *)

From stdpp Require Import base tactics numbers list strings gmap.
From Stdlib Require Import ZArith Lia.
From S2P Require Import Prelude Bytes BTree StoreIface StoreIter NullStore BufStore PrefixStore Codec StateIface StructState MapColl MapSpec MapProps MapIter MapIterSpec Next EntryMap Coins AbciTypes Context Plugins AbciStore AbciPlugin AbciPluginSpec InternalApp InternalAppSpec.

Section Props.
Context `{Profile} `{CompatMode} `{AM : AppMessages} `{HO : HashOrder} `{StaticValset}.
Context `{WS : WriteSpec St} `{!Bounded St} `{!BoundedSpec St} `{CU : CodecSpec ValidatorUpdate}.
Context {T C : Type} {ST : State St T} `{!StateSpec St T} `{Default T} {DC : Decode C} (AI : St -> App T C).
#[local] Existing Instance VU_State.
#[local] Existing Instance VU_StateSpec.
Implicit Types (b : St) (c : ContextMap) (x : model (V := T)) (g : PubKey -> option u64) (o : uint 20 -> option PubKey).

(** C2: [DeliverTx] on a chain with a state runs the decoded call on that state and
    stores what the call left, whether it succeeded or not. A success answers with
    code 0, the events and the log, and applies the validator updates to the voting
    powers. A failure answers with code 1 and no events, but the changes the call
    made before it failed are stored too: nothing is rolled back. Bytes after the
    encoded call are ignored. *)
Theorem deliver_tx_stores_what_was_left b c req call rest x g o (r : res unit) x' g' o' U es ls :
  chain_state b x g o -> roomy b -> Decode_decode (RequestDeliverTx_tx req) = Ok (call, rest) ->
  effect b (Call_call (Call := App_Call (App := AI b)) call) x g o r x' g' o' U es ls ->
  (r = Ok tt -> exists b' c', IA_deliver_tx AI req (b, c) = (Ok (ResponseDeliverTx_of 0 (join_lines ls) es), (b', c')) /\
     chain_state b' x' (powers_after U g') o' /\ roomy b') /\
  (forall e, r = Err e -> exists b' c', IA_deliver_tx AI req (b, c) = (Ok (ResponseDeliverTx_of 1 (failed_log e ls) []), (b', c')) /\
     chain_state b' x' g' o' /\ roomy b').
Proof.
  intros Hcs Hroom Hdec He. split.
  - intros ->. exact (deliver_tx_run AI b c req call rest x g o (Ok tt) x' g' o' U es ls Hcs Hroom Hdec He ltac:(done)).
  - intros e ->. exact (deliver_tx_run AI b c req call rest x g o (Err e) x' g' o' U es ls Hcs Hroom Hdec He ltac:(done)).
Qed.

(** C3: the updates a transaction makes to the validator set never reach the node.
    After a [DeliverTx] whose call recorded the updates [U], the voting powers in
    the state are the updated ones, but the response to the following [EndBlock]
    lists exactly the updates [U2] its own handler recorded, whatever [U] was. *)
Theorem tx_validator_updates_not_reported b c req req2 call rest x g o x' g' o' U es ls x2 g2 o2 U2 es2 ls2 :
  chain_state b x g o -> roomy b -> Decode_decode (RequestDeliverTx_tx req) = Ok (call, rest) ->
  effect b (Call_call (Call := App_Call (App := AI b)) call) x g o (Ok tt) x' g' o' U es ls ->
  (forall b', effect b' (App_end_block (App := AI b') (EndBlockCtx_from req2)) x' (powers_after U g') o' (Ok tt) x2 g2 o2 U2 es2 ls2) ->
  exists b1 c1 b2 c2, IA_deliver_tx AI req (b, c) = (Ok (ResponseDeliverTx_of 0 (join_lines ls) es), (b1, c1)) /\
    IA_end_block AI req2 (b1, c1) =
      (Ok (ResponseEndBlock_of es2 (List.filter (fun _ => negb static_valset) (drain_updates U2))), (b2, c2)) /\
    chain_state b1 x' (powers_after U g') o' /\ chain_state b2 x2 (powers_after U2 g2) o2.
Proof.
  intros Hcs Hroom Hdec He He2.
  destruct (deliver_tx_run AI b c req call rest x g o (Ok tt) x' g' o' U es ls Hcs Hroom Hdec He ltac:(done)) as (b1 & c1 & E1 & Hcs1 & Hr1).
  destruct (end_block_run AI b1 c1 req2 x' (powers_after U g') o' x2 g2 o2 U2 es2 ls2 Hcs1 Hr1 (He2 b1)) as (b2 & c2 & E2 & Hcs2 & _).
  exists b1, c1, b2, c2. by split_and!.
Qed.

(** C4: a transaction that panics is answered by [CheckTx] with code 1 and leaves
    the store as it was. [DeliverTx] catches the panic of the call too, but then
    locks the poisoned mutex and panics itself. *)
Theorem panicking_tx b c tx_req check_req call rest rest' x g o :
  chain_state b x g o -> Decode_decode (RequestDeliverTx_tx tx_req) = Ok (call, rest) ->
  Decode_decode (RequestCheckTx_tx check_req) = Ok (call, rest') ->
  panics b (Call_call (Call := App_Call (App := AI b)) call) x g o ->
  (exists c', IA_deliver_tx AI tx_req (b, c) = (Panic "PoisonError", (b, c'))) /\
  (exists c', IA_check_tx AI check_req (b, c) = (Ok (ResponseCheckTx_of 1 (Error_to_string (ECall "Panicked")) []), (b, c'))).
Proof.
  intros Hcs Hd Hd' Hp. split; [by eapply deliver_tx_panics|by eapply check_tx_panics].
Qed.
End Props.

Section ContextProps.
Context `{Profile} `{CompatMode} `{PM : PluginMessages} `{HO : HashOrder}.
Context {St : Type} `{Read St} `{!Write St} `{!Bounded St} {SVU : State St ValidatorUpdate}.
Context {T C : Type} {AI : App T C}.

(** however a call to the plugin ends (success, error or panic), the
    [Validators] context is gone. Unless it panics, the buffers for events and logs
    are gone too, and when the handler failed no events are kept for the response;
    only [InitChain] runs without buffers. *)
Theorem ABCI_call_contexts (b : St) (call : ABCICall C) (p : ABCIPlugin T) (c : ContextMap) r pc' :
  ABCI_call b call (p, c) = (r, pc') ->
  Context_resolve (T := Validators) pc'.2 = None /\
  ((forall req, call <> CallInitChain req) -> (forall w, r <> Panic w) ->
     Context_resolve (T := Events) pc'.2 = None /\ Context_resolve (T := Logs) pc'.2 = None /\
     (forall e, (ABCI_dispatch call (p, enter p c)).1 = Err e -> r = Err e /\ AP_events pc'.1 = Some [])).
Proof.
  rewrite ABCI_call_eq. destruct (ABCI_dispatch call (p, enter p c)) as [r1 pc1] eqn:Ed. intros Hcall.
  assert (Hd : (forall req, call <> CallInitChain req) -> (forall w, r1 <> Panic w) -> exists es ls, buffers pc1 = (None, None, es, ls) /\ (forall e, r1 = Err e -> es = Some [])).
  { intros Hi Hw. destruct call as [req|req|req|call|call]; [by destruct (Hi req)|..]; cbn [ABCI_dispatch] in Ed;
      match type of Ed with with_buffers ?h ?s = _ => pose proof (with_buffers_spec h s) as Hs; rewrite Ed in Hs end;
      (destruct r1 as [[]|e|w]; [| |by destruct (Hw w)]);
      destruct Hs as (pc0 & ls & _ & Hh & Hbuf & _).
    all: try (destruct Hbuf as (es & _ & Hbuf); rewrite Hbuf; do 2 eexists; by split).
    all: rewrite Hbuf; do 2 eexists; split; [done|]; intros e' _.
    - unfold bindM, liftM in Hh. destruct (BeginBlockCtx_from req) as [ctx| |]; [|by injection Hh as _ <-|done].
      unfold set_plugin, in_ctx, in_inner, zoomM in Hh. cbn [fst snd] in Hh.
      destruct (create_time_ctx _ _) as [[[]| |] ?]; [|by injection Hh as _ <-|done].
      destruct (App_begin_block _ _) as [? [? ?]]. by injection Hh as _ <-.
    - unfold in_inner, zoomM in Hh. destruct (App_end_block _ _) as [? [? ?]]. by injection Hh as _ <-.
    - unfold in_inner, zoomM in Hh. destruct (Call_call _ _) as [? [? ?]]. by injection Hh as _ <-.
    - unfold in_inner, zoomM in Hh. destruct (Call_call _ _) as [? [? ?]]. by injection Hh as _ <-. }
  destruct r1 as [[]|e|w].
  - unfold with_context_remover in Hcall. pose proof (ABCI_finish_buffers b pc1) as Hf.
    destruct (ABCI_finish b pc1) as [r2 pc2]. injection Hcall as <- <-. split; [done|]. intros Hi Hw.
    destruct (Hd Hi ltac:(done)) as (es & ls & Hb1 & _). cbn [snd] in Hf. rewrite Hb1 in Hf. by injection Hf as ? ? ? ?.
  - injection Hcall as <- <-. split; [done|]. intros Hi Hw. destruct (Hd Hi ltac:(done)) as (es & ls & Hb1 & Hes).
    injection Hb1 as ? ? ? ?. split_and!; [done..|]. intros e' [= <-]. split; [done|]. by rewrite (Hes e eq_refl) in *.
  - injection Hcall as <- <-. split; [done|]. intros Hi Hw. by destruct (Hw w).
Qed.
End ContextProps.

(** *** A small application *)

(** The state is one byte; call 0 fails after writing 9, call 1 panics, any other
    call [n] is stored and gives the validator with key 5 the power [n]. *)

Definition ex_app_messages : Messages.
Proof.
  refine {| Header := unit; Header_height := fun _ => 1%Z; Header_time_seconds := fun _ => None;
    RequestInitChain := unit; RequestBeginBlock := unit; RequestBeginBlock_header := fun _ => Some tt;
    RequestDeliverTx := bytes; RequestEndBlock := unit; RequestEndBlock_height := fun _ => 1%Z; RequestCheckTx := bytes;
    RequestQuery := unit; Snapshot := unit; Snapshot_of := fun _ _ _ => tt; Snapshot_chunks := fun _ => 0%Z; Snapshot_hash := fun _ => [];
    Snapshot_height := fun _ => 0%Z; RequestOfferSnapshot := unit; RequestOfferSnapshot_snapshot := fun _ => None;
    RequestOfferSnapshot_app_hash := fun _ => []; RequestLoadSnapshotChunk := unit; RequestLoadSnapshotChunk_height := fun _ => 0%Z;
    RequestLoadSnapshotChunk_chunk := fun _ => 0%Z; RequestApplySnapshotChunk := unit; RequestApplySnapshotChunk_chunk := fun _ => [];
    RequestApplySnapshotChunk_index := fun _ => 0%Z; RequestApplySnapshotChunk_sender := fun _ => EmptyString;
    ResponseInitChain := list ValidatorUpdate; ResponseInitChain_default := []; ResponseBeginBlock := list Event; ResponseBeginBlock_default := [];
    ResponseDeliverTx := Z * string * list Event; ResponseDeliverTx_default := (0%Z, EmptyString, []);
    ResponseEndBlock := list Event * list ValidatorUpdate; ResponseEndBlock_default := ([], []);
    ResponseCheckTx := Z * string * list Event; ResponseCheckTx_default := (0%Z, EmptyString, []);
    ResponseQuery := unit; ResponseQuery_default := tt; ResponseQuery_failed := fun _ _ _ _ => tt;
    ResponseOfferSnapshot := unit; ResponseOfferSnapshot_default := tt; ResponseOfferSnapshot_reject := tt; ResponseOfferSnapshot_accept := tt;
    Error_to_string := fun e => match e with ECall s => s | _ => "error"%string end |}.
Defined.
#[local] Existing Instance ex_app_messages.
#[local] Instance ex_plugin_messages : PluginMessages :=
  {| LastCommitInfo := unit; Evidence := unit; RequestInitChain_time := fun _ => None; RequestInitChain_chain_id := fun _ => EmptyString;
     RequestInitChain_validators := fun _ => []; RequestInitChain_app_state_bytes := fun _ => []; RequestInitChain_initial_height := fun _ => 1%Z;
     Header_time := fun _ => None; RequestBeginBlock_hash := fun _ => []; RequestBeginBlock_last_commit_info := fun _ => None;
     RequestBeginBlock_byzantine_validators := fun _ => [] |}.
#[local] Instance ex_app_msgs : AppMessages :=
  {| RequestDeliverTx_tx := fun tx => tx; RequestCheckTx_tx := fun tx => tx; ResponseInitChain_validators := fun l => l;
     ResponseBeginBlock_events := fun l => l; ResponseEndBlock_of := fun es us => (es, us);
     ResponseDeliverTx_of := fun code log es => (code, log, es); ResponseCheckTx_of := fun code log es => (code, log, es) |}.
#[local] Instance ex_hash_order : HashOrder := {| hash_iter := fun V m => map_to_list m; hash_iter_perm := fun V m => Permutation_refl _ |}.
#[local] Instance ex_static : StaticValset := {| ORGA_STATIC_VALSET := None |}.
#[local] Instance ex_profile : Profile := {| overflow_checks := true; debug_assertions := true |}.
#[local] Instance ex_compat : CompatMode := {| compat_mode := false |}.

(** A codec for updates, in place of the protobuf one. *)
#[local] Instance ex_vu_Encode : Encode ValidatorUpdate := {| Encode_encode := fun u => Ok (
  match VU_pub_key u with
  | None => [0; VU_power u]
  | Some k => match PublicKey_sum k with None => [1; VU_power u] | Some (Ed25519 bs) => 2 :: VU_power u :: bs | Some (Secp256k1 bs) => 3 :: VU_power u :: bs end
  end%Z) |}.
#[local] Instance ex_vu_Decode : Decode ValidatorUpdate := {| Decode_decode := fun bs =>
  match bs with
  | tag :: power :: bs =>
      Ok (mkValidatorUpdate (if tag =? 0 then None else Some (mkPublicKey (if tag =? 1 then None
            else Some (if tag =? 2 then Ed25519 bs else Secp256k1 bs)))) power, [])%Z
  | _ => Err (EEd "unexpected end")
  end |}.
#[local] Instance ex_vu_CodecSpec : CodecSpec ValidatorUpdate.
Proof.
  refine {| enc := fun u => match VU_pub_key u with
    | None => [0; VU_power u]
    | Some k => match PublicKey_sum k with None => [1; VU_power u] | Some (Ed25519 bs) => 2 :: VU_power u :: bs | Some (Secp256k1 bs) => 3 :: VU_power u :: bs end
    end%Z; codec_terminated := False |}; [done|].
  intros [[[[[bs|bs]|]]|] w] r [[]| ->]; simpl; rewrite ?app_nil_r; done.
Defined.

Definition ex_key : PubKey := to_uint 32 5.
(** [self.context::<Validators>()] and a method on it. *)
Definition with_validators {A T} (f : M (Validators * Cells) A) : M (T * ContextMap) A := fun p =>
  match Context_resolve (T := Validators) p.2 with
  | Some v => let '(r, (v', cs')) := f (v, cells p.2) in (r, (p.1, set_cells cs' (ctx_set (Some v') p.2)))
  | None => (Err (EApp "no Validators context"), p)
  end.
Definition ex_power (n : u8) : u64 := to_uint 8 (uint_val n).
Definition ex_call (n : u8) : M (u8 * ContextMap) unit := fun p =>
  if (uint_val n =? 0)%Z then (Err (ECall "refused"), (n8 9, p.2))
  else if (uint_val n =? 1)%Z then (Panic "boom", p)
  else with_validators (Validators_set_voting_power (St := MapStore) ex_key (ex_power n)) (n, p.2).
#[local] Instance ex_Call : Call u8 u8 := {| Call_call := ex_call |}.
Definition ex_AI (_ : MapStore) : App u8 u8 :=
  {| App_init_chain := fun _ => retM tt; App_begin_block := fun _ => retM tt; App_end_block := fun _ => retM tt; App_Call := ex_Call |}.
#[local] Existing Instance VU_State.
#[local] Existing Instance VU_StateSpec.

#[local] Instance ex_default : Default u8 := n8 0.
Definition ex_store : MapStore := mkBufStore [([], Some [0; 7])]%Z mkEmpty.
Definition no_powers (_ : PubKey) : option u64 := None.
Definition no_operators (_ : uint 20) : option PubKey := None.

Lemma ex_store_nothing q : q <> [] -> view ex_store !! q = None.
Proof. intros Hq. change (view ex_store) with ({[ [] := [0; 7] ]} : gmap bytes bytes)%Z. by apply lookup_singleton_ne. Qed.

(** A map whose part of the store is empty. *)
Lemma empty_map_abs (i : Z) (b2 : MapStore) {K V} `{KS : KeySpec K} {SV : State MapStore V} {SS : StateSpec MapStore V} :
  agree_under root ex_store b2 -> Map_abs (K := K) (V := V) b2 (mkMap (Store_sub root [i]) []) (fun _ => None).
Proof.
  intros Hag k. cbn [Map_children Map_store bt_get]. unfold store_holds. specialize (Hag (i :: enc k) ltac:(done)).
  change (Store_prefix (Store_sub root [i]) ++ enc k) with (Store_prefix root ++ i :: enc k). rewrite <- Hag.
  by rewrite ex_store_nothing.
Qed.

Lemma ex_chain_state : chain_state (T := u8) ex_store (n8 7) no_powers no_operators.
Proof.
  split_and!; [split; [by repeat constructor|done]|by vm_compute|]. exists [0; 7]%Z. split; [by vm_compute|].
  intros b2 c Hb2 Hag. do 2 eexists. split.
  - change [0; 7]%Z with ((if compat_mode then [] else [0%Z]) ++ [7%Z]).
    apply (ABCI_load_ok b2 c [7]%Z (n8 7) (mkMap (Store_sub root [1%Z]) []) (mkEntryMap (mkMap (Store_sub root [2%Z]) [])) (mkMap (Store_sub root [3%Z]) [])); done.
  - split; [done|]. split; [done|done| | | |].
    + split_and!; [done|constructor..].
    + exact (empty_map_abs 1 b2 Hag).
    + eexists. split; [apply list_lookup_middle; done|]. split; [split_and!; [done|constructor..]|]. exact (empty_map_abs 2 b2 Hag).
    + eexists. split; [apply list_lookup_middle; done|]. split; [split_and!; [done|constructor..]|]. exact (empty_map_abs 3 b2 Hag).
Qed.
Lemma ex_roomy : roomy ex_store.
Proof.
  split_and!; [split; [simpl; lia|done]|intros k|intros k]; (split; [|done]).
  - rewrite (enc_width (K := PubKey)). simpl. lia.
  - rewrite (enc_width (K := uint 20)). simpl. lia.
Qed.

Definition ex_update (n : u8) : ValidatorUpdate := mkValidatorUpdate (Some (mkPublicKey (Some (Ed25519 (to_vec32 ex_key))))) (wrap_i64 (uint_val (ex_power n))).
Definition ex_powers (n : u8) (g : PubKey -> option u64) : PubKey -> option u64 :=
  upd (St := MapStore) (K := PubKey) (V := u64) (SV := uint_State 8) (StateSpec0 := uint_StateSpec 8) g ex_key (Some (ex_power n)).
Definition ex_updates (n : u8) : gmap Z (PubKey * ValidatorUpdate) := {[ uint_val ex_key := (ex_key, ex_update n) ]}.

Lemma ex_updates_keyed n : keyed (ex_updates n).
Proof. intros z e He. unfold ex_updates in He. by apply lookup_singleton_Some in He as [<- <-]. Qed.

Lemma set_voting_power_run b s (vm : VpMap) (g : PubKey -> option u64) v cs n :
  vp_cells cs !! V_current_vp v = Some (Some vm) ->
  EntryMap_attached (St := MapStore) (SV := uint_State 8) (StateSpec0 := uint_StateSpec 8) s vm ->
  EntryMap_abs (St := MapStore) (SV := uint_State 8) (StateSpec0 := uint_StateSpec 8) b vm g ->
  exists vm', Validators_set_voting_power (St := MapStore) ex_key (ex_power n) (v, cs) =
      (Ok tt, (insert_update ex_key (ex_update n) v, set_vp (V_current_vp v) (Some vm') cs)) /\
    EntryMap_attached (St := MapStore) (SV := uint_State 8) (StateSpec0 := uint_StateSpec 8) s vm' /\
    EntryMap_abs (St := MapStore) (SV := uint_State 8) (StateSpec0 := uint_StateSpec 8) b vm' (ex_powers n g).
Proof.
  intros Hl Ha Hg. destruct (VpMap_insert_spec s b vm g ex_key (ex_power n) Ha Hg) as (vm' & Hi & Hr). exists vm'. split; [|exact Hr].
  unfold Validators_set_voting_power. erewrite bindM_run; [|done].
  erewrite bindM_run; [|apply zoomM_run; unfold in_vp; cbn [fst snd]; rewrite Hl; unfold unwrapM; rewrite Hi; done]. done.
Qed.

Lemma ex_call_effect (b : MapStore) (n x : u8) g o : (2 <= uint_val n)%Z ->
  effect b (ex_call n) x g o (Ok tt) n (ex_powers n g) o (ex_updates n) [] [].
Proof.
  intros Hn t c v p Et Evp Eop [Hi Hx Hup Hem (vm & Hvl & Hva & Hg) Hop] Hv HU He Hls. unfold ex_call.
  rewrite (proj2 (Z.eqb_neq (uint_val n) 0)), (proj2 (Z.eqb_neq (uint_val n) 1)) by lia. cbn [fst snd].
  rewrite Evp in Hvl. destruct (set_voting_power_run b _ vm g v (cells c) n Hvl Hva Hg) as (vm' & Hs & Hva' & Hg').
  unfold with_validators. cbn [snd fst]. rewrite Hv, Hs. do 3 eexists. split; [done|]. split_and!; try done.
  - split; [done|done|exact Hup|exact Hem| |exact Hop]. exists vm'. split; [|done].
    change (vp_cells (set_vp (V_current_vp v) (Some vm') (cells c)) !! AP_current_vp p = Some (Some vm')). rewrite Evp.
    by apply (set_vp_lookup _ _ (Some vm)).
  - simpl. rewrite HU. done.
  - apply ex_updates_keyed.
Qed.
Lemma ex_end_effect (b : MapStore) (x : u8) g o : effect b (retM tt) x g o (Ok tt) x g o ∅ [] [].
Proof.
  intros t c v p Et Evp Eop Hrep Hv HU He Hls. exists t, c, v. split; [done|]. split_and!; try done.
  by apply (plugin_rep_same b p).
Qed.
Lemma ex_fail_effect (b : MapStore) (x : u8) g o : effect b (ex_call (n8 0)) x g o (Err (ECall "refused")) (n8 9) g o ∅ [] [].
Proof.
  intros t c v p Et Evp Eop [Hi Hx Hup Hem Hvp Hop] Hv HU He Hls. exists (n8 9), c, v. split; [done|]. split_and!; try done.
Qed.
Lemma ex_panics (b : MapStore) (x : u8) g o : panics b (ex_call (n8 1)) x g o.
Proof. intros t c v p _ _ _ _ _ _ _ _. do 2 eexists. done. Qed.

Lemma deliver_tx_stores_what_was_left_witness :
  (exists b' c', IA_deliver_tx ex_AI [5]%Z (ex_store, ContextMap_empty) = (Ok (0%Z, EmptyString, []), (b', c')) /\
     chain_state (T := u8) b' (n8 5) (powers_after (ex_updates (n8 5)) (ex_powers (n8 5) no_powers)) no_operators) /\
  (exists b' c', IA_deliver_tx ex_AI [0]%Z (ex_store, ContextMap_empty) = (Ok (1%Z, "refused"%string, []), (b', c')) /\
     chain_state (T := u8) b' (n8 9) no_powers no_operators).
Proof.
  pose proof (deliver_tx_stores_what_was_left ex_AI ex_store ContextMap_empty) as Hthm. split.
  - destruct (Hthm [5]%Z (n8 5) [] (n8 7) no_powers no_operators (Ok tt) (n8 5) (ex_powers (n8 5) no_powers) no_operators (ex_updates (n8 5)) [] []
      ex_chain_state ex_roomy eq_refl) as [Hok _]; [apply ex_call_effect; by vm_compute|].
    destruct (Hok eq_refl) as (b' & c' & E & Hcs & _). exists b', c'. exact (conj E Hcs).
  - destruct (Hthm [0]%Z (n8 0) [] (n8 7) no_powers no_operators (Err (ECall "refused")) (n8 9) no_powers no_operators ∅ [] []
      ex_chain_state ex_roomy eq_refl) as [_ Herr]; [apply ex_fail_effect|].
    destruct (Herr _ eq_refl) as (b' & c' & E & Hcs & _). exists b', c'. exact (conj E Hcs).
Defined.

(** The transaction gives a validator power 5; the block ends without an update. *)
Lemma tx_validator_updates_not_reported_witness :
  exists b1 c1 b2 c2, IA_deliver_tx ex_AI [5]%Z (ex_store, ContextMap_empty) = (Ok (0%Z, EmptyString, []), (b1, c1)) /\
    IA_end_block ex_AI tt (b1, c1) = (Ok ([], []), (b2, c2)) /\
    chain_state (T := u8) b2 (n8 5) (powers_after ∅ (powers_after (ex_updates (n8 5)) (ex_powers (n8 5) no_powers))) no_operators.
Proof.
  pose proof (tx_validator_updates_not_reported ex_AI ex_store ContextMap_empty [5]%Z tt) as Hthm.
  destruct (Hthm (n8 5) [] (n8 7) no_powers no_operators (n8 5) (ex_powers (n8 5) no_powers) no_operators (ex_updates (n8 5)) [] []
      (n8 5) (powers_after (ex_updates (n8 5)) (ex_powers (n8 5) no_powers)) no_operators ∅ [] []
      ex_chain_state ex_roomy eq_refl) as (b1 & c1 & b2 & c2 & E1 & E2 & _ & Hcs);
    [apply ex_call_effect; by vm_compute|intros b'; apply ex_end_effect|].
  exists b1, c1, b2, c2. exact (conj E1 (conj E2 Hcs)).
Defined.

Lemma panicking_tx_witness :
  (exists c', IA_deliver_tx ex_AI [1]%Z (ex_store, ContextMap_empty) = (Panic "PoisonError", (ex_store, c'))) /\
  (exists c', IA_check_tx ex_AI [1]%Z (ex_store, ContextMap_empty) = (Ok (1%Z, "Panicked"%string, []), (ex_store, c'))).
Proof.
  pose proof (panicking_tx ex_AI ex_store ContextMap_empty [1]%Z [1]%Z (n8 1) [] [] (n8 7) no_powers no_operators) as Hthm.
  apply (Hthm ex_chain_state eq_refl eq_refl (ex_panics ex_store _ _ _)).
Defined.

Lemma ABCI_call_contexts_witness :
  Context_resolve (T := Validators) (ABCI_call (AI := ex_AI ex_store) ex_store (CallDeliverTx (n8 0))
    (mkABCIPlugin (n8 7) None Map_new None None 0 0 None, ContextMap_empty)).2.2 = None.
Proof.
  pose proof (ABCI_call_contexts (AI := ex_AI ex_store) ex_store (CallDeliverTx (n8 0))
    (mkABCIPlugin (n8 7) None Map_new None None 0 0 None) ContextMap_empty) as Hthm.
  by apply (Hthm _ _ (surjective_pairing _)).
Defined.
