(* ===== verification/Upgrade.v ===== *)
(** * Network upgrades (src/upgrade/mod.rs)

    Validators signal the version they are ready for; a step at the start of a block
    moves the network to a version once the voting power behind it, counting only
    signals that are old enough, exceeds the threshold. *)

From stdpp Require Import base tactics numbers list strings gmap pretty.
From Stdlib Require Import ZArith QArith Lia Lqa.
From S2P Require Import Prelude Bytes BTree StoreIface StoreIter NullStore BufStore PrefixStore Codec StateIface Next StructState Utf8 Encoding MapColl MapSpec MapIter EntryMap Coins AbciTypes Address Context Plugins AbciPlugin SimpleState Decimal DecimalInst Keys.
#[local] Open Scope Z_scope.

Definition VERSION_KEY : bytes := [47; 118; 101; 114; 115; 105; 111; 110].

Abbreviation Version := (LengthVec u8 u8).
#[export] Instance LengthVec_eq_dec {P T} `{EqDecision P} `{EqDecision T} : EqDecision (LengthVec P T).
Proof. solve_decision. Defined.

(** [struct Signal]: version and time. *)
Abbreviation Signal := (Struct2 0 Version i64).
Definition Signal_version (s : Signal) : Version := field0 s.
Definition Signal_time (s : Signal) : Z := i64_val (field1 s).

(** The order in which the tally, a [HashMap], is iterated over. *)
Class TallyOrder := {
  tally_iter : list (Version * Z) -> list (Version * Z);
  tally_iter_perm l : tally_iter l ≡ₚ l
}.

Section UpgradeRecord.
Context `{ND : NumDecimal}.
Record Upgrade := mkUpgrade {
  signals : Map PubKey Signal;
  threshold : Decimal;
  activation_delay_seconds : Z;
  rate_limit_seconds : Z;
  current_version : Map unit Version
}.
End UpgradeRecord.

Section Upgrade.
Context `{Profile} `{CompatMode} `{ND : NumDecimal} `{TO : TallyOrder}.
Context {St : Type} `{Read St} `{!Write St} `{!Bounded St}.
Implicit Types (b : St).
Abbreviation UM := (M (Upgrade * ContextMap)).

(** [impl Default]: version [[0]], a threshold of two thirds, a day, a minute. *)
Definition Upgrade_default : res Upgrade :=
  let? v := LengthVec_try_from (P := u8) [to_uint 1 0] in
  let? threshold := MathResult_result (Amount_div (Amount_of 2) (Amount_of 3)) in
  match Map_insert (St := St) tt v Map_new with
  | (Ok _, current_version) => Ok (mkUpgrade Map_new threshold (60 * 60 * 24) 60 current_version)
  | (Err e, _) => Err e
  | (Panic w, _) => Panic w
  end.

Definition Upgrade_current_seconds : UM Z :=
  readM (fun p =>
    let? time := ok_or (Context_resolve (T := Time) p.2) (ECoins "No Time context available") in
    Ok (Time_seconds time)).
Definition Upgrade_signer : UM Address :=
  readM (fun p =>
    let? s := ok_or (Context_resolve (T := Signer) p.2) (ECoins "No Signer context available") in
    ok_or (Signer_signer s) (ECoins "Call must be signed")).
Definition signer_cons_key b : UM PubKey :=
  do signer <- Upgrade_signer;
  readM (fun p =>
    let? validators := ok_or (Context_resolve (T := Validators) p.2) (EApp "No validator context found") in
    let? key := Validators_consensus_key b (Address_bytes signer) (validators, cells p.2) in
    ok_or key (EApp "Signer does not have a consensus key")).
Definition current_validators b : UM (list ValidatorEntry) :=
  readM (fun p =>
    let? validators := ok_or (Context_resolve (T := Validators) p.2) (EApp "No validator context found") in
    Validators_entries b (validators, cells p.2)).

Definition in_signals {A} (f : M (Map PubKey Signal) A) : UM A :=
  zoomM (fun p => signals p.1) (fun m p =>
    (mkUpgrade m (threshold p.1) (activation_delay_seconds p.1) (rate_limit_seconds p.1) (current_version p.1), p.2)) f.
Definition in_version {A} (f : M (Map unit Version) A) : UM A :=
  zoomM (fun p => current_version p.1) (fun m p =>
    (mkUpgrade (signals p.1) (threshold p.1) (activation_delay_seconds p.1) (rate_limit_seconds p.1) m, p.2)) f.

(** Whether the new signal is refused given the previous one. *)
Definition check_previous (rate_limit : Z) (signal prev_signal : Signal) : res unit :=
  let? soonest := i64_op (Signal_time prev_signal + rate_limit) in
  if Signal_time signal <? soonest then
    let? wait := i64_sub soonest (Signal_time signal) in
    Err (EApp ("Must wait " +:+ pretty wait +:+ " seconds before signaling again"))
  else if bool_decide (Signal_version signal = Signal_version prev_signal) then
    Err (EApp "Version has already been signaled")
  else Ok tt.

Definition Upgrade_signal b (version : Version) : UM unit :=
  run zoomM snd (fun c p => (p.1, c)) disable_fee;
  do cons_key <- signer_cons_key b;
  do now <- Upgrade_current_seconds;
  let signal := mkStruct2 version (to_i64 now) in
  do prev <- readM (fun p => Map_get b (signals p.1) cons_key);
  run (match prev with
       | Some prev_signal => readM (fun p => check_previous (rate_limit_seconds p.1) signal (Ref_deref prev_signal))
       | None => retM tt
       end);
  in_signals (Map_insert (St := St) cons_key signal).

(** [*signal_vps.entry(version).or_default() += power] *)
Fixpoint tally_add (version : Version) (power : Z) (signal_vps : list (Version * Z)) : res (list (Version * Z)) :=
  match signal_vps with
  | [] => let? vp := u64_add 0 power in Ok [(version, vp)]
  | (v, vp) :: rest =>
      if bool_decide (v = version) then let? vp := u64_add vp power in Ok ((v, vp) :: rest)
      else let? rest := tally_add version power rest in Ok ((v, vp) :: rest)
  end.

(** The three conditions under which a signal counts, in their order. *)
Definition signal_counts b (self : Upgrade) (latest_counted_time power : Z) (signal : Signal) : res bool :=
  if negb (Signal_time signal <=? latest_counted_time) then Ok false
  else
    let? current := Map_get b (current_version self) tt in
    let? current := unwrap current unwrap_none in
    Ok (negb (bool_decide (Signal_version signal = Ref_deref current)) && (0 <? power)).

(** [for validator in self.current_validators()?] *)
Fixpoint tally b (self : Upgrade) (latest_counted_time : Z) (validators : list ValidatorEntry)
    (total_vp : Z) (signal_vps : list (Version * Z)) : res (Z * list (Version * Z)) :=
  match validators with
  | [] => Ok (total_vp, signal_vps)
  | validator :: validators =>
      let power := uint_val (VE_power validator) in
      let? total_vp := u64_add total_vp power in
      let? signal := Map_get b (signals self) (VE_pubkey validator) in
      let? signal_vps :=
        match signal with
        | Some signal =>
            let? counts := signal_counts b self latest_counted_time power (Ref_deref signal) in
            if counts then tally_add (Signal_version (Ref_deref signal)) power signal_vps else Ok signal_vps
        | None => Ok signal_vps
        end in
      tally b self latest_counted_time validators total_vp signal_vps
  end.

(** The first entry, in iteration order, whose power is over the threshold. *)
Definition find_over (vp_threshold : Decimal) (signal_vps : list (Version * Z)) : option Version :=
  list_find (fun e => is_gt (Amount_cmp_Decimal (Amount_of e.2) vp_threshold) = true) (tally_iter signal_vps)
  ≫= (fun e => Some e.2.1).

Definition upgrade_ready b : UM (option Version) :=
  do now <- Upgrade_current_seconds;
  do self <- readM (fun p => Ok p.1);
  do latest_counted_time <- liftM (i64_sub now (activation_delay_seconds self));
  do validators <- current_validators b;
  do '(total_vp, signal_vps) <- liftM (tally b self latest_counted_time validators 0 []);
  do vp_threshold <- liftM (math_try (Decimal_mul_Amount (threshold self) (Amount_of total_vp)));
  retM (find_over vp_threshold signal_vps).

Definition version_bytes (v : Version) : bytes := map uint_val (LengthVec_values v).

Definition Upgrade_step b (bin_version : Version) (upgrade_authorized : bool) : UM unit :=
  do net_version <- readM (fun p =>
    let? v := Map_get b (current_version p.1) tt in
    let? v := unwrap v unwrap_none in
    Ok (Ref_deref v));
  if negb (bool_decide (bin_version = net_version)) then
    errM (EUpgrade (UpgradeVersion (version_bytes net_version) (version_bytes bin_version)))
  else if negb upgrade_authorized then retM tt
  else
    do new_version <- upgrade_ready b;
    match new_version with
    | Some new_version => in_version (Map_insert (St := St) tt new_version)
    | None => retM tt
    end.

Definition load_version (store : Store) b : res (option bytes) :=
  let store := Store_with_prefix store [] in
  Store_get store b VERSION_KEY.
End Upgrade.
