(* ===== verification/UpgradeSpec.v ===== *)
(** * What signaling and stepping do

    A step changes the network version only to one that enough old voting power has
    signaled, and does so as soon as there is one. *)

From stdpp Require Import base tactics numbers list strings gmap pretty.
From Stdlib Require Import ZArith QArith Lia Lqa.
From S2P Require Import Prelude Bytes BTree StoreIface StoreIter NullStore BufStore PrefixStore Codec StateIface Next StructState Utf8 Encoding MapColl MapSpec MapProps MapIter EntryMap Coins AbciTypes Address Context Plugins AbciPlugin SimpleState Decimal DecimalInst Keys Upgrade.
#[local] Open Scope Z_scope.

(** ** Maps of values without state of their own *)

Section Reads.
Context `{Profile} `{CompatMode} {St : Type} `{Read St} `{!Write St} `{!Bounded St} {K V : Type} `{CodecSpec K} `{EqDecision K} {SV : State St V}.
Implicit Types (b : St) (m : Map K V) (f : K -> option V).

(** The values a map answers with. *)
Definition Map_reads b m f : Prop := forall k, exists r, Map_get b m k = Ok r /\ Ref_deref <$> r = f k.
Definition fupd f k v : K -> option V := fun j => if decide (j = k) then Some v else f j.

Lemma Map_reads_ext b m f g : (forall k, f k = g k) -> Map_reads b m f -> Map_reads b m g.
Proof. intros He Hf k. destruct (Hf k) as (r & ? & Hr). exists r. by rewrite <- He. Qed.

Lemma Map_insert_reads b m f k v :
  (forall j, enc j = enc k -> j = k) -> (forall s, State_attach s v = (Ok tt, v)) -> Map_reads b m f ->
  exists m', Map_insert (St := St) k v m = (Ok tt, m') /\ Map_reads b m' (fupd f k v).
Proof.
  intros Hinj Ha Hf. unfold Map_insert, MapKey_new. rewrite encode_enc. simpl. rewrite Ha. eexists. split; [done|].
  intros j. specialize (Hf j). unfold Map_get, MapKey_new in *. rewrite encode_enc in *. simpl in *.
  rewrite bt_get_insert. unfold fupd. destruct (decide (j = k)) as [->|Hn].
  - rewrite decide_True by done. by eexists.
  - rewrite decide_False by (intros He; by apply Hn, Hinj). exact Hf.
Qed.
End Reads.

(** ** The tally *)

Section Tally.
Context `{Profile}.
Implicit Types (l : list (Version * Z)) (v w : Version).

Fixpoint assoc v l : Z := match l with [] => 0 | (w, p) :: l => if decide (w = v) then p else assoc v l end.
Definition tally_wf l : Prop := NoDup l.*1 /\ Forall (fun e => 0 < e.2) l.

Lemma assoc_nonneg v l : tally_wf l -> 0 <= assoc v l.
Proof. intros [_ Hp]. induction Hp as [|[w p] l Hw Hp IH]; simpl; [done|]. simpl in Hw. case_decide; lia. Qed.
Lemma assoc_elem v p l : tally_wf l -> (v, p) ∈ l -> assoc v l = p.
Proof.
  intros [Hn _]. induction l as [|[w q] l IH]; [by intros ?%elem_of_nil|]. simpl in *. apply NoDup_cons in Hn as [Hw Hn].
  intros [[= -> ->]|He]%elem_of_cons; [by rewrite decide_True|]. case_decide as Hwv; [|auto].
  subst w. destruct Hw. apply list_elem_of_fmap. by exists (v, p).
Qed.
Lemma assoc_pos_elem v l : 0 < assoc v l -> (v, assoc v l) ∈ l.
Proof.
  induction l as [|[w q] l IH]; simpl; [lia|]. case_decide as Hwv; [subst; intros; by left|]. intros Hp. right. auto.
Qed.

Lemma tally_add_spec v p l :
  tally_wf l -> 0 < p -> assoc v l + p <= u64_max ->
  exists l', tally_add v p l = Ok l' /\ tally_wf l' /\
    (forall w, assoc w l' = assoc w l + if decide (w = v) then p else 0) /\ (forall w, w ∈ l'.*1 -> w = v \/ w ∈ l.*1).
Proof.
  induction l as [|[w q] l IH]; intros Hwf Hp Hle.
  - simpl in *. unfold u64_add. rewrite u64_op_ok by (unfold is_u64; lia). simpl. eexists. split; [done|].
    split; [split; [apply NoDup_singleton|by repeat constructor]|]. split; [|intros w Hw; left; simpl in Hw; by apply list_elem_of_singleton in Hw].
    intros w. simpl. destruct (decide (v = w)), (decide (w = v)); congruence || lia.
  - destruct Hwf as [[Hw Hn]%NoDup_cons [Hq Hpos]%Forall_cons]. cbn [tally_add]. simpl in Hle. simpl in Hq.
    destruct (bool_decide_reflect (w = v)) as [->|Hwv].
    + rewrite decide_True in Hle by done. unfold u64_add. rewrite u64_op_ok by (unfold is_u64; lia). simpl. eexists. split; [done|].
      split; [split; [by apply NoDup_cons|by constructor; simpl; [lia|]]|]. split; [|intros w Hin; right; exact Hin].
      intros w. simpl. destruct (decide (v = w)), (decide (w = v)); congruence || lia.
    + rewrite decide_False in Hle by done. destruct (IH (conj Hn Hpos) Hp Hle) as (l' & -> & [Hn' Hp'] & Ha & Hk). simpl.
      eexists. split; [done|]. split; [split|split].
      * apply NoDup_cons. split; [|done]. intros Hin. by destruct (Hk w Hin).
      * by constructor.
      * intros u. simpl. destruct (decide (w = u)) as [->|]; [rewrite decide_False by done; lia|apply Ha].
      * intros u [->|Hin]%elem_of_cons; [right; by left|]. destruct (Hk u Hin); [by left|right; by right].
Qed.
End Tally.

(** ** Which signals count *)

Section StepSpec.
Context `{Profile} `{CompatMode} `{NDS : NumDecimalSpec} `{TO : TallyOrder}.
Context {St : Type} `{Read St} `{!Write St} `{!Bounded St}.
Implicit Types (b : St) (f : PubKey -> option Signal) (vals : list ValidatorEntry) (v : Version) (up : Upgrade).

(** The version a validator's signal counts for. *)
Definition counted f (current : Version) (latest : Z) (e : ValidatorEntry) : option Version :=
  match f (VE_pubkey e) with
  | Some sig =>
      if (Signal_time sig <=? latest) && negb (bool_decide (Signal_version sig = current)) && (0 <? uint_val (VE_power e))
      then Some (Signal_version sig) else None
  | None => None
  end.
Definition total_power vals : Z := foldr (fun e acc => uint_val (VE_power e) + acc) 0 vals.
Definition power_for f current latest v vals : Z :=
  foldr (fun e acc => (if decide (counted f current latest e = Some v) then uint_val (VE_power e) else 0) + acc) 0 vals.

Lemma power_nonneg (e : ValidatorEntry) : 0 <= uint_val (VE_power e).
Proof. pose proof (proj1 (uint_range_spec 8 _) (uint_ok _ (VE_power e))). lia. Qed.
Lemma total_power_nonneg vals : 0 <= total_power vals.
Proof. induction vals as [|e vals IH]; simpl; [done|]. pose proof (power_nonneg e). lia. Qed.
Lemma power_for_le f cur latest v vals : 0 <= power_for f cur latest v vals <= total_power vals.
Proof. induction vals as [|e vals IH]; simpl; [done|]. pose proof (power_nonneg e). case_decide; lia. Qed.
(** No voting power counts for two versions. *)
Lemma power_for_disjoint f cur latest v w vals :
  v <> w -> power_for f cur latest v vals + power_for f cur latest w vals <= total_power vals.
Proof.
  intros Hn. induction vals as [|e vals IH]; simpl; [done|]. pose proof (power_nonneg e).
  do 2 case_decide; try lia. congruence.
Qed.
Lemma power_for_current f cur latest vals : power_for f cur latest cur vals = 0.
Proof.
  induction vals as [|e vals IH]; simpl; [done|]. rewrite IH. case_decide as Hc; [|done]. unfold counted in Hc.
  destruct (f (VE_pubkey e)) as [sig|]; [|done]. destruct (_ && _ && _) eqn:E; [|done]. injection Hc as Hc.
  rewrite bool_decide_true, andb_false_r in E by done. done.
Qed.

Lemma signal_counts_spec b up cur latest (e : ValidatorEntry) sig r :
  Map_get b (current_version up) tt = Ok (Some r) -> Ref_deref r = cur ->
  signal_counts b up latest (uint_val (VE_power e)) sig =
  Ok ((Signal_time sig <=? latest) && negb (bool_decide (Signal_version sig = cur)) && (0 <? uint_val (VE_power e))).
Proof.
  intros Hc Hr. unfold signal_counts. rewrite Hc. cbn [res_bind unwrap]. rewrite Hr.
  by destruct (Signal_time sig <=? latest).
Qed.

Lemma tally_spec b up f cur latest r :
  Map_reads b (signals up) f -> Map_get b (current_version up) tt = Ok (Some r) -> Ref_deref r = cur ->
  forall vals total l, tally_wf l -> 0 <= total -> total + total_power vals <= u64_max ->
  (forall v, assoc v l <= total) ->
  exists l', tally b up latest vals total l = Ok (total + total_power vals, l') /\ tally_wf l' /\
    forall v, assoc v l' = assoc v l + power_for f cur latest v vals.
Proof.
  intros Hf Hc Hr. induction vals as [|e vals IH]; intros total l Hwf Ht Hle Hal; cbn [tally total_power power_for foldr].
  - rewrite Z.add_0_r. exists l. split_and!; [done..|]. intros v. lia.
  - simpl in Hle. pose proof (power_nonneg e) as Hp. pose proof (total_power_nonneg vals) as Hv.
    unfold u64_add. rewrite u64_op_ok by (unfold is_u64, total_power in *; lia). cbn [res_bind].
    destruct (Hf (VE_pubkey e)) as (rs & Hg & Hfe). rewrite Hg. cbn [res_bind].
    assert (Hstep : exists l1, (match rs with
        | Some signal => let? counts := signal_counts b up latest (uint_val (VE_power e)) (Ref_deref signal) in
            if counts then tally_add (Signal_version (Ref_deref signal)) (uint_val (VE_power e)) l else Ok l
        | None => Ok l end) = Ok l1 /\ tally_wf l1 /\
      forall v, assoc v l1 = assoc v l + if decide (counted f cur latest e = Some v) then uint_val (VE_power e) else 0).
    { unfold counted. rewrite <- Hfe. destruct rs as [sig|]; simpl.
      2:{ exists l. split_and!; [done..|]. intros v. lia. }
      rewrite (signal_counts_spec b up cur latest e (Ref_deref sig) r Hc Hr). cbn [res_bind].
      destruct ((Signal_time _ <=? latest) && _ && _) eqn:E.
      - apply andb_true_iff in E as [_ Hpos%Z.ltb_lt].
        specialize (Hal (Signal_version (Ref_deref sig))) as Hal1. unfold total_power in *.
        destruct (tally_add_spec (Signal_version (Ref_deref sig)) (uint_val (VE_power e)) l Hwf Hpos ltac:(lia)) as (l1 & -> & Hwf1 & Ha & _).
        exists l1. split_and!; [done..|]. intros v. rewrite (Ha v).
        destruct (decide (v = _)), (decide (Some _ = Some v)); congruence || lia.
      - exists l. split_and!; [done..|]. intros v. rewrite decide_False by done. lia. }
    destruct Hstep as (l1 & -> & Hwf1 & Ha1). cbn [res_bind].
    destruct (IH (total + uint_val (VE_power e)) l1) as (l' & -> & Hwf' & Ha'); [done|lia|unfold total_power in *; lia| |].
    { intros v. rewrite (Ha1 v). specialize (Hal v). case_decide; lia. }
    exists l'. split_and!; [by rewrite Z.add_assoc|done|]. intros v. rewrite (Ha' v), (Ha1 v). unfold power_for. lia.
Qed.

Lemma over_threshold p (d : Decimal) : is_u64 p ->
  is_gt (Amount_cmp_Decimal (Amount_of p) d) = true <-> (dval d < inject_Z p)%Q.
Proof.
  intros Hp. unfold Amount_cmp_Decimal, Decimal_cmp. rewrite nd_cmp_spec.
  fold (dval d). fold (dval (Decimal_from_Amount (Amount_of p))). rewrite dval_from_Amount, amt_of by done. unfold is_gt.
  destruct (Qcompare_spec (inject_Z p) (dval d)); split; intros; try done; lra.
Qed.

(** The version found has the power, and none is missed. *)
Lemma find_over_spec (d : Decimal) (l : list (Version * Z)) :
  (forall v, is_u64 (assoc v l)) -> tally_wf l -> (0 <= dval d)%Q ->
  match find_over d l with
  | Some v => (dval d < inject_Z (assoc v l))%Q
  | None => forall v, (inject_Z (assoc v l) <= dval d)%Q
  end.
Proof.
  intros Hu Hwf Hd. unfold find_over. destruct (list_find _ (tally_iter l)) as [[i [v p]]|] eqn:E; simpl.
  - apply list_find_Some in E as (Hi & Hp & _). apply list_elem_of_lookup_2 in Hi. rewrite tally_iter_perm in Hi.
    rewrite (assoc_elem v p l Hwf Hi). apply over_threshold; [|done]. rewrite <- (assoc_elem v p l Hwf Hi). apply Hu.
  - intros v. apply list_find_None in E. rewrite Forall_forall in E. apply Qnot_lt_le. intros Hlt.
    assert (Hpos : 0 < assoc v l) by (rewrite Zlt_Qlt; change (inject_Z 0) with 0%Q; lra).
    apply (E (v, assoc v l)); [rewrite tally_iter_perm; by apply assoc_pos_elem|]. apply over_threshold; [apply Hu|done].
Qed.

(** *** A step *)

(** What a step reads: the stored signals, the current version, the validators and the
    time; and the decimal the threshold comes out as. *)
Record step_inputs b up (c : ContextMap) f (current : Version) vals (latest : Z) (limit : Decimal) : Prop := {
  si_signals : Map_reads b (signals up) f;
  si_version : Map_reads b (current_version up) (fun _ => Some current);
  si_time : exists t, Context_resolve (T := Time) c = Some t /\ i64_sub (Time_seconds t) (activation_delay_seconds up) = Ok latest;
  si_validators : current_validators b (up, c) = (Ok vals, (up, c));
  si_total : total_power vals <= u64_max;
  si_limit : Decimal_mul_Amount (threshold up) (Amount_of (total_power vals)) = MOk limit;
  si_limit_nonneg : (0 <= dval limit)%Q
}.

Lemma upgrade_ready_spec b up c f current vals latest limit :
  step_inputs b up c f current vals latest limit ->
  exists o, upgrade_ready b (up, c) = (Ok o, (up, c)) /\
  match o with
  | Some v => (dval limit < inject_Z (power_for f current latest v vals))%Q
  | None => forall v, (inject_Z (power_for f current latest v vals) <= dval limit)%Q
  end.
Proof.
  intros [Hf Hc (t & Ht & Hl) Hv Htot Hlim Hlim0]. unfold upgrade_ready, bindM, Upgrade_current_seconds, readM, liftM.
  cbn [fst snd]. rewrite Ht. cbn [ok_or res_bind]. rewrite Hl, Hv.
  destruct (Hc tt) as ([r|] & Hr & Hcur); [|done]. injection Hcur as Hcur.
  destruct (tally_spec b up f current latest r Hf Hr Hcur vals 0 []) as (l & -> & Hwf & Ha);
    [by split; constructor|done|lia|done|].
  rewrite Z.add_0_l, Hlim. cbn [math_try MathResult_branch]. eexists. split; [done|].
  assert (Hu : forall v, is_u64 (assoc v l)).
  { intros v. rewrite (Ha v). simpl. pose proof (power_for_le f current latest v vals). unfold is_u64. lia. }
  pose proof (find_over_spec limit l Hu Hwf Hlim0) as Hfind. destruct (find_over limit l) as [v|]; [by rewrite (Ha v) in Hfind|].
  intros v. specialize (Hfind v). by rewrite (Ha v) in Hfind.
Qed.

Lemma in_version_insert b up c current v :
  Map_reads b (current_version up) (fun _ => Some current) ->
  exists up', in_version (Map_insert (St := St) tt v) (up, c) = (Ok tt, (up', c)) /\
    Map_reads b (current_version up') (fun _ => Some v) /\ signals up' = signals up.
Proof.
  intros Hc. destruct (Map_insert_reads b (current_version up) (fun _ => Some current) tt v) as (m' & Hi & Hm'); [by intros []|done|done|].
  unfold in_version, zoomM. cbn [fst snd]. rewrite Hi. eexists. split; [done|]. split; [|done].
  intros []. destruct (Hm' tt) as (r & Hr & Hd). exists r. split; [done|]. rewrite Hd. unfold fupd. by rewrite decide_True.
Qed.

(** C18: A step of a node whose version is not the network's fails with a version error
    and changes nothing; an unauthorized one changes nothing. Otherwise the network
    moves to a version other than the current one for which signals older than the
    activation delay carry more voting power than the threshold; if there is no
    such version nothing changes. When the threshold is at least half of the
    voting power there is at most one such version, whatever the order of the
    tally: as soon as a version has the power, the step moves to it. *)
Theorem Upgrade_step_follows_power b up c f current vals latest limit (bin : Version) (authorized : bool) :
  step_inputs b up c f current vals latest limit ->
  exists r up', Upgrade_step b bin authorized (up, c) = (r, (up', c)) /\ signals up' = signals up /\
    (if decide (bin = current) then
       r = Ok tt /\
       if authorized then
         (exists v, v <> current /\ (dval limit < inject_Z (power_for f current latest v vals))%Q /\
            Map_reads b (current_version up') (fun _ => Some v)) \/
         (up' = up /\ forall v, (inject_Z (power_for f current latest v vals) <= dval limit)%Q)
       else up' = up
     else r = Err (EUpgrade (UpgradeVersion (version_bytes current) (version_bytes bin))) /\ up' = up) /\
    (forall v, bin = current -> authorized = true -> (inject_Z (total_power vals) <= 2 * dval limit)%Q ->
       (dval limit < inject_Z (power_for f current latest v vals))%Q ->
       Map_reads b (current_version up') (fun _ => Some v)).
Proof.
  intros Hin. pose proof Hin as [_ Hc _ _ _ _ Hlim0]. unfold Upgrade_step, bindM at 1, readM. cbn [fst snd].
  destruct (Hc tt) as ([rv|] & Hr & Hcur); [|done]. injection Hcur as Hcur. rewrite Hr. cbn [res_bind unwrap]. rewrite Hcur.
  destruct (decide (bin = current)) as [->|Hbin].
  2:{ rewrite bool_decide_false by done. eexists _, up. split_and!; [done..|]. by intros v ->. }
  rewrite bool_decide_true by done. cbn [negb]. destruct authorized; cbn [negb].
  2:{ eexists _, up. by split_and!. }
  unfold bindM. destruct (upgrade_ready_spec b up c f current vals latest limit Hin) as ([v|] & -> & Hv).
  - destruct (in_version_insert b up c current v Hc) as (up' & -> & Hup & Hs). eexists _, up'. split_and!; [done|done|done| |].
    + left. exists v. split_and!; [|done..]. intros ->. rewrite power_for_current in Hv. change (inject_Z 0) with 0%Q in Hv. lra.
    + intros w _ _ Hhalf Hw. destruct (decide (w = v)) as [->|Hn]; [done|]. exfalso.
      pose proof (power_for_disjoint f current latest w v vals Hn) as Hd. rewrite Zle_Qle, inject_Z_plus in Hd. lra.
  - eexists _, up. split_and!; [done|done|done|by right|]. intros w _ _ _ Hw. specialize (Hv w). lra.
Qed.

(** *** A signal *)

Lemma signer_cons_key_frame b up (c c' : ContextMap) key :
  ctx_signer c' = ctx_signer c -> ctx_abci c' = ctx_abci c ->
  signer_cons_key b (up, c) = (Ok key, (up, c)) -> signer_cons_key b (up, c') = (Ok key, (up, c')).
Proof.
  intros Hs Ha. unfold signer_cons_key, Upgrade_signer, bindM, readM, Context_resolve, cells. simpl. rewrite Hs, Ha.
  destruct (ctx_signer c) as [sg|]; simpl; [|done]. destruct (Signer_signer sg); simpl; [|done]. by intros [= ->].
Qed.

(** A signal by the operator of a validator is recorded for that validator with the
    block's time, and nobody else's signal changes; it is refused, with nothing
    recorded, before the rate limit has passed since the validator's last signal
    and when it repeats the version of that signal. The fee is waived in any
    case. *)
Lemma Upgrade_signal_recorded b up c f key t (v : Version) soonest :
  Map_reads b (signals up) f -> signer_cons_key b (up, c) = (Ok key, (up, c)) ->
  Context_resolve (T := Time) c = Some t -> is_i64 (Time_seconds t) ->
  (forall sig, f key = Some sig -> i64_op (Signal_time sig + rate_limit_seconds up) = Ok soonest /\ i64_sub soonest (Time_seconds t) = Ok (soonest - Time_seconds t)) ->
  exists r up' c', Upgrade_signal b v (up, c) = (r, (up', c')) /\
    current_version up' = current_version up /\ fee_disabled <$> ctx_paid c' = (fun _ => true) <$> ctx_paid c /\
    let accepted := match f key with
                    | Some sig => negb (Time_seconds t <? soonest) && negb (bool_decide (v = Signal_version sig))
                    | None => true
                    end in
    if accepted
    then r = Ok tt /\ Map_reads b (signals up') (fupd f key (mkStruct2 v (to_i64 (Time_seconds t))))
    else (exists e, r = Err (EApp e)) /\ up' = up.
Proof.
  intros Hf Hk Ht Hnow Hso. unfold Upgrade_signal, bindM at 1, zoomM. cbn [fst snd].
  assert (Hd : exists c', disable_fee c = (Ok tt, c') /\ ctx_signer c' = ctx_signer c /\ ctx_abci c' = ctx_abci c /\
    fee_disabled <$> ctx_paid c' = (fun _ => true) <$> ctx_paid c).
  { unfold disable_fee, Context_resolve. simpl. destruct (ctx_paid c) eqn:Ep; eexists; split_and!; try done. by rewrite Ep. }
  destruct Hd as (c' & -> & Hcs & Hca & Hfee). unfold bindM at 1. rewrite (signer_cons_key_frame b up c c' key Hcs Hca Hk).
  unfold bindM at 1, Upgrade_current_seconds, readM at 1. cbn [fst snd].
  assert (Ht' : Context_resolve (T := Time) c' = Some t) by (unfold Context_resolve in *; simpl in *; by rewrite Hca).
  rewrite Ht'. cbn [ok_or res_bind]. unfold bindM at 1, readM at 1. cbn [fst].
  destruct (Hf key) as (prev & Hg & Hprev). rewrite Hg.
  set (sig := mkStruct2 v (to_i64 (Time_seconds t))).
  assert (Hins : exists m', Map_insert (St := St) key sig (signals up) = (Ok tt, m') /\ Map_reads b m' (fupd f key sig)).
  { apply Map_insert_reads; [intros j; apply enc_inj|done|done]. }
  destruct Hins as (m' & Hm' & Hreads).
  assert (Hdone : exists up', in_signals (Map_insert (St := St) key sig) (up, c') = (Ok tt, (up', c')) /\
    current_version up' = current_version up /\ Map_reads b (signals up') (fupd f key sig)).
  { unfold in_signals, zoomM. cbn [fst snd]. rewrite Hm'. eexists. split; [done|]. by split. }
  destruct Hdone as (up' & Hdone & Hcv & Hr'). destruct prev as [ps|]; simpl in Hprev; rewrite <- Hprev.
  - destruct (Hso _ (eq_sym Hprev)) as [Hs1 Hs2]. unfold bindM, readM. cbn [fst].
    unfold check_previous. rewrite Hs1. cbn [res_bind].
    assert (Hti : Signal_time sig = Time_seconds t) by by apply to_i64_val.
    change (Signal_version sig) with v. rewrite Hti.
    destruct (Time_seconds t <? soonest); cbn [negb andb].
    { rewrite Hs2. cbn [res_bind]. eexists _, up, c'. split_and!; [done..|by eexists|done]. }
    case_bool_decide; cbn [negb].
    { eexists _, up, c'. split_and!; [done..|by eexists|done]. }
    rewrite Hdone. eexists _, up', c'. by split_and!.
  - unfold bindM, retM. rewrite Hdone. eexists _, up', c'. by split_and!.
Qed.
End StepSpec.

(** ** The scenario of the test *)

#[local] Instance upgrade_profile : Profile := {| overflow_checks := true; debug_assertions := true |}.
#[local] Instance upgrade_compat : CompatMode := {| compat_mode := false |}.
#[local] Instance upgrade_order : TallyOrder := {| tally_iter := fun l => l; tally_iter_perm := fun l => reflexivity l |}.

Definition ex_ustore : MapStore := mkBufStore [] mkEmpty.
Definition ex_uver (n : Z) : Version := mkLengthVec (to_uint 1 1) [to_uint 1 n].
Definition ex_ukey (n : Z) : PubKey := to_uint 32 n.

(** Three validators, of powers 10, 10 and 11, each operated by its own address. *)
Definition ex_uvalidators : Validators * Cells :=
  let cells0 := mkCells [Some EntryMap_default] [Some Map_new] in
  let set n power p := ((run Validators_set_voting_power (St := MapStore) (ex_ukey n) (to_uint 8 power);
                         Validators_set_operator (St := MapStore) (ex_ukey n) (to_uint 20 n)) p).2 in
  set 2 11 (set 1 10 (set 0 10 (Validators_new 0 0, cells0))).
Definition ex_uctx (time signer : Z) : ContextMap :=
  ((run Context_add (Time_from_seconds time);
    run Context_add (mkSigner (Some (mkAddress (to_uint 20 signer))));
    Context_add ex_uvalidators.1) (set_cells ex_uvalidators.2 ContextMap_empty)).2.
Definition ex_upgrade : Upgrade :=
  match Upgrade_default (St := MapStore) with
  | Ok u => mkUpgrade (signals u) (threshold u) 10 5 (current_version u)
  | _ => mkUpgrade Map_new Decimal_default 0 0 Map_new
  end.

(** The calls of the test, with the version in force after each of them. *)
Definition version_now (u : Upgrade) : option bytes :=
  match Map_get ex_ustore (current_version u) tt with Ok (Some r) => Some (version_bytes (Ref_deref r)) | _ => None end.
Definition do_signal (time signer n : Z) (u : Upgrade) : bool * Upgrade :=
  let '(r, p) := Upgrade_signal ex_ustore (ex_uver n) (u, ex_uctx time signer) in (is_ok r, p.1).
Definition do_step (time n : Z) (authorized : bool) (u : Upgrade) : (bool * option bytes) * Upgrade :=
  let '(r, p) := Upgrade_step ex_ustore (ex_uver n) authorized (u, ex_uctx time 0) in ((is_ok r, version_now p.1), p.1).

Example upgrade_coordination :
  let '(s0, u) := do_step 0 0 true ex_upgrade in
  let '(a, u) := do_signal 0 0 1 u in
  let '(a', u) := do_signal 1 0 1 u in
  let '(a'', u) := do_signal 1 2 1 u in
  let '(s1, u) := do_step 1 0 true u in
  let '(s2, u) := do_step 1 1 true u in
  let '(s3, u) := do_step 12 0 false u in
  let '(s4, u) := do_step 12 0 true u in
  let '(s5, u) := do_step 12 0 true u in
  let '(s6, u) := do_step 12 1 true u in
  (a, a', a'') = (true, false, true) /\
  [s0; s1; s2; s3; s4; s5; s6] =
  [(true, Some [0]); (true, Some [0]); (false, Some [0]); (true, Some [0]); (true, Some [1]); (false, Some [1]); (true, Some [1])].
Proof. vm_compute. done. Qed.

(** Before the deciding step: validators 0 and 2 have signaled version 1. *)
Definition ex_signal (n time : Z) : Signal := mkStruct2 (ex_uver n) (to_i64 time).
Definition ex_usignals (k : PubKey) : option Signal :=
  if decide (k = ex_ukey 2) then Some (ex_signal 1 1) else if decide (k = ex_ukey 0) then Some (ex_signal 1 0) else None.
Definition ex_uready : Upgrade :=
  mkUpgrade ((run Map_insert (St := MapStore) (ex_ukey 0) (ex_signal 1 0); Map_insert (St := MapStore) (ex_ukey 2) (ex_signal 1 1)) Map_new).2
    (mkDecimal (dec_of 6666666666666666666666666667 28)) 10 5 (Map_insert (St := MapStore) tt (ex_uver 0) Map_new).2.
Definition ex_uvals : list ValidatorEntry :=
  match current_validators ex_ustore (ex_uready, ex_uctx 12 0) with (Ok l, _) => l | _ => [] end.
Definition ex_ulimit : Decimal :=
  match Decimal_mul_Amount (threshold ex_uready) (Amount_of 31) with MOk d => d | _ => Decimal_default end.

Lemma Map_new_reads {K V} `{CodecSpec K} `{SV : State MapStore V} : Map_reads (K := K) (V := V) ex_ustore Map_new (fun _ => None).
Proof. intros k. exists None. unfold Map_get, MapKey_new, Map_get_from_store. rewrite encode_enc. cbn. by rewrite encode_enc. Qed.

Lemma ex_uready_signals : Map_reads ex_ustore (signals ex_uready) ex_usignals.
Proof.
  destruct (Map_insert_reads ex_ustore Map_new (fun _ => None) (ex_ukey 0) (ex_signal 1 0)) as (m1 & E1 & H1);
    [intros j; apply enc_inj|done|apply Map_new_reads|].
  destruct (Map_insert_reads ex_ustore m1 (fupd (fun _ => None) (ex_ukey 0) (ex_signal 1 0)) (ex_ukey 2) (ex_signal 1 1)) as (m2 & E2 & H2);
    [intros j; apply enc_inj|done|done|].
  unfold ex_uready, bindM. cbn [signals]. rewrite E1, E2. eapply Map_reads_ext, H2. done.
Qed.
Lemma ex_uready_version : Map_reads ex_ustore (current_version ex_uready) (fun _ => Some (ex_uver 0)).
Proof.
  destruct (Map_insert_reads ex_ustore Map_new (fun _ => None) tt (ex_uver 0)) as (m1 & E1 & H1); [by intros []|done|apply Map_new_reads|].
  unfold ex_uready. cbn [current_version]. rewrite E1. eapply Map_reads_ext, H1. intros []. unfold fupd. by rewrite decide_True.
Qed.
Lemma ex_step_inputs : step_inputs ex_ustore ex_uready (ex_uctx 12 0) ex_usignals (ex_uver 0) ex_uvals 2 ex_ulimit.
Proof.
  split.
  - apply ex_uready_signals.
  - apply ex_uready_version.
  - exists (Time_from_seconds 12). split; [done|by vm_compute].
  - assert (Hok : is_ok (current_validators ex_ustore (ex_uready, ex_uctx 12 0)).1 = true) by by vm_compute.
    unfold ex_uvals, current_validators, readM in *. destruct (let? _ := _ in _) as [l|?|?]; done.
  - by vm_compute.
  - assert (Htot : total_power ex_uvals = 31) by by vm_compute. rewrite Htot. unfold ex_ulimit.
    destruct (Decimal_mul_Amount _ _) eqn:E; [done|].
    assert (Hok : match Decimal_mul_Amount (threshold ex_uready) (Amount_of 31) with MOk _ => true | _ => false end = true) by by vm_compute.
    by rewrite E in Hok.
  - by vm_compute.
Qed.

Lemma Upgrade_step_follows_power_witness :
  exists r up', Upgrade_step ex_ustore (ex_uver 0) true (ex_uready, ex_uctx 12 0) = (r, (up', ex_uctx 12 0)) /\
    Map_reads ex_ustore (current_version up') (fun _ => Some (ex_uver 1)).
Proof.
  destruct (Upgrade_step_follows_power ex_ustore ex_uready (ex_uctx 12 0) ex_usignals (ex_uver 0) ex_uvals 2 ex_ulimit (ex_uver 0) true
    ex_step_inputs) as (r & up' & Hr & _ & _ & Hlive).
  exists r, up'. split; [done|]. apply Hlive; [done|done| |]; by vm_compute.
Defined.
