(* ===== verification/SignerSpec.v ===== *)
(** * Who may make a call

    The plugins of [DefaultPlugins] that guard a call, together: what a call that went
    through says about who signed it and what was signed (src/plugins/sdk_compat.rs,
    signer.rs, chain_commitment.rs, nonce.rs). *)

From stdpp Require Import base tactics numbers list strings gmap pretty.
From Stdlib Require Import ZArith Lia.
From S2P Require Import Prelude Bytes BTree StoreIface StoreIter NullStore BufStore PrefixStore Codec StateIface StructState Encoding MapColl MapSpec MapProps MapCall Address Coins AbciTypes Context Plugins PluginsSpec SdkCompat Signer.
#[local] Open Scope Z_scope.

(** ** The signature *)

Section Verified.
Context `{Profile} `{Hashes} `{Bech32} `{SL : SdkLib} `{SP : Secp256k1} `{AL : Adr36Lib}.
Context {T C : Type} {CT : Call T C} {GN : GetNonce T} `{Decode C}.
Implicit Types (p : SignerPlugin T) (c : ContextMap) (sc : SignerCall).

(** The holder of the key with address [a] signed the message of the call. *)
Definition signed_for (pc : SignerPlugin T * ContextMap) sc (a : Address) : Prop :=
  exists pk sg key sig msg, SC_pubkey sc = Some pk /\ SC_signature sc = Some sg /\
    PublicKey_from_slice pk = inr key /\ Signature_from_compact sg = inr sig /\
    signed_message pc sc pk key = Ok (msg, a) /\ verify_ecdsa msg sig key = inr tt.
Lemma map_err_ok {A} (f : string -> Error) (r : string + A) x : map_err f r = Ok x <-> r = inr x.
Proof. destruct r; simpl; split; intros; simplify_eq; done. Qed.
Lemma verify_some pc sc a : Signer_verify pc sc = Ok (Some a) <-> signed_for pc sc a.
Proof.
  unfold Signer_verify, signed_for. split.
  - destruct (SC_pubkey sc) as [pk|], (SC_signature sc) as [sg|]; [|done..].
    intros Hv. apply res_bind_ok in Hv as (key & Hkey & Hv). apply res_bind_ok in Hv as ([msg a'] & Hmsg & Hv).
    apply res_bind_ok in Hv as (sig & Hsig & Hv). apply res_bind_ok in Hv as ([] & Hok & [= ->]).
    apply map_err_ok in Hkey, Hsig, Hok. by exists pk, sg, key, sig, msg.
  - intros (pk & sg & key & sig & msg & -> & -> & Hkey & Hsig & Hmsg & Hok). by rewrite Hkey; cbn [map_err res_bind]; rewrite Hmsg; cbn [res_bind]; rewrite Hsig; cbn [map_err res_bind]; rewrite Hok.
Qed.
Lemma verify_none pc sc : Signer_verify pc sc = Ok None -> SC_pubkey sc = None /\ SC_signature sc = None.
Proof.
  unfold Signer_verify. destruct (SC_pubkey sc) as [pk|], (SC_signature sc) as [sg|]; [|done..].
  intros Hv. apply res_bind_ok in Hv as (key & _ & Hv). apply res_bind_ok in Hv as ([msg a'] & _ & Hv).
  apply res_bind_ok in Hv as (sig & _ & Hv). by apply res_bind_ok in Hv as ([] & _ & ?).
Qed.

(** A call that goes through has been verified, and its inner call ran knowing the
    signer, with the other contexts of the caller but for one more event. *)
Lemma Signer_call_ok p c sc p' c' : Signer_call (C := C) sc (p, c) = (Ok tt, (p', c')) ->
  exists signer c1 call rest, Signer_verify (p, ctx_set (T := Signer) None c) sc = Ok signer /\
    Context_resolve c1 = Some (mkSigner signer) /\ Context_resolve (T := ChainId) c1 = Context_resolve c /\
    Decode_decode (SC_call_bytes sc) = Ok (call, rest) /\
    Call_call call (Signer_inner p, c1) = (Ok tt, (Signer_inner p', c')).
Proof.
  unfold Signer_call. intros Hc. apply bindM_ok in Hc as ([] & pc0 & [= <-] & Hc).
  apply bindM_ok in Hc as (signer & pc1 & Hv & Hc). injection Hv as Hv <-. cbn [fst snd] in Hv.
  apply bindM_ok in Hc as ([] & pc2 & Hev & Hc). apply bindM_ok in Hc as ([] & pc3 & [= <-] & Hc).
  apply bindM_ok in Hc as ([call rest] & pc4 & [= Hd <-] & Hc).
  assert (Hpc2 : exists c2, pc2 = (p, c2) /\ Context_resolve (T := ChainId) c2 = Context_resolve c).
  { destruct signer as [a|]; [|injection Hev as <-; by eexists]. unfold in_signer_ctx, zoomM, Context_call in Hev. cbn [fst snd] in Hev.
    destruct (Context_resolve _) as [ev|]; [|done]. injection Hev as <-. by eexists. }
  destruct Hpc2 as (c2 & -> & Hid). unfold in_signer_inner, zoomM in Hc. cbn [fst snd] in Hc.
  destruct (Call_call call _) as [r [i cf]] eqn:Hcall. injection Hc as -> <- <-.
  exists signer, (ctx_set (Some (mkSigner signer)) c2), call, rest. split_and!; [exact Hv|done|exact Hid|exact Hd|exact Hcall].
Qed.
End Verified.

(** ** What an SDK signature commits to *)

Section Commits.
Context `{Profile} `{Hashes} `{Bech32} `{SLaw : SdkLaws} `{SP : Secp256k1} `{AL : Adr36Lib}.
Context {T : Type} {GN : GetNonce T}.
Implicit Types (p : SignerPlugin T) (c : ContextMap) (sc : SignerCall).

Lemma amino_sign_bytes_inj (tx tx' : AminoTx) id id' n n' bs :
  sign_bytes (TxAmino tx) id n = Ok bs -> sign_bytes (TxAmino tx') id' n' = Ok bs ->
  id = id' /\ n = n' /\ Amino_msg tx = Amino_msg tx' /\ Amino_fee tx = Amino_fee tx' /\ Amino_memo tx = Amino_memo tx'.
Proof.
  cbn [sign_bytes]. rewrite !map_err_ok. intros Hd%SignDoc_roundtrip Hd'%SignDoc_roundtrip. rewrite Hd in Hd'. injection Hd' as -> Hf Hm Hs Hn.
  apply (inj pretty) in Hn. done.
Qed.

(** The message of a protobuf transaction in another state of the same chain. *)
Lemma protobuf_message p p' c c' sc pk key tx msg a n :
  SC_sigtype sc = SigSdk (TxProtobuf tx) \/ SC_sigtype sc = SigEthPersonalSign (TxProtobuf tx) ->
  Context_resolve (T := ChainId) c' = Context_resolve c ->
  GetNonce_nonce (Signer_inner p') a = Ok n -> uint_val n < u64_max ->
  signed_message (p, c) sc pk key = Ok (msg, a) -> signed_message (p', c') sc pk key = Ok (msg, a).
Proof.
  intros Ht Hid Hn Hlt. pose proof (uint_ok 8 n) as Hr. apply uint_range_spec in Hr.
  assert (Hb : forall bs, sdk_sign_bytes (p, c) (TxProtobuf tx) a = Ok bs -> sdk_sign_bytes (p', c') (TxProtobuf tx) a = Ok bs).
  { intros bs. unfold sdk_sign_bytes. cbn [fst snd]. rewrite Hn, Hid. cbn [res_bind]. unfold u64_add at 2. rewrite u64_op_ok by (unfold is_u64; lia). cbn [res_bind].
    intros Hs. apply res_bind_ok in Hs as (l & _ & Hs). apply res_bind_ok in Hs as (m & _ & Hs). exact Hs. }
  unfold signed_message. destruct Ht as [-> | ->]; intros Hm; apply res_bind_ok in Hm as (a' & -> & Hm); cbn [res_bind];
    apply res_bind_ok in Hm as (bs & Hs & Hm).
  - injection Hm as Hmsg ->. rewrite (Hb bs Hs). cbn [res_bind]. by rewrite Hmsg.
  - apply res_bind_ok in Hm as (m & Hm & [= -> ->]). rewrite (Hb bs Hs). cbn [res_bind]. by rewrite Hm.
Qed.

(** C9: what the signature of an SDK transaction commits to. The bytes that are signed for
    an Amino transaction determine the chain, the nonce and the content. Those for a
    protobuf transaction do not depend on the nonce: one that was verified once is
    verified again in every later state of the same chain, whatever the sender's nonce
    has become, and since the nonce of the call is filled in from the state, it is
    executed again. *)
Theorem sdk_signature_commits :
  (forall (tx tx' : AminoTx) id id' n n' bs, sign_bytes (TxAmino tx) id n = Ok bs -> sign_bytes (TxAmino tx') id' n' = Ok bs ->
     id = id' /\ n = n' /\ Amino_msg tx = Amino_msg tx' /\ Amino_fee tx = Amino_fee tx' /\ Amino_memo tx = Amino_memo tx') /\
  (forall p p' c c' sc tx a n,
     SC_sigtype sc = SigSdk (TxProtobuf tx) \/ SC_sigtype sc = SigEthPersonalSign (TxProtobuf tx) ->
     Context_resolve (T := ChainId) c' = Context_resolve c ->
     GetNonce_nonce (Signer_inner p') a = Ok n -> uint_val n < u64_max ->
     Signer_verify (p, c) sc = Ok (Some a) -> Signer_verify (p', c') sc = Ok (Some a)).
Proof.
  split; [exact amino_sign_bytes_inj|]. intros p p' c c' sc tx a n Ht Hid Hn Hlt.
  rewrite !verify_some. intros (pk & sg & key & sig & msg & Hpk & Hsg & Hkey & Hsig & Hmsg & Hok).
  exists pk, sg, key, sig, msg. split_and!; try done. by eapply protobuf_message.
Qed.
End Commits.

Section Stack.
Context `{Profile} `{CompatMode} `{Hashes} `{Bech32} `{SL : SdkLib} `{SP : Secp256k1} `{AL : Adr36Lib}.
Context `{WS : WriteSpec St} `{!Bounded St} `{!BoundedSpec St}.
Context {T C : Type} {CT : Call T C} {CV : ConvertSdkTx T C} `{Encode (NonceCall C)} `{Decode (NonceCall C)}.
Implicit Types (b : St) (s : Store) (c : ContextMap) (np : NoncePlugin T) (id : bytes) (sc : SignerCall).

(** The guards, from the outside in. *)
Abbreviation Guarded := (SdkCompatPlugin (SignerPlugin (ChainCommitmentPlugin (NoncePlugin T)))).
Definition guard id np : Guarded := mkSdkCompatPlugin (mkSignerPlugin (mkChainCommitment id np)).
Definition chain_Call b : Call (ChainCommitmentPlugin (NoncePlugin T)) bytes :=
  {| Call_call := CC_call (C := NonceCall C) (CT := NoncePlugin_Call b) |}.
Definition guarded_call b (call : SdkCall SignerCall) : M (Guarded * ContextMap) unit :=
  SdkCompat_call (CT := SignerPlugin_Call (C := bytes) (CT := chain_Call b) (GN := ChainCommitmentPlugin_GetNonce (GN := NoncePlugin_GetNonce b)))
    (CV := SignerPlugin_ConvertSdkTx (CV := ChainCommitmentPlugin_ConvertSdkTx (CV := NoncePlugin_ConvertSdkTx b))) call.

Lemma Nonce_call_ok s b np c f signer nonce (ic : C) np' c' :
  Read_inv b -> Nonce_abs s b np f -> Context_resolve c = Some (mkSigner signer) ->
  Nonce_call b (mkNonceCall nonce ic) (np, c) = (Ok tt, (np', c')) ->
  Call_call ic (Nonce_inner np, c) = (Ok tt, (Nonce_inner np', c')) /\
  match signer, nonce with
  | Some a, Some n => nonce_of f a < uint_val n <= nonce_of f a + NONCE_INCREASE_LIMIT /\ Nonce_abs s b np' (nonce_upd f a n)
  | None, None => Nonce_abs s b np' f
  | _, _ => False
  end.
Proof.
  intros Hb Hp Hc Hcall. destruct signer as [a|], nonce as [n|].
  - pose proof (Nonce_call_signed s b np c f a n ic Hb Hp Hc) as Hs. cbv zeta in Hs. destruct (Z.leb_spec (uint_val n) (nonce_of f a)).
    { destruct Hs as (r & Hr & Hbad). rewrite Hr in Hcall. naive_solver. }
    destruct (Z.ltb_spec (nonce_of f a + NONCE_INCREASE_LIMIT) (uint_val n)); [by rewrite Hs in Hcall|].
    destruct Hs as (m' & Hm' & Heq). rewrite Heq in Hcall. unfold in_nonce_inner, zoomM in Hcall. cbn [fst snd Nonce_inner Nonce_map] in Hcall.
    destruct (Call_call ic _) as [r [i c2]]. injection Hcall as -> <- <-. split; [done|]. split; [lia|]. exact Hm'.
  - exfalso. unfold Nonce_call, bindM, readM in Hcall. cbn [snd] in Hcall. by rewrite Hc in Hcall.
  - exfalso. unfold Nonce_call, bindM, readM in Hcall. cbn [snd] in Hcall. by rewrite Hc in Hcall.
  - unfold Nonce_call, bindM, readM in Hcall. cbn [snd] in Hcall. rewrite Hc in Hcall. cbn [ok_or Signer_signer NonceCall_nonce NonceCall_inner_call] in Hcall.
    unfold in_nonce_inner, zoomM in Hcall. cbn [fst snd] in Hcall. destruct (Call_call ic _) as [r [i c2]]. injection Hcall as -> <- <-. done.
Qed.

(** C8: a native call that goes through the guards starts with the identifier of this
    chain, and what follows is a nonce and a call for the application, which ran knowing
    who signed. If the call is signed, the holder of the signer's key signed its message
    (for a native signature the hash of the whole, chain, nonce and call), the nonce was
    above the signer's last by at most 1000, and it is the signer's last now. If it is not
    signed, it has no nonce and the application knows of no signer. *)
Theorem native_call_authorised s b id np c f sc self' c' :
  Read_inv b -> Nonce_abs s b np f -> id <> [] -> utf8_valid (length id) id = true ->
  guarded_call b (CallNative sc) (guard id np, c) = (Ok tt, (self', c')) ->
  exists signer rest nonce ic rest' np' c1,
    SC_call_bytes sc = id ++ rest /\ Decode_decode (K := NonceCall C) rest = Ok (mkNonceCall nonce ic, rest') /\
    self' = guard id np' /\ Context_resolve c1 = Some (mkSigner signer) /\
    Call_call ic (Nonce_inner np, c1) = (Ok tt, (Nonce_inner np', c')) /\
    match signer with
    | Some a =>
        signed_for (GN := ChainCommitmentPlugin_GetNonce (GN := NoncePlugin_GetNonce b)) (SdkCompat_inner (guard id np), ctx_set (T := Signer) None c) sc a /\
        exists n, nonce = Some n /\ nonce_of f a < uint_val n <= nonce_of f a + NONCE_INCREASE_LIMIT /\ Nonce_abs s b np' (nonce_upd f a n)
    | None => SC_pubkey sc = None /\ SC_signature sc = None /\ nonce = None /\ Nonce_abs s b np' f
    end.
Proof.
  intros Hb Hp Hid Hutf Hcall. unfold guarded_call, SdkCompat_call, bindM, retM, in_sdk_inner, zoomM in Hcall. cbn [fst snd SdkCompat_inner guard] in Hcall.
  destruct (Call_call sc _) as [r [sp c2]] eqn:Hs. injection Hcall as -> <- <-. cbn [Call_call SignerPlugin_Call] in Hs.
  destruct sp as [cp]. apply Signer_call_ok in Hs as (signer & c1 & call & rest0 & Hv & Hsig & _ & Hd & Hcc). injection Hd as <- <-.
  cbn [Signer_inner Call_call chain_Call] in Hcc.
  destruct (CC_call_commits (CT := NoncePlugin_Call b) (mkChainCommitment id np) c1 (SC_call_bytes sc) Hid Hutf) as [(rest & [[nonce ic] rest'] & Hbs & Hdec & Heq)|[_ (r & Heq & Hr)]];
    [|rewrite Heq in Hcc; naive_solver].
  cbn [CC_chain_id] in *. rewrite Heq in Hcc. unfold in_cc_inner, zoomM in Hcc. cbn [fst snd CC_inner CC_chain_id] in Hcc.
  destruct (Call_call (mkNonceCall nonce ic) _) as [r [np' c3]] eqn:Hn. injection Hcc as -> <- <-. cbn [Call_call NoncePlugin_Call] in Hn.
  apply (Nonce_call_ok s b np _ f signer nonce ic np' c3 Hb Hp) in Hn as [Hic Hn]; [|exact Hsig].
  exists signer, rest, nonce, ic, rest', np', (ctx_set (Some (mkChainId id)) c1). split_and!; [done|done|done|exact Hsig|exact Hic|].
  destruct signer as [a|].
  - split; [by apply verify_some|]. destruct nonce as [n|]; [|done]. exists n. destruct Hn. done.
  - destruct (verify_none _ _ Hv). destruct nonce; [done|]. done.
Qed.

(** an Amino transaction with a signature of the right length, but a public key that
    is not 33 bytes long, makes the call panic, before anything has been verified. *)
Theorem sdk_key_length_panics b self c tx sig key sg :
  head (Amino_signatures tx) = Some sig ->
  base64_decode (SdkSignature_signature sig) = inr sg -> length sg = 64%nat ->
  base64_decode (SdkPubKey_value (SdkSignature_pub_key sig)) = inr key -> length key <> 33%nat ->
  guarded_call b (CallSdk (TxAmino tx)) (self, c) = (Panic "source slice length does not match destination slice length", (self, c)).
Proof.
  intros Hsig Hsg Hlen Hkey Hbad. unfold guarded_call, SdkCompat_call, bindM at 1 2, getM, in_sdk_ctx, zoomM. cbn [fst snd].
  cbn [ConvertSdkTx_convert SignerPlugin_ConvertSdkTx]. unfold Signer_convert, bindM at 1, liftM at 1.
  assert (Hs : sdk_to_signercall (TxAmino tx) = Panic "source slice length does not match destination slice length").
  { unfold sdk_to_signercall, signature, sender_pubkey, first_signature. rewrite Hsig. cbn [ok_or res_bind]. rewrite Hsg, Hkey. cbn [map_err res_bind].
    unfold copy_array. rewrite Hlen. cbn [Nat.eqb res_bind]. by rewrite (proj2 (Nat.eqb_neq _ _) Hbad). }
  by rewrite Hs.
Qed.
End Stack.
