(* ===== verification/SignerProps.v ===== *)
(** * The guards of a call: scenarios

    Small libraries in place of the ones that are parameters, with the laws that are
    assumed of them, and the guards of SignerSpec run on them. *)

From stdpp Require Import base tactics numbers list strings gmap pretty.
From Stdlib Require Import ZArith Lia.
From S2P Require Import Prelude Bytes BTree StoreIface StoreIter NullStore BufStore PrefixStore Codec StateIface StructState Encoding MapColl MapSpec MapProps MapCall Address Coins AbciTypes Context Accounts Plugins PluginsSpec SdkCompat Signer SignerSpec.
#[local] Open Scope Z_scope.

#[local] Instance signer_profile : Profile := {| overflow_checks := true; debug_assertions := true |}.
#[local] Instance signer_compat : CompatMode := {| compat_mode := false |}.
#[local] Instance signer_hashes : Hashes := padded_hashes.
#[local] Instance signer_bech32 : Bech32 := {| Address_to_string := fun a => pretty (uint_val (Address_bytes a)) |}.

(** ** The libraries *)

Fixpoint bytes_string (bs : bytes) : string :=
  match bs with
  | [] => EmptyString
  | b :: bs => String (Ascii.ascii_of_nat (Z.to_nat b)) (bytes_string bs)
  end.
Lemma bytes_string_bytes s : bytes_string (string_bytes s) = s.
Proof. induction s as [|a s IH]; [done|]. simpl. by rewrite Nat2Z.id, Ascii.ascii_nat_embedding, IH. Qed.

(** Texts with their length in front. *)
Definition put_text (s : string) : bytes := Z.of_nat (length (string_bytes s)) :: string_bytes s.
Definition get_text (bs : bytes) : option (string * bytes) :=
  match bs with
  | n :: bs => Some (bytes_string (take (Z.to_nat n) bs), drop (Z.to_nat n) bs)
  | [] => None
  end.
Lemma get_put_text s bs : get_text (put_text s ++ bs) = Some (s, bs).
Proof. simpl. by rewrite Nat2Z.id, take_app_length, drop_app_length, bytes_string_bytes. Qed.

(** Documents without messages and fees only. *)
#[local] Instance toy_json : JsonLib := {| JsonValue := unit |}.
Definition toy_to_vec (d : SignDoc) : string + bytes :=
  match SD_fee d, SD_msgs d with
  | mkSdkFee [] gas, [] =>
      inr (put_text (SD_account_number d) ++ put_text (SD_memo d) ++ put_text (SD_sequence d) ++ put_text gas ++ SD_chain_id d)
  | _, _ => inl "not supported"%string
  end.
Definition toy_from_slice (bs : bytes) : option SignDoc :=
  get_text bs ≫= fun '(account_number, bs) => get_text bs ≫= fun '(memo, bs) =>
  get_text bs ≫= fun '(sequence, bs) => get_text bs ≫= fun '(gas, bs) =>
  Some (mkSignDoc account_number bs (mkSdkFee [] gas) memo [] sequence).

Record ToyTx := mkToyTx { Toy_body : bytes; Toy_auth : bytes; Toy_signatures : list bytes; Toy_keys : list (option bytes) }.
(** In the place of base64, the text itself. *)
#[local] Instance toy_sdk : SdkLib := {|
  AminoTx_to_vec := fun _ => inl "not supported"%string;
  AminoTx_from_slice := fun _ => inl "not supported"%string;
  SignDoc_to_vec := toy_to_vec;
  base64_encode := bytes_string;
  base64_decode := fun s => inr (string_bytes s);
  CosmrsTx := ToyTx;
  CosmrsTx_from_bytes := fun _ => inl "not supported"%string;
  CosmrsTx_encode_to_vec := fun tx => Toy_body tx ++ Toy_auth tx;
  CosmrsTx_body_bytes := fun tx => inr (Toy_body tx);
  CosmrsTx_auth_info_bytes := fun tx => inr (Toy_auth tx);
  CosmrsTx_signatures := Toy_signatures;
  SignerPublicKey := bytes;
  CosmrsTx_signer_keys := Toy_keys;
  SignerPublicKey_single := Some;
  CosmrsSignDoc_into_bytes := fun body auth id account => inr (body ++ auth ++ id ++ [account])
|}.
#[local] Instance toy_laws : SdkLaws.
Proof.
  refine {| SignDoc_from_slice := toy_from_slice |}.
  intros [account id [[|] gas] memo [|] sequence] bs; [|done..]. intros Hbs. apply (inj inr) in Hbs as <-.
  unfold toy_from_slice. cbn [SD_account_number SD_memo SD_sequence SD_chain_id].
  by do 4 (rewrite get_put_text; cbn [mbind option_bind]).
Defined.

(** A signature is the message and all but the first byte of the key. *)
#[local] Instance toy_secp : Secp256k1.
Proof.
  refine {| PublicKey := bytes;
    PublicKey_from_slice := fun bs => if (length bs =? 33)%nat then inr bs else inl "malformed public key"%string;
    serialize_uncompressed := fun k => pad 65 (4 :: k);
    Signature := bytes;
    Signature_from_compact := inr;
    verify_ecdsa := fun msg sig key => if beqb sig (msg ++ drop 1 key) then inr tt else inl "signature failed verification"%string |}.
  intros k. apply pad_length.
Defined.
#[local] Instance toy_adr36 : Adr36Lib := {| Adr36Msg_to_vec := fun m => inr (string_bytes (A36_msg_data m)) |}.

(** ** An application that counts its calls *)

#[local] Instance count_Call : Call nat u8 := {| Call_call := fun _ p => (Ok tt, (S p.1, p.2)) |}.
#[local] Instance count_Convert : ConvertSdkTx nat u8 := {| ConvertSdkTx_convert := fun _ _ => retM (to_uint 1 0) |}.
(** The derived encoding: an option is a byte and what it holds. *)
#[local] Instance count_Encode : Encode (NonceCall u8) := {| Encode_encode := fun call =>
  let? inner := Encode_encode (NonceCall_inner_call call) in
  match NonceCall_nonce call with
  | Some n => let? n := Encode_encode n in Ok (1 :: n ++ inner)
  | None => Ok (0 :: inner)
  end |}.
#[local] Instance count_Decode : Decode (NonceCall u8) := {| Decode_decode := fun bs =>
  match bs with
  | 1 :: bs => let? n := Decode_decode (K := u64) bs in let? i := Decode_decode (K := u8) n.2 in Ok (mkNonceCall (Some n.1) i.1, i.2)
  | 0 :: bs => let? i := Decode_decode (K := u8) bs in Ok (mkNonceCall None i.1, i.2)
  | _ => Err (UnexpectedByte 0)
  end |}.

Definition chain : bytes := string_bytes "chain-1".
Definition no_nonces : NoncePlugin nat := mkNoncePlugin (mkMap (mkStore [9]) []) 0%nat.
Lemma no_nonces_abs : Nonce_abs (mkStore [9]) ex_astore no_nonces (fun _ => None).
Proof.
  split_and!; [split_and!; [done|exact (Sorted.SSorted_nil _)|exact (Forall_nil_2 _)]|exact (Forall_nil_2 _)|].
  intros k. cbn [Map_children Nonce_map no_nonces bt_get Map_store]. unfold store_holds. by rewrite ex_astore_view, lookup_empty.
Qed.
Definition key : bytes := 2 :: replicate 32 7.
Definition at_call : ContextMap := mkContextMap None None None (mkAbciCtx None None (Some Events_default) None Cells_empty).
Definition run_calls (calls : list (SdkCall SignerCall)) : res nat :=
  ((fix go l := match l with
                | [] => readM (fun p => Ok (Nonce_inner (CC_inner (Signer_inner (SdkCompat_inner p.1)))))
                | call :: l => run guarded_call ex_astore call; go l
                end) calls (guard chain no_nonces, at_call)).1.

(** A native call with nonce 1, signed. *)
Definition first_bytes : bytes := chain ++ [1; 0; 0; 0; 0; 0; 0; 0; 1; 5].
Definition first_call : SignerCall := mkSignerCall (Some (Sha256 first_bytes ++ drop 1 key)) (Some key) SigNative first_bytes.
Definition key_address : Address := match Address_from_pubkey key with Ok a => a | _ => Address_NULL end.

Lemma native_call_authorised_witness :
  run_calls [CallNative first_call] = Ok 1%nat /\
  exists self' c', guarded_call ex_astore (CallNative first_call) (guard chain no_nonces, at_call) = (Ok tt, (self', c')) /\
    exists rest, SC_call_bytes first_call = chain ++ rest.
Proof.
  split; [by vm_compute|]. eexists _, _. split; [vm_compute; reflexivity|].
  edestruct (native_call_authorised (mkStore [9]) ex_astore chain no_nonces at_call (fun _ => None) first_call) as (signer & rest & nonce & ic & rest' & np' & c1 & Hbs & _).
  - exact ex_astore_inv.
  - exact no_nonces_abs.
  - done.
  - by vm_compute.
  - vm_compute. reflexivity.
  - by exists rest.
Defined.

(** ** SDK transactions *)

(** A protobuf transaction, signed for this chain. *)
Definition proto_bytes : bytes := [10; 11; 12] ++ chain ++ [0].
Definition proto_tx : ToyTx := mkToyTx [10; 11] [12] [Sha256 proto_bytes ++ drop 1 key] [Some key].
(** An Amino transaction, signed for nonce 1. *)
Definition amino_doc : SignDoc := mkSignDoc "0" chain (mkSdkFee [] "9") "hello" [] "1".
Definition amino_tx (sig : bytes) (pubkey : bytes) : AminoTx :=
  mkAminoTx [] (mkSdkFee [] "9") "hello" [mkSdkSignature (mkSdkPubKey "key" (bytes_string pubkey)) (bytes_string sig) None].
Definition amino_sig : bytes := match toy_to_vec amino_doc with inr bs => Sha256 bs ++ drop 1 key | inl _ => [] end.

(** The signer plugin with the chain in the context, before and after the sender's
    nonce became 5. *)
Definition chain_ctx : ContextMap := ctx_set (Some (mkChainId chain)) at_call.
Definition nonces_at_5 : NoncePlugin nat :=
  mkNoncePlugin (mkMap (mkStore [9]) [(enc key_address, (key_address, Some (to_uint 8 5)))]) 0%nat.
#[local] Instance signer_nonces : GetNonce (ChainCommitmentPlugin (NoncePlugin nat)) :=
  ChainCommitmentPlugin_GetNonce (GN := NoncePlugin_GetNonce ex_astore).
Definition proto_call : SignerCall :=
  mkSignerCall (Some (Sha256 proto_bytes ++ drop 1 key)) (Some key) (SigSdk (TxProtobuf proto_tx)) [].

Lemma sdk_signature_commits_witness :
  Signer_verify (SdkCompat_inner (guard chain nonces_at_5), chain_ctx) proto_call = Ok (Some key_address) /\
  forall id n, sign_bytes (TxAmino (amino_tx amino_sig key)) id n = sign_bytes (TxAmino (amino_tx amino_sig key)) chain 1 ->
    id = chain /\ n = 1.
Proof.
  destruct (sdk_signature_commits (T := ChainCommitmentPlugin (NoncePlugin nat))) as [Hamino Hproto]. split.
  - apply (Hproto (SdkCompat_inner (guard chain no_nonces)) _ chain_ctx _ proto_call proto_tx key_address (to_uint 8 5)); [by left|done|by vm_compute..].
  - intros id n Heq. destruct (sign_bytes (TxAmino (amino_tx amino_sig key)) chain 1) as [bs|e|w] eqn:Hbs; [|by vm_compute in Hbs..].
    by destruct (Hamino _ _ _ _ _ _ _ Heq Hbs) as (-> & -> & _).
Defined.

Lemma sdk_key_length_panics_witness :
  run_calls [CallSdk (TxAmino (amino_tx amino_sig [2; 7; 7]))] = Panic "source slice length does not match destination slice length".
Proof.
  unfold run_calls. unfold bindM at 1.
  by erewrite (sdk_key_length_panics ex_astore _ _ (amino_tx amino_sig [2; 7; 7])) by (vm_compute; reflexivity || done).
Defined.

(** One transaction after the other. The Amino transaction goes through once: the second
    time the message to be signed is another one. The protobuf transaction goes through
    each time it is sent. *)
Theorem sdk_replays :
  run_calls [CallSdk (TxAmino (amino_tx amino_sig key))] = Ok 1%nat /\
  run_calls [CallSdk (TxAmino (amino_tx amino_sig key)); CallSdk (TxAmino (amino_tx amino_sig key))]
    = Err (ESecp256k1 "signature failed verification") /\
  run_calls [CallSdk (TxProtobuf proto_tx); CallSdk (TxProtobuf proto_tx); CallSdk (TxProtobuf proto_tx)] = Ok 3%nat /\
  run_calls [CallNative first_call; CallNative first_call] = Err (ENonce "Nonce is not valid.").
Proof. split_and!; vm_compute; reflexivity. Qed.
