(* ===== verification/Migrate.v ===== *)
(** * Migration (src/migrate.rs, macros/src/migrate.rs)

    Values of a previous version are read from one store and become values of the current
    version, at home in another one; both are parts of the same backing store when a node
    migrates. The implementations for leaves, composed values, the collections and the
    derived ones for versioned structs. *)

From stdpp Require Import base tactics numbers list strings gmap.
From Stdlib Require Import ZArith Lia.
From S2P Require Import Prelude Bytes BTree StoreIface StoreIter NullStore BufStore PrefixStore Codec StateIface Next StructState MapColl MapSpec MapProps MapIter DequeColl EntryMap Fields Pool.
#[local] Open Scope Z_scope.

(** [trait Migrate]: the value, and the bytes that are left. *)
Class Migrate (St V : Type) := { Migrate_migrate : Store -> Store -> bytes -> M St (V * bytes) }.
(** [trait MigrateFrom] *)
Class MigrateFrom (U T : Type) := { migrate_from : U -> res T }.
Definition migrate_into {U T} `{MigrateFrom U T} (self : U) : res T := migrate_from self.

(** The operations that do not touch the backing store. *)
Definition on_value {St V A} (f : M V A) (v : V) : M St V := fun b =>
  match f v with
  | (Ok _, v') => (Ok v', b)
  | (Err e, _) => (Err e, b)
  | (Panic w, _) => (Panic w, b)
  end.

Section Basic.
Context {St : Type}.

(** The default of the trait. *)
Definition default_migrate {V} `{State St V} (src dest : Store) (bs : bytes) : M St (V * bytes) :=
  do r <- readM (State_load src bs);
  do value <- on_value (State_attach dest) r.1;
  retM (value, r.2).

Context {T : Type} {MT : Migrate St T}.
Definition option_migrate (src dest : Store) (bs : bytes) : M St (option T * bytes) :=
  match bs with
  | [] => errM (EEd "failed to fill whole buffer")
  | variant_byte :: bs =>
      if variant_byte =? 0 then retM (None, bs)
      else do r <- Migrate_migrate src dest bs; retM (Some r.1, r.2)
  end.
#[export] Instance option_Migrate : Migrate St (option T) := {| Migrate_migrate := option_migrate |}.
Definition RefCell_migrate (src dest : Store) (bs : bytes) : M St (RefCell T * bytes) :=
  do r <- Migrate_migrate src dest bs; retM (mkRefCell r.1, r.2).
#[export] Instance RefCell_Migrate : Migrate St (RefCell T) := {| Migrate_migrate := RefCell_migrate |}.

Fixpoint array_migrate_loop (N : Z) (count : nat) (i : Z) (src dest : Store) (bs : bytes) : M St (list T * bytes) :=
  match count with
  | O => retM ([], bs)
  | S count =>
      let prefix := varint i N in
      do r <- Migrate_migrate (Store_sub src prefix) (Store_sub dest prefix) bs;
      do rs <- array_migrate_loop N count (i + 1) src dest r.2;
      retM (r.1 :: rs.1, rs.2)
  end.
(** [[T; N]], its elements *)
Definition array_migrate (N : nat) (src dest : Store) (bs : bytes) : M St (list T * bytes) :=
  array_migrate_loop (Z.of_nat N) N 0 src dest bs.
(** [Vec<T>]: until the bytes are used up. *)
Fixpoint vec_migrate_loop (fuel : nat) (i : Z) (src dest : Store) (bs : bytes) : M St (list T * bytes) :=
  match bs with
  | [] => retM ([], [])
  | _ =>
      match fuel with
      | O => panicM "out of fuel"
      | S fuel =>
          let prefix := to_be_bytes 8 i in
          do r <- Migrate_migrate (Store_sub src prefix) (Store_sub dest prefix) bs;
          do rs <- vec_migrate_loop fuel (i + 1) src dest r.2;
          retM (r.1 :: rs.1, rs.2)
      end
  end.
Definition vec_migrate (fuel : nat) (src dest : Store) (bs : bytes) : M St (list T * bytes) := vec_migrate_loop fuel 0 src dest bs.

Context {U : Type} {MU : Migrate St U}.
(** [migrate_tuple_impl!(A; B; 0, 1)] *)
Definition pair_migrate (src dest : Store) (bs : bytes) : M St ((T * U) * bytes) :=
  do a <- Migrate_migrate (Store_sub src [0]) (Store_sub dest [0]) bs;
  do b <- Migrate_migrate (Store_sub src [1]) (Store_sub dest [1]) a.2;
  retM ((a.1, b.1), b.2).
#[export] Instance pair_Migrate : Migrate St (T * U) := {| Migrate_migrate := pair_migrate |}.
End Basic.

(** ** Collections *)

Section Collections.
Context `{Profile} {St : Type} `{Read St} `{!Write St} `{!Bounded St}.
Context {K : Type} `{Encode K} `{Decode K} {V : Type} {SV : State St V}.
(** Keys are migrated with default handles, whose backing store is [Null]. *)
Context {MK : Migrate Empty K} {MV : Migrate St V}.

Definition default_store : Store := mkStore [].
Definition key_migrate (k : bytes) : res (K * bytes) := (Migrate_migrate default_store default_store k mkEmpty).1.

Fixpoint Map_migrate_loop (fuel : nat) (src dest : Store) (it : StoreNextIter) (map : Map K V) : M St (Map K V) :=
  match fuel with
  | O => panicM "out of fuel"
  | S fuel =>
      fun b =>
        match StoreNextIter_next src b it with
        | (Ok None, _) => (Ok map, b)
        | (Ok (Some (k, v)), it) =>
            (do key <- liftM (key_migrate k);
             do value <- Migrate_migrate (Store_sub src k) (Store_sub dest k) v;
             do map <- on_value (Map_insert key.1 value.1) map;
             run Map_apply_change (V := V) src k None;
             Map_migrate_loop fuel src dest it map) b
        | (Err e, _) => (Err e, b)
        | (Panic w, _) => (Panic w, b)
        end
  end.
(** Every step removes an entry, so the number of entries is fuel enough. *)
Definition Map_migrate (src dest : Store) (bs : bytes) : M St (Map K V * bytes) :=
  do map <- liftM (Map_with_store dest);
  do n <- readM (fun b => Ok (entry_bound b));
  do map <- Map_migrate_loop (S n) src dest (mkStoreNextIter Unbounded Unbounded) map;
  retM (map, bs).
#[export] Instance Map_Migrate : Migrate St (Map K V) := {| Migrate_migrate := Map_migrate |}.
End Collections.

(** ** Derived for structs *)

(** The fields from the one with prefix byte [i] on. *)
Class MigrateFields (St F : Type) := { fields_migrate : Z -> Store -> Store -> bytes -> M St (F * bytes) }.

Section Derived.
Context `{CompatMode} {St : Type}.
#[export] Instance FNil_MigrateFields : MigrateFields St FNil := {| fields_migrate := fun _ _ _ bs => retM (fnil, bs) |}.
Definition FCons_migrate {A F} {MA : Migrate St A} {MF : MigrateFields St F} (i : Z) (src dest : Store) (bs : bytes) : M St (FCons A F * bytes) :=
  do x <- Migrate_migrate (Store_sub src [i]) (Store_sub dest [i]) bs;
  do f <- fields_migrate (i + 1) src dest x.2;
  retM (fcons x.1 f.1, f.2).
#[export] Instance FCons_MigrateFields {A F} {MA : Migrate St A} {MF : MigrateFields St F} : MigrateFields St (FCons A F) :=
  {| fields_migrate := FCons_migrate |}.
Definition FSkip_migrate {A F} {DA : Default A} {MF : MigrateFields St F} (i : Z) (src dest : Store) (bs : bytes) : M St (FCons (Skip A) F * bytes) :=
  do f <- fields_migrate i src dest bs;
  retM (fcons (mkSkip default) f.1, f.2).
#[export] Instance FSkip_MigrateFields {A F} {DA : Default A} {MF : MigrateFields St F} : MigrateFields St (FCons (Skip A) F) :=
  {| fields_migrate := FSkip_migrate |}.

(** [bytes[0]] *)
Definition first_byte (bs : bytes) : res Z := match bs with [] => Panic "index out of bounds" | b :: _ => Ok b end.
(** Whether the bytes are those of this version. *)
Definition is_version (ver : Z) (bs : bytes) : res bool :=
  if compat_mode then Ok (ver =? 0) else let? b := first_byte bs in Ok (b =? ver).
Definition Struct_migrate {F} {MF : MigrateFields St F} {ver : Z} (prev_migration : Store -> Store -> bytes -> M St (Struct ver F * bytes))
    (src dest : Store) (bs : bytes) : M St (Struct ver F * bytes) :=
  do this <- liftM (is_version ver bs);
  if this : bool then
    do f <- fields_migrate 0 src dest (if compat_mode then bs else drop 1 bs);
    retM (mkStruct f.1, f.2)
  else prev_migration src dest bs.
(** With and without a previous version. *)
Definition from_previous {P T} {MP : Migrate St P} {MI : MigrateFrom P T} (src dest : Store) (bs : bytes) : M St (T * bytes) :=
  do prev <- Migrate_migrate src dest bs;
  do value <- liftM (migrate_into prev.1);
  retM (value, prev.2).
Definition no_previous {T} (src dest : Store) (bs : bytes) : M St (T * bytes) :=
  do _ <- liftM (first_byte bs);
  errM (EApp "Unknown version").
End Derived.

(** ** Collections over maps *)

Section OverMaps.
Context `{Profile} `{CompatMode} {St : Type} `{Read St} `{!Write St} `{!Bounded St}.

(** [Deque]: its positions have the derived migration, with default handles. *)
Definition u64_Migrate {S} : Migrate S u64 := {| Migrate_migrate := default_migrate (H := leaf_State) |}.
Definition Meta_migrate (src dest : Store) (bs : bytes) : M Empty (Meta * bytes) :=
  do this <- liftM (is_version 0 bs);
  if this : bool then
    do head <- Migrate_migrate (Migrate := u64_Migrate) (Store_sub src [0]) (Store_sub dest [0]) (if compat_mode then bs else drop 1 bs);
    do tail <- Migrate_migrate (Migrate := u64_Migrate) (Store_sub src [1]) (Store_sub dest [1]) head.2;
    retM (mkMeta head.1 tail.1, tail.2)
  else no_previous src dest bs.
Definition Deque_migrate {T} {ST : State St T} {MT : Migrate St T} (src dest : Store) (bs : bytes) : M St (Deque T * bytes) :=
  do meta <- liftM (Meta_migrate default_store default_store bs mkEmpty).1;
  do map <- Map_migrate (MK := u64_Migrate) src dest meta.2;
  retM (mkDeque meta.1 map.1, map.2).
Definition EntryMap_migrate {T K V} `{Encode K} `{Decode K} {SV : State St V} {MK : Migrate Empty K} {MV : Migrate St V} (src dest : Store) (bs : bytes) : M St (EntryMap T K V * bytes) :=
  do map <- Map_migrate src dest bs;
  retM (mkEntryMap map.1, map.2).
End OverMaps.
