(* ===== verification/MigrateSpec.v ===== *)
(** * What migration keeps

    A migrated map holds in memory what was stored, each value and key migrated, and
    leaves nothing behind in the source. The laws of [MigrateSpec] are those of one type
    and its previous version; maps have them when their keys and values do, so that nested
    maps are migrated as a whole. *)

From stdpp Require Import base tactics numbers list strings gmap.
From Stdlib Require Import ZArith Lia.
From S2P Require Import Prelude Bytes BTree StoreIface StoreIter NullStore BufStore PrefixStore Codec StateIface Next StructState Encoding MapColl MapSpec MapProps MapIter MapIterSpec EntryMap MapCall Fields Address DequeColl Coins Pool AbciTypes Context Plugins AbciStore AbciPlugin SdkCompat Signer PluginHooks Migrate.

(** Nothing is stored strictly under the prefix. *)
Definition empty_under `{ReadSpec St} (s : Store) (b : St) : Prop := forall r, r <> [] -> view b !! (Store_prefix s ++ r) = None.
Lemma empty_under_sub `{ReadSpec St} (s : Store) p (b : St) : empty_under s b -> empty_under (Store_sub s p) b.
Proof. intros He r Hr. simpl. rewrite <- app_assoc. apply He. by intros [_ ->]%app_eq_nil. Qed.

(** [V] with its previous version [V0]. [carries v x]: the value has the content [x] all by
    itself, wherever it is attached, if nothing is stored there. [migratable]: what is
    stored is fit for being migrated. *)
Class MigrateSpec {St} `{WS : WriteSpec St} (V0 V : Type) {SV0 : State St V0} {SS0 : StateSpec St V0} {SV : State St V} {SS : StateSpec St V}
    {MV : Migrate St V} (conv : model (V := V0) -> model (V := V)) := {
  carries : V -> model (V := V) -> Prop;
  migratable : Store -> St -> model (V := V0) -> Prop;
  migratable_agree s b b' x : agree_under s b b' -> migratable s b x -> migratable s b' x;
  carries_valid v x : carries v x -> valid v;
  carries_attach v x t : carries v x -> exists v', State_attach t v = (Ok tt, v') /\ attached t v' /\ carries v' x;
  carries_abs v x t b : Read_inv b -> attached t v -> carries v x -> empty_under t b -> abs b v x;
  migrate_spec s d b bs x rest : Read_inv b -> loads s b bs x -> migratable s b x -> State_terminated (V := V0) \/ rest = [] ->
    exists v b', Migrate_migrate s d (bs ++ rest) b = (Ok (v, rest), b') /\ Read_inv b' /\ keeps_writable b b' /\ only_under s b b' /\
      attached d v /\ carries v (conv x)
}.

(** Keys: the new key for an old one, and the way back. *)
Class MigrateKey (K0 K : Type) {E0 : Encode K0} {D0 : Decode K0} {CS0 : CodecSpec K0} {MK : Migrate Empty K} (convk : K0 -> K) (oldk : K -> option K0) := {
  key_migrate_spec (j : K0) : exists rest, key_migrate (K := K) (MK := MK) (enc (CodecSpec := CS0) j) = Ok (convk j, rest);
  oldk_spec (k : K) (j : K0) : oldk k = Some j <-> k = convk j
}.

(** ** Leaves *)

Section Leaves.
Context {V : Type} {EV : Encode V} {DV : Decode V} {CS : CodecSpec V}.
Definition leaf_Migrate {St} : Migrate St V := {| Migrate_migrate := default_migrate (H := leaf_State) |}.

Section InStore.
Context `{WS : WriteSpec St}.
Definition leaf_spec : StateSpec St V (ST := leaf_State) := leaf_StateSpec V.
Lemma leaf_migrates s d (b : St) bs (x : V) rest : Read_inv b -> loads (H1 := leaf_spec) s b bs x -> codec_terminated (K := V) \/ rest = [] ->
  Migrate_migrate (Migrate := leaf_Migrate) s d (bs ++ rest) b = (Ok (x, rest), b).
Proof.
  intros Hb Hl Hr. destruct (Hl b rest Hb (agree_under_refl _ _) Hr) as (v & Hv & _ & Hx). cbn in Hx. subst v.
  unfold Migrate_migrate, leaf_Migrate, default_migrate, bindM, readM. by rewrite Hv.
Qed.
Definition leaf_MigrateSpec : MigrateSpec V V (SS0 := leaf_spec) (SS := leaf_spec) (MV := leaf_Migrate) (fun x => x).
Proof.
  simple refine (Build_MigrateSpec St _ _ _ _ V V leaf_State leaf_spec leaf_State leaf_spec leaf_Migrate (fun x => x) (fun v x => v = x) (fun _ _ _ => True) _ _ _ _ _).
  - done.
  - done.
  - intros v x t ->. by exists x.
  - done.
  - intros s d b bs x rest Hb Hl _ Hr. exists x, b. rewrite (leaf_migrates s d b bs x rest Hb Hl Hr). by split_and!; auto with orga.
Defined.
End InStore.

Definition leaf_MigrateKey : MigrateKey V V (MK := leaf_Migrate) (fun k => k) Some.
Proof.
  split; [|naive_solver]. intros k. exists []. unfold key_migrate, Migrate_migrate, leaf_Migrate, default_migrate, bindM, readM. cbn [State_load leaf_State leaf_load].
  pose proof (decode_enc k [] (or_intror eq_refl)) as Hd. rewrite app_nil_r in Hd. unfold leaf_load. by rewrite Hd.
Defined.
End Leaves.

(** ** Maps *)

Section Maps.
Context `{Profile} `{WS : WriteSpec St} `{!Bounded St} `{!BoundedSpec St}.
Context `{KS0 : KeySpec K0} `{!FixedKey K0} {V0 : Type} {SV0 : State St V0} {SS0 : StateSpec St V0}.
Context `{KS : KeySpec K} {V : Type} {SV : State St V} {SS : StateSpec St V}.
Context {MK : Migrate Empty K} {MV : Migrate St V} {convk : K0 -> K} {oldk : K -> option K0} {conv : model (V := V0) -> model (V := V)}.
Context {MKS : MigrateKey K0 K convk oldk} {MVS : MigrateSpec V0 V conv}.
Implicit Types (b : St) (s src dest : Store) (k : K) (j : K0) (pos : option K0) (m : Map K V) (f : K0 -> option (model (V := V0))).

#[local] Instance old_key_dec : EqDecision K0.
Proof. intros i j. destruct (decide (enc i = enc j)) as [He|Hn]; [left; by apply enc_inj|right; by intros ->]. Qed.

Lemma convk_inj i j : convk i = convk j -> i = j.
Proof. intros Heq. apply oldk_spec in Heq. rewrite (proj2 (oldk_spec (convk i) i) eq_refl) in Heq. by injection Heq. Qed.

(** The content after the migration. *)
Definition conv_content f : K -> option (model (V := V)) := fun k => j ← oldk k; conv <$> f j.
Lemma conv_content_conv f j : conv_content f (convk j) = conv <$> f j.
Proof. unfold conv_content. by rewrite (proj2 (oldk_spec (convk j) j) eq_refl). Qed.

(** *** A step: one entry of the source is gone *)

Lemma view_at src b q : Store_view src b !! q = view b !! (Store_prefix src ++ q).
Proof. apply strip_lookup. Qed.

Definition entry_gone src j b b' : Prop := forall q, Store_view src b' !! q = if starts_with (enc j) q then None else Store_view src b !! q.

Lemma entry_removed src j b b1 : Read_inv b1 -> only_under (Store_sub src (enc j)) b b1 ->
  exists b2, Map_apply_change (V := V) src (enc j) None b1 = (Ok tt, b2) /\ Read_inv b2 /\ keeps_writable b1 b2 /\ only_under src b b2 /\ entry_gone src j b b2.
Proof.
  intros Hb1 Hu. unfold Map_apply_change, bindM.
  destruct (Map_remove_from_store_spec src b1 (enc j) Hb1) as (e & b2 & -> & Hb2 & Hk & Hv & _). exists b2.
  apply only_under_at in Hu. assert (Ho : only_at src j b b2).
  { intros q Hq. rewrite Hv, Hq. by apply Hu. }
  split_and!; [done..|exact (only_at_under src j b b2 Ho)|]. intros q. rewrite !view_at.
  destruct (starts_with (enc j) q) eqn:Hq; [|apply Ho; by rewrite starts_with_sub].
  rewrite Hv. by rewrite starts_with_sub, Hq.
Qed.

Lemma gone_other src j b b' i : entry_gone src j b b' -> i <> j -> Store_view src b' !! enc i = Store_view src b !! enc i.
Proof.
  intros Hg Hi. rewrite Hg. destruct (starts_with (enc j) (enc i)) eqn:Hs; [|done].
  destruct Hi. symmetry. apply (enc_prefix_free j i []). by rewrite app_nil_r.
Qed.
Lemma gone_stored src j b b' q : entry_gone src j b b' -> is_Some (Store_view src b' !! q) -> is_Some (Store_view src b !! q) /\ starts_with (enc j) q = false.
Proof. intros Hg. rewrite Hg. destruct (starts_with (enc j) q); [by intros []|done]. Qed.
Lemma gone_tidy src j b b' : entry_gone src j b b' -> Map_tidy (K := K0) src b -> Map_tidy (K := K0) src b'.
Proof.
  intros Hg Ht q Hq Hs. destruct (gone_stored _ _ _ _ _ Hg Hs) as [Hs' Hj]. destruct (Ht q Hq Hs') as (i & r & -> & Hi).
  exists i, r. split; [done|]. rewrite (gone_other _ _ _ _ _ Hg); [done|]. intros ->. by rewrite starts_with_app in Hj.
Qed.
Lemma gone_no_ff src j b b' : entry_gone src j b b' -> no_ff_key (K := K0) src b -> no_ff_key (K := K0) src b'.
Proof. intros Hg Hn i Hi. apply Hn. by destruct (gone_stored _ _ _ _ _ Hg Hi). Qed.
Lemma gone_agree src j b b' i : entry_gone src j b b' -> i <> j -> agree_under (Store_sub src (enc i)) b b'.
Proof.
  intros Hg Hi r Hr. simpl. rewrite <- !app_assoc, <- !view_at, Hg.
  destruct (starts_with (enc j) (enc i ++ r)) eqn:Hs; [|done]. by apply enc_prefix_free in Hs.
Qed.
Lemma gone_holds src j b b' i (ox : option (model (V := V0))) : entry_gone src j b b' -> i <> j -> store_holds src b i ox -> store_holds src b' i ox.
Proof.
  intros Hg Hi. apply store_holds_frame; [|by eapply gone_agree]. rewrite <- !view_at. by eapply gone_other.
Qed.
Lemma gone_size src j b b' : entry_gone src j b b' -> is_Some (Store_view src b !! enc j) -> size (Store_view src b') < size (Store_view src b).
Proof.
  intros Hg [x Hx]. apply map_subset_size. split.
  - apply map_subseteq_spec. intros q y Hy. rewrite Hg in Hy. by destruct (starts_with (enc j) q).
  - intros Hsub. rewrite map_subseteq_spec in Hsub. apply Hsub in Hx. rewrite Hg in Hx.
    by rewrite (proj2 (starts_with_spec (enc j) (enc j))) in Hx by (exists []; by rewrite app_nil_r).
Qed.

(** *** Maps that need nothing from the store *)

Abbreviation vcarries := (carries (MigrateSpec := MVS)).
Definition carry_entry (g : K -> option (model (V := V))) (e : bytes * (K * option V)) : Prop :=
  e.1 = enc e.2.1 /\ exists v x, e.2.2 = Some v /\ g e.2.1 = Some x /\ vcarries v x.
Definition map_carries m (g : K -> option (model (V := V))) : Prop :=
  bt_wf (Map_children m) /\ Forall (carry_entry g) (Map_children m) /\ forall k, bt_get (enc k) (Map_children m) = None -> g k = None.

Lemma map_carries_valid m g : map_carries m g -> Map_valid m.
Proof.
  intros (Hw & Hc & _). split; [done|]. eapply Forall_impl; [exact Hc|]. intros [kb [k o]] (He & v & x & Ho & _ & Hv). cbn [fst snd] in *. subst o.
  split; [done|]. exact (carries_valid (MigrateSpec := MVS) v x Hv).
Qed.
Lemma bt_get_none {A} kb (c : BTree A) : bt_get kb c = None <-> kb ∉ c.*1.
Proof. rewrite bt_get_lookup. unfold bt_map. split; [apply not_elem_of_list_to_map_2|apply not_elem_of_list_to_map_1]. Qed.

Lemma attach_carrying s g (c : BTree (K * option V)) : Forall (carry_entry g) c ->
  exists c', attach_children (St := St) s c = (Ok tt, c') /\ c'.*1 = c.*1 /\ Forall (carry_entry g) c' /\ Forall (child_ok s) c'.
Proof.
  induction 1 as [|[kb [k o]] c (He & v & x & Ho & Hg & Hv) Hc IH]; [by exists []|]. cbn [fst snd] in *. subst kb o.
  destruct IH as (c' & Hc' & Hfst & Hcc & Hok). cbn [attach_children].
  destruct (carries_attach (MigrateSpec := MVS) v x (Store_sub s (enc k)) Hv) as (v' & Hv' & Ha & Hcv).
  cbn [State_attach option_State option_attach]. rewrite Hv', Hc'. eexists. split; [done|]. split_and!.
  - by rewrite !fmap_cons, Hfst.
  - constructor; [|done]. split; [done|]. by exists v', x.
  - constructor; [|done]. split; [done|]. by intros ? [= <-].
Qed.
Lemma bt_wf_keys {A B} (c : BTree A) (c' : BTree B) : c'.*1 = c.*1 -> bt_wf c -> bt_wf c'.
Proof.
  revert c'. induction c as [|[k x] c IH]; intros c' Hk Hw; destruct c' as [|[k' x'] c']; [constructor|done..|]. injection Hk as Hk0 Hk; cbn [fst] in Hk0; subst k'.
  apply bt_wf_cons in Hw as [Hw Hf]. apply bt_wf_cons. split; [by apply IH|].
  apply (Forall_fmap fst (blt k)). change (Forall (blt k) c'.*1). replace (c'.*1) with (c.*1) by done. by apply Forall_fmap.
Qed.
Lemma map_carries_attach m g s : map_carries m g -> exists m', Map_attach (St := St) s m = (Ok tt, m') /\ Map_attached s m' /\ map_carries m' g.
Proof.
  intros (Hw & Hc & Hn). destruct (attach_carrying s g _ Hc) as (c' & Hc' & Hfst & Hcc & Hok). exists (mkMap s c').
  unfold Map_attach. rewrite Hc'. split; [done|]. pose proof (bt_wf_keys _ _ Hfst Hw). split; [done|]. split_and!; [done..|].
  intros k Hk. apply Hn. apply bt_get_none. rewrite <- Hfst. by apply bt_get_none.
Qed.
Lemma map_carries_abs m g s b : Read_inv b -> Map_attached s m -> map_carries m g -> empty_under s b -> Map_abs b m g.
Proof.
  intros Hb (<- & Hw & Hok) (_ & Hc & Hn) He k. destruct (bt_get (enc k) (Map_children m)) as [[k' o]|] eqn:E.
  - rewrite bt_get_lookup in E. apply bt_elem in E; [|done]. rewrite Forall_forall in Hc, Hok.
    destruct (Hc _ E) as (Hk & v & x & Ho & Hg & Hv). destruct (Hok _ E) as [_ Ha]. cbn [fst snd] in *. subst o.
    apply enc_inj in Hk as <-. rewrite Hg. split; [by apply Ha|]. apply (carries_abs (MigrateSpec := MVS) v x (Store_sub (Map_store m) (enc k))); auto using empty_under_sub.
  - rewrite (Hn k E). unfold store_holds. rewrite He; [done|]. apply enc_nonempty.
Qed.

(** One more entry. *)
Lemma map_carries_insert m g s k v x : Map_attached s m -> map_carries m g -> vcarries v x ->
  exists m', Map_insert (St := St) k v m = (Ok tt, m') /\ Map_attached s m' /\ map_carries m' (upd g k (Some x)).
Proof.
  intros (<- & Hw & Hok) (_ & Hc & Hn) Hv. destruct (carries_attach (MigrateSpec := MVS) v x (Store_sub (Map_store m) (enc k)) Hv) as (v' & Hv' & Ha & Hcv).
  unfold Map_insert. rewrite MapKey_new_ok. cbn [MapKey_inner_bytes]. rewrite Hv'. eexists. split; [done|].
  assert (Hw' : bt_wf (bt_insert (enc k) (k, Some v') (Map_children m))) by by apply bt_insert_wf.
  assert (Hin : forall e, e ∈ bt_insert (enc k) (k, Some v') (Map_children m) -> e = (enc k, (k, Some v')) \/ e ∈ Map_children m /\ e.1 <> enc k).
  { intros [kb e] He. apply bt_elem in He; [|done]. rewrite bt_insert_map in He. apply lookup_insert_Some in He as [[<- <-]|[? He]]; [by left|].
    right. split; [by apply bt_elem|done]. }
  rewrite Forall_forall in Hok, Hc. split; split_and!; cbn [Map_store Map_children set_children]; try done.
  - apply Forall_forall. intros e [->|[He _]]%Hin; [|by apply Hok]. split; [done|]. by intros ? [= <-].
  - apply Forall_forall. intros e [->|[He Hne]]%Hin; [split; [done|]; exists v', x; cbn [fst snd]; by rewrite upd_same|].
    destruct (Hc e He) as (Hk & w & y & ? & ? & ?). split; [done|]. exists w, y. rewrite upd_other; [done|]. intros Heq. apply Hne. by rewrite Hk, Heq.
  - intros i. rewrite bt_get_insert. unfold upd. cbn [MapKey_inner_bytes]. destruct (decide (enc i = enc k)); [discriminate|]. apply Hn.
Qed.

(** *** The loop *)

#[local] Instance beyond_dec pos j : Decision (beyond pos j).
Proof. destruct pos as [p|]; [|by left]. destruct (bltb_spec (enc p) (enc j)); [by left|by right]. Defined.

(** What the map holds when the source has been read up to [pos]. *)
Record migrated_to src dest pos b m f (g : K -> option (model (V := V))) : Prop := {
  mt_inv : Read_inv b;
  mt_tidy : Map_tidy (K := K0) src b;
  mt_ff : no_ff_key (K := K0) src b;
  mt_stored j : is_Some (Store_view src b !! enc j) -> beyond pos j;
  mt_rest j : beyond pos j -> store_holds src b j (f j) /\ forall x, f j = Some x -> migratable (MigrateSpec := MVS) (Store_sub src (enc j)) b x;
  mt_attached : Map_attached dest m;
  mt_carries : map_carries m g;
  mt_done j : ~ beyond pos j -> g (convk j) = conv <$> f j;
  mt_todo j : beyond pos j -> g (convk j) = None;
  mt_none k : oldk k = None -> g k = None
}.

(** Taking one entry: the loop goes on from a state that has it in memory. *)
Lemma migrate_step fuel src dest pos b m f g j bs : migrated_to src dest pos b m f g ->
  Store_view src b !! enc j = Some bs -> beyond pos j -> (forall i, beyond pos i -> is_Some (Store_view src b !! enc i) -> ble (enc j) (enc i)) ->
  exists b' m' g',
    (forall it, (do key <- liftM (key_migrate (enc j));
       do value <- Migrate_migrate (Store_sub src (enc j)) (Store_sub dest (enc j)) bs;
       do map <- on_value (Map_insert key.1 value.1) m;
       run Map_apply_change (V := V) src (enc j) None;
       Map_migrate_loop fuel src dest it map) b = Map_migrate_loop fuel src dest it m' b') /\
    migrated_to src dest (Some j) b' m' f g' /\ keeps_writable b b' /\ only_under src b b' /\ size (Store_view src b') < size (Store_view src b).
Proof.
  intros [Hb Ht Hff Hst Hr Hm Hc Hd Htodo Hn] Hbs Hj Hmin. destruct (Hr j Hj) as [Hh Hmig]. unfold store_holds in Hh. rewrite <- view_at, Hbs in Hh.
  destruct Hh as (x & Hfx & Hl). destruct (key_migrate_spec (K := K) (MigrateKey := MKS) j) as [rest Hkey].
  destruct (migrate_spec (MigrateSpec := MVS) _ (Store_sub dest (enc j)) b bs x [] Hb Hl (Hmig x Hfx) (or_intror eq_refl)) as (v & b1 & Hv & Hb1 & Hk1 & Hu1 & _ & Hcv).
  rewrite app_nil_r in Hv. destruct (map_carries_insert m g dest (convk j) v (conv x) Hm Hc Hcv) as (m' & Hins & Hm' & Hc').
  destruct (entry_removed src j b b1 Hb1 Hu1) as (b2 & Hrem & Hb2 & Hk2 & Hu2 & Hg).
  exists b2, m', (upd g (convk j) (Some (conv x))). split; [|split; [|split_and!]].
  - intros it. unfold bindM at 1, liftM at 1. rewrite Hkey. unfold bindM at 1. rewrite Hv. unfold bindM at 1, on_value at 1. cbn [fst]. rewrite Hins.
    unfold bindM at 1. by rewrite Hrem.
  - assert (Hnext : forall i, beyond (Some j) i -> i <> j /\ beyond pos i).
    { intros i Hi. split; [intros ->; by apply blt_irrefl in Hi|]. destruct pos as [p|]; [|done]. eapply blt_trans; [exact Hj|exact Hi]. }
    assert (Hupd : forall i, i <> j -> upd g (convk j) (Some (conv x)) (convk i) = g (convk i)) by (intros i Hi; apply upd_other; by intros ?%convk_inj).
    split; [done|by eapply gone_tidy|by eapply gone_no_ff| | |done|done| | |].
    + intros i Hi. destruct (gone_stored _ _ _ _ _ Hg Hi) as [Hi' Hs]. pose proof (Hmin i (Hst i Hi') Hi').
      assert (enc j <> enc i) by (intros Heq; rewrite Heq in Hs; by rewrite (proj2 (starts_with_spec (enc i) (enc i))) in Hs by (exists []; by rewrite app_nil_r)).
      cbn [beyond]. border.
    + intros i [Hi Hp]%Hnext. destruct (Hr i Hp) as [Hh' Hmig']. split; [by eapply gone_holds|].
      intros y Hy. eapply migratable_agree; [by eapply gone_agree|]. by apply Hmig'.
    + intros i Hi. destruct (decide (i = j)) as [->|Hne]; [by rewrite upd_same, Hfx|]. rewrite Hupd by done.
      destruct (decide (beyond pos i)) as [Hp|Hp]; [|by apply Hd].
      rewrite Htodo by done. destruct (Hr i Hp) as [Hh' _]. unfold store_holds in Hh'. rewrite <- view_at in Hh'.
      destruct (Store_view src b !! enc i) eqn:Hs; [|by rewrite Hh'].
      destruct Hi. cbn [beyond]. pose proof (Hmin i Hp ltac:(by eexists)). assert (enc j <> enc i) by (by intros ?%enc_inj). border.
    + intros i [Hi Hp]%Hnext. rewrite Hupd by done. by apply Htodo.
    + intros k Hk. rewrite upd_other; [by apply Hn|]. intros ->. by rewrite (proj2 (oldk_spec (convk j) j) eq_refl) in Hk.
  - eauto with orga.
  - done.
  - eapply gone_size; [done|]. by eexists.
Qed.

Lemma map_carries_ext m g g' : (forall k, g k = g' k) -> map_carries m g -> map_carries m g'.
Proof.
  intros Hg (Hw & Hc & Hn). split_and!; [done| |intros k Hk; rewrite <- Hg; by apply Hn].
  eapply Forall_impl; [exact Hc|]. intros e (He & v & x & Ho & Hx & Hv). split; [done|]. exists v, x. by rewrite <- Hg.
Qed.
Lemma only_under_empty s b q : Map_tidy (K := K0) s b -> (forall j, ~ is_Some (Store_view s b !! enc j)) -> q <> [] -> view b !! (Store_prefix s ++ q) = None.
Proof.
  intros Ht Hn Hq. rewrite <- view_at. destruct (Store_view s b !! q) as [x|] eqn:Hx; [|done].
  destruct (Ht q Hq) as (j & r & _ & Hj); [by eexists|]. by destruct (Hn j).
Qed.

Lemma migrate_loop_spec src dest f fuel : forall pos si b m g,
  migrated_to src dest pos b m f g -> sni_at pos si -> size (Store_view src b) < fuel ->
  exists m' b', Map_migrate_loop fuel src dest si m b = (Ok m', b') /\ Read_inv b' /\ keeps_writable b b' /\ only_under src b b' /\
    empty_under src b' /\ Map_attached dest m' /\ map_carries m' (conv_content f).
Proof.
  induction fuel as [|fuel IH]; intros pos si b m g Hm Hsi Hf; [lia|]. cbn [Map_migrate_loop].
  destruct (sni_peek_spec src b (mt_inv _ _ _ _ _ _ _ Hm) (mt_tidy _ _ _ _ _ _ _ Hm) pos si Hsi) as (r & Hr & Hspec). destruct r as [[q x]|].
  - destruct Hspec as (j & -> & Hx & Hj & Hmin).
    destruct (sni_next_spec src b (mt_ff _ _ _ _ _ _ _ Hm) pos si j x Hsi Hr ltac:(by eexists)) as (si' & -> & Hsi').
    destruct (migrate_step fuel src dest pos b m f g j x Hm Hx Hj Hmin) as (b1 & m1 & g1 & Hstep & Hm1 & Hk1 & Hu1 & Hsize).
    rewrite Hstep. destruct (IH (Some j) si' b1 m1 g1 Hm1 Hsi' ltac:(lia)) as (m' & b' & Hl & ? & ? & ? & ? & ? & ?).
    exists m', b'. split_and!; eauto with orga.
  - unfold StoreNextIter_next. rewrite Hr. exists m, b. destruct Hm as [Hb Ht Hff Hst Hrest Hma Hc Hd Htodo Hn].
    split_and!; [done..|by auto with orga|by auto with orga| |done|].
    + intros q Hq. apply only_under_empty; [done| |done]. intros j Hj. by apply (Hspec j (Hst j Hj)).
    + eapply map_carries_ext, Hc. intros k. unfold conv_content. destruct (oldk k) as [j|] eqn:Hk; [|by apply Hn].
      apply oldk_spec in Hk as ->. cbn [mbind option_bind]. destruct (decide (beyond pos j)) as [Hp|Hp]; [|by apply Hd].
      rewrite Htodo by done. destruct (Hrest j Hp) as [Hh _]. unfold store_holds in Hh. rewrite <- view_at in Hh.
      destruct (Store_view src b !! enc j) eqn:Hs; [|by rewrite Hh]. destruct (Hspec j Hp). by eexists.
Qed.

(** What is stored as a map, and fit for being migrated. *)
Definition map_migratable src b f : Prop := Map_tidy (K := K0) src b /\ no_ff_key (K := K0) src b /\
  forall j x, f j = Some x -> migratable (MigrateSpec := MVS) (Store_sub src (enc j)) b x.

Lemma Map_migrate_spec src dest b f bs : Read_inv b -> (forall j, store_holds src b j (f j)) -> map_migratable src b f ->
  exists m b', Map_migrate src dest bs b = (Ok (m, bs), b') /\ Read_inv b' /\ keeps_writable b b' /\ only_under src b b' /\
    empty_under src b' /\ Map_attached dest m /\ map_carries m (conv_content f).
Proof.
  intros Hb Hh (Ht & Hff & Hmig). unfold Map_migrate, Map_with_store, bindM, liftM, readM. cbn [Map_attach attach_children Map_children Map_new].
  destruct (migrate_loop_spec src dest f (S (entry_bound b)) None (mkStoreNextIter Unbounded Unbounded) b (mkMap dest []) (fun _ => None)) as (m & b' & -> & Hrest).
  - split; [done|done|done|done| | | | |done|done].
    + intros j Hj. split; [apply Hh|apply Hmig].
    + split_and!; [done|constructor|constructor].
    + split_and!; [constructor|constructor|done].
    + intros j Hj. by destruct Hj.
  - done.
  - apply Nat.lt_succ_r. etrans; [apply size_strip|]. by apply entry_bound_spec.
  - exists m, b'. done.
Qed.

Lemma map_loads src b bs f : Read_inv b -> loads (V := Map K0 V0) src b bs f -> bs = [] /\ forall j, store_holds src b j (f j).
Proof.
  intros Hb Hl. destruct (Hl b [] Hb (agree_under_refl _ _) (or_introl I)) as (m & Hm & _ & Hf).
  cbn [State_load Map_State] in Hm. unfold Map_load in Hm. cbn [Map_attach attach_children Map_children Map_new] in Hm. injection Hm as <- Hbs.
  rewrite app_nil_r in Hbs. split; [done|exact Hf].
Qed.

(** C35: migrating a map. Whatever is stored as a map of the previous version becomes, as a
    value in memory at its new place, the map that has for each key that was stored the
    migrated value at the migrated key, and nothing else; nothing is left behind in the
    source, and nothing outside of it has changed. It ends, the number of entries being a
    bound, provided that no stored key is all [0xff]. The source may be the destination. *)
Theorem Map_migrate_keeps src dest b f bs : Read_inv b -> (forall j, store_holds src b j (f j)) -> map_migratable src b f ->
  dest = src \/ disjoint_prefixes (Store_prefix src) (Store_prefix dest) /\ empty_under dest b ->
  exists m b', Map_migrate src dest bs b = (Ok (m, bs), b') /\ Read_inv b' /\ Map_attached dest m /\
    Map_abs b' m (conv_content f) /\ empty_under src b' /\ only_under src b b'.
Proof.
  intros Hb Hh Hmig Hd. destruct (Map_migrate_spec src dest b f bs Hb Hh Hmig) as (m & b' & Hm & Hb' & _ & Hu & He & Ha & Hc).
  exists m, b'. split_and!; [done..| |done|done]. apply (map_carries_abs m (conv_content f) dest); [done..|].
  destruct Hd as [->|[Hd Hed]]; [done|]. intros r Hr. rewrite <- (only_under_agree src dest b b' Hd Hu r Hr). by apply Hed.
Qed.

(** Maps as values of maps. *)
Definition Map_MigrateSpec : MigrateSpec (Map K0 V0) (Map K V) (SS0 := Map_StateSpec (StateSpec0 := SS0)) (SS := Map_StateSpec (StateSpec0 := SS)) (MV := Map_Migrate) conv_content.
Proof.
  simple refine (Build_MigrateSpec St _ _ _ _ (Map K0 V0) (Map K V) _ _ _ _ _ conv_content map_carries map_migratable _ _ _ _ _).
  - intros s b b' f Hag (Ht & Hff & Hmig). assert (Hv : forall q, q <> [] -> Store_view s b' !! q = Store_view s b !! q).
    { intros q Hq. rewrite !view_at. symmetry. by apply Hag. }
    split_and!.
    + intros q Hq Hs. rewrite Hv in Hs by done. destruct (Ht q Hq Hs) as (j & r & -> & Hj). exists j, r. rewrite Hv by apply enc_nonempty. done.
    + intros j. rewrite Hv by apply enc_nonempty. apply Hff.
    + intros j x Hx. eapply (migratable_agree (MigrateSpec := MVS)); [|by apply Hmig]. by apply agree_under_sub.
  - intros m g Hc. by apply (map_carries_valid m g).
  - intros m g s Hc. by apply map_carries_attach.
  - intros m g s b Hb Ha Hc He. by apply (map_carries_abs m g s b).
  - intros s d b bs f rest Hb Hl Hmig _. destruct (map_loads s b bs f Hb Hl) as [-> Hh].
    destruct (Map_migrate_spec s d b f rest Hb Hh Hmig) as (m & b' & Hm & ? & ? & ? & _ & ? & ?). by exists m, b'.
Defined.
End Maps.

(** ** Migrating a node's state

    The migrations of the plugins that have their own (src/plugins/abci.rs, query.rs,
    chain_commitment.rs), and a map of maps whose keys got a wider type, migrated and
    written back. *)
#[local] Open Scope Z_scope.

Section Plugins.
Context `{Profile} `{CompatMode} `{PM : PluginMessages} `{HO : HashOrder}.
Context {St : Type} `{Read St} `{!Write St} `{!Bounded St} {SVU : State St ValidatorUpdate}.
Context {T : Type} {ST : State St T} {MT : Migrate St T}.

(** [*bytes = &bytes[1..]] *)
Definition skip_version (bs : bytes) : res bytes :=
  if compat_mode then Ok bs
  else match bs with [] => Panic "range start index 1 out of range for slice of length 0" | _ :: bs => Ok bs end.
(** The maps of the plugin are loaded, and stay at home in the source. *)
Definition ABCI_migrate (src dest : Store) (bs : bytes) : M (St * ContextMap) (ABCIPlugin T * bytes) :=
  do bs <- liftM (skip_version bs);
  do inner <- on_store (Migrate_migrate (Store_sub src [0]) (Store_sub dest [0]) bs);
  do updates <- on_store (readM (State_load (V := UpdateMap) (Store_sub src [1]) inner.2));
  do vp <- on_store (readM (State_load (V := VpMap) (Store_sub src [2]) updates.2));
  do current_vp <- on_ctx (in_cells (new_vp (Some vp.1)));
  do op <- on_store (readM (State_load (V := OperatorMap) (Store_sub src [3]) vp.2));
  do cons_key_by_op_addr <- on_ctx (in_cells (new_op (Some op.1)));
  retM (mkABCIPlugin inner.1 None updates.1 None None current_vp cons_key_by_op_addr None, op.2).

Definition QP_migrate (src dest : Store) (bs : bytes) : M St (QueryPlugin T * bytes) :=
  do inner <- Migrate_migrate src dest bs;
  retM (mkQueryPlugin dest inner.1, inner.2).

(** [ChainCommitmentPlugin] from its first version, which had the inner value only. *)
Definition CC_migrate_from (c : ContextMap) (value : T) : res (ChainCommitmentPlugin T) :=
  let? id := ok_or (Context_resolve (T := ChainId) c) (EApp "Chain ID context not set") in
  let? chain_id := to_chain_id (ChainId_0 id) in
  Ok (mkChainCommitment chain_id value).
End Plugins.

(** ** A map of maps whose keys are one byte, and become two *)

#[local] Instance mig_profile : Profile := {| overflow_checks := true; debug_assertions := true |}.
#[local] Instance u8_leaf : Migrate MapStore u8 := leaf_Migrate.
#[local] Instance u8_leaf_key : Migrate Empty u8 := leaf_Migrate.

(** The previous version of the key is one byte. *)
Definition widen (k : u8) : u16 := to_uint 2 (uint_val k).
Definition narrow (k : u16) : option u8 := if uint_val k <? 256 then Some (to_uint 1 (uint_val k)) else None.
#[local] Instance wide_key : Migrate Empty u16 := {| Migrate_migrate := fun src dest bs =>
  do k <- default_migrate (H := leaf_State (V := u8)) src dest bs; retM (widen k.1, k.2) |}.
#[local] Instance wide_MigrateKey : MigrateKey u8 u16 widen narrow.
Proof.
  split.
  - intros k. exists []. destruct (key_migrate_spec (MigrateKey := leaf_MigrateKey (V := u8)) k) as [rest Hk].
    unfold key_migrate in *. cbn [Migrate_migrate wide_key leaf_Migrate] in *. unfold bindM at 1.
    destruct (default_migrate default_store default_store (enc k) mkEmpty) as [[r|e|w] []] eqn:Hd; cbn in Hk; try done.
    pose proof (decode_enc k [] (or_intror eq_refl)) as Hde. rewrite app_nil_r in Hde.
    unfold default_migrate, bindM, readM in Hd. cbn [State_load leaf_State leaf_load] in Hd. unfold leaf_load in Hd. rewrite Hde in Hd.
    cbn in Hd. by injection Hd as <-.
  - intros k j. pose proof (proj1 (uint_range_spec 2 _) (uint_ok _ k)) as Hk. pose proof (proj1 (uint_range_spec 1 _) (uint_ok _ j)) as Hj.
    change (256 ^ Z.of_nat 2) with 65536 in Hk. change (256 ^ Z.of_nat 1) with 256 in Hj.
    assert (Hw : uint_val (widen j) = uint_val j) by (apply uint_val_to; change (256 ^ Z.of_nat 2) with 65536; lia).
    unfold narrow. destruct (Z.ltb_spec (uint_val k) 256) as [Hlt|Hge]; split.
    + intros [= <-]. apply uint_eq. rewrite Hw, uint_val_to by (change (256 ^ Z.of_nat 1) with 256; lia). done.
    + intros ->. rewrite Hw. by rewrite to_uint_val.
    + done.
    + intros ->. lia.
Qed.

(** *** The example of [MapProps]: the entry 1 -> 5 -> 50 under the prefix 7 *)

Definition inner_values : MigrateSpec (St := MapStore) u8 u8 (SV0 := uint_State 1) (SS0 := uint_StateSpec 1) (SV := uint_State 1) (SS := uint_StateSpec 1) (MV := leaf_Migrate) (fun x => x) :=
  leaf_MigrateSpec (CS := uint_CodecSpec 1).
Definition inner_keys : MigrateKey u8 u8 (MK := leaf_Migrate) (fun k => k) Some := leaf_MigrateKey (CS := uint_CodecSpec 1).
#[local] Instance inner_map : Migrate MapStore (Map u8 u8) := Map_Migrate.
Definition inner_spec : StateSpec MapStore (Map u8 u8) := Map_StateSpec (SV := uint_State 1) (StateSpec0 := uint_StateSpec 1).
Definition inner_conv : (u8 -> option u8) -> (u8 -> option u8) := fun f k => j ← Some k; (fun x => x) <$> f j.
Definition inner_maps : MigrateSpec (Map u8 u8) (Map u8 u8) (SS0 := inner_spec) (SS := inner_spec) (MV := inner_map) inner_conv :=
  Map_MigrateSpec (SS0 := uint_StateSpec 1) (SS := uint_StateSpec 1) (MKS := inner_keys) (MVS := inner_values).

Lemma ex_nview : Store_view (mkStore [7]) ex_nstore = <[ [1] := [] ]> {[ [1; 5] := [50] ]}.
Proof. by vm_compute. Qed.
Lemma ex_iview : Store_view (mkStore [7; 1]) ex_nstore = <[ [] := [] ]> {[ [5] := [50] ]}.
Proof. by vm_compute. Qed.
Lemma ex_nmigratable : map_migratable (SS0 := inner_spec) (SS := inner_spec) (MVS := inner_maps) (mkStore [7]) ex_nstore ex_ncontent.
Proof.
  assert (H5 : forall q, is_Some (Store_view (mkStore [7; 1]) ex_nstore !! q) -> q = [] \/ q = [5]).
  { intros q [x Hx]. rewrite ex_iview in Hx. apply lookup_insert_Some in Hx as [[<- _]|[_ Hx]]; [by left|]. right. by apply lookup_singleton_Some in Hx as [<- _]. }
  assert (H1 : forall q, is_Some (Store_view (mkStore [7]) ex_nstore !! q) -> q = [1] \/ q = [1; 5]).
  { intros q [x Hx]. rewrite ex_nview in Hx. apply lookup_insert_Some in Hx as [[<- _]|[_ Hx]]; [by left|].
    apply lookup_singleton_Some in Hx as [<- _]. by right. }
  split_and!.
  - intros q _ [->| ->]%H1; exists (n8 1); [exists []|exists [5]]; rewrite u8_enc, ex_nview; (split; [done|by eexists]).
  - intros k Hk. rewrite u8_enc in *. destruct (H1 _ Hk) as [[= ->]|[=]]. by intros [[=] _]%Forall_cons.
  - intros k x. unfold ex_ncontent. destruct (decide (k = n8 1)) as [->|]; [|done]. intros _. rewrite u8_enc. split_and!; [| |done].
    + intros q Hq [->| ->]%H5; [done|]. exists (n8 5), []. rewrite u8_enc. split; [done|]. by eexists.
    + intros j [Hj|Hj]%H5; rewrite u8_enc in *; [done|]. injection Hj as ->. by intros [[=] _]%Forall_cons.
Qed.

Definition outer_content : u16 -> option (u8 -> option u8) := fun k => j ← narrow k; inner_conv <$> ex_ncontent j.
(** The outer keys get wider; the map is migrated in place, written back, and read under
    the new key. *)
Lemma Map_migrate_keeps_witness :
  exists m b', Map_migrate (K := u16) (V := Map u8 u8) (mkStore [7]) (mkStore [7]) [] ex_nstore = (Ok (m, []), b') /\
    Map_abs (V := Map u8 u8) (StateSpec0 := inner_spec) b' m outer_content /\
    (Map_flush m b').2 = mkBufStore [([7; 0; 1], Some []); ([7; 0; 1; 5], Some [50]); ([7; 1], None); ([7; 1; 5], None)] mkEmpty.
Proof.
  destruct (Map_migrate_keeps (K := u16) (SS0 := inner_spec) (SS := inner_spec) (MKS := wide_MigrateKey) (MVS := inner_maps) (mkStore [7]) (mkStore [7]) ex_nstore ex_ncontent []) as (m & b' & Hm & _ & _ & Ha & _).
  - exact ex_nstore_inv.
  - exact ex_nmap_abs.
  - exact ex_nmigratable.
  - by left.
  - exists m, b'. split; [exact Hm|]. split; [exact Ha|].
    assert (Hc : exists m b', Map_migrate (K := u16) (V := Map u8 u8) (mkStore [7]) (mkStore [7]) [] ex_nstore = (Ok (m, []), b') /\
      (Map_flush m b').2 = mkBufStore [([7; 0; 1], Some []); ([7; 0; 1; 5], Some [50]); ([7; 1], None); ([7; 1; 5], None)] mkEmpty).
    { eexists _, _. split; vm_compute; reflexivity. }
    destruct Hc as (m2 & b2 & Hm2 & Hf). rewrite Hm in Hm2. by injection Hm2 as -> ->.
Defined.
