(* ===== verification/IbcTypes.v ===== *)
(** * IBC: values, keys and wrappers (src/ibc/mod.rs)

    The types of [ibc-rs] are parameters with the operations the code uses of them; the
    keys of the maps of the host state are texts: identifiers that end at a slash or with
    the input, heights written "epoch-height", port and channel paths. Values of [ibc-rs]
    are stored in wrappers that write their protobuf encoding. *)

From stdpp Require Import base tactics numbers list strings gmap.
From Stdlib Require Import ZArith Lia Ascii.
From S2P Require Import Prelude Bytes BTree StoreIface StoreIter NullStore BufStore PrefixStore Codec StateIface Next StructState Utf8 Encoding SimpleState MapColl MapSpec MapProps Fields Address AbciTypes Migrate.
#[local] Open Scope Z_scope.

(** ** Texts and numbers *)

(** A string literal. *)
Definition lit (s : string) : RString := map (fun a => Z.of_nat (nat_of_ascii a)) (String.list_ascii_of_string s).
(** A text inside an error message. *)
Definition text (s : RString) : string := String.string_of_list_ascii (map (fun c => ascii_of_nat (Z.to_nat c)) s).

(** [Display] and [FromStr] of [u64]. *)
Fixpoint digits (fuel : nat) (z : Z) : RString :=
  match fuel with
  | O => []
  | S fuel => if z <? 10 then [48 + z] else digits fuel (z / 10) ++ [48 + z mod 10]
  end.
Definition u64_to_string (n : u64) : RString := digits 20 (uint_val n).
Fixpoint parse_digits (s : RString) (acc : Z) : option Z :=
  match s with
  | [] => Some acc
  | c :: s =>
      if in_range 48 57 c && u64b (acc * 10) && u64b (acc * 10 + (c - 48))
      then parse_digits s (acc * 10 + (c - 48)) else None
  end.
Definition u64_from_str (s : RString) : option u64 :=
  let ds := match s with c :: r => if c =? 43 then r else s | [] => [] end in
  match ds with [] => None | _ => to_uint 8 <$> parse_digits ds 0 end.
#[export] Instance u64_Textual : Textual u64 := {| to_string := u64_to_string; from_str := u64_from_str |}.
#[export] Instance String_Textual : Textual RString := {| to_string := fun s => s; from_str := Some |}.

Lemma digits_snoc n z s : (0 < n)%nat -> 0 <= z < 10 ^ Z.of_nat n -> is_u64 z ->
  parse_digits (digits n z ++ s) 0 = parse_digits s z.
Proof.
  revert z s; induction n as [|n IH]; intros z s Hn Hz Hu; [lia|]. cbn [digits].
  pose proof (Z.mod_pos_bound z 10 ltac:(lia)) as Hm. pose proof (Z.div_mod z 10 ltac:(lia)) as Hd. unfold is_u64 in Hu.
  assert (Hstep : forall c acc, 48 <= c <= 57 -> acc * 10 + (c - 48) = z -> 0 <= acc ->
    parse_digits (c :: s) acc = parse_digits s z).
  { intros c acc Hc Ha Hp. cbn [parse_digits]. rewrite <- Ha. unfold in_range, u64b.
    by rewrite !(proj2 (Z.leb_le _ _)) by lia. }
  destruct (Z.ltb_spec z 10).
  - apply Hstep; lia.
  - destruct n as [|n]; [simpl in Hz; lia|]. rewrite <- app_assoc, IH.
    + apply Hstep; lia.
    + lia.
    + split; [apply Z.div_pos; lia|apply Z.div_lt_upper_bound; [lia|]].
      rewrite Nat2Z.inj_succ, Z.pow_succ_r in Hz by lia. lia.
    + unfold is_u64. lia.
Qed.
Lemma digits_chars n z : 0 <= z -> Forall (fun c => 48 <= c <= 57) (digits n z).
Proof.
  revert z; induction n as [|n IH]; intros z Hz; simpl; [constructor|].
  pose proof (Z.mod_pos_bound z 10 ltac:(lia)). destruct (Z.ltb_spec z 10); [by repeat constructor; lia|].
  apply Forall_app. split; [apply IH, Z.div_pos; lia|]. repeat constructor; lia.
Qed.
Lemma digits_nonempty n z : digits (S n) z <> [].
Proof. simpl. destruct (z <? 10); [done|]. by intros [_ ?]%app_eq_nil. Qed.

Lemma u64_text_chars (n : u64) : Forall (fun c => 48 <= c <= 57) (u64_to_string n).
Proof. apply digits_chars. apply (uint_range_spec 8), uint_ok. Qed.
(** A number is read back from its text. *)
Lemma u64_from_to_string (n : u64) : u64_from_str (u64_to_string n) = Some n.
Proof.
  pose proof (u64_text_chars n) as Hc. unfold u64_from_str. pose proof (digits_nonempty 19 (uint_val n)) as Hne.
  fold (u64_to_string n) in Hne. destruct (u64_to_string n) as [|c s] eqn:E; [done|].
  apply Forall_cons in Hc as [Hc _]. destruct (Z.eqb_spec c 43); [lia|]. rewrite <- E.
  pose proof (uint_ok _ n) as Hr. apply uint_range_spec in Hr. change (256 ^ Z.of_nat 8) with (u64_max + 1) in Hr.
  pose proof (digits_snoc 20 (uint_val n) []) as Hd. rewrite app_nil_r in Hd. unfold u64_to_string. rewrite Hd.
  - cbn [parse_digits fmap option_fmap option_map]. by rewrite to_uint_val.
  - lia.
  - unfold u64_max in *. lia.
  - unfold is_u64. lia.
Qed.
Lemma u64_text_ascii (n : u64) : is_ascii (u64_to_string n).
Proof. eapply Forall_impl; [apply u64_text_chars|]. simpl. lia. Qed.
Lemma u64_text_inj (m n : u64) : u64_to_string m = u64_to_string n -> m = n.
Proof. intros He. apply (f_equal u64_from_str) in He. rewrite !u64_from_to_string in He. congruence. Qed.

(** ** The types of [ibc-rs] *)

(** [ibc::primitives::proto::Protobuf] *)
Class Protobuf (T : Type) := { proto_encode : T -> option bytes; proto_decode : bytes -> option T }.

Class IbcRs := {
  (** identifiers: [Display] and the checked [FromStr] *)
  ClientId : Type; #[global] ClientId_Textual :: Textual ClientId;
  ConnectionId : Type; #[global] ConnectionId_Textual :: Textual ConnectionId;
  PortId : Type; #[global] PortId_Textual :: Textual PortId; #[global] PortId_eq_dec :: EqDecision PortId;
  ChannelId : Type; #[global] ChannelId_Textual :: Textual ChannelId; #[global] ChannelId_eq_dec :: EqDecision ChannelId;
  PortId_transfer : PortId;
  Sequence : Type; #[global] Sequence_Textual :: Textual Sequence;
  Sequence_from : u64 -> Sequence; Sequence_into : Sequence -> u64;
  ClientType : Type; ClientType_as_str : ClientType -> RString; ClientType_new : RString -> option ClientType;
  tm_client_type : ClientType;
  (** heights *)
  Height : Type; Height_new : u64 -> u64 -> option Height;
  revision_number : Height -> u64; revision_height : Height -> u64; Height_from_str : RString -> option Height;
  IbcTimestamp : Type; from_nanoseconds : u64 -> IbcTimestamp; nanoseconds : IbcTimestamp -> u64;
  (** [tendermint::Time] and its checked conversions *)
  TmTime : Type; from_unix_timestamp : Z -> Z -> option TmTime; Time_to_Timestamp : TmTime -> option IbcTimestamp;
  (** the values that are stored *)
  TmClientState : Type; #[global] TmClientState_Protobuf :: Protobuf TmClientState;
  TmConsensusState : Type; #[global] TmConsensusState_Protobuf :: Protobuf TmConsensusState;
  TmConsensusState_new : bytes -> TmTime -> bytes -> TmConsensusState; TmConsensusState_timestamp : TmConsensusState -> TmTime;
  ConnectionEnd : Type; #[global] ConnectionEnd_Protobuf :: Protobuf ConnectionEnd;
  ChannelEnd : Type; #[global] ChannelEnd_Protobuf :: Protobuf ChannelEnd;
  IbcHeader : Type; #[global] IbcHeader_Protobuf :: Protobuf IbcHeader;
  (** events, as far as they can be converted for Tendermint *)
  IbcEvent : Type; IbcEvent_try_into : IbcEvent -> option Event;
  (** signers of messages, and addresses as texts *)
  IbcSigner : Type; IbcSigner_as_ref : IbcSigner -> RString; Address_from_str : RString -> option Address
}.

(** What is documented of them: identifiers and sequence numbers are read back from their
    texts, which are not empty and contain only the ASCII letters, digits and the marks
    [. _ + - # []] [<] [>], so in particular no slash and no separator; a sequence number is a
    [u64] printed in decimal; a height is a pair of numbers of which the second is not 0. *)
Definition id_text (s : RString) : Prop := s <> [] /\ Forall (fun c => 0 <= c < 128 /\ c <> 47) s.
Class IbcRsSpec `{IbcRs} := {
  ClientId_text (x : ClientId) : id_text (to_string x);
  ClientId_parse (x : ClientId) : from_str (to_string x) = Some x;
  ConnectionId_text (x : ConnectionId) : id_text (to_string x);
  ConnectionId_parse (x : ConnectionId) : from_str (to_string x) = Some x;
  PortId_text (x : PortId) : id_text (to_string x);
  PortId_parse (x : PortId) : from_str (to_string x) = Some x;
  ChannelId_text (x : ChannelId) : id_text (to_string x);
  ChannelId_parse (x : ChannelId) : from_str (to_string x) = Some x;
  Sequence_text (x : Sequence) : to_string x = to_string (Sequence_into x);
  Sequence_parse (x : Sequence) : from_str (to_string x) = Some x;
  Sequence_from_into (x : Sequence) : Sequence_from (Sequence_into x) = x;
  Sequence_into_from (n : u64) : Sequence_into (Sequence_from n) = n;
  Height_new_spec r h : match Height_new r h with
                        | Some x => revision_number x = r /\ revision_height x = h /\ 0 < uint_val h
                        | None => uint_val h = 0
                        end;
  Height_eta (x : Height) : Height_new (revision_number x) (revision_height x) = Some x
}.

(** ** Codecs of texts (src/encoding.rs) *)

Section TextCodecs.
Context `{Profile} {T : Type} `{Textual T}.
#[export] Instance BTS_Encode {B} : Encode (ByteTerminatedString T B) := {| Encode_encode := BTS_encode |}.
#[export] Instance BTS_Decode {B} : Decode (ByteTerminatedString T B) := {| Decode_decode := BTS_decode |}.
#[export] Instance ETS_Encode : Encode (EofTerminatedString T) := {| Encode_encode := ETS_encode |}.
#[export] Instance ETS_Decode : Decode (EofTerminatedString T) := {| Decode_decode := ETS_decode |}.
#[export] Instance FixedString_Encode {S} : Encode (FixedString S) := {| Encode_encode := FixedString_encode |}.
#[export] Instance FixedString_Decode {S} : Decode (FixedString S) := {| Decode_decode := FixedString_decode |}.
(** [impl State]: the encoding; nothing is attached. *)
#[export] Instance ETS_State {St} : State St (EofTerminatedString T) := leaf_State.
End TextCodecs.

(** ** Keys *)

Section Keys.
Context `{Profile} `{IbcRs}.
Abbreviation SlashTerminatedString T := (ByteTerminatedString T 47).
Abbreviation ClientIdKey := (SlashTerminatedString ClientId).
Abbreviation ConnectionIdKey := (EofTerminatedString ConnectionId).
Abbreviation Number := (EofTerminatedString u64).
Abbreviation EpochHeight := (EofTerminatedString RString).

Definition Number_from_Sequence (s : Sequence) : Number := mkEofTerminatedString (Sequence_into s).
(** [format!("{}-{}", ..)] *)
Definition format_height (number height : u64) : RString := u64_to_string number ++ [45] ++ u64_to_string height.
Definition EpochHeight_from (h : Height) : EpochHeight :=
  mkEofTerminatedString (format_height (revision_number h) (revision_height h)).
(** [s.split('-')], never empty *)
Fixpoint split_on (sep : Z) (s : RString) : list RString :=
  match s with
  | [] => [[]]
  | c :: s => if c =? sep then [] :: split_on sep s
              else match split_on sep s with p :: ps => (c :: p) :: ps | [] => [[c]] end
  end.
Definition Height_try_from (epoch_height : EpochHeight) : res Height :=
  let parts := split_on 45 (ETS_0 epoch_height) in
  let? n := ok_or (head parts) (EIbc "Invalid revision number") in
  let? n := ok_or (u64_from_str n) (EIbc "Invalid revision number") in
  let? h := ok_or (head (tail parts)) (EIbc "Invalid revision height") in
  let? h := ok_or (u64_from_str h) (EIbc "Invalid revision height") in
  ok_or (Height_new n h) (EIbc "Failed to parse height").
Definition EofString_from_ClientType (c : ClientType) : EofTerminatedString RString := mkEofTerminatedString (ClientType_as_str c).
Definition ClientType_from (s : EofTerminatedString RString) : res ClientType :=
  unwrap (ClientType_new (ETS_0 s)) "called `Result::unwrap()` on an `Err` value".

(** [struct PortChannel] and [struct PortChannelSequence] with their derived codecs: the
    fields in order. *)
Record PortChannel := mkPortChannel {
  PC_0 : FixedString (lit "ports/");
  PC_1 : SlashTerminatedString PortId;
  PC_2 : FixedString (lit "channels/");
  PC_3 : EofTerminatedString ChannelId
}.
Definition PortChannel_encode (v : PortChannel) : res bytes :=
  let? a := Encode_encode (PC_0 v) in
  let? b := Encode_encode (PC_1 v) in
  let? c := Encode_encode (PC_2 v) in
  let? d := Encode_encode (PC_3 v) in
  Ok (a ++ b ++ c ++ d).
Definition PortChannel_decode (bs : bytes) : res (PortChannel * bytes) :=
  let? a := Decode_decode bs in
  let? b := Decode_decode a.2 in
  let? c := Decode_decode b.2 in
  let? d := Decode_decode c.2 in
  Ok (mkPortChannel a.1 b.1 c.1 d.1, d.2).
#[export] Instance PortChannel_Encode : Encode PortChannel := {| Encode_encode := PortChannel_encode |}.
#[export] Instance PortChannel_Decode : Decode PortChannel := {| Decode_decode := PortChannel_decode |}.
Definition PortChannel_new (port_id : PortId) (channel_id : ChannelId) : PortChannel :=
  mkPortChannel mkFixedString (mkByteTerminatedString 47 port_id) mkFixedString (mkEofTerminatedString channel_id).

Record PortChannelSequence := mkPortChannelSequence {
  PCS_0 : FixedString (lit "ports/");
  PCS_1 : SlashTerminatedString PortId;
  PCS_2 : FixedString (lit "channels/");
  PCS_3 : SlashTerminatedString ChannelId;
  PCS_4 : FixedString (lit "sequences/");
  PCS_5 : EofTerminatedString Sequence
}.
Definition PortChannelSequence_encode (v : PortChannelSequence) : res bytes :=
  let? a := Encode_encode (PCS_0 v) in
  let? b := Encode_encode (PCS_1 v) in
  let? c := Encode_encode (PCS_2 v) in
  let? d := Encode_encode (PCS_3 v) in
  let? e := Encode_encode (PCS_4 v) in
  let? f := Encode_encode (PCS_5 v) in
  Ok (a ++ b ++ c ++ d ++ e ++ f).
Definition PortChannelSequence_decode (bs : bytes) : res (PortChannelSequence * bytes) :=
  let? a := Decode_decode bs in
  let? b := Decode_decode a.2 in
  let? c := Decode_decode b.2 in
  let? d := Decode_decode c.2 in
  let? e := Decode_decode d.2 in
  let? f := Decode_decode e.2 in
  Ok (mkPortChannelSequence a.1 b.1 c.1 d.1 e.1 f.1, f.2).
#[export] Instance PortChannelSequence_Encode : Encode PortChannelSequence := {| Encode_encode := PortChannelSequence_encode |}.
#[export] Instance PortChannelSequence_Decode : Decode PortChannelSequence := {| Decode_decode := PortChannelSequence_decode |}.
Definition PortChannelSequence_new (port_id : PortId) (channel_id : ChannelId) (sequence : Sequence) : PortChannelSequence :=
  mkPortChannelSequence mkFixedString (mkByteTerminatedString 47 port_id) mkFixedString (mkByteTerminatedString 47 channel_id)
    mkFixedString (mkEofTerminatedString sequence).

(** The paths of [ibc-rs] and what the macros [port_channel_from_impl!] and
    [port_channel_sequence_from_impl!] make of them. *)
Record ChannelPath := mkChannelPath { path_0 : PortId; path_1 : ChannelId }.
Record PacketPath := mkPacketPath { path_port_id : PortId; path_channel_id : ChannelId; path_sequence : Sequence }.
Definition PortChannel_from (path : ChannelPath) : PortChannel :=
  mkPortChannel mkFixedString (mkByteTerminatedString 47 (path_0 path)) mkFixedString (mkEofTerminatedString (path_1 path)).
Definition PortChannelSequence_from (path : PacketPath) : PortChannelSequence :=
  mkPortChannelSequence mkFixedString (mkByteTerminatedString 47 (path_port_id path)) mkFixedString
    (mkByteTerminatedString 47 (path_channel_id path)) mkFixedString (mkEofTerminatedString (path_sequence path)).

(** The parts, through their texts. *)
Definition PortChannel_port_id (v : PortChannel) : res PortId :=
  ok_or (from_str (to_string (BTS_0 (PC_1 v)))) (EIbc "Invalid port ID").
Definition PortChannel_channel_id (v : PortChannel) : res ChannelId :=
  ok_or (from_str (to_string (ETS_0 (PC_3 v)))) (EIbc "Invalid channel ID").
Definition PortChannel_with_sequence (v : PortChannel) (sequence : Sequence) : res PortChannelSequence :=
  let? port_id := PortChannel_port_id v in
  let? channel_id := PortChannel_channel_id v in
  Ok (PortChannelSequence_new port_id channel_id sequence).
Definition PortChannelSequence_port_id (v : PortChannelSequence) : res PortId :=
  ok_or (from_str (to_string (BTS_0 (PCS_1 v)))) (EIbc "Invalid port ID").
Definition PortChannelSequence_channel_id (v : PortChannelSequence) : res ChannelId :=
  ok_or (from_str (to_string (BTS_0 (PCS_3 v)))) (EIbc "Invalid channel ID").
Definition PortChannelSequence_sequence (v : PortChannelSequence) : res Sequence :=
  ok_or (from_str (to_string (ETS_0 (PCS_5 v)))) (EIbc "Invalid sequence").
Definition Address_try_from_signer (signer : IbcSigner) : res Address :=
  ok_or (Address_from_str (IbcSigner_as_ref signer)) (EIbc "Invalid signer").

(** The [Migrate] implementations: the keys are decoded. *)
Definition decoded_migrate {St T} `{Decode T} (_ _ : Store) (bs : bytes) : M St (T * bytes) := liftM (Decode_decode bs).
#[export] Instance PortChannel_Migrate {St} : Migrate St PortChannel := {| Migrate_migrate := decoded_migrate |}.
#[export] Instance PortChannelSequence_Migrate {St} : Migrate St PortChannelSequence := {| Migrate_migrate := decoded_migrate |}.
End Keys.
Abbreviation SlashTerminatedString T := (ByteTerminatedString T 47).
Abbreviation ClientIdKey := (SlashTerminatedString ClientId).
Abbreviation ConnectionIdKey := (EofTerminatedString ConnectionId).
Abbreviation Number := (EofTerminatedString u64).
Abbreviation EpochHeight := (EofTerminatedString RString).

(** ** Fields with a prefix of their own (macros/src/state.rs)

    [#[state(prefix(..))]] puts a field under the given prefix instead of its position,
    [#[state(absolute_prefix(..))]] takes the prefix from the root of the store; the
    latter are not counted by the positions of the others. *)
Record Rel (p : bytes) (A : Type) := mkRel { rel_val : A }.
Arguments mkRel {p A} _.
Arguments rel_val {p A} _.
Record Absolute (p : bytes) (A : Type) := mkAbsolute { abs_val : A }.
Arguments mkAbsolute {p A} _.
Arguments abs_val {p A} _.

Section PrefixedFields.
Context `{Profile} `{CompatMode} {St : Type} {p : bytes} {A F : Type} {SA : State St A} {FF : Fields St F}.
Definition FRel_attach (i : Z) (a : Attacher) : M (FCons (Rel p A) F) Attacher :=
  do a <- in_head (zoomM rel_val (fun x _ => mkRel x) (Attacher_attach_child_with_relative_prefix a p));
  in_tail (fields_attach (i + 1) a).
Definition FRel_flush (out : bytes) (v : FCons (Rel p A) F) : M St bytes :=
  do out <- Flusher_flush_child out (rel_val (fhead v));
  fields_flush out (ftail v).
Definition FRel_load (b : St) : M Loader (FCons (Rel p A) F) :=
  do x <- Loader_load_child b;
  do f <- fields_load b;
  retM (fcons (mkRel x) f).
#[export] Instance FRel_Fields : Fields St (FCons (Rel p A) F) :=
  {| fields_attach := FRel_attach; fields_flush := FRel_flush; fields_load := FRel_load |}.
Definition FAbsolute_attach (i : Z) (a : Attacher) : M (FCons (Absolute p A) F) Attacher :=
  do a <- in_head (zoomM abs_val (fun x _ => mkAbsolute x) (Attacher_attach_child_with_absolute_prefix a p));
  in_tail (fields_attach i a).
Definition FAbsolute_flush (out : bytes) (v : FCons (Absolute p A) F) : M St bytes :=
  do out <- Flusher_flush_child out (abs_val (fhead v));
  fields_flush out (ftail v).
Definition FAbsolute_load (b : St) : M Loader (FCons (Absolute p A) F) :=
  do x <- Loader_load_child b;
  do f <- fields_load b;
  retM (fcons (mkAbsolute x) f).
#[export] Instance FAbsolute_Fields : Fields St (FCons (Absolute p A) F) :=
  {| fields_attach := FAbsolute_attach; fields_flush := FAbsolute_flush; fields_load := FAbsolute_load |}.
End PrefixedFields.

(** ** Wrappers (src/ibc/mod.rs) *)

(** [protobuf_newtype!] *)
Record Newtype (T : Type) := mkNewtype { inner : T }.
Arguments mkNewtype {T} _.
Arguments inner {T} _.
Section Newtype.
Context {T : Type} `{Protobuf T} {St : Type}.
(** [$proto::<$raw>::encode(self.inner.clone(), &mut buf)] and [decode(buf.as_slice())] *)
Definition protobuf_encode (inner : T) : res bytes := ok_or (proto_encode inner) (UnexpectedByte 10).
Definition protobuf_decode (buf : bytes) : res T := ok_or (proto_decode buf) (UnexpectedByte 10).
Definition Newtype_encode (v : Newtype T) : res bytes := protobuf_encode (inner v).
Definition Newtype_encoding_length (v : Newtype T) : res nat :=
  let? buf := protobuf_encode (inner v) in Ok (length buf).
(** [read_to_end] *)
Definition Newtype_decode (input : bytes) : res (Newtype T * bytes) :=
  let? inner := protobuf_decode input in Ok (mkNewtype inner, []).
#[export] Instance Newtype_Encode : Encode (Newtype T) := {| Encode_encode := Newtype_encode |}.
#[export] Instance Newtype_Decode : Decode (Newtype T) := {| Decode_decode := Newtype_decode |}.
Definition Newtype_attach (_ : Store) : M (Newtype T) unit := retM tt.
Definition Newtype_flush (v : Newtype T) : M St bytes := liftM (Newtype_encode v).
Definition Newtype_load (_ : Store) (bs : bytes) (_ : St) : res (Newtype T * bytes) := Newtype_decode bs.
#[export] Instance Newtype_State : State St (Newtype T) :=
  {| State_attach := Newtype_attach; State_flush := Newtype_flush; State_load := Newtype_load |}.
(** The value of the same version, [into()] itself. *)
Definition Newtype_migrate (_ _ : Store) (bs : bytes) : M St (Newtype T * bytes) :=
  do prev <- readM (Newtype_load default_store bs);
  retM (prev.1, prev.2).
#[export] Instance Newtype_Migrate : Migrate St (Newtype T) := {| Migrate_migrate := Newtype_migrate |}.
Definition Newtype_query (_ : Newtype T) (_ : unit) : res unit := Ok tt.
End Newtype.

Section Wrappers.
Context `{Profile} `{CompatMode} `{IbcRs} {St : Type}.
Abbreviation WrappedClientState := (Newtype TmClientState).
Abbreviation WrappedConnectionEnd := (Newtype ConnectionEnd).
Abbreviation WrappedChannelEnd := (Newtype ChannelEnd).
Abbreviation WrappedHeader := (Newtype IbcHeader).

(** [WrappedConsensusState], written out in the source. *)
Record WrappedConsensusState := mkWrappedConsensusState { WCS_inner : TmConsensusState }.
Definition WCS_encode (v : WrappedConsensusState) : res bytes := protobuf_encode (WCS_inner v).
Definition WCS_encoding_length (v : WrappedConsensusState) : res nat :=
  let? buf := protobuf_encode (WCS_inner v) in Ok (length buf).
Definition WCS_decode (input : bytes) : res (WrappedConsensusState * bytes) :=
  let? inner := protobuf_decode input in Ok (mkWrappedConsensusState inner, []).
#[export] Instance WCS_Encode : Encode WrappedConsensusState := {| Encode_encode := WCS_encode |}.
#[export] Instance WCS_Decode : Decode WrappedConsensusState := {| Decode_decode := WCS_decode |}.
Definition WCS_attach (_ : Store) : M WrappedConsensusState unit := retM tt.
Definition WCS_flush (v : WrappedConsensusState) : M St bytes := liftM (WCS_encode v).
Definition WCS_load (_ : Store) (bs : bytes) (_ : St) : res (WrappedConsensusState * bytes) := WCS_decode bs.
#[export] Instance WCS_State : State St WrappedConsensusState :=
  {| State_attach := WCS_attach; State_flush := WCS_flush; State_load := WCS_load |}.
Definition WCS_migrate (_ _ : Store) (bs : bytes) : M St (WrappedConsensusState * bytes) :=
  do prev <- readM (WCS_load default_store bs);
  retM (prev.1, prev.2).
(** [timestamp()] of the trait of consensus states: the conversion is expected to work. *)
Definition WCS_timestamp (v : WrappedConsensusState) : res IbcTimestamp :=
  unwrap (Time_to_Timestamp (TmConsensusState_timestamp (WCS_inner v))) "UNIX Timestamp can't be negative".

(** [WrappedTimestamp]: the nanoseconds, behind an [Adapter]. *)
Record WrappedTimestamp := mkWrappedTimestamp { WT_inner : IbcTimestamp }.
Definition WT_adapter_encode (a : Adapter WrappedTimestamp) : res bytes := Encode_encode (nanoseconds (WT_inner (Adapter_0 a))).
Definition WT_adapter_decode (bs : bytes) : res (Adapter WrappedTimestamp * bytes) :=
  let? r := Decode_decode (K := u64) bs in
  Ok (mkAdapter (mkWrappedTimestamp (from_nanoseconds r.1)), r.2).
#[export] Instance WT_Encode : Encode (Adapter WrappedTimestamp) := {| Encode_encode := WT_adapter_encode |}.
#[export] Instance WT_Decode : Decode (Adapter WrappedTimestamp) := {| Decode_decode := WT_adapter_decode |}.
#[export] Instance WrappedTimestamp_State : State St WrappedTimestamp := Simple_State 0.

Record BinaryHeight := mkBinaryHeight { BH_epoch : u64; BH_height : u64 }.
#[export] Instance BinaryHeight_Derived : Derived BinaryHeight 0 (FCons u64 (FCons u64 FNil)).
Proof.
  refine {| to_fields := fun h => fcons (BH_epoch h) (fcons (BH_height h) fnil);
            of_fields := fun '(fcons e (fcons h _)) => mkBinaryHeight e h |}; [by intros []|by intros [? [? []]]].
Defined.
#[export] Instance BinaryHeight_State : State St BinaryHeight := derived_State (D := BinaryHeight_Derived).
Definition BinaryHeight_from (h : Height) : BinaryHeight := mkBinaryHeight (revision_number h) (revision_height h).
Definition BinaryHeight_try_into (h : BinaryHeight) : option Height := Height_new (BH_epoch h) (BH_height h).
End Wrappers.
Abbreviation WrappedClientState := (Newtype TmClientState).
Abbreviation WrappedConnectionEnd := (Newtype ConnectionEnd).
Abbreviation WrappedChannelEnd := (Newtype ChannelEnd).
Abbreviation WrappedHeader := (Newtype IbcHeader).
