(* ===== verification/IbcContext.v ===== *)
(** * The IBC host (src/ibc/mod.rs, impls.rs, client_contexts.rs)

    [IbcContext] keeps the host state that [ibc-rs] reads and writes: clients with their
    consensus states, connections, channels, packet commitments, receipts and
    acknowledgements, each under a fixed path. Every method of the validation and
    execution contexts is here; the handlers of [ibc-rs] that call them are parameters. *)

From stdpp Require Import base tactics numbers list strings gmap.
From Stdlib Require Import ZArith Lia.
From S2P Require Import Prelude Bytes BTree StoreIface StoreIter NullStore BufStore PrefixStore Codec StateIface Next StructState Utf8 Encoding SimpleState MapColl MapSpec MapProps MapCall MapIter Fields Address DequeColl AbciTypes Context Plugins AbciStore AbciPlugin Migrate IbcTypes.
#[local] Open Scope Z_scope.

(** ** Errors

    [ContextError] and the errors inside it, by the name of the variant and what it
    carries. *)
Section Errors.
Context `{IbcRs}.
Definition ClientSpecific (description : string) : Error := EIbcContext ("ClientSpecific: " +:+ description).
Definition ClientStateNotFound (client_id : ClientId) : Error := EIbcContext ("ClientStateNotFound: " +:+ text (to_string client_id)).
Definition height_text (h : Height) : string := text (format_height (revision_number h) (revision_height h)).
Definition ConsensusStateNotFound (client_id : ClientId) (height : Height) : Error :=
  EIbcContext ("ConsensusStateNotFound: " +:+ text (to_string client_id) +:+ " " +:+ height_text height).
Definition UpdateMetaDataNotFound (client_id : ClientId) (height : Height) : Error :=
  EIbcContext ("UpdateMetaDataNotFound: " +:+ text (to_string client_id) +:+ " " +:+ height_text height).
Definition InvalidHeight : Error := EIbcContext "InvalidHeight".
Definition InvalidSigner (reason : string) : Error := EIbcContext ("InvalidSigner: " +:+ reason).
Definition ClientOther (description : string) : Error := EIbcContext ("Other: " +:+ description).
Definition ImplementationSpecific : Error := EIbcContext "ImplementationSpecific".
Definition PacketReceiptNotFound (s : Sequence) : Error := EIbcContext ("PacketReceiptNotFound: " +:+ text (to_string s)).
Definition PacketAcknowledgementNotFound (s : Sequence) : Error :=
  EIbcContext ("PacketAcknowledgementNotFound: " +:+ text (to_string s)).
Definition MissingChannel : Error := EIbcContext "MissingChannel".
Definition ConnectionNotFound (id : ConnectionId) : Error := EIbcContext ("ConnectionNotFound: " +:+ text (to_string id)).
End Errors.

(** [.map_err(|_| e)?] *)
Definition with_err {A} (e : Error) (r : res A) : res A := match r with Err _ => Err e | r => r end.
Definition with_errM {S A} (e : Error) (m : M S A) : M S A := fun s => let '(r, s') := m s in (with_err e r, s').

(** ** State *)

Section State.
Context `{Profile} `{CompatMode} `{IbcRs}.

Record Client := mkClient {
  Cl_updates : Map EpochHeight (WrappedTimestamp * BinaryHeight);
  Cl_client_state : Map (FixedString (lit "State")) WrappedClientState;
  Cl_consensus_states : Map EpochHeight WrappedConsensusState;
  Cl_connections : Map ConnectionIdKey unit;
  Cl_last_header : option WrappedHeader;
  Cl_client_type : EofTerminatedString RString
}.
Definition Client_default : Client := mkClient Map_new Map_new Map_new Map_new None (mkEofTerminatedString []).
Abbreviation ClientFields := (FCons (Rel (lit "updates/") (Map EpochHeight (WrappedTimestamp * BinaryHeight)))
  (FCons (Rel (lit "client") (Map (FixedString (lit "State")) WrappedClientState))
  (FCons (Rel (lit "consensusStates/") (Map EpochHeight WrappedConsensusState))
  (FCons (Rel (lit "connections/") (Map ConnectionIdKey unit))
  (FCons (option WrappedHeader) (FCons (EofTerminatedString RString) FNil)))))).
#[export] Instance Client_Derived : Derived Client 0 ClientFields.
Proof.
  refine {| to_fields := fun c => fcons (mkRel (Cl_updates c)) (fcons (mkRel (Cl_client_state c)) (fcons (mkRel (Cl_consensus_states c))
              (fcons (mkRel (Cl_connections c)) (fcons (Cl_last_header c) (fcons (Cl_client_type c) fnil)))));
            of_fields := fun '(fcons u (fcons s (fcons c (fcons n (fcons h (fcons t _)))))) =>
              mkClient (rel_val u) (rel_val s) (rel_val c) (rel_val n) h t |}; [by intros []|].
  by intros [[?] [[?] [[?] [[?] [? [? []]]]]]].
Defined.

Record IbcContext := mkIbcContext {
  height : u64;
  host_consensus_states : Deque WrappedConsensusState;
  channel_counter : u64;
  connection_counter : u64;
  client_counter : u64;
  clients : Map ClientIdKey Client;
  connections : Map ConnectionIdKey WrappedConnectionEnd;
  channel_ends : Map PortChannel WrappedChannelEnd;
  next_sequence_send : Map PortChannel Number;
  next_sequence_recv : Map PortChannel Number;
  next_sequence_ack : Map PortChannel Number;
  commitments : Map PortChannelSequence (list u8);
  receipts : Map PortChannelSequence u8;
  acks : Map PortChannelSequence (list u8);
  ctx_store : Store
}.
(** A method of [IbcContext], and methods called on single fields. *)
Abbreviation IM := (M IbcContext).
Definition set_height (x : u64) (c : IbcContext) : IbcContext :=
  mkIbcContext x (host_consensus_states c) (channel_counter c) (connection_counter c) (client_counter c) (clients c)
    (connections c) (channel_ends c) (next_sequence_send c) (next_sequence_recv c) (next_sequence_ack c) (commitments c)
    (receipts c) (acks c) (ctx_store c).
Definition set_host_consensus_states (x : Deque WrappedConsensusState) (c : IbcContext) : IbcContext :=
  mkIbcContext (height c) x (channel_counter c) (connection_counter c) (client_counter c) (clients c) (connections c)
    (channel_ends c) (next_sequence_send c) (next_sequence_recv c) (next_sequence_ack c) (commitments c) (receipts c) (acks c)
    (ctx_store c).
Definition set_channel_counter (x : u64) (c : IbcContext) : IbcContext :=
  mkIbcContext (height c) (host_consensus_states c) x (connection_counter c) (client_counter c) (clients c) (connections c)
    (channel_ends c) (next_sequence_send c) (next_sequence_recv c) (next_sequence_ack c) (commitments c) (receipts c) (acks c)
    (ctx_store c).
Definition set_connection_counter (x : u64) (c : IbcContext) : IbcContext :=
  mkIbcContext (height c) (host_consensus_states c) (channel_counter c) x (client_counter c) (clients c) (connections c)
    (channel_ends c) (next_sequence_send c) (next_sequence_recv c) (next_sequence_ack c) (commitments c) (receipts c) (acks c)
    (ctx_store c).
Definition set_client_counter (x : u64) (c : IbcContext) : IbcContext :=
  mkIbcContext (height c) (host_consensus_states c) (channel_counter c) (connection_counter c) x (clients c) (connections c)
    (channel_ends c) (next_sequence_send c) (next_sequence_recv c) (next_sequence_ack c) (commitments c) (receipts c) (acks c)
    (ctx_store c).
Definition set_clients (x : Map ClientIdKey Client) (c : IbcContext) : IbcContext :=
  mkIbcContext (height c) (host_consensus_states c) (channel_counter c) (connection_counter c) (client_counter c) x
    (connections c) (channel_ends c) (next_sequence_send c) (next_sequence_recv c) (next_sequence_ack c) (commitments c)
    (receipts c) (acks c) (ctx_store c).
Definition set_connections (x : Map ConnectionIdKey WrappedConnectionEnd) (c : IbcContext) : IbcContext :=
  mkIbcContext (height c) (host_consensus_states c) (channel_counter c) (connection_counter c) (client_counter c) (clients c) x
    (channel_ends c) (next_sequence_send c) (next_sequence_recv c) (next_sequence_ack c) (commitments c) (receipts c) (acks c)
    (ctx_store c).
Definition set_channel_ends (x : Map PortChannel WrappedChannelEnd) (c : IbcContext) : IbcContext :=
  mkIbcContext (height c) (host_consensus_states c) (channel_counter c) (connection_counter c) (client_counter c) (clients c)
    (connections c) x (next_sequence_send c) (next_sequence_recv c) (next_sequence_ack c) (commitments c) (receipts c) (acks c)
    (ctx_store c).
Definition set_next_sequence_send (x : Map PortChannel Number) (c : IbcContext) : IbcContext :=
  mkIbcContext (height c) (host_consensus_states c) (channel_counter c) (connection_counter c) (client_counter c) (clients c)
    (connections c) (channel_ends c) x (next_sequence_recv c) (next_sequence_ack c) (commitments c) (receipts c) (acks c)
    (ctx_store c).
Definition set_next_sequence_recv (x : Map PortChannel Number) (c : IbcContext) : IbcContext :=
  mkIbcContext (height c) (host_consensus_states c) (channel_counter c) (connection_counter c) (client_counter c) (clients c)
    (connections c) (channel_ends c) (next_sequence_send c) x (next_sequence_ack c) (commitments c) (receipts c) (acks c)
    (ctx_store c).
Definition set_next_sequence_ack (x : Map PortChannel Number) (c : IbcContext) : IbcContext :=
  mkIbcContext (height c) (host_consensus_states c) (channel_counter c) (connection_counter c) (client_counter c) (clients c)
    (connections c) (channel_ends c) (next_sequence_send c) (next_sequence_recv c) x (commitments c) (receipts c) (acks c)
    (ctx_store c).
Definition set_commitments (x : Map PortChannelSequence (list u8)) (c : IbcContext) : IbcContext :=
  mkIbcContext (height c) (host_consensus_states c) (channel_counter c) (connection_counter c) (client_counter c) (clients c)
    (connections c) (channel_ends c) (next_sequence_send c) (next_sequence_recv c) (next_sequence_ack c) x (receipts c) (acks c)
    (ctx_store c).
Definition set_receipts (x : Map PortChannelSequence u8) (c : IbcContext) : IbcContext :=
  mkIbcContext (height c) (host_consensus_states c) (channel_counter c) (connection_counter c) (client_counter c) (clients c)
    (connections c) (channel_ends c) (next_sequence_send c) (next_sequence_recv c) (next_sequence_ack c) (commitments c) x
    (acks c) (ctx_store c).
Definition set_acks (x : Map PortChannelSequence (list u8)) (c : IbcContext) : IbcContext :=
  mkIbcContext (height c) (host_consensus_states c) (channel_counter c) (connection_counter c) (client_counter c) (clients c)
    (connections c) (channel_ends c) (next_sequence_send c) (next_sequence_recv c) (next_sequence_ack c) (commitments c)
    (receipts c) x (ctx_store c).
Definition in_host_consensus_states {A} (f : M (Deque WrappedConsensusState) A) : IM A := zoomM host_consensus_states set_host_consensus_states f.
Definition in_channel_counter {A} (f : M (u64) A) : IM A := zoomM channel_counter set_channel_counter f.
Definition in_connection_counter {A} (f : M (u64) A) : IM A := zoomM connection_counter set_connection_counter f.
Definition in_client_counter {A} (f : M (u64) A) : IM A := zoomM client_counter set_client_counter f.
Definition in_clients {A} (f : M (Map ClientIdKey Client) A) : IM A := zoomM clients set_clients f.
Definition in_connections {A} (f : M (Map ConnectionIdKey WrappedConnectionEnd) A) : IM A := zoomM connections set_connections f.
Definition in_channel_ends {A} (f : M (Map PortChannel WrappedChannelEnd) A) : IM A := zoomM channel_ends set_channel_ends f.
Definition in_next_sequence_send {A} (f : M (Map PortChannel Number) A) : IM A := zoomM next_sequence_send set_next_sequence_send f.
Definition in_next_sequence_recv {A} (f : M (Map PortChannel Number) A) : IM A := zoomM next_sequence_recv set_next_sequence_recv f.
Definition in_next_sequence_ack {A} (f : M (Map PortChannel Number) A) : IM A := zoomM next_sequence_ack set_next_sequence_ack f.
Definition in_commitments {A} (f : M (Map PortChannelSequence (list u8)) A) : IM A := zoomM commitments set_commitments f.
Definition in_receipts {A} (f : M (Map PortChannelSequence u8) A) : IM A := zoomM receipts set_receipts f.
Definition in_acks {A} (f : M (Map PortChannelSequence (list u8)) A) : IM A := zoomM acks set_acks f.
Abbreviation IbcContextFields := (FCons u64 (FCons (Deque WrappedConsensusState) (FCons u64 (FCons u64 (FCons u64
  (FCons (Absolute (lit "clients/") (Map ClientIdKey Client))
  (FCons (Absolute (lit "connections/") (Map ConnectionIdKey WrappedConnectionEnd))
  (FCons (Absolute (lit "channelEnds/") (Map PortChannel WrappedChannelEnd))
  (FCons (Absolute (lit "nextSequenceSend/") (Map PortChannel Number))
  (FCons (Absolute (lit "nextSequenceRecv/") (Map PortChannel Number))
  (FCons (Absolute (lit "nextSequenceAck/") (Map PortChannel Number))
  (FCons (Absolute (lit "commitments/") (Map PortChannelSequence (list u8)))
  (FCons (Absolute (lit "receipts/") (Map PortChannelSequence u8))
  (FCons (Absolute (lit "acks/") (Map PortChannelSequence (list u8)))
  (FCons (Absolute [] Store) FNil))))))))))))))).
#[export] Instance IbcContext_Derived : Derived IbcContext 1 IbcContextFields.
Proof.
  refine {| to_fields := fun c => fcons (height c) (fcons (host_consensus_states c) (fcons (channel_counter c) (fcons (connection_counter c)
              (fcons (client_counter c) (fcons (mkAbsolute (clients c)) (fcons (mkAbsolute (connections c)) (fcons (mkAbsolute (channel_ends c))
              (fcons (mkAbsolute (next_sequence_send c)) (fcons (mkAbsolute (next_sequence_recv c)) (fcons (mkAbsolute (next_sequence_ack c))
              (fcons (mkAbsolute (commitments c)) (fcons (mkAbsolute (receipts c)) (fcons (mkAbsolute (acks c))
              (fcons (mkAbsolute (ctx_store c)) fnil))))))))))))));
            of_fields := fun '(fcons a (fcons b (fcons c (fcons d (fcons e (fcons f (fcons g (fcons h (fcons i (fcons j (fcons k (fcons l
              (fcons m (fcons n (fcons o _))))))))))))))) =>
              mkIbcContext a b c d e (abs_val f) (abs_val g) (abs_val h) (abs_val i) (abs_val j) (abs_val k) (abs_val l) (abs_val m)
                (abs_val n) (abs_val o) |}; [by intros []|].
  by intros [? [? [? [? [? [[?] [[?] [[?] [[?] [[?] [[?] [[?] [[?] [[?] [[?] []]]]]]]]]]]]]]]].
Defined.

Context {St : Type} `{Read St} `{!Write St} `{!Bounded St}.
#[export] Instance Client_State : State St Client := derived_State (D := Client_Derived).
#[export] Instance IbcContext_State : State St IbcContext := derived_State (D := IbcContext_Derived).
End State.
Abbreviation IM := (M IbcContext).

(** ** The clients (client_contexts.rs) *)

Section Clients.
Context `{Profile} `{CompatMode} `{IbcRs} {St : Type} `{Read St} `{!Write St} `{!Bounded St}.
Implicit Types (b : St) (ctx : IbcContext).

Definition ClientIdKey_from (client_id : ClientId) : ClientIdKey := mkByteTerminatedString 47 client_id.
Definition ConnectionIdKey_from (id : ConnectionId) : ConnectionIdKey := mkEofTerminatedString id.
Inductive AnyConsensusState := Tendermint (c : TmConsensusState).
(** [ConsensusState::try_from]; there is one variant. *)
Definition AnyConsensusState_try_into (c : AnyConsensusState) : res TmConsensusState := match c with Tendermint c => Ok c end.

(** [self.clients.get(id).map_err(..)?.ok_or(..)?] *)
Definition get_client (failed missing : Error) b ctx (client_id : ClientId) : res Client :=
  let? o := with_err failed (Map_get b (clients ctx) (ClientIdKey_from client_id)) in
  let? r := ok_or o missing in
  Ok (Ref_deref r).
(** [self.clients.get_mut(id).map_err(..)?.ok_or(..)?.f()] and
    [self.clients.entry(id).map_err(..)?.or_insert_default().map_err(..)?.f()], where the
    errors of [f] are replaced as well. *)
Definition in_client {A} (failed missing failed_inside : Error) b (client_id : ClientId) (f : M Client A) : IM A :=
  in_clients (do child <- with_errM failed (Map_get_mut b (ClientIdKey_from client_id));
              do child <- liftM (ok_or child missing);
              with_errM failed_inside (ChildMut_call child f)).
Definition in_client_or_default {A} (failed : Error) b (client_id : ClientId) (f : M Client A) : IM A :=
  in_clients (with_errM failed (Map_or_default_call Client_default b (ClientIdKey_from client_id) f)).
Definition in_updates {A} (f : M (Map EpochHeight (WrappedTimestamp * BinaryHeight)) A) : M Client A :=
  zoomM Cl_updates (fun x c => mkClient x (Cl_client_state c) (Cl_consensus_states c) (Cl_connections c) (Cl_last_header c) (Cl_client_type c)) f.
Definition in_client_state {A} (f : M (Map (FixedString (lit "State")) WrappedClientState) A) : M Client A :=
  zoomM Cl_client_state (fun x c => mkClient (Cl_updates c) x (Cl_consensus_states c) (Cl_connections c) (Cl_last_header c) (Cl_client_type c)) f.
Definition in_consensus_states {A} (f : M (Map EpochHeight WrappedConsensusState) A) : M Client A :=
  zoomM Cl_consensus_states (fun x c => mkClient (Cl_updates c) (Cl_client_state c) x (Cl_connections c) (Cl_last_header c) (Cl_client_type c)) f.
Definition in_client_connections {A} (f : M (Map ConnectionIdKey unit) A) : M Client A :=
  zoomM Cl_connections (fun x c => mkClient (Cl_updates c) (Cl_client_state c) (Cl_consensus_states c) x (Cl_last_header c) (Cl_client_type c)) f.
Definition set_last_header (h : IbcHeader) : M Client unit := fun c =>
  (Ok tt, mkClient (Cl_updates c) (Cl_client_state c) (Cl_consensus_states c) (Cl_connections c) (Some (mkNewtype h)) (Cl_client_type c)).
Definition Client_set_client_type (t : ClientType) : M Client unit := fun c =>
  (Ok tt, mkClient (Cl_updates c) (Cl_client_state c) (Cl_consensus_states c) (Cl_connections c) (Cl_last_header c) (EofString_from_ClientType t)).
Definition Client_client_type (c : Client) : res ClientType := Ok tm_client_type.
Definition Client_last_header (c : Client) : res IbcHeader :=
  let? h := ok_or (Cl_last_header c) (EIbc "Expected relayed header") in Ok (inner h).

Definition client_state b ctx (client_id : ClientId) : res TmClientState :=
  let failed := ClientSpecific "Unable to get client state" in
  let? client := get_client failed (ClientStateNotFound client_id) b ctx client_id in
  let? o := with_err failed (Map_get b (Cl_client_state client) mkFixedString) in
  let? s := ok_or o failed in
  Ok (inner (Ref_deref s)).

Record ConsensusPath := mkConsensusPath { cp_client_id : ClientId; cp_revision_number : u64; cp_revision_height : u64 }.
Definition consensus_state b ctx (path : ConsensusPath) : res AnyConsensusState :=
  let failed := ClientSpecific "Unable to get consensus state" in
  let? height := ok_or (Height_new (cp_revision_number path) (cp_revision_height path)) InvalidHeight in
  let? client := get_client failed (ClientStateNotFound (cp_client_id path)) b ctx (cp_client_id path) in
  let? o := with_err failed (Map_get b (Cl_consensus_states client) (EpochHeight_from height)) in
  let? s := ok_or o (ConsensusStateNotFound (cp_client_id path) height) in
  Ok (Tendermint (WCS_inner (Ref_deref s))).

Definition client_update_meta b ctx (client_id : ClientId) (height : Height) : res (IbcTimestamp * Height) :=
  let? client := get_client (ClientSpecific "Unable to get consensus state") (UpdateMetaDataNotFound client_id height) b ctx client_id in
  let? o := with_err (ClientSpecific "Unable to get update metadata") (Map_get b (Cl_updates client) (EpochHeight_from height)) in
  let? metadata := ok_or o (UpdateMetaDataNotFound client_id height) in
  let? host_height := ok_or (BinaryHeight_try_into (Ref_deref metadata).2) InvalidHeight in
  Ok (WT_inner (Ref_deref metadata).1, host_height).

Definition store_client_state b (client_id : ClientId) (s : TmClientState) : IM unit :=
  in_client_or_default (ClientSpecific "Failed to store client state") b client_id
    (in_client_state (Map_insert (St := St) mkFixedString (mkNewtype s))).
Definition store_consensus_state b (path : ConsensusPath) (s : AnyConsensusState) : IM unit :=
  let epoch_height := mkEofTerminatedString (format_height (cp_revision_number path) (cp_revision_height path)) in
  in_client_or_default (ClientSpecific "Failed to store consensus state") b (cp_client_id path)
    (do s <- liftM (AnyConsensusState_try_into s);
     in_consensus_states (Map_insert (St := St) epoch_height (mkWrappedConsensusState s))).
(** The key is the text of the height alone. *)
Definition delete_consensus_state b (path : ConsensusPath) : IM unit :=
  in_client (ClientSpecific "Unable to get consensus state") (ClientStateNotFound (cp_client_id path))
    (ClientSpecific "Unable to delete consensus state") b (cp_client_id path)
    (run in_consensus_states (Map_remove b (mkEofTerminatedString (u64_to_string (cp_revision_height path)))); retM tt).
Definition store_update_meta b (client_id : ClientId) (height : Height) (host_timestamp : IbcTimestamp) (host_height : Height) : IM unit :=
  in_client (ClientSpecific "Unable to get client") (ClientStateNotFound client_id)
    (ClientSpecific "Unable to store update metadata") b client_id
    (in_updates (Map_insert (St := St) (EpochHeight_from height) (mkWrappedTimestamp host_timestamp, BinaryHeight_from host_height))).
Definition delete_update_meta b (client_id : ClientId) (height : Height) : IM unit :=
  in_client (ClientSpecific "Unable to get client") (ClientStateNotFound client_id)
    (ClientSpecific "Unable to store update metadata") b client_id
    (run in_updates (Map_remove b (EpochHeight_from height)); retM tt).

(** The first entry of the range above the height up to the next revision, and the last
    one below it, in the order of the map's keys. An error of the iteration is passed on
    as a text. *)
Definition next_consensus_state b ctx (client_id : ClientId) (height : Height) : res (option AnyConsensusState) :=
  let? next_revision := u64_add (uint_val (revision_number height)) 1 in
  let? end_height := ok_or (Height_new (to_uint 8 next_revision) (to_uint 8 1)) (ClientSpecific "Failed to get height") in
  let? client := get_client (ClientSpecific "Failed to get client") (ClientStateNotFound client_id) b ctx client_id in
  let states := Cl_consensus_states client in
  let? it := with_err (ClientSpecific "Failed to get bound")
    (Map_range states (Excluded (EpochHeight_from height)) (Excluded (EpochHeight_from end_height))) in
  match (MapIter_next b states it).1 with
  | Ok o => Ok ((fun kv => Tendermint (WCS_inner (Ref_deref kv.2))) <$> o)
  | Err _ => Err (ClientSpecific "error of the iteration")
  | Panic w => Panic w
  end.
Definition prev_consensus_state b ctx (client_id : ClientId) (height : Height) : res (option AnyConsensusState) :=
  let? end_height := ok_or (Height_new (revision_number height) (to_uint 8 1)) (ClientSpecific "Failed to get height") in
  let? client := get_client (ClientSpecific "Failed to get client") (ClientStateNotFound client_id) b ctx client_id in
  let states := Cl_consensus_states client in
  let? it := with_err (ClientSpecific "Failed to get bounds")
    (Map_range states (Included (EpochHeight_from end_height)) (Excluded (EpochHeight_from height))) in
  match (MapIter_next_back b states it).1 with
  | Ok o => Ok ((fun kv => Tendermint (WCS_inner (Ref_deref kv.2))) <$> o)
  | Err _ => Err (ClientSpecific "error of the iteration")
  | Panic w => Panic w
  end.

(** [for entry in map.iter()? { let (k, v) = entry?; .. }]: the loop pushes what [f] makes
    of the entries; [me] is what becomes of the iteration's errors. *)
Section Loop.
Context {K V A : Type} `{Encode K} `{Decode K} {SV : State St V} (me : Error -> Error) (f : K -> V -> res (list A)).
Fixpoint for_entries (n : nat) b (m : Map K V) (it : MapIter) : res (list A) :=
  match n with
  | O => Panic "out of fuel"
  | S n =>
      match MapIter_next b m it with
      | (Ok None, _) => Ok []
      | (Ok (Some (key, value)), it) =>
          let? x := f (Ref_deref key) (Ref_deref value) in
          let? l := for_entries n b m it in
          Ok (x ++ l)
      | (Err e, _) => Err (me e)
      | (Panic w, _) => Panic w
      end
  end.
(** Every turn takes an entry from memory or from the store. *)
Definition over_map b (m : Map K V) : res (list A) :=
  match Map_iter m with
  | Ok it => for_entries (S (length (Map_children m) + entry_bound b)) b m it
  | Err e => Err (me e)
  | Panic w => Panic w
  end.
End Loop.

Definition consensus_state_heights b ctx (client_id : ClientId) : res (list Height) :=
  let failed := ClientSpecific "Unable to get consensus state" in
  let? client := get_client failed (ClientStateNotFound client_id) b ctx client_id in
  over_map (fun _ => failed) (fun k _ => let? h := ok_or (Height_from_str (ETS_0 k)) InvalidHeight in Ok [h]) b (Cl_consensus_states client).
End Clients.

(** ** The host (impls.rs) *)

(** What the beginning of a block reads of the header's protobuf message. *)
Class IbcMessages `{PluginMessages} := {
  Header_app_hash : Header -> bytes;
  Header_next_validators_hash : Header -> bytes
}.

Section Host.
Context `{Profile} `{CompatMode} `{IbcRs} {St : Type} `{Read St} `{!Write St} `{!Bounded St}.
Implicit Types (b : St) (ctx : IbcContext) (c : ContextMap).

Definition MAX_HOST_CONSENSUS_STATES : Z := 100000.

(** [while self.host_consensus_states.len() > MAX { pop_front()? }]: every turn makes the
    queue shorter. *)
Fixpoint trim_host_states (n : nat) b : M (Deque WrappedConsensusState) unit :=
  match n with
  | O => panicM "out of fuel"
  | S n =>
      do len <- readM Deque_len;
      if MAX_HOST_CONSENSUS_STATES <? len then run Deque_pop_front b; trim_host_states n b else retM tt
  end.
Definition record_host_state b (s : TmConsensusState) : M (Deque WrappedConsensusState) unit :=
  run Deque_push_back (St := St) (mkWrappedConsensusState s);
  do n <- readM (fun d => Ok (S (Z.to_nat (dtail d - dhead d))));
  trim_host_states n b.
Definition IbcContext_begin_block `{IMs : IbcMessages} b (block : BeginBlockCtx) : IM unit :=
  run (fun x => (Ok tt, set_height (to_uint 8 (BB_height block)) x));
  do timestamp <- liftM match Header_time (BB_header block) with
                        | Some timestamp =>
                            ok_or (from_unix_timestamp (Timestamp_seconds timestamp) (Timestamp_nanos timestamp mod 2 ^ 32))
                              (EIbc "Invalid timestamp")
                        | None => Err (ETendermint "Missing timestamp")
                        end;
  match Header_app_hash (BB_header block) with
  | [] => retM tt
  | app_hash =>
      let hash := Header_next_validators_hash (BB_header block) in
      run liftM (if (length hash =? 32)%nat then Ok tt else Err (ETendermint "Invalid hash"));
      in_host_consensus_states (record_host_state b (TmConsensusState_new app_hash timestamp hash))
  end.

(** *** [ValidationContext] *)

Definition validate_message_signer c ctx (signer : IbcSigner) : res unit :=
  let? s := ok_or (Context_resolve (T := Signer) c) (InvalidSigner "Invalid signer") in
  let? expected_signer := ok_or (Signer_signer s) (InvalidSigner "Missing signer") in
  let? actual_signer := with_err (InvalidSigner "Invalid signer") (Address_try_from_signer signer) in
  if decide (expected_signer = actual_signer) then Ok tt else Err (InvalidSigner "Invalid signer").

(** [rsplit_once('-')]: what follows the last separator. *)
Fixpoint rsplit_once (sep : Z) (s : RString) : option (RString * RString) :=
  match s with
  | [] => None
  | x :: s =>
      match rsplit_once sep s with
      | Some (l, r) => Some (x :: l, r)
      | None => if x =? sep then Some ([], s) else None
      end
  end.
Definition host_revision (chain_id : RString) : u64 :=
  match rsplit_once 45 chain_id with
  | Some (_, n) => match u64_from_str n with Some n => n | None => to_uint 8 0 end
  | None => to_uint 8 0
  end.
Definition host_height c ctx : res Height :=
  let? chain_id := ok_or (Context_resolve (T := ChainId) c) (ClientSpecific "Missing chain ID context") in
  ok_or (Height_new (host_revision (ChainId_0 chain_id)) (height ctx)) InvalidHeight.
Definition host_consensus_state b ctx (h : Height) : res TmConsensusState :=
  let? len := Deque_len (host_consensus_states ctx) in
  let? last := u64_sub len 1 in
  let? age := u64_sub (uint_val (height ctx)) (uint_val (revision_height h)) in
  let? index := u64_sub last age in
  let? o := with_err (ClientSpecific "Unable to get host consensus state") (Deque_get b (host_consensus_states ctx) index) in
  let? r := unwrap o unwrap_none in
  Ok (WCS_inner (Ref_deref r)).
Definition host_timestamp b c ctx : res IbcTimestamp :=
  let? host_height := host_height c ctx in
  let? host_cons_state := host_consensus_state b ctx host_height in
  ok_or (Time_to_Timestamp (TmConsensusState_timestamp host_cons_state)) (ClientOther "Invalid timestamp").
Definition connection_end b ctx (conn_id : ConnectionId) : res ConnectionEnd :=
  let? o := with_err ImplementationSpecific (Map_get b (connections ctx) (ConnectionIdKey_from conn_id)) in
  let? r := ok_or o (ConnectionNotFound conn_id) in
  Ok (inner (Ref_deref r)).
Definition validate_self_client : res unit := Ok tt.
Definition commitment_prefix : bytes := lit "ibc".
Definition get_client_counter ctx : res u64 := Ok (client_counter ctx).
Definition get_connection_counter ctx : res u64 := Ok (connection_counter ctx).
Definition get_channel_counter ctx : res u64 := Ok (channel_counter ctx).
(** in seconds *)
Definition max_expected_time_per_block : Z := 8.
Definition channel_end b ctx (path : ChannelPath) : res ChannelEnd :=
  let? o := with_err ImplementationSpecific (Map_get b (channel_ends ctx) (PortChannel_from path)) in
  let? r := ok_or o MissingChannel in
  Ok (inner (Ref_deref r)).
Definition get_next_sequence b (m : Map PortChannel Number) (path : ChannelPath) : res Sequence :=
  let? o := with_err ImplementationSpecific (Map_get b m (PortChannel_from path)) in
  let? r := ok_or o ImplementationSpecific in
  Ok (Sequence_from (ETS_into_inner (Ref_deref r))).
Definition get_next_sequence_send b ctx : ChannelPath -> res Sequence := get_next_sequence b (next_sequence_send ctx).
Definition get_next_sequence_recv b ctx : ChannelPath -> res Sequence := get_next_sequence b (next_sequence_recv ctx).
Definition get_next_sequence_ack b ctx : ChannelPath -> res Sequence := get_next_sequence b (next_sequence_ack ctx).
(** [PacketCommitment] and [AcknowledgementCommitment] are their bytes. *)
Definition get_packet_commitment b ctx (path : PacketPath) : res (list u8) :=
  let? o := with_err ImplementationSpecific (Map_get b (commitments ctx) (PortChannelSequence_from path)) in
  let? r := ok_or o ImplementationSpecific in
  Ok (Ref_deref r).
(** [Receipt::Ok] *)
Definition get_packet_receipt b ctx (path : PacketPath) : res unit :=
  let? o := with_err ImplementationSpecific (Map_get b (receipts ctx) (PortChannelSequence_from path)) in
  let? r := ok_or o (PacketReceiptNotFound (path_sequence path)) in
  Ok tt.
Definition get_packet_acknowledgement b ctx (path : PacketPath) : res (list u8) :=
  let? o := with_err ImplementationSpecific (Map_get b (acks ctx) (PortChannelSequence_from path)) in
  let? r := ok_or o (PacketAcknowledgementNotFound (path_sequence path)) in
  Ok (Ref_deref r).

(** *** [ExecutionContext] *)

(** [self.counter += 1] *)
Definition increase (get : IbcContext -> u64) (set : u64 -> IbcContext -> IbcContext) : IM unit := fun ctx =>
  match u64_add (uint_val (get ctx)) 1 with
  | Ok n => (Ok tt, set (to_uint 8 n) ctx)
  | Err e => (Err e, ctx)
  | Panic w => (Panic w, ctx)
  end.
Definition increase_client_counter : IM unit := increase client_counter set_client_counter.
Definition increase_connection_counter : IM unit := increase connection_counter set_connection_counter.
Definition increase_channel_counter : IM unit := increase channel_counter set_channel_counter.
Definition store_connection (id : ConnectionId) (e : ConnectionEnd) : IM unit :=
  in_connections (with_errM (ClientSpecific "Unable to store connection") (Map_insert (St := St) (ConnectionIdKey_from id) (mkNewtype e))).
Definition store_connection_to_client b (client_id : ClientId) (conn_id : ConnectionId) : IM unit :=
  in_client_or_default (ClientSpecific "Unable to find client connection path") b client_id
    (in_client_connections (Map_insert (St := St) (ConnectionIdKey_from conn_id) tt)).
Definition store_packet_commitment (path : PacketPath) (commitment : list u8) : IM unit :=
  in_commitments (with_errM ImplementationSpecific (Map_insert (St := St) (PortChannelSequence_from path) commitment)).
Definition delete_packet_commitment b (path : PacketPath) : IM unit :=
  run in_commitments (with_errM ImplementationSpecific (Map_remove b (PortChannelSequence_from path))); retM tt.
Definition store_packet_receipt (path : PacketPath) : IM unit :=
  in_receipts (with_errM ImplementationSpecific (Map_insert (St := St) (PortChannelSequence_from path) (to_uint 1 1))).
Definition store_packet_acknowledgement (path : PacketPath) (ack_commitment : list u8) : IM unit :=
  in_acks (with_errM ImplementationSpecific (Map_insert (St := St) (PortChannelSequence_from path) ack_commitment)).
Definition delete_packet_acknowledgement b (path : PacketPath) : IM unit :=
  run in_acks (with_errM ImplementationSpecific (Map_remove b (PortChannelSequence_from path))); retM tt.
Definition store_channel (path : ChannelPath) (e : ChannelEnd) : IM unit :=
  in_channel_ends (with_errM ImplementationSpecific (Map_insert (St := St) (PortChannel_from path) (mkNewtype e))).
Definition store_next_sequence (path : ChannelPath) (seq : Sequence) : M (Map PortChannel Number) unit :=
  with_errM ImplementationSpecific (Map_insert (St := St) (PortChannel_from path) (Number_from_Sequence seq)).
Definition store_next_sequence_send (path : ChannelPath) (seq : Sequence) : IM unit := in_next_sequence_send (store_next_sequence path seq).
Definition store_next_sequence_recv (path : ChannelPath) (seq : Sequence) : IM unit := in_next_sequence_recv (store_next_sequence path seq).
Definition store_next_sequence_ack (path : ChannelPath) (seq : Sequence) : IM unit := in_next_sequence_ack (store_next_sequence path seq).

(** Events and log messages go to the contexts, when they are there. *)
Definition emit_ibc_event (event : IbcEvent) : M ContextMap unit := fun c =>
  match Context_resolve (T := Events) c with
  | None => (Ok tt, c)
  | Some _ =>
      match IbcEvent_try_into event with
      | None => (Ok tt, c)
      | Some e =>
          Context_call EUnknown (Events_add (mkEvent (Event_type e)
            (map (fun a => mkEventAttribute (EA_key a) (EA_value a) true) (Event_attributes e)))) c
      end
  end.
Definition log_message (message : string) : M ContextMap unit := fun c =>
  match Context_resolve (T := Logs) c with
  | None => (Ok tt, c)
  | Some _ => Context_call EUnknown (Logs_add message) c
  end.
End Host.
