(* ===== verification/IbcTransfer.v ===== *)
(** * Token transfers and the IBC module (src/ibc/transfer.rs, router.rs, messages.rs, mod.rs)

    [Transfer] holds the balances that came and went over IBC, per denomination and
    address, and executes what the ICS-20 application of [ibc-rs] decides: taking coins
    into escrow and back out, burning and minting. [Ibc] puts the host state, the router
    and the delivery of messages together. *)

From stdpp Require Import base tactics numbers list strings gmap.
From Stdlib Require Import ZArith Lia.
From S2P Require Import Prelude Bytes BTree StoreIface StoreIter NullStore BufStore PrefixStore Codec StateIface Next StructState Utf8 Encoding SimpleState MapColl MapSpec MapProps MapCall MapIter Fields Address DequeColl Coins AbciTypes Context Plugins AbciStore AbciPlugin IbcTypes IbcContext.
#[local] Open Scope Z_scope.

(** ** What [ibc-rs] supplies *)

Record ModuleEvent := mkModuleEvent { ME_kind : RString; ME_attributes : list (RString * RString) }.
Record ModuleExtras := mkModuleExtras { MX_events : list ModuleEvent; MX_log : list RString }.
Definition ModuleExtras_empty : ModuleExtras := mkModuleExtras [] [].

Class Ics20 `{IbcRs} := {
  PrefixedDenom : Type; #[global] PrefixedDenom_Textual :: Textual PrefixedDenom;
  remove_trace_prefix : PortId -> ChannelId -> PrefixedDenom -> PrefixedDenom;
  is_receiver_chain_source : PortId -> ChannelId -> PrefixedDenom -> bool;
  (** a 256-bit amount *)
  IbcAmount : Type; IbcAmount_to_string : IbcAmount -> RString; IbcAmount_from_u64 : u64 -> IbcAmount;
  (** the packet, and the transfer its data decodes to *)
  Packet : Type; packet_data : Packet -> bytes; port_id_on_a : Packet -> PortId; chan_id_on_a : Packet -> ChannelId;
  PacketData : Type; PacketData_from_slice : bytes -> option PacketData; token_denom : PacketData -> PrefixedDenom;
  Acknowledgement : Type;
  (** the escrow address of ADR 28, and the text of an account id made of it *)
  cosmos_adr028_escrow_address : PortId -> ChannelId -> bytes;
  AccountId_new : RString -> bytes -> option RString;
  (** the arguments of the channel handshake *)
  OpenArgs : Type; VERSION : RString; MODULE_ID_STR : RString;
  (** messages *)
  MsgTransfer : Type; #[global] MsgTransfer_Protobuf :: Protobuf MsgTransfer; MsgTransfer_sender : MsgTransfer -> IbcSigner;
  MsgEnvelope : Type; Any : Type; MsgEnvelope_try_from : Any -> option MsgEnvelope; MsgTransfer_try_from : Any -> option MsgTransfer;
  (** the client id and the client message of [MsgEnvelope::Client(ClientMsg::UpdateClient(msg))] *)
  update_client : MsgEnvelope -> option (ClientId * Any); Header_try_from : Any -> option IbcHeader;
  CosmosTx : Type; CosmosTx_from_bytes : bytes -> option CosmosTx; CosmosTx_messages : CosmosTx -> list Any
}.

(** ** [Transfer] *)

Abbreviation Denom := (LengthVec u8 u8).
Definition ACCOUNT_PREFIX : RString := lit "nomic".

(** The variants of [TokenTransferError] that are built here, as what they become in an
    error of this crate. *)
Definition ParseAccountFailure : Error := EIbc "ParseAccountFailure".
Definition InvalidToken : Error := EIbc "InvalidToken".

Section Data.
Context `{Profile} `{CompatMode} `{Ics20}.
Record PrefixedCoin := mkPrefixedCoin { coin_denom : PrefixedDenom; coin_amount : IbcAmount }.
Record TransferInfo := mkTransferInfo {
  TI_denom : PrefixedDenom;
  TI_amount : u64;
  TI_sender : RString;
  TI_receiver : RString;
  TI_memo : RString
}.
Record Transfer := mkTransfer {
  accounts : Map Denom (Map Address Amount);
  incoming_transfer : option TransferInfo
}.
#[export] Instance TransferInfo_Default : Default (option TransferInfo) := None.
#[export] Instance Transfer_Derived : Derived Transfer 0 (FCons (Map Denom (Map Address Amount)) (FCons (Skip (option TransferInfo)) FNil)).
Proof.
  refine {| to_fields := fun t => fcons (accounts t) (fcons (mkSkip (incoming_transfer t)) fnil);
            of_fields := fun '(fcons a (fcons i _)) => mkTransfer a (skipped i) |}; [by intros []|by intros [? [[?] []]]].
Defined.
Record IbcRouter := mkIbcRouter { router_transfer : Transfer }.
#[export] Instance IbcRouter_Derived : Derived IbcRouter 0 (FCons Transfer FNil).
Proof.
  refine {| to_fields := fun r => fcons (router_transfer r) fnil; of_fields := fun f => mkIbcRouter (fhead f) |}; [by intros []|by intros [? []]].
Defined.
Record Ibc := mkIbc { Ibc_ctx : IbcContext; Ibc_router : IbcRouter }.
#[export] Instance Ibc_Derived : Derived Ibc 3 (FCons IbcContext (FCons IbcRouter FNil)).
Proof.
  refine {| to_fields := fun i => fcons (Ibc_ctx i) (fcons (Ibc_router i) fnil);
            of_fields := fun '(fcons c (fcons r _)) => mkIbc c r |}; [by intros []|by intros [? [? []]]].
Defined.
Context {St : Type} `{Read St} `{!Write St} `{!Bounded St}.
#[export] Instance Transfer_State : State St Transfer := derived_State (D := Transfer_Derived).
#[export] Instance IbcRouter_State : State St IbcRouter := derived_State (D := IbcRouter_Derived).
#[export] Instance Ibc_State : State St Ibc := derived_State (D := Ibc_Derived).
End Data.

Section TransferOps.
Context `{Profile} `{CompatMode} `{Ics20} {St : Type} `{Read St} `{!Write St} `{!Bounded St}.
Implicit Types (b : St) (t : Transfer).

Definition in_accounts {A} (f : M (Map Denom (Map Address Amount)) A) : M Transfer A :=
  zoomM accounts (fun m t => mkTransfer m (incoming_transfer t)) f.
Definition set_incoming (i : option TransferInfo) : M Transfer unit := fun t => (Ok tt, mkTransfer (accounts t) i).

(** A denomination without a map reads as a default map, whose store is empty. *)
Definition Transfer_balance b t (address : Address) (denom : Denom) : res Amount :=
  let? o := Map_get b (accounts t) denom in
  let? r := match o with
            | Some denom_balances => Map_get b (Ref_deref denom_balances) address
            | None => Map_get mkEmpty (Map_new (K := Address) (V := Amount)) address
            end in
  Ok (match r with Some balance => Ref_deref balance | None => Amount_of 0 end).
Definition Transfer_symbol_balance `{Symbol} b t (address : Address) : res Amount :=
  let? denom := LengthVec_try_from_string (lit NAME) in
  Transfer_balance b t address denom.
Definition get_escrow_account (port_id : PortId) (channel_id : ChannelId) : res Address :=
  let? account_id := ok_or (AccountId_new ACCOUNT_PREFIX (cosmos_adr028_escrow_address port_id channel_id)) ParseAccountFailure in
  ok_or (Address_from_str account_id) ParseAccountFailure.

(** *** [TokenTransferValidationContext] *)
Definition get_port : res PortId := Ok PortId_transfer.
Definition can_send_coins : res unit := Ok tt.
Definition can_receive_coins : res unit := Ok tt.
Definition mint_coins_validate (_ : Address) (_ : PrefixedCoin) : res unit := Ok tt.
Definition burn_coins_validate (_ : Address) (_ : PrefixedCoin) : res unit := Ok tt.
Definition escrow_coins_validate (_ : Address) (_ : PortId) (_ : ChannelId) (_ : PrefixedCoin) : res unit := Ok tt.
Definition unescrow_coins_validate (_ : Address) (_ : PortId) (_ : ChannelId) (_ : PrefixedCoin) : res unit := Ok tt.

(** *** [TokenTransferExecutionContext] *)
Definition Denom_try_from (value : PrefixedDenom) : res Denom := LengthVec_try_from_string (to_string value).
Definition Amount_try_from (value : IbcAmount) : res Amount :=
  let? amount := ok_or (u64_from_str (IbcAmount_to_string value)) (EParseInt "invalid digit or out of range") in
  Ok (Amount_new amount).
(** [From<crate::Error> for TokenTransferError] *)
Definition transfer_res {A} (r : res A) : res A := with_err InvalidToken r.
Definition transfer_denom (coin : PrefixedCoin) : res Denom := transfer_res (Denom_try_from (coin_denom coin)).
Definition transfer_amount (coin : PrefixedCoin) : res Amount := transfer_res (Amount_try_from (coin_amount coin)).

(** [let mut balance = balances.entry(account)?.or_default()?;] and the assignment of the
    difference, or of the sum, through the reference; [.result()?] of it. *)
Definition debit b (account : Address) (amount : Amount) : M (Map Address Amount) unit :=
  Map_or_default_assign (Amount_of 0) b account (fun balance => MathResult_result (Amount_sub balance amount)).
Definition credit b (account : Address) (amount : Amount) : M (Map Address Amount) unit :=
  Map_or_default_assign (Amount_of 0) b account (fun balance => MathResult_result (Amount_add balance amount)).
(** [let mut denom_balances = self.accounts.entry(denom)?.or_default()?;], then [f] on it
    once [amount] is known. *)
Definition with_denom {A} b (denom : Denom) (amount : res Amount) (f : Amount -> M (Map Address Amount) A) : M Transfer A :=
  in_accounts (with_errM InvalidToken
    (do e <- Map_entry b denom;
     do denom_balances <- Entry_or_default (St := St) Map_new e;
     do amount <- liftM amount;
     ChildMut_call denom_balances (f amount))).

Definition burn_coins_execute b (account : Address) (coin : PrefixedCoin) : M Transfer unit :=
  do denom <- liftM (transfer_denom coin);
  do amount <- liftM (transfer_amount coin);
  with_denom b denom (Ok amount) (debit b account).
Definition mint_coins_execute b (account : Address) (coin : PrefixedCoin) : M Transfer unit :=
  do denom <- liftM (transfer_denom coin);
  do amount <- liftM (transfer_amount coin);
  with_denom b denom (Ok amount) (credit b account).
Definition escrow_coins_execute b (from_account : Address) (port_id : PortId) (channel_id : ChannelId) (coin : PrefixedCoin)
  : M Transfer unit :=
  do escrow_address <- liftM (get_escrow_account port_id channel_id);
  do denom <- liftM (transfer_denom coin);
  with_denom b denom (transfer_amount coin) (fun amount =>
    run debit b from_account amount;
    credit b escrow_address amount).
Definition unescrow_coins_execute b (to_account : Address) (port_id : PortId) (channel_id : ChannelId) (coin : PrefixedCoin)
  : M Transfer unit :=
  do escrow_address <- liftM (get_escrow_account port_id channel_id);
  do amount <- liftM (transfer_amount coin);
  do denom <- liftM (transfer_denom coin);
  with_denom b denom (Ok amount) (fun amount =>
    run debit b escrow_address amount;
    credit b to_account amount).
Definition PrefixedCoin_from `{Symbol} (value : Coin) : res PrefixedCoin :=
  let? denom := unwrap (from_str (lit NAME)) "called `Result::unwrap()` on an `Err` value" in
  Ok (mkPrefixedCoin denom (IbcAmount_from_u64 (only_field (Coin_amount value)))).
End TransferOps.

(** ** [impl Module for Transfer]

    The functions of the ICS-20 application of [ibc-rs] run on the transfer context. *)
Class Ics20Module `{Ics20} := {
  ics20_chan_open_init_validate : Transfer -> OpenArgs -> res unit;
  ics20_chan_open_init_execute : OpenArgs -> M Transfer (ModuleExtras * RString);
  ics20_chan_open_try_validate : Transfer -> OpenArgs -> res unit;
  ics20_chan_open_try_execute : OpenArgs -> M Transfer (ModuleExtras * RString);
  ics20_recv_packet_execute : Packet -> M Transfer (ModuleExtras * Acknowledgement);
  ics20_acknowledgement_packet_validate : Transfer -> Packet -> Acknowledgement -> res unit;
  ics20_timeout_packet_validate : Transfer -> Packet -> res unit;
  ics20_timeout_packet_execute : Packet -> M Transfer (ModuleExtras * res unit)
}.

Section Module.
Context `{IM : Ics20Module}.
Implicit Types (t : Transfer) (packet : Packet).
(** [.map_err(|e| AppModule { description: e.to_string() })] *)
Definition AppModule : Error := EIbcContext "AppModule".

Definition on_chan_open_init_validate t (args : OpenArgs) : res RString :=
  let? _ := with_err AppModule (ics20_chan_open_init_validate t args) in Ok VERSION.
Definition on_chan_open_init_execute (args : OpenArgs) : M Transfer (ModuleExtras * RString) :=
  with_errM AppModule (ics20_chan_open_init_execute args).
Definition on_chan_open_try_validate t (args : OpenArgs) : res RString :=
  let? _ := with_err AppModule (ics20_chan_open_try_validate t args) in Ok VERSION.
Definition on_chan_open_try_execute (args : OpenArgs) : M Transfer (ModuleExtras * RString) :=
  with_errM AppModule (ics20_chan_open_try_execute args).

(** The event of a transfer that succeeded, and what it says of the transfer. *)
Definition is_success (event : ModuleEvent) : bool :=
  bool_decide (ME_kind event = lit "fungible_token_packet") &&
  existsb (fun a => bool_decide (a = (lit "success", lit "true"))) (ME_attributes event).
Definition get_attr (event : ModuleEvent) (key : string) : res RString :=
  ok_or (snd <$> List.find (fun a => bool_decide (a.1 = lit key)) (ME_attributes event))
    (EIbc ("Missing transfer event attribute " +:+ key)).
Definition transfer_info packet (data : PacketData) (event : ModuleEvent) : res TransferInfo :=
  let denom := remove_trace_prefix (port_id_on_a packet) (chan_id_on_a packet) (token_denom data) in
  let? amount := get_attr event "amount" in
  let? amount := ok_or (u64_from_str amount) (EParseInt "invalid digit or out of range") in
  let? memo := get_attr event "memo" in
  let? receiver := get_attr event "receiver" in
  let? sender := get_attr event "sender" in
  Ok (mkTransferInfo denom amount sender receiver memo).
(** What the packet that was received is remembered as, if anything; an event that lacks
    an attribute counts as none. *)
Definition incoming_of packet (extras : ModuleExtras) : option TransferInfo :=
  match PacketData_from_slice (packet_data packet) with
  | Some data =>
      if is_receiver_chain_source (port_id_on_a packet) (chan_id_on_a packet) (token_denom data)
      then match List.find is_success (MX_events extras) with
           | Some event => match transfer_info packet data event with Ok info => Some info | _ => None end
           | None => None
           end
      else None
  | None => None
  end.
Definition on_recv_packet_execute packet : M Transfer (ModuleExtras * Acknowledgement) :=
  do r <- ics20_recv_packet_execute packet;
  run match incoming_of packet r.1 with Some info => set_incoming (Some info) | None => retM tt end;
  retM r.
Definition on_acknowledgement_packet_validate t packet (acknowledgement : Acknowledgement) : res unit :=
  with_err AppModule (ics20_acknowledgement_packet_validate t packet acknowledgement).
Definition on_acknowledgement_packet_execute (_ : Packet) (_ : Acknowledgement) : M Transfer (ModuleExtras * res unit) :=
  retM (ModuleExtras_empty, Ok tt).
Definition on_timeout_packet_validate t packet : res unit := with_err AppModule (ics20_timeout_packet_validate t packet).
Definition on_timeout_packet_execute packet : M Transfer (ModuleExtras * res unit) :=
  do r <- ics20_timeout_packet_execute packet;
  retM (r.1, with_err AppModule r.2).

(** ** [IbcRouter] (router.rs): the only module is the transfer module. *)
Definition get_route (router : IbcRouter) (module_id : RString) : option Transfer :=
  if decide (module_id = MODULE_ID_STR) then Some (router_transfer router) else None.
(** [get_route_mut]: a method called on the route, if there is one. *)
Definition in_route {A} (module_id : RString) (f : M Transfer A) : M IbcRouter (option A) :=
  if decide (module_id = MODULE_ID_STR)
  then do a <- zoomM router_transfer (fun t _ => mkIbcRouter t) f; retM (Some a)
  else retM None.
Definition lookup_module (port_id : PortId) : option RString :=
  if decide (port_id = PortId_transfer) then Some MODULE_ID_STR else None.

(** ** Messages (messages.rs) *)
Inductive IbcMessage := MsgIcs20 (m : MsgTransfer) | MsgIcs26 (m : MsgEnvelope).
Definition IbcMessage_from (msg : Any) : res IbcMessage :=
  match MsgEnvelope_try_from msg with
  | Some m => Ok (MsgIcs26 m)
  | None =>
      match MsgTransfer_try_from msg with
      | Some m => Ok (MsgIcs20 m)
      | None => Err (EIbc "Invalid IBC message")
      end
  end.
Fixpoint IbcMessages_from (l : list Any) : res (list IbcMessage) :=
  match l with
  | [] => Ok []
  | m :: l => let? x := IbcMessage_from m in let? xs := IbcMessages_from l in Ok (x :: xs)
  end.
Definition IbcTx_try_from (tx : CosmosTx) : res (list IbcMessage) := IbcMessages_from (CosmosTx_messages tx).
Definition IbcTx_try_from_bytes (bs : bytes) : res (list IbcMessage) :=
  let? tx := ok_or (CosmosTx_from_bytes bs) (EIbc "Invalid IBC transaction bytes") in
  IbcTx_try_from tx.

(** [struct TransferMessage] with its codec *)
Record TransferMessage := mkTransferMessage { TM_inner : MsgTransfer }.
Definition TransferMessage_encode (m : TransferMessage) : res bytes := protobuf_encode (TM_inner m).
Definition TransferMessage_encoding_length (m : TransferMessage) : res nat :=
  let? buf := protobuf_encode (TM_inner m) in Ok (length buf).
Definition TransferMessage_decode (input : bytes) : res (TransferMessage * bytes) :=
  let? inner := protobuf_decode input in Ok (mkTransferMessage inner, []).
End Module.

(** ** [Ibc] (mod.rs) *)

(** The entry points of [ibc-rs]: their handlers run on the host state, the router and the
    contexts. *)
Class Handlers `{Ics20} := {
  dispatch : MsgEnvelope -> M ((IbcContext * IbcRouter) * ContextMap) unit;
  send_transfer : MsgTransfer -> M ((IbcContext * Transfer) * ContextMap) unit
}.

Section IbcOps.
Context `{Profile} `{CompatMode} `{HI : Ics20} `{HH : !Handlers} {St : Type} `{Read St} `{!Write St} `{!Bounded St}.
Implicit Types (b : St).
Abbreviation IbcM := (M (Ibc * ContextMap)).

Definition handler_error : Error := EIbc "error of the handler".
Definition run_dispatch (msg : MsgEnvelope) : IbcM unit :=
  with_errM handler_error (zoomM (fun p => ((Ibc_ctx p.1, Ibc_router p.1), p.2)) (fun s _ => (mkIbc s.1.1 s.1.2, s.2)) (dispatch msg)).
Definition run_send_transfer (msg : MsgTransfer) : IbcM unit :=
  with_errM handler_error
    (zoomM (fun p => ((Ibc_ctx p.1, router_transfer (Ibc_router p.1)), p.2)) (fun s _ => (mkIbc s.1.1 (mkIbcRouter s.1.2), s.2)) (send_transfer msg)).
Definition in_ctx {A} (f : M IbcContext A) : IbcM A := zoomM (fun p => Ibc_ctx p.1) (fun c p => (mkIbc c (Ibc_router p.1), p.2)) f.
Definition in_transfer {A} (f : M Transfer A) : IbcM A :=
  zoomM (fun p => router_transfer (Ibc_router p.1)) (fun t p => (mkIbc (Ibc_ctx p.1) (mkIbcRouter t), p.2)) f.
Definition take_incoming : M Transfer (option TransferInfo) := fun t => (Ok (incoming_transfer t), mkTransfer (accounts t) None).

Definition deliver_message b (message : IbcMessage) : IbcM (option TransferInfo) :=
  let maybe_client_update := match message with MsgIcs26 msg => update_client msg | MsgIcs20 _ => None end in
  run match message with
      | MsgIcs26 msg => run_dispatch msg
      | MsgIcs20 msg => run_send_transfer msg
      end;
  run match maybe_client_update with
      | Some (client_id, client_message) =>
          match Header_try_from client_message with
          | Some header =>
              in_ctx (in_clients (Map_get_mut_call (EIbc "Expected client") b (ClientIdKey_from client_id) (set_last_header header)))
          | None => retM tt
          end
      | None => retM tt
      end;
  in_transfer take_incoming.
Fixpoint deliver_messages b (messages : list IbcMessage) : IbcM (list TransferInfo) :=
  match messages with
  | [] => retM []
  | message :: messages =>
      do incoming <- deliver_message b message;
      do rest <- deliver_messages b messages;
      retM (match incoming with Some i => i :: rest | None => rest end)
  end.
Definition Ibc_deliver b (messages : CosmosTx) : IbcM (list TransferInfo) :=
  do messages <- liftM (IbcTx_try_from messages);
  deliver_messages b messages.
Definition Ibc_signer : IbcM Address :=
  readM (fun p =>
    let? s := ok_or (Context_resolve (T := Signer) p.2) (ECoins "No Signer context available") in
    ok_or (Signer_signer s) (ECoins "Call must be signed")).
Definition raw_transfer b (message : TransferMessage) : IbcM unit :=
  let message := TM_inner message in
  do sender_addr <- liftM (Address_try_from_signer (MsgTransfer_sender message));
  do signer <- Ibc_signer;
  if decide (signer = sender_addr) then run deliver_message b (MsgIcs20 message); retM tt
  else errM (EIbc "Transfers must be signed by the sender").
Definition Ibc_begin_block `{IMs : IbcMessages} b (block : BeginBlockCtx) : M Ibc unit :=
  zoomM Ibc_ctx (fun c i => mkIbc c (Ibc_router i)) (IbcContext_begin_block b block).
End IbcOps.
