(* ===== verification/IbcQuery.v ===== *)
(** * Queries of the IBC host (src/ibc/query.rs)

    What relayers ask of the host state, over the maps of [IbcContext]; the proofs of raw
    queries come from the backing store and are a parameter. *)

From stdpp Require Import base tactics numbers list strings gmap.
From Stdlib Require Import ZArith Lia.
From S2P Require Import Prelude Bytes BTree StoreIface StoreIter NullStore BufStore PrefixStore Codec StateIface Next StructState Utf8 Encoding SimpleState MapColl MapSpec MapProps MapCall MapIter Fields Address DequeColl Coins AbciTypes Context Plugins AbciStore AbciPlugin IbcTypes IbcContext.
#[local] Open Scope Z_scope.

Definition IBC_QUERY_PATH : RString := lit "store/ibc/key".

(** The protobuf messages that are answered, and the proofs. *)
Class IbcProto (St : Type) `{IbcRs} := {
  RawConnectionEnd : Type; RawConnectionEnd_from : ConnectionEnd -> RawConnectionEnd;
  RawChannel : Type; RawChannel_from : ChannelEnd -> RawChannel; RawChannel_connection_hops : RawChannel -> list RString;
  IbcPath : Type; IbcPath_parse : RString -> option IbcPath; IbcPath_into_bytes : IbcPath -> bytes;
  (** the outer proof for "ibc" and the inner proof of the key *)
  ProofOps : Type; create_proofs : St -> bytes -> res ProofOps;
  ClientStatus : Type; client_status : St -> TmClientState -> IbcContext -> ClientId -> option ClientStatus
}.

Section Queries.
Context `{Profile} `{CompatMode} `{IbcRs} {St : Type} `{Read St} `{!Write St} `{!Bounded St} `{!IbcProto St}.
Implicit Types (b : St) (ctx : IbcContext).

(** [ResponseQuery], the fields that are filled in. *)
Record IbcResponse := mkIbcResponse { IR_code : Z; IR_key : bytes; IR_value : bytes; IR_proof_ops : ProofOps; IR_height : Z }.
Definition Ibc_abci_query b ctx (req_path : RString) (req_data : bytes) : res IbcResponse :=
  if negb (bool_decide (req_path = IBC_QUERY_PATH)) then Err (EIbc "Invalid query path")
  else
    let? data := ok_or (from_utf8 req_data) (EIbc "Invalid query data encoding") in
    let? path := ok_or (IbcPath_parse data) (EIbc "Invalid query data") in
    let? o := Store_get (ctx_store ctx) b req_data in
    let value_bytes := match o with Some v => v | None => [] end in
    let? proofs := create_proofs b (IbcPath_into_bytes path) in
    Ok (mkIbcResponse 0 req_data value_bytes proofs (wrap_i64 (uint_val (height ctx)))).

Definition query_height ctx : res u64 := Ok (height ctx).
Record IdentifiedClientState := mkIdentifiedClientState { IS_client_id : RString; IS_client_state : TmClientState }.
Definition query_client_states b ctx : res (list IdentifiedClientState) :=
  over_map id (fun i client =>
    over_map id (fun _ s => Ok [mkIdentifiedClientState (to_string (BTS_0 i)) (inner s)]) b (Cl_client_state client)) b (clients ctx).

Definition query_client b ctx (client_id : ClientIdKey) : res Client :=
  let? o := Map_get b (clients ctx) client_id in
  let? r := ok_or o (EIbc "Client not found") in
  Ok (Ref_deref r).
Record ConsensusStateWithHeight := mkConsensusStateWithHeight { CH_height : Height; CH_consensus_state : TmConsensusState }.
Definition query_consensus_state b ctx (client_id : ClientIdKey) (revision_number revision_height : u64) : res ConsensusStateWithHeight :=
  let? client := query_client b ctx client_id in
  let? height := ok_or (Height_new revision_number revision_height) (EIbc "Invalid height") in
  let? o := Map_get b (Cl_consensus_states client) (EpochHeight_from height) in
  let? s := ok_or o (EIbc "Consensus state not found") in
  Ok (mkConsensusStateWithHeight height (WCS_inner (Ref_deref s))).
Definition query_consensus_states b ctx (client_id : ClientIdKey) : res (list ConsensusStateWithHeight) :=
  let? client := query_client b ctx client_id in
  over_map id (fun height s =>
    let? height := Height_try_from height in
    Ok [mkConsensusStateWithHeight height (WCS_inner s)]) b (Cl_consensus_states client).

Definition query_connection b ctx (conn_id : ConnectionIdKey) : res (option ConnectionEnd) :=
  let? o := Map_get b (connections ctx) conn_id in
  Ok ((fun r => inner (Ref_deref r)) <$> o).
Record IdentifiedConnection := mkIdentifiedConnection { IN_id : RString; IN_connection : RawConnectionEnd }.
Definition query_all_connections b ctx : res (list IdentifiedConnection) :=
  over_map id (fun i c => Ok [mkIdentifiedConnection (to_string (ETS_0 i)) (RawConnectionEnd_from (inner c))]) b (connections ctx).
Definition query_client_connections b ctx (client_id : ClientIdKey) : res (list ConnectionIdKey) :=
  let? client := query_client b ctx client_id in
  over_map id (fun i _ => Ok [i]) b (Cl_connections client).

Definition query_channel b ctx (port_chan : PortChannel) : res (option RawChannel) :=
  let? o := Map_get b (channel_ends ctx) port_chan in
  Ok ((fun r => RawChannel_from (inner (Ref_deref r))) <$> o).
(** The fields taken over from the channel are kept together. *)
Record IdentifiedChannel := mkIdentifiedChannel {
  IH_port_id : RString; IH_channel_id : RString; IH_channel : RawChannel; IH_upgrade_sequence : Z
}.
Definition query_all_channels b ctx : res (list IdentifiedChannel) :=
  over_map id (fun path c =>
    Ok [mkIdentifiedChannel (to_string (BTS_0 (PC_1 path))) (to_string (ETS_0 (PC_3 path))) (RawChannel_from (inner c)) 0]) b (channel_ends ctx).
Definition query_connection_channels b ctx (conn_id : ConnectionIdKey) : res (list IdentifiedChannel) :=
  let? l := query_all_channels b ctx in
  Ok (List.filter (fun c => bool_decide (head (RawChannel_connection_hops (IH_channel c)) = Some (to_string (ETS_0 conn_id)))) l).

Record PacketState := mkPacketState { PS_port_id : RString; PS_channel_id : RString; PS_sequence : u64; PS_data : list u8 }.
Definition query_packet_commitments b ctx (port_chan : PortChannel) : res (list PacketState) :=
  over_map id (fun path data =>
    let? port := PortChannelSequence_port_id path in
    let? port' := PortChannel_port_id port_chan in
    let? other := (if decide (port = port') then
                     let? channel := PortChannelSequence_channel_id path in
                     let? channel' := PortChannel_channel_id port_chan in
                     Ok (negb (bool_decide (channel = channel')) || match data with [] => true | _ => false end)
                   else Ok true) in
    if other : bool then Ok []
    else
      let? port := PortChannelSequence_port_id path in
      let? channel := PortChannelSequence_channel_id path in
      let? sequence := PortChannelSequence_sequence path in
      let? n := ok_or (u64_from_str (to_string sequence)) (EParseInt "invalid digit or out of range") in
      Ok [mkPacketState (to_string port) (to_string channel) n data]) b (commitments ctx).

Fixpoint query_unreceived_packets b ctx (port_chan : PortChannel) (sequences : list u64) : res (list u64) :=
  match sequences with
  | [] => Ok []
  | sequence :: sequences =>
      let? path := PortChannel_with_sequence port_chan (Sequence_from sequence) in
      let? received := Map_contains_key b (receipts ctx) path in
      let? unreceived := query_unreceived_packets b ctx port_chan sequences in
      Ok (if received : bool then unreceived else sequence :: unreceived)
  end.
Fixpoint query_unreceived_acks b ctx (port_chan : PortChannel) (sequences : list u64) : res (list u64) :=
  match sequences with
  | [] => Ok []
  | sequence :: sequences =>
      let? path := PortChannel_with_sequence port_chan (Sequence_from sequence) in
      let? pending := Map_contains_key b (commitments ctx) path in
      let? unreceived := query_unreceived_acks b ctx port_chan sequences in
      Ok (if pending : bool then sequence :: unreceived else unreceived)
  end.
Fixpoint query_packet_acks b ctx (sequences : list u64) (port_chan : PortChannel) : res (list PacketState) :=
  match sequences with
  | [] => Ok []
  | seq :: sequences =>
      let? path := PortChannel_with_sequence port_chan (Sequence_from seq) in
      let? entry := Map_get b (acks ctx) path in
      let? ack := match Ref_deref <$> entry with
                  | Some (d :: data) =>
                      let? port := PortChannel_port_id port_chan in
                      let? channel := PortChannel_channel_id port_chan in
                      Ok [mkPacketState (to_string port) (to_string channel) seq (d :: data)]
                  | _ => Ok []
                  end in
      let? acks := query_packet_acks b ctx sequences port_chan in
      Ok (ack ++ acks)
  end.
Definition query_next_sequence b (m : Map PortChannel Number) (port_chan : PortChannel) : res u64 :=
  let? o := Map_get b m port_chan in
  let? sequence_string := ok_or o (EIbc "Sequence not found") in
  ok_or (u64_from_str (to_string (ETS_0 (Ref_deref sequence_string)))) (EParseInt "invalid digit or out of range").
Definition query_next_sequence_receive b ctx : PortChannel -> res u64 := query_next_sequence b (next_sequence_recv ctx).
Definition query_next_sequence_send b ctx : PortChannel -> res u64 := query_next_sequence b (next_sequence_send ctx).
Definition query_client_status b ctx (client_id : ClientIdKey) : res ClientStatus :=
  let? client := query_client b ctx client_id in
  let? o := Map_get b (Cl_client_state client) mkFixedString in
  let? s := ok_or o (EIbc "Client not found") in
  ok_or (client_status b (inner (Ref_deref s)) ctx (BTS_0 client_id)) (EIbc "status").
End Queries.
