(* ===== verification/IbcSpec.v ===== *)
(** * The host state under its paths

    The paths of channels and packets as keys: what they are, when one begins another and
    how they are read back. Then the operations of the host on what is kept under paths,
    against a view of partial functions, and what flushing a deletion removes. *)

From stdpp Require Import base tactics numbers list strings gmap.
From Stdlib Require Import ZArith Lia.
From S2P Require Import Prelude Bytes BTree StoreIface StoreIter NullStore BufStore PrefixStore Codec StateIface Next StructState Utf8 Encoding SimpleState MapColl MapSpec MapProps MapCall MapIter Fields Address DequeColl DequeSpec DequeProps AbciTypes Context Plugins AbciStore AbciPlugin Migrate IbcTypes IbcContext IbcQuery.
#[local] Open Scope Z_scope.

(** ** Texts between slashes *)

Definition no_slash (s : RString) : Prop := Forall (fun c => c <> 47) s.

Lemma split_slash s t (r r' : RString) : no_slash s -> no_slash t -> s ++ 47 :: r = t ++ 47 :: r' -> s = t /\ r = r'.
Proof.
  intros Hs. revert t. induction Hs as [|c s Hc Hs IH]; intros [|d t] Ht He; simpl in *.
  - by injection He.
  - injection He as <- _. by apply Forall_cons in Ht as [].
  - by injection He.
  - injection He as <- He. apply Forall_cons in Ht as [_ Ht]. destruct (IH t Ht He) as [-> ->]. done.
Qed.
Lemma id_text_ascii s : id_text s -> is_ascii s.
Proof. intros [_ Hs]. eapply Forall_impl; [exact Hs|]. simpl. lia. Qed.
Lemma id_text_no_slash s : id_text s -> no_slash s.
Proof. intros [_ Hs]. eapply Forall_impl; [exact Hs|]. simpl. lia. Qed.
Lemma u64_text_no_slash (n : u64) : no_slash (u64_to_string n).
Proof. eapply Forall_impl; [apply u64_text_chars|]. simpl. lia. Qed.
Lemma until_byte_slash s r : no_slash s -> until_byte 47 (s ++ 47 :: r) = (s, r).
Proof. induction 1 as [|c s Hc Hs IH]; simpl; [done|]. destruct (Z.eqb_spec c 47); [done|]. by rewrite IH. Qed.
Lemma existsb_slash s : no_slash s -> existsb (Z.eqb 47) s = false.
Proof. induction 1 as [|c s Hc Hs IH]; [done|]. cbn [existsb]. destruct (Z.eqb_spec 47 c); [congruence|done]. Qed.

(** ** The keys *)

Section Paths.
Context `{Profile} `{CompatMode} `{RS : IbcRsSpec}.
Implicit Types (p q : PacketPath) (c d : ChannelPath).

(** "ports/{port}/channels/{channel}" and "ports/{port}/channels/{channel}/sequences/{sequence}" *)
Definition channel_key c : bytes := lit "ports/" ++ to_string (path_0 c) ++ 47 :: lit "channels/" ++ to_string (path_1 c).
Definition packet_key p : bytes :=
  lit "ports/" ++ to_string (path_port_id p) ++ 47 :: lit "channels/" ++ to_string (path_channel_id p) ++ 47 :: lit "sequences/" ++
  u64_to_string (Sequence_into (path_sequence p)).

Lemma Sequence_id_text (s : Sequence) : id_text (to_string s).
Proof.
  rewrite Sequence_text. split; [apply digits_nonempty|]. eapply Forall_impl; [apply u64_text_chars|]. simpl. lia.
Qed.
Lemma BTS_encode_id {T} `{Textual T} (x : T) : id_text (to_string x) -> BTS_encode (mkByteTerminatedString 47 x) = Ok (to_string x ++ [47]).
Proof.
  intros Hx. unfold BTS_encode. cbn [BTS_0]. rewrite as_bytes_ascii by by apply id_text_ascii.
  rewrite existsb_slash by by apply id_text_no_slash. by rewrite andb_false_r.
Qed.
Lemma ETS_encode_id {T} `{Textual T} (x : T) : id_text (to_string x) -> ETS_encode (mkEofTerminatedString x) = Ok (to_string x).
Proof. intros Hx. unfold ETS_encode. cbn [ETS_0]. by rewrite as_bytes_ascii by by apply id_text_ascii. Qed.

Lemma channel_key_ok c : Encode_encode (PortChannel_from c) = Ok (channel_key c).
Proof.
  cbn [Encode_encode PortChannel_Encode]. unfold PortChannel_encode, PortChannel_from, channel_key. cbn [PC_0 PC_1 PC_2 PC_3 Encode_encode BTS_Encode ETS_Encode FixedString_Encode].
  rewrite BTS_encode_id by apply PortId_text. rewrite ETS_encode_id by apply ChannelId_text. cbn [res_bind FixedString_encode].
  by rewrite <- !app_assoc.
Qed.
Lemma packet_key_ok p : Encode_encode (PortChannelSequence_from p) = Ok (packet_key p).
Proof.
  cbn [Encode_encode PortChannelSequence_Encode]. unfold PortChannelSequence_encode, PortChannelSequence_from, packet_key.
  cbn [PCS_0 PCS_1 PCS_2 PCS_3 PCS_4 PCS_5 Encode_encode BTS_Encode ETS_Encode FixedString_Encode].
  rewrite !BTS_encode_id by (apply PortId_text || apply ChannelId_text). rewrite ETS_encode_id by apply Sequence_id_text.
  cbn [res_bind FixedString_encode]. rewrite Sequence_text. by rewrite <- !app_assoc.
Qed.
Lemma connection_key_ok (id : ConnectionId) : Encode_encode (ConnectionIdKey_from id) = Ok (to_string id).
Proof. apply ETS_encode_id, ConnectionId_text. Qed.

(** A packet's key begins with another's exactly when they are of the same channel and the
    text of the sequence number begins with the other's. *)
Lemma packet_key_starts p q :
  starts_with (packet_key p) (packet_key q) = true <->
  path_port_id p = path_port_id q /\ path_channel_id p = path_channel_id q /\
  starts_with (u64_to_string (Sequence_into (path_sequence p))) (u64_to_string (Sequence_into (path_sequence q))) = true.
Proof.
  rewrite starts_with_spec. unfold packet_key. split.
  - intros [r He]. rewrite <- !app_assoc in He. apply app_inv_head in He. cbn [app] in He. rewrite <- !app_assoc in He.
    apply split_slash in He as [Hp He]; [|apply id_text_no_slash, PortId_text..]. apply app_inv_head in He.
    cbn [app] in He. rewrite <- !app_assoc in He. apply split_slash in He as [Hc He]; [|apply id_text_no_slash, ChannelId_text..].
    apply app_inv_head in He. split_and!.
    + apply (f_equal (from_str (T := PortId))) in Hp. rewrite !PortId_parse in Hp. congruence.
    + apply (f_equal (from_str (T := ChannelId))) in Hc. rewrite !ChannelId_parse in Hc. congruence.
    + rewrite He. apply starts_with_spec. by exists r.
  - intros (-> & -> & [r ->]%starts_with_spec). exists r. rewrite <- !app_assoc. cbn [app]. by rewrite <- !app_assoc.
Qed.
Lemma packet_key_inj p q : packet_key p = packet_key q -> p = q.
Proof.
  intros He. assert (Hp : starts_with (packet_key p) (packet_key q) = true) by (apply starts_with_spec; exists []; by rewrite He, app_nil_r).
  assert (Hq : starts_with (packet_key q) (packet_key p) = true) by (apply starts_with_spec; exists []; by rewrite He, app_nil_r).
  apply packet_key_starts in Hp as (H1' & H2' & [r Hr]%starts_with_spec). apply packet_key_starts in Hq as (_ & _ & [r' Hr']%starts_with_spec).
  assert (r = []) as ->. { apply (f_equal length) in Hr, Hr'. rewrite !length_app in *. destruct r; [done|]. simpl in *. lia. }
  rewrite app_nil_r in Hr. apply u64_text_inj, (f_equal Sequence_from) in Hr. rewrite !Sequence_from_into in Hr.
  destruct p, q; simpl in *; congruence.
Qed.
Lemma channel_key_inj c d : channel_key c = channel_key d -> c = d.
Proof.
  unfold channel_key. intros He. apply app_inv_head in He. apply split_slash in He as [Hp He]; [|apply id_text_no_slash, PortId_text..].
  apply app_inv_head in He. apply (f_equal (from_str (T := PortId))) in Hp. apply (f_equal (from_str (T := ChannelId))) in He. rewrite !PortId_parse in Hp. rewrite !ChannelId_parse in He.
  destruct c, d; simpl in *; congruence.
Qed.
Lemma connection_key_inj (i j : ConnectionId) : to_string i = to_string j -> i = j.
Proof. intros He. apply (f_equal (from_str (T := ConnectionId))) in He. rewrite !ConnectionId_parse in He. congruence. Qed.

#[export] Instance PacketPath_eq_dec : EqDecision PacketPath.
Proof.
  intros p q. destruct (decide (packet_key p = packet_key q)) as [He|Hn]; [left; by apply packet_key_inj|right; congruence].
Defined.
#[export] Instance ChannelPath_eq_dec : EqDecision ChannelPath.
Proof. solve_decision. Defined.
#[export] Instance ConnectionId_eq_dec : EqDecision ConnectionId.
Proof.
  intros i j. destruct (decide (to_string i = to_string j)) as [He|Hn]; [left; by apply connection_key_inj|right; congruence].
Defined.
Lemma decide_key {A B} `{EqDecision A} `{EqDecision B} {C} (key : A -> B) (Hinj : forall x y, key x = key y -> x = y) x y (c d : C) :
  (if decide (key x = key y) then c else d) = if decide (x = y) then c else d.
Proof.
  destruct (decide (key x = key y)) as [He|Hn]; [by rewrite decide_True by by apply Hinj|by rewrite decide_False by congruence].
Qed.

(** ** Reading keys back *)

Lemma from_utf8_id s : id_text s -> from_utf8 s = Some s.
Proof.
  intros Hs. rewrite <- (as_bytes_ascii s) at 1 by by apply id_text_ascii. apply from_utf8_as_bytes, is_ascii_string. by apply id_text_ascii.
Qed.
Lemma BTS_decode_id {T} `{Textual T} (x : T) r :
  id_text (to_string x) -> from_str (to_string x) = Some x -> BTS_decode (to_string x ++ 47 :: r) = Ok (mkByteTerminatedString 47 x, r).
Proof.
  intros Hx Hp. unfold BTS_decode. rewrite until_byte_slash by by apply id_text_no_slash.
  rewrite from_utf8_id by done. cbn [ok_or res_bind]. rewrite Hp. done.
Qed.
Lemma ETS_decode_id {T} `{Textual T} (x : T) :
  id_text (to_string x) -> from_str (to_string x) = Some x -> ETS_decode (to_string x) = Ok (mkEofTerminatedString x, []).
Proof. intros Hx Hp. unfold ETS_decode. rewrite from_utf8_id by done. cbn [ok_or res_bind]. by rewrite Hp. Qed.
Lemma FixedString_decode_app S r : is_ascii S -> FixedString_decode (S := S) (S ++ r) = Ok (mkFixedString, r).
Proof.
  intros Hs. unfold FixedString_decode, str_len. rewrite (as_bytes_ascii S Hs), length_app.
  destruct (Nat.ltb_spec (length S + length r) (length S)); [lia|].
  rewrite take_app_length, drop_app_length. by destruct (beqb_spec S S).
Qed.
Lemma PortChannelSequence_decode_key p : PortChannelSequence_decode (packet_key p) = Ok (PortChannelSequence_from p, []).
Proof.
  unfold PortChannelSequence_decode, packet_key. cbn [Decode_decode BTS_Decode ETS_Decode FixedString_Decode].
  rewrite FixedString_decode_app by (by repeat constructor). cbn [res_bind fst snd].
  rewrite BTS_decode_id by (apply PortId_text || apply PortId_parse). cbn [res_bind fst snd].
  rewrite FixedString_decode_app by (by repeat constructor). cbn [res_bind fst snd].
  rewrite BTS_decode_id by (apply ChannelId_text || apply ChannelId_parse). cbn [res_bind fst snd].
  rewrite FixedString_decode_app by (by repeat constructor). cbn [res_bind fst snd].
  change (u64_to_string ?n) with (to_string n). rewrite <- Sequence_text.
  rewrite ETS_decode_id by (apply Sequence_id_text || apply Sequence_parse). done.
Qed.
Lemma PortChannel_decode_key c : PortChannel_decode (channel_key c) = Ok (PortChannel_from c, []).
Proof.
  unfold PortChannel_decode, channel_key. cbn [Decode_decode BTS_Decode ETS_Decode FixedString_Decode].
  rewrite FixedString_decode_app by (by repeat constructor). cbn [res_bind fst snd].
  rewrite BTS_decode_id by (apply PortId_text || apply PortId_parse). cbn [res_bind fst snd].
  rewrite FixedString_decode_app by (by repeat constructor). cbn [res_bind fst snd].
  by rewrite ETS_decode_id by (apply ChannelId_text || apply ChannelId_parse).
Qed.
Lemma PortChannelSequence_parts p :
  PortChannelSequence_port_id (PortChannelSequence_from p) = Ok (path_port_id p) /\
  PortChannelSequence_channel_id (PortChannelSequence_from p) = Ok (path_channel_id p) /\
  PortChannelSequence_sequence (PortChannelSequence_from p) = Ok (path_sequence p).
Proof.
  unfold PortChannelSequence_port_id, PortChannelSequence_channel_id, PortChannelSequence_sequence, PortChannelSequence_from.
  cbn [PCS_1 PCS_3 PCS_5 BTS_0 ETS_0]. by rewrite PortId_parse, ChannelId_parse, Sequence_parse.
Qed.
Lemma PortChannel_with_sequence_eq c n :
  PortChannel_with_sequence (PortChannel_from c) n = Ok (PortChannelSequence_from (mkPacketPath (path_0 c) (path_1 c) n)).
Proof.
  unfold PortChannel_with_sequence, PortChannel_port_id, PortChannel_channel_id, PortChannel_from. cbn [PC_1 PC_3 BTS_0 ETS_0].
  by rewrite PortId_parse, ChannelId_parse.
Qed.
End Paths.

(** ** What the host keeps *)

Section Host.
Context `{Profile} `{CompatMode} `{RS : IbcRsSpec} {St : Type} `{Read St} `{!Write St} `{!Bounded St}.
Implicit Types (b : St) (ctx : IbcContext).

(** The operations of the execution context on what is kept under paths. *)
Inductive HostOp :=
| OpCommitment (p : PacketPath) (commitment : list u8) | OpDeleteCommitment (p : PacketPath)
| OpReceipt (p : PacketPath)
| OpAck (p : PacketPath) (commitment : list u8) | OpDeleteAck (p : PacketPath)
| OpChannel (c : ChannelPath) (e : ChannelEnd)
| OpNextSend (c : ChannelPath) (n : Sequence) | OpNextRecv (c : ChannelPath) (n : Sequence) | OpNextAck (c : ChannelPath) (n : Sequence)
| OpConnection (id : ConnectionId) (e : ConnectionEnd).
Definition run_host_op b (op : HostOp) : IM unit :=
  match op with
  | OpCommitment p c => store_packet_commitment (St := St) p c
  | OpDeleteCommitment p => delete_packet_commitment b p
  | OpReceipt p => store_packet_receipt (St := St) p
  | OpAck p c => store_packet_acknowledgement (St := St) p c
  | OpDeleteAck p => delete_packet_acknowledgement b p
  | OpChannel c e => store_channel (St := St) c e
  | OpNextSend c n => store_next_sequence_send (St := St) c n
  | OpNextRecv c n => store_next_sequence_recv (St := St) c n
  | OpNextAck c n => store_next_sequence_ack (St := St) c n
  | OpConnection id e => store_connection (St := St) id e
  end.
Fixpoint run_host_ops b (ops : list HostOp) : IM unit :=
  match ops with [] => retM tt | op :: ops => run run_host_op b op; run_host_ops b ops end.

(** The view: partial functions from paths. *)
Record HostView := mkHostView {
  hv_commitments : PacketPath -> option (list u8);
  hv_receipts : PacketPath -> option u8;
  hv_acks : PacketPath -> option (list u8);
  hv_channels : ChannelPath -> option (ChannelEnd);
  hv_send : ChannelPath -> option Sequence;
  hv_recv : ChannelPath -> option Sequence;
  hv_ack : ChannelPath -> option Sequence;
  hv_connections : ConnectionId -> option ConnectionEnd
}.
Definition at_path {A B} `{EqDecision A} (f : A -> option B) (p : A) (x : option B) : A -> option B :=
  fun q => if decide (q = p) then x else f q.
Definition host_op_spec (w : HostView) (op : HostOp) : HostView :=
  let 'mkHostView cm rc ak ch ns nr na cn := w in
  match op with
  | OpCommitment p c => mkHostView (at_path cm p (Some c)) rc ak ch ns nr na cn
  | OpDeleteCommitment p => mkHostView (at_path cm p None) rc ak ch ns nr na cn
  | OpReceipt p => mkHostView cm (at_path rc p (Some (to_uint 1 1))) ak ch ns nr na cn
  | OpAck p c => mkHostView cm rc (at_path ak p (Some c)) ch ns nr na cn
  | OpDeleteAck p => mkHostView cm rc (at_path ak p None) ch ns nr na cn
  | OpChannel c e => mkHostView cm rc ak (at_path ch c (Some e)) ns nr na cn
  | OpNextSend c n => mkHostView cm rc ak ch (at_path ns c (Some n)) nr na cn
  | OpNextRecv c n => mkHostView cm rc ak ch ns (at_path nr c (Some n)) na cn
  | OpNextAck c n => mkHostView cm rc ak ch ns nr (at_path na c (Some n)) cn
  | OpConnection id e => mkHostView cm rc ak ch ns nr na (at_path cn id (Some e))
  end.

(** A map shows a partial function of paths. *)
Definition shows {P K V A} `{Encode K} {SV : State St V} (key : P -> K) (inj : A -> V) b (m : Map K V) (f : P -> option A) : Prop :=
  forall p, peek b m (key p) = Ok (inj <$> f p).
Definition number_of (n : Sequence) : Number := Number_from_Sequence n.
Record Shows b ctx (w : HostView) : Prop := {
  shows_commitments : shows PortChannelSequence_from id b (commitments ctx) (hv_commitments w);
  shows_receipts : shows PortChannelSequence_from id b (receipts ctx) (hv_receipts w);
  shows_acks : shows PortChannelSequence_from id b (acks ctx) (hv_acks w);
  shows_channels : shows PortChannel_from mkNewtype b (channel_ends ctx) (hv_channels w);
  shows_send : shows PortChannel_from number_of b (next_sequence_send ctx) (hv_send w);
  shows_recv : shows PortChannel_from number_of b (next_sequence_recv ctx) (hv_recv w);
  shows_ack : shows PortChannel_from number_of b (next_sequence_ack ctx) (hv_ack w);
  shows_connections : shows ConnectionIdKey_from mkNewtype b (connections ctx) (hv_connections w)
}.

(** Storing and deleting under a path. *)
Section OnePath.
Context {P K V A : Type} `{Encode K} `{!Decode K} {SV : State St V} `{EqDecision P}.
Context (key : P -> K) (bytes_of : P -> bytes) (inj : A -> V).
Context (Hkey : forall p, Encode_encode (key p) = Ok (bytes_of p)) (Hinj : forall p q, bytes_of p = bytes_of q -> p = q).
Context (Hleaf : forall s x, State_attach (St := St) s (inj x) = (Ok tt, inj x)).
Lemma insert_shows b (m : Map K V) f p x :
  shows key inj b m f -> exists m', Map_insert (St := St) (key p) (inj x) m = (Ok tt, m') /\ shows key inj b m' (at_path f p (Some x)).
Proof.
  intros Hm. destruct (Map_insert_peek b m (key p) (bytes_of p) (inj x) (inj x) (Hkey p) (Hleaf _ _)) as (m' & He & _ & Hp).
  exists m'. split; [done|]. intros q. rewrite (Hp _ _ (Hkey q)), (decide_key bytes_of Hinj), Hm.
  unfold at_path. by destruct (decide (q = p)).
Qed.
Lemma remove_shows b (m : Map K V) f p :
  shows key inj b m f -> exists r m', Map_remove b (key p) m = (Ok r, m') /\ shows key inj b m' (at_path f p None).
Proof.
  intros Hm. destruct (Map_remove_peek b m (key p) (bytes_of p) _ (Hkey p) (Hm p)) as (m' & He & _ & Hp & _).
  eexists _, m'. split; [exact He|]. intros q. rewrite (Hp _ _ (Hkey q)), (decide_key bytes_of Hinj), Hm.
  unfold at_path. by destruct (decide (q = p)).
Qed.
End OnePath.

Lemma bytes_attach s (x : list u8) : State_attach (St := St) s x = (Ok tt, x).
Proof.
  cbn [State_attach vec_State]. unfold vec_attach. generalize 0. induction x as [|v x IH]; intros i; [done|].
  cbn [seq_attach State_attach uint_State]. unfold leaf_State. cbn [State_attach]. by rewrite IH.
Qed.

(** Putting what one map then shows back into the context. *)
Ltac into_ctx L :=
  let m' := fresh "m'" in let He := fresh "He" in let Hm' := fresh "Hm'" in
  destruct L as (m' & He & Hm'); cbv beta delta [id] in He; eexists; split;
  [unfold zoomM, with_errM; unfold number_of in He; rewrite He; reflexivity|split; [by split|done]].
Ltac stores_at L :=
  unfold store_packet_commitment, store_packet_receipt, store_packet_acknowledgement, store_channel, store_next_sequence_send,
    store_next_sequence_recv, store_next_sequence_ack, store_next_sequence, store_connection, in_commitments, in_receipts, in_acks,
    in_channel_ends, in_next_sequence_send, in_next_sequence_recv, in_next_sequence_ack, in_connections; into_ctx L.
Ltac deletes_at L :=
  let r := fresh "r" in let L' := fresh "L" in destruct L as (r & L');
  unfold delete_packet_commitment, delete_packet_acknowledgement, in_commitments, in_acks, bindM; into_ctx L'.

(** Every operation succeeds and changes what is kept under its path, nothing else. *)
Lemma host_op_shows b ctx w op :
  Shows b ctx w -> exists ctx', run_host_op b op ctx = (Ok tt, ctx') /\ Shows b ctx' (host_op_spec w op) /\
    clients ctx' = clients ctx /\ height ctx' = height ctx.
Proof.
  intros [Hcm Hrc Hak Hch Hns Hnr Hna Hcn]. destruct w as [cm rc ak ch ns nr na cn], op; cbn [run_host_op host_op_spec] in *.
  - stores_at (insert_shows (V := list u8) _ packet_key id packet_key_ok packet_key_inj bytes_attach b _ _ p commitment Hcm).
  - deletes_at (remove_shows (V := list u8) _ packet_key id packet_key_ok packet_key_inj b _ _ p Hcm).
  - stores_at (insert_shows (V := u8) _ packet_key id packet_key_ok packet_key_inj (fun s x => eq_refl) b _ _ p (to_uint 1 1) Hrc).
  - stores_at (insert_shows (V := list u8) _ packet_key id packet_key_ok packet_key_inj bytes_attach b _ _ p commitment Hak).
  - deletes_at (remove_shows (V := list u8) _ packet_key id packet_key_ok packet_key_inj b _ _ p Hak).
  - stores_at (insert_shows (V := WrappedChannelEnd) _ channel_key mkNewtype channel_key_ok channel_key_inj (fun s x => eq_refl) b _ _ c e Hch).
  - stores_at (insert_shows (V := Number) _ channel_key number_of channel_key_ok channel_key_inj (fun s x => eq_refl) b _ _ c n Hns).
  - stores_at (insert_shows (V := Number) _ channel_key number_of channel_key_ok channel_key_inj (fun s x => eq_refl) b _ _ c n Hnr).
  - stores_at (insert_shows (V := Number) _ channel_key number_of channel_key_ok channel_key_inj (fun s x => eq_refl) b _ _ c n Hna).
  - stores_at (insert_shows (V := WrappedConnectionEnd) _ to_string mkNewtype connection_key_ok connection_key_inj (fun s x => eq_refl) b _ _ id e Hcn).
Qed.
Lemma host_ops_show b ops : forall ctx w,
  Shows b ctx w -> exists ctx', run_host_ops b ops ctx = (Ok tt, ctx') /\ Shows b ctx' (fold_left host_op_spec ops w) /\
    clients ctx' = clients ctx /\ height ctx' = height ctx.
Proof.
  induction ops as [|op ops IH]; intros ctx w Hw; [by exists ctx|].
  destruct (host_op_shows b ctx w op Hw) as (ctx1 & He & Hw1 & Hc1 & Hh1).
  destruct (IH ctx1 _ Hw1) as (ctx' & He' & Hw' & Hc' & Hh').
  exists ctx'. cbn [run_host_ops fold_left]. unfold bindM. rewrite He. split_and!; [done|done|congruence|congruence].
Qed.

(** What the validation context answers, of a view. *)
Definition Answers b ctx (w : HostView) : Prop :=
  (forall p, get_packet_commitment b ctx p = ok_or (hv_commitments w p) ImplementationSpecific) /\
  (forall p, get_packet_receipt b ctx p = if hv_receipts w p is Some _ then Ok tt else Err (PacketReceiptNotFound (path_sequence p))) /\
  (forall p, get_packet_acknowledgement b ctx p = ok_or (hv_acks w p) (PacketAcknowledgementNotFound (path_sequence p))) /\
  (forall c, channel_end b ctx c = ok_or (hv_channels w c) MissingChannel) /\
  (forall c, get_next_sequence_send b ctx c = ok_or (hv_send w c) ImplementationSpecific) /\
  (forall c, get_next_sequence_recv b ctx c = ok_or (hv_recv w c) ImplementationSpecific) /\
  (forall c, get_next_sequence_ack b ctx c = ok_or (hv_ack w c) ImplementationSpecific) /\
  (forall i, connection_end b ctx i = ok_or (hv_connections w i) (ConnectionNotFound i)).

Lemma shows_get {P K V A} `{Encode K} {SV : State St V} (key : P -> K) (inj : A -> V) b (m : Map K V) f p :
  shows key inj b m f -> match f p with
                         | Some x => exists r, Map_get b m (key p) = Ok (Some r) /\ Ref_deref r = inj x
                         | None => Map_get b m (key p) = Ok None
                         end.
Proof. intros Hm. specialize (Hm p). destruct (f p); [by apply peek_some|by apply peek_none]. Qed.
Lemma get_next_sequence_shows b m f c :
  shows PortChannel_from number_of b m f -> get_next_sequence b m c = ok_or (f c) ImplementationSpecific.
Proof.
  intros Hm%(shows_get _ _ _ _ _ c). unfold get_next_sequence. destruct (f c) as [n|].
  - destruct Hm as (r & -> & Hr). cbn [with_err res_bind ok_or]. rewrite Hr. cbn. by rewrite Sequence_from_into.
  - by rewrite Hm.
Qed.
Lemma Shows_answers b ctx w : Shows b ctx w -> Answers b ctx w.
Proof.
  intros [Hcm Hrc Hak Hch Hns Hnr Hna Hcn].
  split_and!; intros k; [apply (shows_get _ _ _ _ _ k) in Hcm|apply (shows_get _ _ _ _ _ k) in Hrc|apply (shows_get _ _ _ _ _ k) in Hak|
    apply (shows_get _ _ _ _ _ k) in Hch|by apply get_next_sequence_shows..|apply (shows_get _ _ _ _ _ k) in Hcn].
  - unfold get_packet_commitment. destruct (hv_commitments w k); [|by rewrite Hcm]. destruct Hcm as (r & -> & Hr). cbn. by rewrite Hr.
  - unfold get_packet_receipt. destruct (hv_receipts w k); [|by rewrite Hrc]. by destruct Hrc as (r & -> & Hr).
  - unfold get_packet_acknowledgement. destruct (hv_acks w k); [|by rewrite Hak]. destruct Hak as (r & -> & Hr). cbn. by rewrite Hr.
  - unfold channel_end. destruct (hv_channels w k); [|by rewrite Hch]. destruct Hch as (r & -> & Hr). cbn. by rewrite Hr.
  - unfold connection_end. destruct (hv_connections w k); [|by rewrite Hcn]. destruct Hcn as (r & -> & Hr). cbn. by rewrite Hr.
Qed.
(** What the queries answer, of a view. *)
Definition packet_of (c : ChannelPath) (n : u64) : PacketPath := mkPacketPath (path_0 c) (path_1 c) (Sequence_from n).
Definition has {A} (o : option A) : bool := match o with Some _ => true | None => false end.
Definition ack_state (w : HostView) (c : ChannelPath) (n : u64) : list PacketState :=
  match hv_acks w (packet_of c n) with
  | Some (d :: data) => [mkPacketState (to_string (path_0 c)) (to_string (path_1 c)) n (d :: data)]
  | _ => []
  end.
Definition QueryAnswers b ctx (w : HostView) : Prop :=
  (forall c ns, query_unreceived_packets b ctx (PortChannel_from c) ns = Ok (List.filter (fun n => negb (has (hv_receipts w (packet_of c n)))) ns)) /\
  (forall c ns, query_unreceived_acks b ctx (PortChannel_from c) ns = Ok (List.filter (fun n => has (hv_commitments w (packet_of c n))) ns)) /\
  (forall c ns, query_packet_acks b ctx ns (PortChannel_from c) = Ok (flat_map (ack_state w c) ns)) /\
  (forall c, query_next_sequence_send b ctx (PortChannel_from c) = ok_or (Sequence_into <$> hv_send w c) (EIbc "Sequence not found")) /\
  (forall c, query_next_sequence_receive b ctx (PortChannel_from c) = ok_or (Sequence_into <$> hv_recv w c) (EIbc "Sequence not found")) /\
  (forall i, query_connection b ctx (ConnectionIdKey_from i) = Ok (hv_connections w i)).

Lemma contains_shows {P K V A} `{Encode K} {SV : State St V} (key : P -> K) (bytes_of : P -> bytes) (inj : A -> V) b (m : Map K V) f p :
  Encode_encode (key p) = Ok (bytes_of p) -> shows key inj b m f -> Map_contains_key b m (key p) = Ok (has (f p)).
Proof.
  intros Hk Hm. specialize (Hm p). rewrite (peek_eq _ _ _ _ Hk) in Hm. unfold Map_contains_key, MapKey_new. rewrite Hk.
  cbn [res_bind MapKey_inner_bytes MapKey_inner]. destruct (bt_get _ _) as [[k' [v|]]|].
  - by destruct (f p).
  - by destruct (f p).
  - rewrite Hm. by destruct (f p).
Qed.
Lemma query_next_sequence_shows b m f c :
  shows PortChannel_from number_of b m f -> query_next_sequence b m (PortChannel_from c) = ok_or (Sequence_into <$> f c) (EIbc "Sequence not found").
Proof.
  intros Hm%(shows_get _ _ _ _ _ c). unfold query_next_sequence. destruct (f c) as [n|].
  - destruct Hm as (r & -> & Hr). cbn [res_bind ok_or]. rewrite Hr. unfold number_of, Number_from_Sequence. cbn [ETS_0 to_string u64_Textual]. by rewrite u64_from_to_string.
  - by rewrite Hm.
Qed.
Lemma Shows_query_answers b ctx w : Shows b ctx w -> QueryAnswers b ctx w.
Proof.
  intros [Hcm Hrc Hak _ Hns Hnr _ Hcn]. split_and!.
  - intros c ns. induction ns as [|n ns IH]; [done|]. cbn [query_unreceived_packets List.filter]. rewrite PortChannel_with_sequence_eq. fold (packet_of c n). cbn [res_bind].
    rewrite (contains_shows _ _ _ b _ _ (packet_of c n) (packet_key_ok _) Hrc). cbn [res_bind]. rewrite IH. cbn [res_bind]. by destruct (has _).
  - intros c ns. induction ns as [|n ns IH]; [done|]. cbn [query_unreceived_acks List.filter]. rewrite PortChannel_with_sequence_eq. fold (packet_of c n). cbn [res_bind].
    rewrite (contains_shows _ _ _ b _ _ (packet_of c n) (packet_key_ok _) Hcm). cbn [res_bind]. rewrite IH. cbn [res_bind]. by destruct (has _).
  - intros c ns. induction ns as [|n ns IH]; [done|]. cbn [query_packet_acks flat_map]. rewrite PortChannel_with_sequence_eq. fold (packet_of c n). cbn [res_bind].
    pose proof (shows_get _ _ _ _ _ (packet_of c n) Hak) as Hg. unfold ack_state.
    destruct (hv_acks w (packet_of c n)) as [data|].
    + destruct Hg as (r & -> & Hr). cbn [res_bind fmap option_fmap option_map]. rewrite Hr. cbn [Datatypes.id].
      destruct data as [|d data]; [by rewrite IH|]. unfold PortChannel_port_id, PortChannel_channel_id, PortChannel_from. cbn [PC_1 PC_3 BTS_0 ETS_0].
      rewrite PortId_parse, ChannelId_parse. cbn [ok_or res_bind]. change (mkPortChannel _ _ _ _) with (PortChannel_from c). by rewrite IH.
    + rewrite Hg. cbn [res_bind fmap option_fmap option_map]. by rewrite IH.
  - intros c. by apply query_next_sequence_shows.
  - intros c. by apply query_next_sequence_shows.
  - intros i. apply (shows_get _ _ _ _ _ i) in Hcn. unfold query_connection. destruct (hv_connections w i).
    + destruct Hcn as (r & -> & Hr). cbn. by rewrite Hr.
    + by rewrite Hcn.
Qed.
End Host.

(** ** What flushing a deletion removes *)

Section Flush.
Context `{Profile} `{CompatMode} `{RS : IbcRsSpec} `{WS : WriteSpec St} `{!Bounded St} `{!BoundedSpec St}.
Implicit Types (b : St) (ctx : IbcContext) (p q : PacketPath).

(** The packets of the same channel whose sequence number, written out, begins with that of [p]. *)
Definition begins p q : bool :=
  bool_decide (path_port_id p = path_port_id q) && bool_decide (path_channel_id p = path_channel_id q) &&
  starts_with (u64_to_string (Sequence_into (path_sequence p))) (u64_to_string (Sequence_into (path_sequence q))).
Lemma begins_spec p q : begins p q = starts_with (packet_key p) (packet_key q).
Proof.
  apply eq_true_iff_eq. rewrite packet_key_starts. unfold begins. rewrite !andb_true_iff, !bool_decide_eq_true. tauto.
Qed.

Lemma deletion_flushed {V} {SV : State St V} b (m : Map PortChannelSequence V) p v :
  Read_inv b -> Map_children m = [] -> peek b m (PortChannelSequence_from p) = Ok (Some v) ->
  exists r m' b', Map_remove b (PortChannelSequence_from p) m = (Ok r, m') /\ Map_flush (St := St) m' b = (Ok [], b') /\ Read_inv b' /\
    forall k, view b' !! (Store_prefix (Map_store m) ++ k) =
              if starts_with (packet_key p) k then None else view b !! (Store_prefix (Map_store m) ++ k).
Proof.
  intros Hb Hm Hp. destruct (Map_remove_peek _ _ _ _ _ (packet_key_ok p) Hp) as (m' & Hr & Hs & _ & Hc).
  destruct (Map_remove_from_store_spec (Map_store m) b (packet_key p) Hb) as (e & b' & He & Hb' & _ & Hv & _).
  eexists _, m', b'. split; [exact Hr|]. split_and!; [|done|].
  - unfold Map_flush. rewrite Hs, Hc, Hm by eauto. cbn [bt_insert flush_children]. unfold bindM, liftM. rewrite packet_key_ok.
    unfold Map_apply_change, bindM. by rewrite He.
  - intros k. rewrite Hv. by rewrite starts_with_sub.
Qed.
End Flush.

(** ** The clients *)

Section Clients.
Context `{Profile} `{CompatMode} `{RS : IbcRsSpec} {St : Type} `{Read St} `{!Write St} `{!Bounded St}.
Implicit Types (b : St) (ctx : IbcContext) (id : ClientId).

Definition client_key id : bytes := to_string id ++ [47].
Lemma client_key_ok id : Encode_encode (ClientIdKey_from id) = Ok (client_key id).
Proof. apply BTS_encode_id, ClientId_text. Qed.
Lemma client_key_inj id id' : client_key id = client_key id' -> id = id'.
Proof.
  intros He. apply split_slash in He as [He _]; [|apply id_text_no_slash, ClientId_text..].
  apply (f_equal (from_str (T := ClientId))) in He. rewrite !ClientId_parse in He. congruence.
Qed.
#[export] Instance ClientId_eq_dec : EqDecision ClientId.
Proof.
  intros i j. destruct (decide (client_key i = client_key j)) as [He|Hn]; [left; by apply client_key_inj|right; congruence].
Defined.
Lemma format_height_chars (r h : u64) : Forall (fun c => c = 45 \/ 48 <= c <= 57) (format_height r h).
Proof.
  unfold format_height. apply Forall_app. split; [|constructor; [by left|]]; (eapply Forall_impl; [apply u64_text_chars|]); simpl; lia.
Qed.
Lemma height_key_ok (s : RString) : is_ascii s -> Encode_encode (mkEofTerminatedString s : EpochHeight) = Ok s.
Proof. intros Hs. cbn [Encode_encode ETS_Encode]. unfold ETS_encode. cbn [ETS_0 to_string String_Textual]. by rewrite as_bytes_ascii. Qed.
Lemma format_height_ok (r h : u64) : Encode_encode (mkEofTerminatedString (format_height r h) : EpochHeight) = Ok (format_height r h).
Proof. apply height_key_ok. eapply Forall_impl; [apply format_height_chars|]. simpl. lia. Qed.

Lemma get_client_peek failed missing b ctx id :
  get_client failed missing b ctx id = let? o := with_err failed (peek b (clients ctx) (ClientIdKey_from id)) in ok_or o missing.
Proof. unfold get_client, peek. by destruct (Map_get b _ _) as [[r|]|?|?]. Qed.

(** The consensus state of a client value, and through the host. *)
Definition state_in b client (path : ConsensusPath) : res AnyConsensusState :=
  let? height := ok_or (Height_new (cp_revision_number path) (cp_revision_height path)) InvalidHeight in
  let? o := with_err (ClientSpecific "Unable to get consensus state") (peek b (Cl_consensus_states client) (EpochHeight_from height)) in
  let? s := ok_or o (ConsensusStateNotFound (cp_client_id path) height) in
  Ok (Tendermint (WCS_inner s)).
Lemma consensus_state_in b ctx path client :
  peek b (clients ctx) (ClientIdKey_from (cp_client_id path)) = Ok (Some client) ->
  consensus_state b ctx path = state_in b client path.
Proof.
  intros Hc. unfold consensus_state, state_in. destruct (ok_or (Height_new _ _) _) as [h|?|?]; [|done..]. cbn [res_bind].
  rewrite get_client_peek, Hc. cbn [with_err res_bind ok_or]. unfold peek. by destruct (Map_get b _ _) as [[r|]|?|?].
Qed.
Lemma consensus_state_other b ctx ctx' path :
  peek b (clients ctx') (ClientIdKey_from (cp_client_id path)) = peek b (clients ctx) (ClientIdKey_from (cp_client_id path)) ->
  consensus_state b ctx' path = consensus_state b ctx path.
Proof. intros Hc. unfold consensus_state. by rewrite !get_client_peek, Hc. Qed.

(** A method of a client that is there. *)
Lemma in_client_peek {A} failed missing inside b id client (f : M Client A) ctx :
  peek b (clients ctx) (ClientIdKey_from id) = Ok (Some client) ->
  exists ctx', in_client failed missing inside b id f ctx = (with_err inside (f client).1, ctx') /\
    Map_store (clients ctx') = Map_store (clients ctx) /\ (Map_live (clients ctx) -> Map_live (clients ctx')) /\
    forall i, peek b (clients ctx') (ClientIdKey_from i) = if decide (i = id) then Ok (Some (f client).2) else peek b (clients ctx) (ClientIdKey_from i).
Proof.
  intros Hc. destruct (Map_get_mut_peek b _ _ _ _ (client_key_ok id) Hc) as (c & Hg & Hr).
  destruct (ChildMut_call_peek b _ _ _ _ c f (client_key_ok id) Hr) as (m' & He & Hs & Hl & Hp).
  exists (set_clients m' ctx). unfold in_client, in_clients, zoomM, bindM, with_errM, liftM. rewrite Hg. cbn [with_err ok_or]. rewrite He.
  split_and!; [done..|]. intros i. cbn [clients set_clients]. by rewrite (Hp _ _ (client_key_ok i)), (decide_key client_key client_key_inj).
Qed.

(** The height alone is never the key of a consensus state. *)
Lemma height_no_dash (h r k : u64) : u64_to_string h <> format_height r k.
Proof.
  intros He. pose proof (u64_text_chars h) as Hc. rewrite He in Hc. unfold format_height in Hc.
  apply Forall_app in Hc as [_ Hc]. apply Forall_cons in Hc as [Hc _]. lia.
Qed.
Lemma delete_consensus_state_keeps_all b ctx path client o :
  peek b (clients ctx) (ClientIdKey_from (cp_client_id path)) = Ok (Some client) ->
  peek b (Cl_consensus_states client) (mkEofTerminatedString (u64_to_string (cp_revision_height path))) = Ok o ->
  exists ctx', delete_consensus_state b path ctx = (Ok tt, ctx') /\
    forall path', consensus_state b ctx' path' = consensus_state b ctx path'.
Proof.
  intros Hc Ho. unfold delete_consensus_state. set (f := bindM _ _).
  destruct (Map_remove_peek b (Cl_consensus_states client) _ _ o (height_key_ok _ (u64_text_ascii _)) Ho) as (m' & He & _ & Hp & _).
  assert (Hf : f client = (Ok tt, mkClient (Cl_updates client) (Cl_client_state client) m' (Cl_connections client) (Cl_last_header client) (Cl_client_type client))).
  { unfold f, bindM, in_consensus_states, zoomM. by rewrite He. }
  destruct (in_client_peek (ClientSpecific "Unable to get consensus state") (ClientStateNotFound (cp_client_id path))
    (ClientSpecific "Unable to delete consensus state") b _ _ f ctx Hc) as (ctx' & -> & _ & _ & Hp').
  rewrite Hf in Hp' |- *. exists ctx'. split; [done|]. intros path'. specialize (Hp' (cp_client_id path')).
  destruct (decide (cp_client_id path' = cp_client_id path)) as [Heq|Hn]; [|by apply consensus_state_other].
  rewrite (consensus_state_in b ctx' path' _ Hp'). rewrite <- Heq in Hc. rewrite (consensus_state_in b ctx path' _ Hc).
  unfold state_in. destruct (ok_or (Height_new _ _) _) as [h|?|?]; [|done..]. cbn [res_bind snd Cl_consensus_states].
  rewrite (Hp (EpochHeight_from h) _ (format_height_ok _ _)), decide_False; [done|]. intros Hk. by apply (height_no_dash (cp_revision_height path) (revision_number h) (revision_height h)).
Qed.

(** The range of the heights above one, in the order of texts. *)
Lemma next_state_range_panics b ctx id h client :
  peek b (clients ctx) (ClientIdKey_from id) = Ok (Some client) -> uint_val (revision_number h) = 9 ->
  next_consensus_state b ctx id h = Panic "range start is greater than range end in BTreeMap".
Proof.
  intros Hc Hr. assert (revision_number h = to_uint 8 9) as Hrn by (rewrite <- Hr; by rewrite to_uint_val).
  unfold next_consensus_state. rewrite Hr.
  change (u64_add 9 1) with (@Ok Z 10). cbn [res_bind].
  pose proof (Height_new_spec (to_uint 8 10) (to_uint 8 1)) as Hn. destruct (Height_new _ _) as [e|]; [|done].
  destruct Hn as (He1 & He2 & _). cbn [ok_or res_bind]. rewrite get_client_peek, Hc. cbn [with_err ok_or res_bind].
  unfold Map_range, encode_bound, EpochHeight_from. rewrite !format_height_ok. cbn [res_bind unwrap_res].
  unfold bt_range. rewrite He1, He2, Hrn. unfold format_height.
  generalize (u64_to_string (revision_height h)). intros t.
  replace (range_panics _ _) with true; [done|]. reflexivity.
Qed.
End Clients.

(** ** The states of the host's own blocks *)

(** [encode_to_vec] does not fail, and what was encoded is read back. *)
Class ProtobufSpec (T : Type) `{Protobuf T} := {
  proto_bytes : T -> bytes;
  proto_encode_ok x : proto_encode x = Some (proto_bytes x);
  proto_decode_ok x : proto_decode (proto_bytes x) = Some x
}.

Section HostStates.
Context `{Profile} `{CompatMode} `{RS : IbcRsSpec} `{!ProtobufSpec TmConsensusState}.
Context `{WS : WriteSpec St} `{!Bounded St} `{!BoundedSpec St} `{IMs : IbcMessages}.
Implicit Types (b : St) (ctx : IbcContext) (d : Deque WrappedConsensusState) (xs hist : list TmConsensusState).

#[export] Instance WCS_CodecSpec : CodecSpec WrappedConsensusState.
Proof.
  refine {| enc := fun v => proto_bytes (WCS_inner v); codec_terminated := False |}.
  - intros v. cbn [Encode_encode WCS_Encode]. unfold WCS_encode, protobuf_encode. by rewrite proto_encode_ok.
  - intros [v] r [[]| ->]. cbn [Decode_decode WCS_Decode]. unfold WCS_decode, protobuf_decode. by rewrite app_nil_r, proto_decode_ok.
Defined.
#[export] Instance WCS_StateSpec : StateSpec (ST := WCS_State) St WrappedConsensusState := leaf_StateSpec (St := St) WrappedConsensusState.

(** The queue holds these states, in this order. *)
Definition holds_states (s : Store) b d xs : Prop :=
  Deque_attached (StateSpec0 := WCS_StateSpec) s d /\ Deque_abs (StateSpec0 := WCS_StateSpec) b d (mkWrappedConsensusState <$> xs).
(** The last [MAX_HOST_CONSENSUS_STATES] of a history. *)
Definition recent hist : list TmConsensusState := drop (length hist - Z.to_nat MAX_HOST_CONSENSUS_STATES) hist.

Lemma trim_spec s b n : forall d xs,
  Read_inv b -> holds_states s b d xs -> (length xs - Z.to_nat MAX_HOST_CONSENSUS_STATES < n)%nat ->
  exists d', trim_host_states n b d = (Ok tt, d') /\ holds_states s b d' (recent xs).
Proof.
  induction n as [|n IH]; intros d xs Hb [Ha Hx] Hn; [lia|]. cbn [trim_host_states]. unfold bindM at 1, readM.
  rewrite (Deque_len_spec _ _ _ Hx), length_fmap. unfold recent.
  destruct (Z.ltb_spec MAX_HOST_CONSENSUS_STATES (Z.of_nat (length xs))) as [Hl|Hl].
  - pose proof (Deque_pop_front_spec s b d _ Hb Ha Hx) as Hpop. destruct xs as [|x xs]; [cbn in Hl; unfold MAX_HOST_CONSENSUS_STATES in Hl; lia|].
    cbn [fmap list_fmap] in Hpop. destruct Hpop as (v & d' & Hp & _ & Ha' & Hx'). unfold bindM. rewrite Hp.
    cbn [length] in *. destruct (IH d' xs Hb (conj Ha' Hx')) as (d'' & He & Hd''); [lia|]. exists d''. split; [done|].
    unfold recent in Hd''. rewrite Nat.sub_succ_l by lia. done.
  - exists d. rewrite (proj2 (Nat.sub_0_le _ _)) by lia. by split.
Qed.

Lemma record_host_state_spec s b d xs x :
  Read_inv b -> holds_states s b d xs -> dtail d < u64_max ->
  exists d', record_host_state b x d = (Ok tt, d') /\ holds_states s b d' (recent (xs ++ [x])).
Proof.
  intros Hb [Ha Hx] Ht. unfold record_host_state, bindM.
  destruct (Deque_push_back_spec s b d _ (mkWrappedConsensusState x) Ha Hx I Ht) as (v & Hv & Hpush).
  injection Hv as <-. destruct (Hpush _ eq_refl) as (d' & -> & Ha' & Hx').
  cbn [readM]. unfold readM. cbn beta iota. change ([mkWrappedConsensusState x]) with (mkWrappedConsensusState <$> [x]) in Hx'.
  rewrite <- fmap_app in Hx'. apply trim_spec; [done|by split|].
  destruct Hx' as [Hl _]. rewrite length_fmap in Hl. lia.
Qed.

(** Every block is recorded, at the next height. *)
Definition HostWindow s b ctx (first : Z) hist : Prop :=
  holds_states s b (host_consensus_states ctx) (recent hist) /\ uint_val (height ctx) = first + Z.of_nat (length hist) /\ 0 <= first.

(** The state a block is recorded as. *)
Definition recorded (block : BeginBlockCtx) (x : TmConsensusState) : Prop :=
  exists t time, Header_time (BB_header block) = Some t /\
    from_unix_timestamp (Timestamp_seconds t) (Timestamp_nanos t mod 2 ^ 32) = Some time /\
    Header_app_hash (BB_header block) <> [] /\ length (Header_next_validators_hash (BB_header block)) = 32%nat /\
    x = TmConsensusState_new (Header_app_hash (BB_header block)) time (Header_next_validators_hash (BB_header block)).

Lemma recent_snoc hist x : recent (recent hist ++ [x]) = recent (hist ++ [x]).
Proof.
  unfold recent. rewrite !length_app, length_drop. cbn [length]. set (k := Z.to_nat MAX_HOST_CONSENSUS_STATES).
  rewrite !drop_app, !drop_drop, length_drop. f_equal; [f_equal; lia|f_equal; lia].
Qed.
Lemma begin_block_window s b ctx first hist block x :
  Read_inv b -> HostWindow s b ctx first hist -> dtail (host_consensus_states ctx) < u64_max ->
  recorded block x -> BB_height block = uint_val (height ctx) + 1 -> is_u64 (BB_height block) ->
  exists ctx', IbcContext_begin_block b block ctx = (Ok tt, ctx') /\ HostWindow s b ctx' first (hist ++ [x]).
Proof.
  intros Hb (Hd & Hh & Hf) Ht (t & time & H1' & H2' & H3' & H4' & ->) Hn Hu. unfold IbcContext_begin_block, bindM at 1.
  unfold bindM at 1, liftM. rewrite H1', H2'. cbn [ok_or]. destruct (Header_app_hash _) as [|h hs]; [done|].
  unfold bindM, liftM. rewrite H4'. cbn [Nat.eqb]. unfold in_host_consensus_states, zoomM. cbn [host_consensus_states set_height].
  destruct (record_host_state_spec s b _ _ (TmConsensusState_new (h :: hs) time (Header_next_validators_hash (BB_header block))) Hb Hd Ht) as (d' & -> & Hd').
  eexists. split; [done|]. split_and!; [|rewrite length_app; cbn [height set_host_consensus_states set_height length]; rewrite to_u64_val by done; lia|done].
  cbn [host_consensus_states set_host_consensus_states]. by rewrite <- recent_snoc.
Qed.

(** What is kept of the block at a height. *)
Lemma window_lookup s b ctx first hist (h : Height) :
  Read_inv b -> HostWindow s b ctx first hist ->
  uint_val (height ctx) - Z.of_nat (length (recent hist)) < uint_val (revision_height h) <= uint_val (height ctx) ->
  exists x, hist !! Z.to_nat (uint_val (revision_height h) - first - 1) = Some x /\ host_consensus_state b ctx h = Ok x.
Proof.
  intros Hb ([Ha Hx] & Hh & Hf) Hr. unfold host_consensus_state. rewrite (Deque_len_spec _ _ _ Hx), length_fmap. cbn [res_bind].
  pose proof (uint_val_range 8 (height ctx)). pose proof (uint_val_range 8 (revision_height h)).
  pose proof (dtail_range (host_consensus_states ctx)). pose proof (dhead_range (host_consensus_states ctx)).
  pose proof (proj1 Hx) as Hlen. rewrite length_fmap in Hlen. change (256 ^ Z.of_nat 8) with (u64_max + 1) in *.
  assert (Hle : (length (recent hist) <= length hist)%nat) by (unfold recent; rewrite length_drop; lia).
  rewrite !u64_sub_ok by (unfold is_u64; lia). cbn [res_bind]. rewrite u64_sub_ok by (unfold is_u64; lia). cbn [res_bind].
  set (i := Z.of_nat (length (recent hist)) - 1 - (uint_val (height ctx) - uint_val (revision_height h))).
  destruct (Deque_get_spec s b _ _ i Hb Ha Hx) as (r & -> & Hv); [unfold i; lia..|]. cbn [with_err res_bind].
  assert (Hi : recent hist !! Z.to_nat i = hist !! Z.to_nat (uint_val (revision_height h) - first - 1)).
  { unfold recent. rewrite lookup_drop. f_equal. unfold i, recent in *. rewrite length_drop in *. lia. }
  rewrite list_lookup_fmap, Hi in Hv. destruct (hist !! _) as [x|] eqn:Ex.
  - exists x. split; [done|]. destruct r as [r|]; [|done]. destruct Hv as [_ Hv]. cbn in Hv. cbn [unwrap res_bind]. by rewrite Hv.
  - exfalso. apply lookup_ge_None in Ex. unfold i, recent in *. rewrite length_drop in *. lia.
Qed.
(** Nothing else is kept: where arithmetic is checked, the subtractions panic. *)
Lemma window_outside s b ctx first hist (h : Height) :
  overflow_checks = true -> HostWindow s b ctx first hist ->
  ~ (uint_val (height ctx) - Z.of_nat (length (recent hist)) < uint_val (revision_height h) <= uint_val (height ctx)) ->
  exists w, host_consensus_state b ctx h = Panic w.
Proof.
  intros Hc ([Ha Hx] & _ & _) Hn. unfold host_consensus_state. rewrite (Deque_len_spec _ _ _ Hx), length_fmap. cbn [res_bind].
  assert (Hsub : forall x y, u64_sub x y = if u64b (x - y) then Ok (x - y) else Panic "arithmetic overflow").
  { intros x y. unfold u64_sub, u64_op. by rewrite Hc. }
  rewrite !Hsub. destruct (u64b_spec (Z.of_nat (length (recent hist)) - 1)) as [H1'|?]; [|by eexists]. cbn [res_bind].
  destruct (u64b_spec (uint_val (height ctx) - uint_val (revision_height h))) as [H2'|?]; [|by eexists]. cbn [res_bind].
  rewrite Hsub. destruct (u64b_spec (Z.of_nat (length (recent hist)) - 1 - (uint_val (height ctx) - uint_val (revision_height h)))) as [H3'|?]; [|by eexists].
  exfalso. unfold is_u64 in *. lia.
Qed.
End HostStates.

(** ** What the host keeps of its clients *)

Section ClientOps.
Context `{Profile} `{CompatMode} `{RS : IbcRsSpec} {St : Type} `{Read St} `{!Write St} `{!Bounded St}.
Implicit Types (b : St) (ctx : IbcContext) (id : ClientId).

(** A height as it is written in keys. *)
Definition height_key (h : u64 * u64) : bytes := format_height h.1 h.2.
Definition height_of (h : Height) : u64 * u64 := (revision_number h, revision_height h).
Lemma split_dash s t (r r' : RString) : Forall (fun c => c <> 45) s -> Forall (fun c => c <> 45) t -> s ++ 45 :: r = t ++ 45 :: r' -> s = t /\ r = r'.
Proof.
  intros Hs. revert t. induction Hs as [|c s Hc Hs IH]; intros [|d t] Ht He; simpl in *.
  - by injection He.
  - injection He as <- _. by apply Forall_cons in Ht as [].
  - by injection He.
  - injection He as <- He. apply Forall_cons in Ht as [_ Ht]. destruct (IH t Ht He) as [-> ->]. done.
Qed.
Lemma u64_text_no_dash (n : u64) : Forall (fun c => c <> 45) (u64_to_string n).
Proof. eapply Forall_impl; [apply u64_text_chars|]. simpl. lia. Qed.
Lemma height_key_inj h h' : height_key h = height_key h' -> h = h'.
Proof.
  unfold height_key, format_height. cbn [app]. intros [Hr Hh]%split_dash; [|apply u64_text_no_dash..].
  apply u64_text_inj in Hr, Hh. destruct h, h'; simpl in *; congruence.
Qed.
Definition EpochHeight_at (h : u64 * u64) : EpochHeight := mkEofTerminatedString (format_height h.1 h.2).
Lemma EpochHeight_at_ok h : Encode_encode (EpochHeight_at h) = Ok (height_key h).
Proof. apply format_height_ok. Qed.

Lemma meta_attach s (x : WrappedTimestamp * BinaryHeight) : State_attach (St := St) s x = (Ok tt, x).
Proof. destruct x as [t [e h]]. destruct compat_mode eqn:Hc; cbn; rewrite ?Hc; reflexivity. Qed.
Lemma state_key_ok (u : unit) : Encode_encode (mkFixedString : FixedString (lit "State")) = Ok (lit "State").
Proof. reflexivity. Qed.

Lemma unit_inj {A} (f : unit -> A) (x y : unit) : f x = f y -> x = y.
Proof. by destruct x, y. Qed.
Lemma unit_attach s (x : unit) : State_attach (St := St) s x = (Ok tt, x).
Proof. by destruct x. Qed.
Lemma client_state_attach s (x : TmClientState) : State_attach (St := St) s (mkNewtype x) = (Ok tt, mkNewtype x).
Proof. done. Qed.
Lemma consensus_attach s x : State_attach (St := St) s (mkWrappedConsensusState x) = (Ok tt, mkWrappedConsensusState x).
Proof. done. Qed.

(** What is kept of a client, by height and connection. *)
Record ClientView := mkClientView {
  cv_state : option TmClientState;
  cv_consensus : u64 * u64 -> option TmConsensusState;
  cv_meta : u64 * u64 -> option (IbcTimestamp * Height);
  cv_connections : ConnectionId -> option unit
}.
Definition no_client : ClientView := mkClientView None (fun _ => None) (fun _ => None) (fun _ => None).
Definition meta_of (x : IbcTimestamp * Height) : WrappedTimestamp * BinaryHeight := (mkWrappedTimestamp x.1, BinaryHeight_from x.2).
Record ClientShows b (c : Client) (w : ClientView) : Prop := {
  shows_state : shows (fun _ : unit => mkFixedString) mkNewtype b (Cl_client_state c) (fun _ => cv_state w);
  shows_consensus : shows EpochHeight_at mkWrappedConsensusState b (Cl_consensus_states c) (cv_consensus w);
  shows_meta : shows EpochHeight_at meta_of b (Cl_updates c) (cv_meta w);
  shows_client_connections : shows ConnectionIdKey_from id b (Cl_connections c) (cv_connections w);
  (** nothing is kept under a bare height *)
  shows_bare : forall n : u64, peek b (Cl_consensus_states c) (mkEofTerminatedString (u64_to_string n)) = Ok None
}.
(** The clients: those that are there, and for the others a default client that would show
    nothing. *)
Definition Clients b ctx (W : ClientId -> option ClientView) : Prop :=
  Map_live (clients ctx) /\
  forall id, match W id with
             | Some w => exists c, peek b (clients ctx) (ClientIdKey_from id) = Ok (Some c) /\ ClientShows b c w
             | None => peek b (clients ctx) (ClientIdKey_from id) = Ok None /\
                 exists c, State_attach (Store_sub (Map_store (clients ctx)) (client_key id)) Client_default = (Ok tt, c) /\ ClientShows b c no_client
             end.

(** The operations on clients, and what they do to the view. *)
Inductive ClientOp :=
| COState (id : ClientId) (s : TmClientState)
| COConsensus (path : ConsensusPath) (s : TmConsensusState) | CODeleteConsensus (path : ConsensusPath)
| COMeta (id : ClientId) (h : Height) (t : IbcTimestamp) (host_height : Height) | CODeleteMeta (id : ClientId) (h : Height)
| COConnection (id : ClientId) (conn : ConnectionId).
Definition run_client_op b (op : ClientOp) : IM unit :=
  match op with
  | COState id s => store_client_state b id s
  | COConsensus path s => store_consensus_state b path (Tendermint s)
  | CODeleteConsensus path => delete_consensus_state b path
  | COMeta id h t hh => store_update_meta b id h t hh
  | CODeleteMeta id h => delete_update_meta b id h
  | COConnection id conn => store_connection_to_client b id conn
  end.
Definition op_client (op : ClientOp) : ClientId :=
  match op with
  | COState id _ | COMeta id _ _ _ | CODeleteMeta id _ | COConnection id _ => id
  | COConsensus path _ | CODeleteConsensus path => cp_client_id path
  end.
(** It creates the client. *)
Definition creates (op : ClientOp) : bool := match op with COState _ _ | COConsensus _ _ | COConnection _ _ => true | _ => false end.
Definition op_view (op : ClientOp) (w : ClientView) : ClientView :=
  let 'mkClientView st cs mt cn := w in
  match op with
  | COState _ s => mkClientView (Some s) cs mt cn
  | COConsensus path s => mkClientView st (at_path cs (cp_revision_number path, cp_revision_height path) (Some s)) mt cn
  | CODeleteConsensus _ => w
  | COMeta _ h t hh => mkClientView st cs (at_path mt (height_of h) (Some (t, hh))) cn
  | CODeleteMeta _ h => mkClientView st cs (at_path mt (height_of h) None) cn
  | COConnection _ conn => mkClientView st cs mt (at_path cn conn (Some tt))
  end.
Definition client_op_spec (W : ClientId -> option ClientView) (op : ClientOp) : res unit * (ClientId -> option ClientView) :=
  match W (op_client op) with
  | Some w => (Ok tt, at_path W (op_client op) (Some (op_view op w)))
  | None => if creates op then (Ok tt, at_path W (op_client op) (Some (op_view op no_client)))
            else (Err (ClientStateNotFound (op_client op)), W)
  end.

(** The change of one client. *)
Definition client_change b (op : ClientOp) : M Client unit :=
  match op with
  | COState _ s => in_client_state (Map_insert (St := St) mkFixedString (mkNewtype s))
  | COConsensus path s => in_consensus_states (Map_insert (St := St) (EpochHeight_at (cp_revision_number path, cp_revision_height path)) (mkWrappedConsensusState s))
  | CODeleteConsensus path => run in_consensus_states (Map_remove b (mkEofTerminatedString (u64_to_string (cp_revision_height path)))); retM tt
  | COMeta _ h t hh => in_updates (Map_insert (St := St) (EpochHeight_at (height_of h)) (meta_of (t, hh)))
  | CODeleteMeta _ h => run in_updates (Map_remove b (EpochHeight_at (height_of h))); retM tt
  | COConnection _ conn => in_client_connections (Map_insert (St := St) (ConnectionIdKey_from conn) tt)
  end.
Lemma client_change_shows b op c w :
  ClientShows b c w -> exists c', client_change b op c = (Ok tt, c') /\ ClientShows b c' (op_view op w).
Proof.
  intros [Hs Hc Hm Hn Hb]. destruct w as [st cs mt cn], op; cbn [client_change op_view] in *;
    unfold in_client_state, in_consensus_states, in_updates, in_client_connections, zoomM.
  - destruct (insert_shows (V := WrappedClientState) (fun _ : unit => mkFixedString) (fun _ => lit "State") mkNewtype state_key_ok (unit_inj _) client_state_attach
      b _ _ tt s Hs) as (m' & -> & Hm'). eexists. split; [done|]. split; try done. intros u. cbn [Cl_client_state]. rewrite (Hm' u). by destruct u.
  - destruct (insert_shows (V := WrappedConsensusState) EpochHeight_at height_key mkWrappedConsensusState EpochHeight_at_ok height_key_inj consensus_attach
      b _ _ (cp_revision_number path, cp_revision_height path) s Hc) as (m' & He & Hm').
    destruct (Map_insert_peek (V := WrappedConsensusState) b (Cl_consensus_states c) _ _ (mkWrappedConsensusState s) _ (EpochHeight_at_ok (cp_revision_number path, cp_revision_height path)) (consensus_attach _ s)) as (m2 & He2 & _ & Hp).
    rewrite He in He2. injection He2 as <-. rewrite He. eexists. split; [done|]. split; try done.
    intros n. cbn [Cl_consensus_states]. rewrite (Hp _ _ (height_key_ok _ (u64_text_ascii n))), decide_False; [done|]. apply height_no_dash.
  - destruct (Map_remove_peek b (Cl_consensus_states c) _ _ _ (height_key_ok _ (u64_text_ascii _)) (Hb (cp_revision_height path))) as (m' & He & _ & Hp & _).
    unfold bindM. rewrite He. eexists. split; [done|]. split; try done; cbn [Cl_consensus_states].
    + intros h. rewrite (Hp _ _ (EpochHeight_at_ok h)), decide_False; [apply Hc|]. intros Hk. by apply (height_no_dash (cp_revision_height path) h.1 h.2).
    + intros n. rewrite (Hp _ _ (height_key_ok _ (u64_text_ascii n))). destruct (decide _); [done|apply Hb].
  - destruct (insert_shows (V := WrappedTimestamp * BinaryHeight) EpochHeight_at height_key meta_of EpochHeight_at_ok height_key_inj (fun s x => meta_attach s _)
      b _ _ (height_of h) (t, host_height) Hm) as (m' & -> & Hm'). eexists. split; [done|]. by split.
  - destruct (remove_shows (V := WrappedTimestamp * BinaryHeight) EpochHeight_at height_key meta_of EpochHeight_at_ok height_key_inj b _ _ (height_of h) Hm) as (r & m' & He & Hm').
    unfold bindM. rewrite He. eexists. split; [done|]. by split.
  - destruct (insert_shows (V := unit) ConnectionIdKey_from to_string (@Datatypes.id unit) connection_key_ok connection_key_inj unit_attach b _ _ conn tt Hn) as (m' & He & Hm').
    unfold Datatypes.id in He. rewrite He. eexists. split; [done|]. by split.
Qed.

Lemma in_client_or_default_peek {A} failed b id client (f : M Client A) ctx :
  peek_or Client_default b (clients ctx) (ClientIdKey_from id) (client_key id) client ->
  exists ctx', in_client_or_default failed b id f ctx = (with_err failed (f client).1, ctx') /\
    Map_store (clients ctx') = Map_store (clients ctx) /\ (Map_live (clients ctx) -> Map_live (clients ctx')) /\
    forall i, peek b (clients ctx') (ClientIdKey_from i) = if decide (i = id) then Ok (Some (f client).2) else peek b (clients ctx) (ClientIdKey_from i).
Proof.
  intros Hc. destruct (Map_or_default_call_peek _ b _ _ _ _ f (client_key_ok id) Hc) as (m' & He & Hs & Hl & Hp).
  exists (set_clients m' ctx). unfold in_client_or_default, in_clients, zoomM, with_errM. rewrite He.
  split_and!; [done..|]. intros i. cbn [clients set_clients]. by rewrite (Hp _ _ (client_key_ok i)), (decide_key client_key client_key_inj).
Qed.

(** An operation is its change, called through an entry or a mutable reference. *)
Lemma run_client_op_change b op :
  if creates op then exists failed g, run_client_op b op = in_client_or_default failed b (op_client op) g /\ forall c, g c = client_change b op c
  else exists failed inside g, run_client_op b op = in_client failed (ClientStateNotFound (op_client op)) inside b (op_client op) g /\
    forall c, g c = client_change b op c.
Proof. destruct op; cbn [creates]; do 2 eexists; try eexists; by split. Qed.

Lemma Map_entry_vacant {K V} `{Encode K} {SV : State St V} b (m : Map K V) k kb :
  Encode_encode k = Ok kb -> peek b m k = Ok None -> bt_get kb (Map_children m) = None -> Map_entry b k m = (Ok (EntryVacant k), m).
Proof.
  intros Hk Hp Hn. rewrite (peek_eq _ _ _ _ Hk), Hn in Hp. unfold Map_entry, MapKey_new. rewrite Hk. cbn [res_bind MapKey_inner_bytes MapKey_inner]. by rewrite Hn, Hp.
Qed.
(** Replacing one client of the view. *)
Lemma Clients_step b ctx ctx' W id c w :
  Clients b ctx W -> Map_store (clients ctx') = Map_store (clients ctx) -> (Map_live (clients ctx) -> Map_live (clients ctx')) ->
  (forall i, peek b (clients ctx') (ClientIdKey_from i) = if decide (i = id) then Ok (Some c) else peek b (clients ctx) (ClientIdKey_from i)) ->
  ClientShows b c w -> Clients b ctx' (at_path W id (Some w)).
Proof.
  intros [Hl HW] Hs Hl' Hp Hc. split; [auto|]. intros i. unfold at_path. rewrite Hp, Hs.
  destruct (decide (i = id)) as [->|Hn]; [by exists c|apply HW].
Qed.
Lemma client_op_refines b ctx W op :
  Clients b ctx W -> exists ctx', run_client_op b op ctx = ((client_op_spec W op).1, ctx') /\ Clients b ctx' (client_op_spec W op).2.
Proof.
  intros HW. pose proof HW as [Hl HW']. specialize (HW' (op_client op)). pose proof (run_client_op_change b op) as Hrun. unfold client_op_spec.
  destruct (W (op_client op)) as [w|] eqn:EW.
  - destruct HW' as (c & Hp & Hc). destruct (client_change_shows b op c w Hc) as (c' & He & Hc').
    destruct (creates op); [destruct Hrun as (failed & g & -> & Hg)|destruct Hrun as (failed & inside & g & -> & Hg)].
    + destruct (in_client_or_default_peek failed b _ c g ctx (or_introl Hp)) as (ctx' & Hr & Hs & Hl' & Hp'). rewrite Hg, He in Hr, Hp'.
      exists ctx'. split; [exact Hr|]. by eapply Clients_step.
    + destruct (in_client_peek failed (ClientStateNotFound (op_client op)) inside b _ c g ctx Hp) as (ctx' & Hr & Hs & Hl' & Hp'). rewrite Hg, He in Hr, Hp'.
      exists ctx'. split; [exact Hr|]. by eapply Clients_step.
  - destruct HW' as (Hp & c & Ha & Hc). destruct (creates op); [destruct Hrun as (failed & g & -> & Hg)|destruct Hrun as (failed & inside & g & -> & Hg)].
    + destruct (client_change_shows b op c no_client Hc) as (c' & He & Hc').
      assert (Hor : peek_or Client_default b (clients ctx) (ClientIdKey_from (op_client op)) (client_key (op_client op)) c).
      { right. split_and!; [done|by eapply live_vacant; [apply client_key_ok| |]|done]. }
      destruct (in_client_or_default_peek failed b _ c g ctx Hor) as (ctx' & Hr & Hs & Hl' & Hp'). rewrite Hg, He in Hr, Hp'.
      exists ctx'. split; [exact Hr|]. by eapply Clients_step.
    + exists ctx. split; [|done]. unfold in_client, in_clients, zoomM, bindM, with_errM, Map_get_mut, bindM.
      rewrite (Map_entry_vacant b _ _ _ (client_key_ok _)) by (done || by eapply live_vacant; [apply client_key_ok| |]). cbn. by destruct ctx.
Qed.
Fixpoint run_client_ops b (ops : list ClientOp) ctx : list (res unit) * IbcContext :=
  match ops with
  | [] => ([], ctx)
  | op :: ops => let '(r, ctx1) := run_client_op b op ctx in let '(rs, ctx') := run_client_ops b ops ctx1 in (r :: rs, ctx')
  end.
Fixpoint client_ops_spec (W : ClientId -> option ClientView) (ops : list ClientOp) : list (res unit) * (ClientId -> option ClientView) :=
  match ops with
  | [] => ([], W)
  | op :: ops => let '(r, W1) := client_op_spec W op in let '(rs, W') := client_ops_spec W1 ops in (r :: rs, W')
  end.
Lemma client_ops_refines b ops : forall ctx W,
  Clients b ctx W -> exists ctx', run_client_ops b ops ctx = ((client_ops_spec W ops).1, ctx') /\ Clients b ctx' (client_ops_spec W ops).2.
Proof.
  induction ops as [|op ops IH]; intros ctx W HW; [by exists ctx|]. cbn [run_client_ops client_ops_spec].
  destruct (client_op_refines b ctx W op HW) as (ctx1 & -> & HW1). destruct (client_op_spec W op) as [r W1].
  destruct (IH ctx1 W1 HW1) as (ctx' & -> & HW'). destruct (client_ops_spec W1 ops) as [rs W']. by exists ctx'.
Qed.

(** What the client contexts answer, of a view. *)
Definition ClientAnswers b ctx (W : ClientId -> option ClientView) : Prop :=
  (forall id, client_state b ctx id = match W id with
                                      | Some w => ok_or (cv_state w) (ClientSpecific "Unable to get client state")
                                      | None => Err (ClientStateNotFound id)
                                      end) /\
  (forall path h, Height_new (cp_revision_number path) (cp_revision_height path) = Some h ->
     consensus_state b ctx path = match W (cp_client_id path) with
                                  | Some w => match cv_consensus w (height_of h) with
                                              | Some s => Ok (Tendermint s)
                                              | None => Err (ConsensusStateNotFound (cp_client_id path) h)
                                              end
                                  | None => Err (ClientStateNotFound (cp_client_id path))
                                  end) /\
  (forall id h, client_update_meta b ctx id h = match W id with
                                                | Some w => ok_or (cv_meta w (height_of h)) (UpdateMetaDataNotFound id h)
                                                | None => Err (UpdateMetaDataNotFound id h)
                                                end).
Lemma Clients_answers b ctx W : Clients b ctx W -> ClientAnswers b ctx W.
Proof.
  intros [_ HW]. split_and!.
  - intros id. specialize (HW id). unfold client_state. rewrite get_client_peek. destruct (W id) as [w|].
    + destruct HW as (c & -> & [Hs _ _ _ _]). cbn [with_err ok_or res_bind]. apply (shows_get _ _ _ _ _ tt) in Hs. destruct (cv_state w).
      * destruct Hs as (r & -> & Hr). cbn [with_err ok_or res_bind]. by rewrite Hr.
      * by rewrite Hs.
    + by destruct HW as [-> _].
  - intros path h Hh. specialize (HW (cp_client_id path)). unfold consensus_state. rewrite Hh. cbn [ok_or res_bind]. rewrite get_client_peek. destruct (W (cp_client_id path)) as [w|].
    + destruct HW as (c & -> & [_ Hc _ _ _]). cbn [with_err ok_or res_bind]. apply (shows_get _ _ _ _ _ (height_of h)) in Hc. destruct (cv_consensus w _).
      * destruct Hc as (r & Hg & Hr). unfold EpochHeight_at in Hg. unfold EpochHeight_from. cbn [height_of fst snd] in Hg. rewrite Hg. cbn [with_err ok_or res_bind]. by rewrite Hr.
      * unfold EpochHeight_at in Hc. unfold EpochHeight_from. cbn [height_of fst snd] in Hc. by rewrite Hc.
    + by destruct HW as [-> _].
  - intros id h. specialize (HW id). unfold client_update_meta. rewrite get_client_peek. destruct (W id) as [w|].
    + destruct HW as (c & -> & [_ _ Hm _ _]). cbn [with_err ok_or res_bind]. apply (shows_get _ _ _ _ _ (height_of h)) in Hm. destruct (cv_meta w _) as [[t hh]|].
      * destruct Hm as (r & Hg & Hr). unfold EpochHeight_at in Hg. unfold EpochHeight_from. cbn [height_of fst snd] in Hg. rewrite Hg. cbn [with_err ok_or res_bind]. rewrite Hr.
        unfold meta_of, BinaryHeight_try_into, BinaryHeight_from. cbn [fst snd BH_epoch BH_height]. by rewrite Height_eta.
      * unfold EpochHeight_at in Hm. unfold EpochHeight_from. cbn [height_of fst snd] in Hm. by rewrite Hm.
    + by destruct HW as [-> _].
Qed.
End ClientOps.
