(* ===== verification/IbcProps.v ===== *)
(** * Properties of the IBC module

    The balances of the transfer module against a reference on numbers, and the properties
    of the host, of transfers and of the delivery of messages, with a small instance of the
    types of [ibc-rs] for their witnesses. *)

From stdpp Require Import base tactics numbers list strings gmap.
From Stdlib Require Import ZArith Lia.
From S2P Require Import Prelude Bytes BTree StoreIface StoreIter NullStore BufStore PrefixStore Codec StateIface Next StructState Utf8 Encoding SimpleState MapColl MapSpec MapProps MapCall MapIter Fields Address DequeColl DequeSpec DequeProps Coins AbciTypes Context Plugins AbciStore AbciPlugin InternalAppProps Migrate IbcTypes IbcContext IbcTransfer IbcSpec.
#[local] Open Scope Z_scope.

(** ** Balances of the transfer module *)

Section Transfer.
Context `{Profile} `{CompatMode} `{I20 : Ics20} {St : Type} `{Read St} `{!Write St} `{!Bounded St}.
Implicit Types (b : St) (t : Transfer) (d : Denom) (a : Address).

Definition denom_bytes d : bytes := enc (LengthVec_len d) ++ (LengthVec_values d ≫= enc).
Lemma denom_ok d : Encode_encode d = Ok (denom_bytes d).
Proof. cbn [Encode_encode LengthVec_Encode]. apply LengthVec_encode_eq. Qed.
Lemma bytes_enc_inj (l l' : list u8) : l ≫= enc = l' ≫= enc -> l = l'.
Proof.
  revert l'; induction l as [|x l IH]; intros [|y l'] He; [done|..].
  - rewrite bind_cons, u8_enc in He. done.
  - rewrite bind_cons, u8_enc in He. done.
  - rewrite !bind_cons, !u8_enc in He. injection He as Hx He. apply uint_eq in Hx as ->. f_equal. by apply IH.
Qed.
Lemma denom_inj d d' : denom_bytes d = denom_bytes d' -> d = d'.
Proof.
  destruct d as [n l], d' as [n' l']. unfold denom_bytes. cbn [LengthVec_len LengthVec_values]. rewrite !u8_enc.
  intros [= Hn Hl]. apply uint_eq in Hn as ->. by apply bytes_enc_inj in Hl as ->.
Qed.
#[export] Instance Denom_eq_dec : EqDecision Denom.
Proof.
  intros i j. destruct (decide (denom_bytes i = denom_bytes j)) as [He|Hn]; [left; by apply denom_inj|right; congruence].
Defined.

(** What is read of the balances of a denomination, as numbers. *)
Definition balance_val (o : option Amount) : Z := match o with Some x => amt x | None => 0 end.
Definition reads_balances b (inner : Map Address Amount) (f : Address -> Z) : Prop :=
  forall a, exists o, peek b inner a = Ok o /\ f a = balance_val o.
(** The balances of all denominations. What is not there reads as a map at the store of its
    key, which holds nothing. *)
Definition Balances b t (F : Denom -> Address -> Z) : Prop :=
  Map_live (accounts t) /\
  forall d, exists inner, peek_or (Map_new (K := Address) (V := Amount)) b (accounts t) d (denom_bytes d) inner /\
    Map_live inner /\ reads_balances b inner (F d) /\ (peek b (accounts t) d = Ok None -> forall a, F d a = 0).
Definition at_key {A B} `{EqDecision A} (f : A -> B) (k : A) (x : B) : A -> B := fun j => if decide (j = k) then x else f j.

Lemma balance_reads b t F a d : Balances b t F -> exists x, Transfer_balance b t a d = Ok x /\ amt x = F d a.
Proof.
  intros [_ HF]. destruct (HF d) as (inner & Hp & _ & Hr & Hz). unfold Transfer_balance. destruct Hp as [Hp|(Hp & _)].
  - apply peek_some in Hp as (r & -> & <-). cbn [res_bind]. destruct (Hr a) as (o & Ho & ->).
    unfold peek in Ho. destruct (Map_get b _ a) as [o'|?|?]; [|done..]. cbn [res_bind] in Ho |- *. injection Ho as <-.
    eexists. split; [done|]. by destruct o'.
  - rewrite (peek_none _ _ _ Hp). cbn [res_bind]. exists (Amount_of 0). split; [|by rewrite Hz].
    unfold Map_get, MapKey_new. rewrite encode_enc. cbn [res_bind]. unfold Map_get_from_store. rewrite encode_enc. done.
Qed.

Definition or_else {A} (x : A) (o : option A) : A := match o with Some y => y | None => x end.
(** One account of a denomination moves by [n]. *)
Definition move (f : Address -> Z) (m : Address * Z) : option (Address -> Z) :=
  if u64b (f m.1 + m.2) then Some (at_key f m.1 (f m.1 + m.2)) else None.
Lemma assign_moves b inner f a n (g : Amount -> res Amount) :
  Map_live inner -> reads_balances b inner f ->
  (forall x, g x = if u64b (amt x + n) then Ok (Amount_of (amt x + n)) else Err EOverflow) ->
  exists inner', Map_or_default_assign (Amount_of 0) b a g inner = (if move f (a, n) is Some _ then Ok tt else Err EOverflow, inner') /\
    Map_live inner' /\ reads_balances b inner' (or_else f (move f (a, n))).
Proof.
  intros Hl Hr Hg. destruct (Hr a) as (o & Ho & Hf).
  assert (Hp : peek_or (Amount_of 0) b inner a (enc a) (or_else (Amount_of 0) o)).
  { destruct o as [x|]; [by left|right]. split_and!; [done|by eapply live_vacant; eauto using encode_enc|].
    destruct compat_mode eqn:Hc; cbn; rewrite ?Hc; reflexivity. }
  pose proof (Map_or_default_assign_peek _ b inner a _ _ g (encode_enc a) Hp) as Ha. rewrite Hg in Ha.
  assert (Hx : amt (or_else (Amount_of 0) o) = f a) by (rewrite Hf; by destruct o).
  rewrite Hx in Ha. unfold move. cbn [fst snd]. destruct (u64b_spec (f a + n)) as [Hu|Hu].
  - destruct Ha as (inner' & -> & _ & Hl' & Hp'). exists inner'. split_and!; [done|by apply Hl'|].
    intros j. cbn [or_else]. rewrite (Hp' _ _ (encode_enc j)). unfold at_key.
    destruct (decide (enc j = enc a)) as [->%enc_inj|Hn].
    + exists (Some (Amount_of (f a + n))). rewrite decide_True by done. split; [done|]. cbn [balance_val].
      unfold amt, Amount_of, Amount_new. cbn [only_field]. by rewrite to_u64_val.
    + rewrite decide_False by congruence. apply Hr.
  - exists inner. rewrite Ha. by split_and!.
Qed.
Lemma debit_moves b inner f a amount :
  Map_live inner -> reads_balances b inner f ->
  exists inner', debit b a amount inner = (if move f (a, - amt amount) is Some _ then Ok tt else Err EOverflow, inner') /\
    Map_live inner' /\ reads_balances b inner' (or_else f (move f (a, - amt amount))).
Proof.
  intros Hl Hr. apply assign_moves; [done..|]. intros x. unfold Amount_sub, checked_u64. rewrite Z.add_opp_r. by destruct (u64b _).
Qed.
Lemma credit_moves b inner f a amount :
  Map_live inner -> reads_balances b inner f ->
  exists inner', credit b a amount inner = (if move f (a, amt amount) is Some _ then Ok tt else Err EOverflow, inner') /\
    Map_live inner' /\ reads_balances b inner' (or_else f (move f (a, amt amount))).
Proof. intros Hl Hr. apply assign_moves; [done..|]. intros x. unfold Amount_add, checked_u64. by destruct (u64b _). Qed.

(** A method on the balances of one denomination. *)
Lemma with_denom_moves {A} b t F d amount (f : Amount -> M (Map Address Amount) A) :
  Balances b t F ->
  exists inner, Map_live inner /\ reads_balances b inner (F d) /\
    forall r inner' g, f amount inner = (r, inner') -> Map_live inner' -> reads_balances b inner' g ->
    exists t', with_denom b d (Ok amount) f t = (with_err InvalidToken r, t') /\ Balances b t' (at_key F d g) /\
      incoming_transfer t' = incoming_transfer t.
Proof.
  intros [Hl HF]. destruct (HF d) as (inner & Hp & Hli & Hr & Hz). exists inner. split_and!; [done..|].
  intros r inner' g Hf Hl' Hr'. destruct (Entry_or_default_peek _ _ _ _ _ _ (denom_ok d) Hp) as (c & Hc & Href).
  destruct (ChildMut_call_peek b _ _ _ _ c (f amount) (denom_ok d) Href) as (m' & Hcall & Hs & Hlm & Hpm). rewrite Hf in Hcall, Hpm.
  exists (mkTransfer m' (incoming_transfer t)). split_and!; [| |done].
  - unfold with_denom, in_accounts, zoomM, with_errM. unfold bindM in Hc |- *. destruct (Map_entry b d (accounts t)) as [[e|?|?] m1]; [|done..].
    rewrite Hc. unfold liftM. by rewrite Hcall.
  - split; [by apply Hlm|]. intros d'. cbn [accounts]. specialize (Hpm _ _ (denom_ok d')). unfold at_key.
    destruct (decide (denom_bytes d' = denom_bytes d)) as [->%denom_inj|Hn].
    + rewrite decide_True by done. exists inner'. split_and!; [by left|done..|]. by rewrite Hpm.
    + rewrite decide_False by congruence. destruct (HF d') as (i & Hp' & Hli' & Hri & Hz'). exists i. split_and!; [|done..|by rewrite Hpm].
      unfold peek_or. rewrite Hpm, Hs. destruct Hp' as [Hp'|(Hp' & _ & Ha)]; [by left|right]. split_and!; [done| |done].
      eapply live_vacant; [apply denom_ok|by apply Hlm|by rewrite Hpm].
Qed.

(** ** The reference

    A transfer is a sequence of moves on the balances of one denomination, which stops at
    the first that would leave the range of a [u64]. *)
Fixpoint moves (f : Address -> Z) (ms : list (Address * Z)) : bool * (Address -> Z) :=
  match ms with
  | [] => (true, f)
  | m :: ms => match move f m with Some f' => moves f' ms | None => (false, f) end
  end.
Inductive TransferOp :=
| TBurn (account : Address) (coin : PrefixedCoin) | TMint (account : Address) (coin : PrefixedCoin)
| TEscrow (from : Address) (port_id : PortId) (channel_id : ChannelId) (coin : PrefixedCoin)
| TUnescrow (to : Address) (port_id : PortId) (channel_id : ChannelId) (coin : PrefixedCoin).
Definition run_transfer_op b (op : TransferOp) : M Transfer unit :=
  match op with
  | TBurn a c => burn_coins_execute b a c
  | TMint a c => mint_coins_execute b a c
  | TEscrow a p ch c => escrow_coins_execute b a p ch c
  | TUnescrow a p ch c => unescrow_coins_execute b a p ch c
  end.
Definition coin_moves (coin : PrefixedCoin) (ms : Z -> list (Address * Z)) : res (Denom * list (Address * Z)) :=
  let? denom := transfer_denom coin in
  let? amount := transfer_amount coin in
  Ok (denom, ms (amt amount)).
Definition transfer_moves (op : TransferOp) : res (Denom * list (Address * Z)) :=
  match op with
  | TBurn a c => coin_moves c (fun n => [(a, - n)])
  | TMint a c => coin_moves c (fun n => [(a, n)])
  | TEscrow a p ch c => let? e := get_escrow_account p ch in coin_moves c (fun n => [(a, - n); (e, n)])
  | TUnescrow a p ch c => let? e := get_escrow_account p ch in coin_moves c (fun n => [(e, - n); (a, n)])
  end.
Definition transfer_spec (F : Denom -> Address -> Z) (op : TransferOp) : res unit * (Denom -> Address -> Z) :=
  match transfer_moves op with
  | Ok (d, ms) => let '(ok, f) := moves (F d) ms in (if ok then Ok tt else Err InvalidToken, at_key F d f)
  | Err e => (Err e, F)
  | Panic w => (Panic w, F)
  end.

(** Two moves through the references, one after the other. *)
Lemma two_moves b inner f (g1 g2 : M (Map Address Amount) unit) m1 m2 :
  (forall inner f, Map_live inner -> reads_balances b inner f ->
    exists inner', g1 inner = (if move f m1 is Some _ then Ok tt else Err EOverflow, inner') /\ Map_live inner' /\ reads_balances b inner' (or_else f (move f m1))) ->
  (forall inner f, Map_live inner -> reads_balances b inner f ->
    exists inner', g2 inner = (if move f m2 is Some _ then Ok tt else Err EOverflow, inner') /\ Map_live inner' /\ reads_balances b inner' (or_else f (move f m2))) ->
  Map_live inner -> reads_balances b inner f ->
  exists inner', (run g1; g2) inner = (if (moves f [m1; m2]).1 then Ok tt else Err EOverflow, inner') /\ Map_live inner' /\
    reads_balances b inner' (moves f [m1; m2]).2.
Proof.
  intros H1' H2' Hl Hr. destruct (H1' inner f Hl Hr) as (i1 & He & Hl1 & Hr1). unfold bindM. rewrite He. cbn [moves].
  destruct (move f m1) as [f1|]; [|by exists i1]. cbn [or_else] in Hr1. destruct (H2' i1 f1 Hl1 Hr1) as (i2 & -> & Hl2 & Hr2).
  exists i2. by destruct (move f1 m2).
Qed.
Lemma one_move b inner f (g : M (Map Address Amount) unit) m :
  (exists inner', g inner = (if move f m is Some _ then Ok tt else Err EOverflow, inner') /\ Map_live inner' /\ reads_balances b inner' (or_else f (move f m))) ->
  exists inner', g inner = (if (moves f [m]).1 then Ok tt else Err EOverflow, inner') /\ Map_live inner' /\ reads_balances b inner' (moves f [m]).2.
Proof. intros (i & He & Hl & Hr). exists i. cbn [moves]. by destruct (move f m). Qed.

Lemma Balances_ext b t F G : (forall d a, F d a = G d a) -> Balances b t F -> Balances b t G.
Proof.
  intros HG [Hl HF]. split; [done|]. intros d. destruct (HF d) as (i & Hp & Hli & Hr & Hz). exists i. split_and!; [done..| |].
  - intros a. rewrite <- HG. apply Hr.
  - intros Hn a. rewrite <- HG. by apply Hz.
Qed.

(** What can fail before a balance is touched. *)
Lemma coin_denom_cases c : (exists d, transfer_denom c = Ok d) \/ transfer_denom c = Err InvalidToken.
Proof.
  unfold transfer_denom, transfer_res, Denom_try_from, LengthVec_try_from_string, LengthVec_try_from.
  destruct (try_from_usize _); [left; by eexists|by right].
Qed.
Lemma coin_amount_cases c : (exists n, transfer_amount c = Ok n) \/ transfer_amount c = Err InvalidToken.
Proof.
  unfold transfer_amount, transfer_res, Amount_try_from. destruct (u64_from_str _); [left; by eexists|by right].
Qed.
Lemma with_denom_err {A} b t F d (f : Amount -> M (Map Address Amount) A) :
  Balances b t F -> with_denom b d (Err InvalidToken) f t = (Err InvalidToken, t).
Proof.
  intros [_ HF]. destruct (HF d) as (inner & Hp & _). destruct (Entry_or_default_peek _ _ _ _ _ _ (denom_ok d) Hp) as (c & Hc & _).
  unfold with_denom, in_accounts, zoomM, with_errM. unfold bindM in Hc |- *. destruct (Map_entry b d (accounts t)) as [[e|?|?] m1]; [|done..].
  rewrite Hc. by destruct t.
Qed.
(** Each operation is its reference. *)
Lemma transfer_op_spec b t F op :
  Balances b t F -> exists t', run_transfer_op b op t = ((transfer_spec F op).1, t') /\ Balances b t' (transfer_spec F op).2 /\
    incoming_transfer t' = incoming_transfer t.
Proof.
  intros HF. unfold transfer_spec.
  assert (Hmoves : forall d amount f ms, (forall inner g, Map_live inner -> reads_balances b inner g ->
      exists inner', f amount inner = (if (moves g ms).1 then Ok tt else Err EOverflow, inner') /\ Map_live inner' /\ reads_balances b inner' (moves g ms).2) ->
    exists t', with_denom b d (Ok amount) f t = (if (moves (F d) ms).1 then Ok tt else Err InvalidToken, t') /\
      Balances b t' (at_key F d (moves (F d) ms).2) /\ incoming_transfer t' = incoming_transfer t).
  { intros d amount f ms Hf. destruct (with_denom_moves b t F d amount f HF) as (inner & Hl & Hr & Hw).
    destruct (Hf inner _ Hl Hr) as (inner' & He & Hl' & Hr'). destruct (Hw _ _ _ He Hl' Hr') as (t' & -> & Hb' & Hi). exists t'.
    split_and!; [|done..]. by destruct (moves (F d) ms).1. }
  destruct op as [a c|a c|a p ch c|a p ch c]; cbn [run_transfer_op transfer_moves];
    unfold burn_coins_execute, mint_coins_execute, escrow_coins_execute, unescrow_coins_execute, coin_moves, bindM, liftM;
    [| |destruct (get_escrow_account p ch) as [e|?|?]; [|by exists t..]; cbn [res_bind]..];
    (destruct (coin_denom_cases c) as [[d ->]| ->]; cbn [res_bind]; [|destruct (coin_amount_cases c) as [[n Hn]|Hn]; rewrite ?Hn; by exists t]);
    (destruct (coin_amount_cases c) as [[n ->]| ->]; cbn [res_bind]; [|by (exists t; split_and!; try done; eapply with_denom_err)]).
  - destruct (Hmoves d n (debit b a) [(a, - amt n)]) as (t' & Ht & Hb & Hi); [intros; by apply one_move, debit_moves|].
    exists t'. rewrite Ht. destruct (moves (F d) _) as [ok g]. by split_and!.
  - destruct (Hmoves d n (credit b a) [(a, amt n)]) as (t' & Ht & Hb & Hi); [intros; by apply one_move, credit_moves|].
    exists t'. rewrite Ht. destruct (moves (F d) _) as [ok g]. by split_and!.
  - destruct (Hmoves d n (fun n => run debit b a n; credit b e n) [(a, - amt n); (e, amt n)]) as (t' & Ht & Hb & Hi).
    { intros. apply two_moves; [intros; by apply debit_moves|intros; by apply credit_moves|done..]. }
    unfold bindM in Ht. exists t'. rewrite Ht. destruct (moves (F d) _) as [ok g]. by split_and!.
  - destruct (Hmoves d n (fun n => run debit b e n; credit b a n) [(e, - amt n); (a, amt n)]) as (t' & Ht & Hb & Hi).
    { intros. apply two_moves; [intros; by apply debit_moves|intros; by apply credit_moves|done..]. }
    unfold bindM in Ht. exists t'. rewrite Ht. destruct (moves (F d) _) as [ok g]. by split_and!.
Qed.

(** ** Histories *)

Fixpoint run_transfer_ops b (ops : list TransferOp) t : list (res unit) * Transfer :=
  match ops with
  | [] => ([], t)
  | op :: ops => let '(r, t1) := run_transfer_op b op t in let '(rs, t') := run_transfer_ops b ops t1 in (r :: rs, t')
  end.
Fixpoint transfers_spec (F : Denom -> Address -> Z) (ops : list TransferOp) : list (res unit) * (Denom -> Address -> Z) :=
  match ops with
  | [] => ([], F)
  | op :: ops => let '(r, F1) := transfer_spec F op in let '(rs, F') := transfers_spec F1 ops in (r :: rs, F')
  end.
Lemma transfer_ops_spec b ops : forall t F,
  Balances b t F -> exists t', run_transfer_ops b ops t = ((transfers_spec F ops).1, t') /\ Balances b t' (transfers_spec F ops).2 /\
    incoming_transfer t' = incoming_transfer t.
Proof.
  induction ops as [|op ops IH]; intros t F HF; [by exists t|]. cbn [run_transfer_ops transfers_spec].
  destruct (transfer_op_spec b t F op HF) as (t1 & -> & H1' & Hi1). destruct (transfer_spec F op) as [r F1].
  destruct (IH t1 F1 H1') as (t' & -> & H2' & Hi2). destruct (transfers_spec F1 ops) as [rs F']. exists t'. split_and!; [done..|congruence].
Qed.

(** *** Totals *)

Definition total_of (f : Address -> Z) (ks : list Address) : Z := foldr (fun k acc => f k + acc) 0 ks.
Lemma total_move f m f' ks : NoDup ks -> m.1 ∈ ks -> move f m = Some f' -> total_of f' ks = total_of f ks + m.2.
Proof.
  unfold move. destruct (u64b _); [|done]. intros Hnd Hin [= <-]. destruct m as [a n]. cbn [fst snd] in *.
  assert (Hout : forall l, a ∉ l -> total_of (at_key f a (f a + n)) l = total_of f l).
  { induction l as [|j l IH]; [done|]. intros [Hj Hl]%not_elem_of_cons. cbn [total_of foldr]. unfold total_of in IH. rewrite IH by done.
    unfold at_key. by rewrite decide_False by congruence. }
  induction Hnd as [|j ks Hj Hnd IH]; [by apply elem_of_nil in Hin|]. cbn [total_of foldr]. fold (total_of (at_key f a (f a + n)) ks). fold (total_of f ks).
  apply elem_of_cons in Hin as [->|Hin].
  - rewrite Hout by done. unfold at_key. rewrite decide_True by done. lia.
  - rewrite IH by done. unfold at_key. rewrite decide_False by congruence. lia.
Qed.

(** What an operation creates of a denomination, when it succeeds. *)
Definition created (op : TransferOp) (d : Denom) : Z :=
  match op with
  | TMint _ c | TBurn _ c =>
      match transfer_denom c, transfer_amount c with
      | Ok d', Ok n => if decide (d' = d) then (if op is TMint _ _ then amt n else - amt n) else 0
      | _, _ => 0
      end
  | _ => 0
  end.
(** The accounts it touches. *)
Definition touches (op : TransferOp) (ks : list Address) : Prop :=
  forall d ms, transfer_moves op = Ok (d, ms) -> Forall (fun m => m.1 ∈ ks) ms.

Lemma amount_nonneg (n : Amount) : 0 <= amt n.
Proof. apply amt_range. Qed.
(** A success changes the total by what it creates, a failure at most loses. *)
Lemma transfer_spec_total F op d ks :
  NoDup ks -> touches op ks ->
  let '(r, F') := transfer_spec F op in
  if is_ok r then total_of (F' d) ks = total_of (F d) ks + created op d else total_of (F' d) ks <= total_of (F d) ks.
Proof.
  intros Hnd Hks. unfold transfer_spec. destruct (transfer_moves op) as [[d' ms]|?|?] eqn:Em; [|simpl; lia..].
  specialize (Hks _ _ Em).
  assert (Hshape : exists n, 0 <= n /\ ((exists a, ms = [(a, - n)] /\ created op d = if decide (d' = d) then - n else 0) \/
     (exists a, ms = [(a, n)] /\ created op d = if decide (d' = d) then n else 0) \/
     (exists a c, ms = [(a, - n); (c, n)] /\ created op d = 0))).
  { destruct op as [a c|a c|a p ch c|a p ch c]; cbn [transfer_moves created] in *; [| |destruct (get_escrow_account p ch) as [e|?|?]; [|done..]; cbn [res_bind] in Em..];
      unfold coin_moves in Em; destruct (transfer_denom c) as [d0|?|?]; try done; cbn [res_bind] in Em;
      destruct (transfer_amount c) as [n|?|?]; try done; injection Em as <- <-; exists (amt n); (split; [apply amount_nonneg|]); eauto 10. }
  destruct Hshape as (n & Hn & Hcases). unfold at_key.
  destruct (decide (d = d')) as [<-|Hd].
  2:{ destruct (moves (F d') ms) as [ok f]. rewrite decide_False by done.
      assert (created op d = 0) as -> by (destruct Hcases as [(a & -> & ->)|[(a & -> & ->)|(a & c & -> & ->)]]; try rewrite decide_False by congruence; done).
      destruct ok; simpl; lia. }
  destruct Hcases as [(a & -> & Hc)|[(a & -> & Hc)|(a & c & -> & Hc)]]; rewrite ?decide_True in Hc by done; cbn [moves];
    apply Forall_cons in Hks as [Ha Hks].
  - destruct (move (F d) (a, - n)) as [f|] eqn:E; rewrite decide_True by done; cbn [is_ok]; [|lia].
    rewrite (total_move _ _ _ _ Hnd Ha E). cbn [snd]. lia.
  - destruct (move (F d) (a, n)) as [f|] eqn:E; rewrite decide_True by done; cbn [is_ok]; [|lia].
    rewrite (total_move _ _ _ _ Hnd Ha E). cbn [snd]. lia.
  - apply Forall_cons in Hks as [Hcs _]. destruct (move (F d) (a, - n)) as [f|] eqn:E; [|rewrite decide_True by done; simpl; lia].
    pose proof (total_move _ _ _ _ Hnd Ha E) as Ht. cbn [snd] in Ht.
    destruct (move f (c, n)) as [g|] eqn:E'; rewrite decide_True by done; cbn [is_ok]; [|lia].
    rewrite (total_move _ _ _ _ Hnd Hcs E'). cbn [snd]. lia.
Qed.

(** What a history creates: what its successful operations do. *)
Fixpoint created_by (ops : list TransferOp) (rs : list (res unit)) (d : Denom) : Z :=
  match ops, rs with
  | op :: ops, r :: rs => (if is_ok r then created op d else 0) + created_by ops rs d
  | _, _ => 0
  end.
Lemma transfers_spec_total ops d ks : forall F,
  NoDup ks -> Forall (fun op => touches op ks) ops ->
  let '(rs, F') := transfers_spec F ops in
  total_of (F' d) ks <= total_of (F d) ks + created_by ops rs d /\
  (forallb is_ok rs = true -> total_of (F' d) ks = total_of (F d) ks + created_by ops rs d).
Proof.
  induction ops as [|op ops IH]; intros F Hnd Hks; cbn [transfers_spec created_by]; [simpl; lia|].
  apply Forall_cons in Hks as [Hop Hks]. pose proof (transfer_spec_total F op d ks Hnd Hop) as Hs.
  destruct (transfer_spec F op) as [r F1]. specialize (IH F1 Hnd Hks). destruct (transfers_spec F1 ops) as [rs F'].
  destruct IH as [IH1 IH2]. cbn [forallb]. destruct (is_ok r) eqn:Er; cbn [is_ok andb].
  - split; [lia|]. intros Ha. specialize (IH2 Ha). lia.
  - split; [lia|done].
Qed.

(** ** Properties *)

(** C10: Over any history of burns, mints, escrows and releases the balances are those of the
    reference: each operation does its moves in order and stops at the first that would
    make a balance negative or overflow it; it fails exactly then, or when its
    denomination, amount or escrow account cannot be read, and what it moved before stays
    moved. No other balance of any denomination changes, and [balance] answers with them. *)
Theorem transfers_refine b t F ops :
  Balances b t F ->
  exists t', run_transfer_ops b ops t = ((transfers_spec F ops).1, t') /\ Balances b t' (transfers_spec F ops).2 /\
    incoming_transfer t' = incoming_transfer t /\
    forall a d, exists x, Transfer_balance b t' a d = Ok x /\ amt x = (transfers_spec F ops).2 d a.
Proof.
  intros HF. destruct (transfer_ops_spec b ops t F HF) as (t' & He & HF' & Hi). exists t'. split_and!; [done..|].
  intros a d. by apply balance_reads.
Qed.

(** C11: Over any history of operations on accounts among [ks], the balances of a
    denomination that they hold together never exceed what they held plus what the
    successful operations minted less what they burned, and are exactly that if every
    operation succeeded: taking coins into escrow and back out creates nothing. *)
Theorem transfers_conserve b t F ops ks d :
  Balances b t F -> NoDup ks -> Forall (fun op => touches op ks) ops ->
  exists rs t' F', run_transfer_ops b ops t = (rs, t') /\ Balances b t' F' /\
    total_of (F' d) ks <= total_of (F d) ks + created_by ops rs d /\
    (forallb is_ok rs = true -> total_of (F' d) ks = total_of (F d) ks + created_by ops rs d).
Proof.
  intros HF Hnd Hks. destruct (transfer_ops_spec b ops t F HF) as (t' & He & HF' & _). pose proof (transfers_spec_total ops d ks F Hnd Hks) as Ht.
  destruct (transfers_spec F ops) as [rs F']. destruct Ht as [Ht1 Ht2]. exists rs, t', F'. split_and!; [exact He|exact HF'|exact Ht1|exact Ht2].
Qed.
End Transfer.

(** ** The host *)

Section HostProps.
Context `{Profile} `{CompatMode} `{RS : IbcRsSpec} `{WS : WriteSpec St} `{!Bounded St} `{!BoundedSpec St}.
Implicit Types (b : St) (ctx : IbcContext).

(** C12: Whatever operations of the execution context are carried out, the validation
    context answers as the host's view changed by them: a packet commitment, receipt,
    acknowledgement, channel, next sequence number or connection is what was stored last
    under its path, until it is deleted, and no operation changes what is kept under
    another path. The queries of relayers answer likewise: of a list of sequence numbers
    those without a receipt, those with a commitment, the acknowledgements that are there,
    and the next sequence numbers. *)
Theorem host_ops_refine b ctx w ops :
  Shows b ctx w ->
  exists ctx', run_host_ops b ops ctx = (Ok tt, ctx') /\ Shows b ctx' (fold_left host_op_spec ops w) /\
    Answers b ctx' (fold_left host_op_spec ops w) /\ QueryAnswers b ctx' (fold_left host_op_spec ops w) /\
    clients ctx' = clients ctx /\ height ctx' = height ctx.
Proof.
  intros Hw. destruct (host_ops_show b ops ctx w Hw) as (ctx' & He & Hw' & Hc & Hh). exists ctx'.
  split_and!; [exact He|exact Hw'|by apply Shows_answers|by apply Shows_query_answers|done..].
Qed.

(** C15: Deleting a packet commitment that is in the store and flushing removes the stored
    commitments of all packets of the channel whose sequence number, written in decimal,
    begins with that of the packet: deleting that of packet 1 also removes those of
    packets 10 to 19, 100 and so on, and only these. *)
Theorem delete_packet_commitment_flushed b ctx p c :
  Read_inv b -> Map_children (commitments ctx) = [] -> get_packet_commitment b ctx p = Ok c ->
  exists ctx' b', delete_packet_commitment b p ctx = (Ok tt, ctx') /\ Map_flush (St := St) (commitments ctx') b = (Ok [], b') /\
    Read_inv b' /\
    forall q, view b' !! (Store_prefix (Map_store (commitments ctx)) ++ packet_key q) =
              if begins p q then None else view b !! (Store_prefix (Map_store (commitments ctx)) ++ packet_key q).
Proof.
  intros Hb Hm Hc.
  assert (Hp : peek b (commitments ctx) (PortChannelSequence_from p) = Ok (Some c)).
  { unfold get_packet_commitment in Hc. unfold peek. destruct (Map_get b _ _) as [[r|]|?|?]; try done. cbn in Hc |- *. by injection Hc as ->. }
  destruct (deletion_flushed b (commitments ctx) p c Hb Hm Hp) as (r & m' & b' & Hr & Hf & Hb' & Hv).
  exists (set_commitments m' ctx), b'. split_and!; [|done..|].
  - unfold delete_packet_commitment, in_commitments, zoomM, bindM, with_errM. by rewrite Hr.
  - intros q. by rewrite Hv, begins_spec.
Qed.

(** Deleting a consensus state of a client deletes nothing: it succeeds, and every
    consensus state, the one asked for included, is still answered as before. *)
Theorem delete_consensus_state_keeps b ctx path client o :
  peek b (clients ctx) (ClientIdKey_from (cp_client_id path)) = Ok (Some client) ->
  peek b (Cl_consensus_states client) (mkEofTerminatedString (u64_to_string (cp_revision_height path))) = Ok o ->
  exists ctx', delete_consensus_state b path ctx = (Ok tt, ctx') /\
    forall path', consensus_state b ctx' path' = consensus_state b ctx path'.
Proof. apply delete_consensus_state_keeps_all. Qed.

(** C13: Whatever operations on clients are carried out, in any order and whether or not they
    fail, the client contexts answer as the view changed by the reference: a client, with
    its state, consensus states, update metadata and connections, is there once one of the
    storing operations named it; what is kept under a height is what was stored last; the
    operations that need the client fail without one and change nothing. Deleting update
    metadata removes it; deleting a consensus state changes nothing at all. *)
Theorem client_ops_refine b ctx W ops :
  Clients b ctx W ->
  exists ctx', run_client_ops b ops ctx = ((client_ops_spec W ops).1, ctx') /\ Clients b ctx' (client_ops_spec W ops).2 /\
    ClientAnswers b ctx' (client_ops_spec W ops).2.
Proof.
  intros HW. destruct (client_ops_refines b ops ctx W HW) as (ctx' & He & HW'). exists ctx'.
  split_and!; [exact He|exact HW'|by apply Clients_answers].
Qed.

End HostProps.

Section Window.
Context `{Profile} `{CompatMode} `{RS : IbcRsSpec} `{!ProtobufSpec TmConsensusState}.
Context `{WS : WriteSpec St} `{!Bounded St} `{!BoundedSpec St} `{IMs : IbcMessages}.

(** C14: After a block that records its state, at the height after the last, the host
    answers for the last 100,000 heights with the state that the block at that height
    recorded; where arithmetic is checked it panics for every other height. *)
Theorem host_states_window s (b : St) ctx first hist block x :
  Read_inv b -> HostWindow s b ctx first hist -> dtail (host_consensus_states ctx) < u64_max ->
  recorded block x -> BB_height block = uint_val (height ctx) + 1 -> is_u64 (BB_height block) ->
  exists ctx', IbcContext_begin_block b block ctx = (Ok tt, ctx') /\ HostWindow s b ctx' first (hist ++ [x]) /\
    forall h : Height, let age := BB_height block - uint_val (revision_height h) in
      if (0 <=? age) && (age <? Z.min MAX_HOST_CONSENSUS_STATES (Z.of_nat (length hist) + 1))
      then exists y, (hist ++ [x]) !! Z.to_nat (uint_val (revision_height h) - first - 1) = Some y /\ host_consensus_state b ctx' h = Ok y
      else overflow_checks = true -> exists w, host_consensus_state b ctx' h = Panic w.
Proof.
  intros Hb Hw Ht Hr Hh Hu. destruct (begin_block_window s b ctx first hist block x Hb Hw Ht Hr Hh Hu) as (ctx' & He & Hw').
  exists ctx'. split_and!; [done..|]. intros h. cbv zeta.
  assert (Hh' : uint_val (height ctx') = BB_height block) by (destruct Hw as (_ & Hl & _), Hw' as (_ & Hl' & _); rewrite length_app in Hl'; cbn [length] in Hl'; lia).
  assert (Hlen : Z.of_nat (length (recent (hist ++ [x]))) = Z.min MAX_HOST_CONSENSUS_STATES (Z.of_nat (length hist) + 1)).
  { unfold recent. rewrite length_drop, length_app. cbn [length]. unfold MAX_HOST_CONSENSUS_STATES. lia. }
  destruct (_ && _) eqn:E.
  - apply andb_true_iff in E as [Hlo%Z.leb_le Hhi%Z.ltb_lt]. apply (window_lookup s b ctx' first); [done..|]. rewrite Hlen, Hh'. lia.
  - intros Hc. apply (window_outside s b ctx' first (hist ++ [x])); [done..|]. rewrite Hlen, Hh'.
    apply andb_false_iff in E as [E%Z.leb_gt|E%Z.ltb_ge]; lia.
Qed.
End Window.

(** ** Witnesses

    An instance in which identifiers are numbers, what is stored is its own encoding and a
    consensus state is the hash of the application. *)

Record ex_height := mkExHeight { ex_revision : u64; ex_number : u64; ex_positive : (0 <? uint_val ex_number) = true }.
Definition ex_Height_new (r h : u64) : option ex_height :=
  match bool_dec (0 <? uint_val h) true with left Hp => Some (mkExHeight r h Hp) | right _ => None end.
Definition ex_ibc : IbcRs.
Proof.
  refine {| ClientId := u64; ConnectionId := u64; PortId := u64; ChannelId := u64; PortId_transfer := to_uint 8 7;
    Sequence := u64; Sequence_from := fun n => n; Sequence_into := fun n => n;
    ClientType := RString; ClientType_as_str := fun s => s; ClientType_new := Some; tm_client_type := lit "07-tendermint";
    Height := ex_height; Height_new := ex_Height_new; revision_number := ex_revision; revision_height := ex_number;
    Height_from_str := fun s => match split_on 45 s with
                               | [r; h] => match u64_from_str r, u64_from_str h with Some r, Some h => ex_Height_new r h | _, _ => None end
                               | _ => None
                               end;
    IbcTimestamp := u64; from_nanoseconds := fun n => n; nanoseconds := fun n => n;
    TmTime := Z; from_unix_timestamp := fun s _ => Some s; Time_to_Timestamp := fun s => Some (to_uint 8 s);
    TmClientState := bytes; TmConsensusState := bytes; TmConsensusState_new := fun hash _ _ => hash; TmConsensusState_timestamp := fun _ => 0;
    ConnectionEnd := bytes; ChannelEnd := bytes; IbcHeader := bytes;
    IbcEvent := Event; IbcEvent_try_into := Some;
    IbcSigner := RString; IbcSigner_as_ref := fun s => s;
    Address_from_str := fun s => match u64_from_str s with Some n => Some (mkAddress (to_uint 20 (uint_val n))) | None => None end |}.
  all: try exact {| proto_encode := Some; proto_decode := Some |}.
  all: try (intros x y; apply (decide (x = y))).
Defined.
#[local] Existing Instance ex_ibc.
Lemma ex_id_text (n : u64) : id_text (u64_to_string n).
Proof. split; [apply digits_nonempty|]. eapply Forall_impl; [apply u64_text_chars|]. simpl. lia. Qed.
#[local] Instance ex_ibc_spec : IbcRsSpec.
Proof.
  split; try (intros x; apply ex_id_text); try (intros x; apply u64_from_to_string); try done.
  - intros r h. cbn. unfold ex_Height_new. destruct (bool_dec _ true) as [Hp|Hp]; cbn; [split_and!; [done..|lia]|].
    pose proof (uint_val_range 8 h). lia.
  - intros [r h Hp]. cbn. unfold ex_Height_new. destruct (bool_dec _ true) as [Hp'|Hp']; [|done]. do 2 f_equal. apply proof_irrel.
Qed.
#[local] Instance ex_protobuf_spec : ProtobufSpec TmConsensusState.
Proof. by refine {| proto_bytes := fun x => x |}. Defined.

Definition ex_id : ClientId (IbcRs := ex_ibc) := to_uint 8 3.
Definition ex_path (n : Z) : PacketPath := mkPacketPath (to_uint 8 1) (to_uint 8 2) (to_uint 8 n).
Definition ex_map {K V} (name : string) : Map K V := mkMap (mkStore (lit name)) [].
Definition ex_client : Client :=
  mkClient (ex_map "u") (ex_map "c") (mkMap (mkStore (lit "s")) [(format_height (to_uint 8 1) (to_uint 8 10), (mkEofTerminatedString (format_height (to_uint 8 1) (to_uint 8 10)), Some (mkWrappedConsensusState [10])));
    (format_height (to_uint 8 1) (to_uint 8 9), (mkEofTerminatedString (format_height (to_uint 8 1) (to_uint 8 9)), Some (mkWrappedConsensusState [9])))]) (ex_map "n") None (mkEofTerminatedString []).
Definition ex_host : IbcContext :=
  mkIbcContext (to_uint 8 4) Deque_new (to_uint 8 0) (to_uint 8 0) (to_uint 8 0)
    (mkMap (mkStore (lit "clients/")) [(client_key ex_id, (ClientIdKey_from ex_id, Some ex_client))])
    (ex_map "connections/") (ex_map "channelEnds/") (ex_map "nextSequenceSend/") (ex_map "nextSequenceRecv/") (ex_map "nextSequenceAck/")
    (ex_map "commitments/") (ex_map "receipts/") (ex_map "acks/") (mkStore []).
Definition ex_empty : MapStore := mkBufStore [] mkEmpty.
Lemma ex_empty_inv : Read_inv ex_empty.
Proof. split; [by repeat constructor|done]. Qed.

Lemma ex_shows {P K V A} `{Encode K} {SV : State MapStore V} (key : P -> K) (bytes_of : P -> bytes) (inj : A -> V) s :
  (forall p, Encode_encode (key p) = Ok (bytes_of p)) -> shows key inj ex_empty (mkMap s [] : Map K V) (fun _ => None).
Proof.
  intros Hk p. rewrite (peek_eq _ _ _ _ (Hk p)). cbn [Map_children bt_get]. unfold Map_get_from_store. by rewrite Hk.
Qed.
Definition ex_view : HostView :=
  mkHostView (fun _ => None) (fun _ => None) (fun _ => None) (fun _ => None) (fun _ => None) (fun _ => None) (fun _ => None) (fun _ => None).
Lemma ex_host_shows : Shows ex_empty ex_host ex_view.
Proof.
  split; [eapply ex_shows, packet_key_ok..|eapply ex_shows, channel_key_ok|eapply ex_shows, channel_key_ok|eapply ex_shows, channel_key_ok|
    eapply ex_shows, channel_key_ok|eapply ex_shows, connection_key_ok].
Qed.
Definition ex_host_ops : list HostOp :=
  [OpCommitment (ex_path 1) [to_uint 1 8]; OpCommitment (ex_path 10) [to_uint 1 9]; OpReceipt (ex_path 1); OpDeleteCommitment (ex_path 1)].
Lemma host_ops_refine_witness :
  exists ctx', run_host_ops ex_empty ex_host_ops ex_host = (Ok tt, ctx') /\ Shows ex_empty ctx' (fold_left host_op_spec ex_host_ops ex_view) /\
    Answers ex_empty ctx' (fold_left host_op_spec ex_host_ops ex_view) /\ QueryAnswers ex_empty ctx' (fold_left host_op_spec ex_host_ops ex_view) /\
    clients ctx' = clients ex_host /\ height ctx' = height ex_host.
Proof. exact (host_ops_refine ex_empty ex_host ex_view ex_host_ops ex_host_shows). Defined.

(** The commitments of packets 1 and 10 of a channel are in the store. *)
Definition ex_committed : MapStore :=
  mkBufStore [(lit "commitments/ports/1/channels/2/sequences/1", Some [8]); (lit "commitments/ports/1/channels/2/sequences/10", Some [9])] mkEmpty.
Lemma delete_packet_commitment_flushed_witness :
  view ex_committed !! (lit "commitments/" ++ packet_key (ex_path 10)) = Some [9] /\
  exists ctx' b', delete_packet_commitment ex_committed (ex_path 1) ex_host = (Ok tt, ctx') /\
    Map_flush (St := MapStore) (commitments ctx') ex_committed = (Ok [], b') /\ Read_inv b' /\
    forall q, view b' !! (lit "commitments/" ++ packet_key q) = if begins (ex_path 1) q then None else view ex_committed !! (lit "commitments/" ++ packet_key q).
Proof.
  split; [by vm_compute|].
  apply (delete_packet_commitment_flushed ex_committed ex_host (ex_path 1) [to_uint 1 8]).
  - split; [by repeat constructor|done].
  - done.
  - by vm_compute.
Defined.

Lemma ex_host_client : peek ex_empty (clients ex_host) (ClientIdKey_from ex_id) = Ok (Some ex_client).
Proof.
  pose proof (peek_eq ex_empty (clients ex_host) _ _ (client_key_ok ex_id)) as Hq. refine (eq_trans Hq _). cbn [clients ex_host Map_children bt_get].
  by destruct (beqb_spec (client_key ex_id) (client_key ex_id)).
Qed.
Definition ex_cpath : ConsensusPath := mkConsensusPath ex_id (to_uint 8 1) (to_uint 8 10).
Definition answers (r : res AnyConsensusState) (c : bytes) : bool := match r with Ok (Tendermint d) => beqb c d | _ => false end.
Lemma delete_consensus_state_keeps_witness :
  answers (consensus_state ex_empty ex_host ex_cpath) [10] = true /\
  exists ctx', delete_consensus_state ex_empty ex_cpath ex_host = (Ok tt, ctx') /\
    forall path', consensus_state ex_empty ctx' path' = consensus_state ex_empty ex_host path'.
Proof.
  split; [by vm_compute|].
  apply (delete_consensus_state_keeps ex_empty ex_host ex_cpath ex_client None); [exact ex_host_client|].
  refine (eq_trans (peek_eq _ _ _ _ (height_key_ok _ (u64_text_ascii _))) _). reflexivity.
Defined.

(** A host without clients. *)
Definition ex_fresh : IbcContext := set_clients (ex_map "clients/") ex_host.
Definition ex_new_client (s : Store) : Client :=
  mkClient (mkMap (Store_sub s (lit "updates/")) []) (mkMap (Store_sub s (lit "client")) []) (mkMap (Store_sub s (lit "consensusStates/")) [])
    (mkMap (Store_sub s (lit "connections/")) []) None (mkEofTerminatedString []).
Lemma ex_fresh_clients : Clients ex_empty ex_fresh (fun _ => None).
Proof.
  split; [constructor|]. intros i. split.
  - refine (ex_shows ClientIdKey_from client_key (fun c : Client => c) (mkStore (lit "clients/")) client_key_ok i).
  - exists (ex_new_client (Store_sub (Map_store (clients ex_fresh)) (client_key i))). split; [reflexivity|].
    split; [eapply ex_shows, state_key_ok|eapply ex_shows, EpochHeight_at_ok|eapply ex_shows, EpochHeight_at_ok|eapply ex_shows, connection_key_ok|].
    intros n. refine (ex_shows (fun n : u64 => mkEofTerminatedString (u64_to_string n) : EpochHeight) u64_to_string mkWrappedConsensusState _ (fun n => height_key_ok _ (u64_text_ascii n)) n).
Qed.
Definition ex_client_ops : list ClientOp :=
  [CODeleteConsensus ex_cpath; COState ex_id [1]; COConsensus ex_cpath [2]; CODeleteConsensus ex_cpath].
Lemma client_ops_refine_witness :
  (client_ops_spec (fun _ => None) ex_client_ops).1 = [Err (ClientStateNotFound ex_id); Ok tt; Ok tt; Ok tt] /\
  exists ctx', run_client_ops ex_empty ex_client_ops ex_fresh = ((client_ops_spec (fun _ => None) ex_client_ops).1, ctx') /\
    Clients ex_empty ctx' (client_ops_spec (fun _ => None) ex_client_ops).2 /\
    ClientAnswers ex_empty ctx' (client_ops_spec (fun _ => None) ex_client_ops).2.
Proof.
  split; [reflexivity|]. exact (client_ops_refine ex_empty ex_fresh (fun _ => None) ex_client_ops ex_fresh_clients).
Defined.

(** Of the heights 1-9 and 1-10 the second is missed by a search that starts at the first:
    its text is before the other. *)
Definition answers_none (r : res (option AnyConsensusState)) : bool := match r with Ok None => true | _ => false end.
Example next_consensus_state_misses :
  answers_none (next_consensus_state ex_empty ex_host ex_id (mkExHeight (to_uint 8 1) (to_uint 8 9) eq_refl)) = true /\
  answers (consensus_state ex_empty ex_host ex_cpath) [10] = true.
Proof. by vm_compute. Qed.

#[local] Existing Instance ex_app_messages.
#[local] Instance ibc_plugin_messages : PluginMessages :=
  {| LastCommitInfo := unit; Evidence := unit; RequestInitChain_time := fun _ => None; RequestInitChain_chain_id := fun _ => EmptyString;
     RequestInitChain_validators := fun _ => []; RequestInitChain_app_state_bytes := fun _ => []; RequestInitChain_initial_height := fun _ => 1;
     Header_time := fun _ => Some (mkTimestamp 1000 0); RequestBeginBlock_hash := fun _ => []; RequestBeginBlock_last_commit_info := fun _ => None;
     RequestBeginBlock_byzantine_validators := fun _ => [] |}.
#[local] Instance ibc_messages : IbcMessages := {| Header_app_hash := fun _ => [77]; Header_next_validators_hash := fun _ => repeat 0 32 |}.
Definition ex_block : BeginBlockCtx := mkBeginBlockCtx [] 5 (tt : Header) None [].
Lemma ex_window : HostWindow Store_new ex_empty ex_host 4 [].
Proof.
  split_and!; [|done..]. split; [split_and!; [done|constructor..]|]. split; [done|]. intros k. unfold store_holds, deq_content.
  assert (Hv : view ex_empty = ∅) by by vm_compute. rewrite Hv, lookup_empty. by destruct (_ <=? _).
Qed.
Lemma host_states_window_witness :
  exists ctx', IbcContext_begin_block ex_empty ex_block ex_host = (Ok tt, ctx') /\ HostWindow Store_new ex_empty ctx' 4 [[77]] /\
    exists y, [[77]] !! 0%nat = Some y /\ host_consensus_state ex_empty ctx' (mkExHeight (to_uint 8 0) (to_uint 8 5) eq_refl) = Ok y.
Proof.
  destruct (host_states_window Store_new ex_empty ex_host 4 [] ex_block [77] ex_empty_inv ex_window) as (ctx' & He & Hw & Hh).
  - by vm_compute.
  - exists (mkTimestamp 1000 0), 1000. by split_and!.
  - by vm_compute.
  - by vm_compute.
  - exists ctx'. split; [exact He|split; [exact Hw|]]. exact (Hh (mkExHeight (to_uint 8 0) (to_uint 8 5) eq_refl)).
Defined.

(** Tokens whose denominations and amounts are texts; every channel has the same escrow
    account. *)
Definition ex_ics20 : Ics20 (H := ex_ibc).
Proof.
  refine {| PrefixedDenom := RString; remove_trace_prefix := fun _ _ d => d; is_receiver_chain_source := fun _ _ _ => true;
    IbcAmount := u64; IbcAmount_to_string := u64_to_string; IbcAmount_from_u64 := fun n => n;
    Packet := bytes; packet_data := fun p => p; port_id_on_a := fun _ => to_uint 8 1; chan_id_on_a := fun _ => to_uint 8 2;
    PacketData := RString; PacketData_from_slice := Some; token_denom := fun d => d; Acknowledgement := bool;
    cosmos_adr028_escrow_address := fun _ _ => lit "99"; AccountId_new := fun _ a => Some a;
    OpenArgs := unit; VERSION := lit "ics20-1"; MODULE_ID_STR := lit "transfer";
    MsgTransfer := bytes; MsgTransfer_sender := fun m => m; MsgEnvelope := unit; Any := bytes; MsgEnvelope_try_from := fun _ => None;
    MsgTransfer_try_from := Some; update_client := fun _ => None; Header_try_from := fun _ => None;
    CosmosTx := list bytes; CosmosTx_from_bytes := fun _ => None; CosmosTx_messages := fun l => l |}.
  exact {| proto_encode := Some; proto_decode := Some |}.
Defined.
#[local] Existing Instance ex_ics20.
Definition ex_transfer : Transfer := mkTransfer (mkMap (mkStore [9]) []) None.
Lemma ex_balances : Balances ex_empty ex_transfer (fun _ _ => 0).
Proof.
  split; [constructor|]. intros d. exists (mkMap (Store_sub (mkStore [9]) (denom_bytes d)) []).
  assert (Hp : peek ex_empty (accounts ex_transfer) d = Ok None) by (rewrite (peek_eq _ _ _ _ (denom_ok d)); cbn [accounts ex_transfer Map_children bt_get];
    unfold Map_get_from_store; by rewrite denom_ok).
  split_and!; [right; by split_and!|constructor| |done].
  intros a. exists None. split; [|done]. rewrite (peek_eq _ _ _ _ (encode_enc a)). cbn [Map_children bt_get]. unfold Map_get_from_store. by rewrite encode_enc.
Qed.
Definition ex_addr (z : Z) : Address := mkAddress (to_uint 20 z).
Definition ex_coin (n : Z) : PrefixedCoin := mkPrefixedCoin (lit "atom") (to_uint 8 n).
Definition ex_transfers : list TransferOp :=
  [TMint (ex_addr 1) (ex_coin 100); TEscrow (ex_addr 1) (to_uint 8 1) (to_uint 8 2) (ex_coin 30); TUnescrow (ex_addr 2) (to_uint 8 1) (to_uint 8 2) (ex_coin 20)].
Lemma transfers_refine_witness :
  exists t', run_transfer_ops ex_empty ex_transfers ex_transfer = ((transfers_spec (fun _ _ => 0) ex_transfers).1, t') /\
    Balances ex_empty t' (transfers_spec (fun _ _ => 0) ex_transfers).2 /\ incoming_transfer t' = incoming_transfer ex_transfer /\
    forall a d, exists x, Transfer_balance ex_empty t' a d = Ok x /\ amt x = (transfers_spec (fun _ _ => 0) ex_transfers).2 d a.
Proof. exact (transfers_refine ex_empty ex_transfer (fun _ _ => 0) ex_transfers ex_balances). Defined.
Definition ex_denom : Denom := mkLengthVec (to_uint 1 4) (map (to_uint 1) (lit "atom")).
Lemma transfers_conserve_witness :
  let ks := [ex_addr 1; ex_addr 2; ex_addr 99] in
  exists rs t' F', run_transfer_ops ex_empty ex_transfers ex_transfer = (rs, t') /\ Balances ex_empty t' F' /\
    total_of (F' ex_denom) ks <= 0 + created_by ex_transfers rs ex_denom /\
    (forallb is_ok rs = true -> total_of (F' ex_denom) ks = 0 + created_by ex_transfers rs ex_denom).
Proof.
  cbv zeta. apply (transfers_conserve ex_empty ex_transfer (fun _ _ => 0) ex_transfers [ex_addr 1; ex_addr 2; ex_addr 99] ex_denom ex_balances).
  - apply (bool_decide_unpack (NoDup _)). by vm_compute.
  - assert (Ht : forall op ms, transfer_moves op = Ok ms -> Forall (fun m => m.1 ∈ [ex_addr 1; ex_addr 2; ex_addr 99]) ms.2 -> touches op [ex_addr 1; ex_addr 2; ex_addr 99]).
    { intros op ms Hm Hks d l He. rewrite Hm in He. injection He as ->. done. }
    repeat constructor; (eapply Ht; [reflexivity|]); cbn [snd]; repeat constructor; cbn [fst]; set_solver.
Defined.
