(* ===== verification/Delegator.v ===== *)
(** * Delegators (src/coins/staking/delegator.rs)

    The stake of one delegator with one validator: what is staked, the rewards to
    claim, and the queues of unbonds and redelegations under way. *)

From stdpp Require Import base tactics numbers list strings gmap.
From Stdlib Require Import ZArith Lia.
From S2P Require Import Prelude Bytes BTree StoreIface StoreIter NullStore BufStore PrefixStore Codec StateIface Next StructState Keys MapColl MapSpec MapProps MapCall MapIter Fields Address DequeColl Coins SimpleState Decimal Share Pool AbciTypes Context.
#[local] Open Scope Z_scope.

(** [#[cfg(test)]] selects the length of the unbonding period. *)
Class Cfg := { cfg_test : bool }.
Definition UNBONDING_SECONDS `{Cfg} : Z := if cfg_test then 10 else 60 * 60 * 24 * 14.

Abbreviation Share := (Struct2 0 Decimal PhantomData).

Section Data.
Context `{ND : NumDecimal}.
Record Unbond := mkUnbond { U_coins : Share; U_start_seconds : i64 }.
Record Redelegation := mkRedelegation { R_amount : Amount; R_address : VersionedAddress; R_start_seconds : i64 }.
Record Delegator := mkDelegator {
  D_liquid : MultiShare;
  D_staked : Share;
  D_unbonding : Deque Unbond;
  D_redelegations_out : Deque Redelegation;
  D_redelegations_in : Deque Redelegation
}.
Record UnbondInfo := mkUnbondInfo { UI_start_seconds : i64; UI_amount : Amount }.
Record DelegationInfo := mkDelegationInfo {
  DI_unbonding : list UnbondInfo;
  DI_staked : Amount;
  DI_liquid : list (u8 * Amount)
}.
Definition Delegator_default : Delegator :=
  mkDelegator MultiShare_default (mkShare Decimal_default) Deque_new Deque_new Deque_new.
End Data.

Section Derived.
Context `{Profile} `{CompatMode} `{ND : NumDecimal} {St : Type} `{Read St} `{!Write St} `{!Bounded St}.
#[export] Instance Unbond_Derived : Derived Unbond 0 (FCons Share (FCons i64 FNil)).
Proof.
  refine {| to_fields := fun u => fcons (U_coins u) (fcons (U_start_seconds u) fnil);
            of_fields := fun '(fcons c (fcons t _)) => mkUnbond c t |}; [by intros []|by intros [? [? []]]].
Defined.
#[export] Instance Unbond_State : State St Unbond := derived_State (D := Unbond_Derived).
#[export] Instance Redelegation_Derived : Derived Redelegation 0 (FCons Amount (FCons VersionedAddress (FCons i64 FNil))).
Proof.
  refine {| to_fields := fun r => fcons (R_amount r) (fcons (R_address r) (fcons (R_start_seconds r) fnil));
            of_fields := fun '(fcons a (fcons v (fcons t _))) => mkRedelegation a v t |}; [by intros []|by intros [? [? [? []]]]].
Defined.
#[export] Instance Redelegation_State : State St Redelegation := derived_State (D := Redelegation_Derived).
Abbreviation DelegatorFields := (FCons MultiShare (FCons Share (FCons (Deque Unbond) (FCons (Deque Redelegation) (FCons (Deque Redelegation) FNil))))).
#[export] Instance Delegator_Derived : Derived Delegator 0 DelegatorFields.
Proof.
  refine {| to_fields := fun d => fcons (D_liquid d) (fcons (D_staked d) (fcons (D_unbonding d) (fcons (D_redelegations_out d) (fcons (D_redelegations_in d) fnil))));
            of_fields := fun '(fcons l (fcons s (fcons u (fcons o (fcons i _))))) => mkDelegator l s u o i |};
    [by intros []|by intros [? [? [? [? [? []]]]]]].
Defined.
#[export] Instance Delegator_State : State St Delegator := derived_State (D := Delegator_Derived).
End Derived.

Section Ops.
Context `{Profile} `{CompatMode} `{ND : NumDecimal} `{Cfg} `{Symbol} {St : Type} `{Read St} `{!Write St} `{!Bounded St}.
Implicit Types (b : St) (c : ContextMap) (self : Delegator).

Definition in_liquid {A} (f : M MultiShare A) : M Delegator A := zoomM D_liquid (fun x d =>
  mkDelegator x (D_staked d) (D_unbonding d) (D_redelegations_out d) (D_redelegations_in d)) f.
Definition in_staked {A} (f : M Share A) : M Delegator A := zoomM D_staked (fun x d =>
  mkDelegator (D_liquid d) x (D_unbonding d) (D_redelegations_out d) (D_redelegations_in d)) f.
Definition set_unbonding (x : Deque Unbond) self : Delegator :=
  mkDelegator (D_liquid self) (D_staked self) x (D_redelegations_out self) (D_redelegations_in self).
Definition set_redelegations_out (x : Deque Redelegation) self : Delegator :=
  mkDelegator (D_liquid self) (D_staked self) (D_unbonding self) x (D_redelegations_in self).
Definition set_redelegations_in (x : Deque Redelegation) self : Delegator :=
  mkDelegator (D_liquid self) (D_staked self) (D_unbonding self) (D_redelegations_out self) x.
Definition in_unbonding {A} (f : M (Deque Unbond) A) : M Delegator A := zoomM D_unbonding set_unbonding f.
Definition in_redelegations_out {A} (f : M (Deque Redelegation) A) : M Delegator A := zoomM D_redelegations_out set_redelegations_out f.
Definition in_redelegations_in {A} (f : M (Deque Redelegation) A) : M Delegator A := zoomM D_redelegations_in set_redelegations_in f.
Definition in_coins {A} (f : M Share A) : M Unbond A := zoomM U_coins (fun x u => mkUnbond x (U_start_seconds u)) f.

Definition Delegator_unbond b (amount : Amount) (start_seconds : option i64) : M Delegator unit :=
  do coins <- in_staked (Share_take amount);
  match start_seconds with
  | Some start_seconds => in_unbonding (Deque_push_back (St := St) (mkUnbond (Share_from_Coin coins) start_seconds))
  | None => in_liquid (MultiShare_give b (Coin_mint amount))
  end.

(** The loops [for i in 0..len]; [n] is what is left of the range. *)
Fixpoint info_loop b self (n : nat) (i : Z) : res (list UnbondInfo) :=
  match n with
  | O => Ok []
  | S n =>
      let? o := Deque_get b (D_unbonding self) i in
      match o with
      | Some unbond =>
          let? amount := Share_amount (U_coins (Ref_deref unbond)) in
          let? rest := info_loop b self n (i + 1) in
          Ok (mkUnbondInfo (U_start_seconds (Ref_deref unbond)) amount :: rest)
      | None => info_loop b self n (i + 1)
      end
  end.
Definition Delegator_info b self : res DelegationInfo :=
  let? len := Deque_len (D_unbonding self) in
  let? unbonds := info_loop b self (Z.to_nat len) 0 in
  let? liquid := MultiShare_amounts b (D_liquid self) in
  let? staked := Decimal_amount (Share_shares (D_staked self)) in
  Ok (mkDelegationInfo unbonds staked liquid).

(** [unbond.coins.shares = (unbond.coins.shares * multiplier)?;] *)
Definition scale_unbond (multiplier : Decimal) (u : Unbond) : res Unbond :=
  let? shares := math_try (Decimal_mul (Share_shares (U_coins u)) multiplier) in
  Ok (mkUnbond (mkShare shares) (U_start_seconds u)).
Fixpoint slash_unbonds b (multiplier : Decimal) (n : nat) (i : Z) : M (Deque Unbond) unit :=
  match n with
  | O => retM tt
  | S n =>
      do o <- Deque_get_mut b i;
      do unbond <- liftM (ok_or o (ECoins "Failed to iterate over unbonds"));
      do u <- readM (fun d => ChildMut_deref (Deque_map d) unbond);
      do u <- liftM (scale_unbond multiplier u);
      run DequeColl.in_map (ChildMut_call unbond (putM u));
      slash_unbonds b multiplier n (i + 1)
  end.
Fixpoint collect_redelegations b (d : Deque Redelegation) (n : nat) (i : Z) : res (list Redelegation) :=
  match n with
  | O => Ok []
  | S n =>
      let? o := Deque_get b d i in
      let? r := ok_or o (ECoins "Failed to iterate over redelegations") in
      let? rest := collect_redelegations b d n (i + 1) in
      Ok (Ref_deref r :: rest)
  end.
Definition Delegator_slash b (multiplier : Decimal) (liveness_fault : bool) : M Delegator (list Redelegation) :=
  run in_staked (do s <- getM; set_shares (math_try (Decimal_mul (Share_shares s) multiplier)));
  if liveness_fault then retM []
  else
    do len <- readM (fun d => Deque_len (D_unbonding d));
    run in_unbonding (slash_unbonds b multiplier (Z.to_nat len) 0);
    readM (fun d =>
      let? len := Deque_len (D_redelegations_out d) in
      collect_redelegations b (D_redelegations_out d) (Z.to_nat len) 0).

(** [if a > b { b } else { a }] on amounts. *)
Definition at_most (a b : Amount) : Amount := if amt b <? amt a then b else a.
Fixpoint slash_redelegation_loop b (n : nat) (i : Z) (remaining_slash : Amount) : M (Deque Unbond) unit :=
  match n with
  | O => retM tt
  | S n =>
      do o <- Deque_get_mut b i;
      match o with
      | Some unbond =>
          do u <- readM (fun d => ChildMut_deref (Deque_map d) unbond);
          do shares <- liftM (Decimal_amount (Share_shares (U_coins u)));
          let unbond_slash := at_most remaining_slash shares in
          run (if 0 <? amt unbond_slash then
                 DequeColl.in_map (ChildMut_call unbond (do coins <- in_coins (Share_take unbond_slash); retM (Coin_burn coins)))
               else retM tt);
          do remaining_slash <- liftM (math_try (Amount_sub remaining_slash unbond_slash));
          if amt remaining_slash =? 0 then retM tt else slash_redelegation_loop b n (i + 1) remaining_slash
      | None => slash_redelegation_loop b n (i + 1) remaining_slash
      end
  end.
Definition Delegator_slash_redelegation b (amount : Amount) : M Delegator unit :=
  do staked <- readM (fun d => Decimal_amount (Share_shares (D_staked d)));
  let stake_slash := at_most amount staked in
  run (if 0 <? amt stake_slash then in_staked (do coins <- Share_take stake_slash; retM (Coin_burn coins)) else retM tt);
  if amt stake_slash =? amt amount then retM tt
  else
    do remaining_slash <- liftM (math_try (Amount_sub amount stake_slash));
    do len <- readM (fun d => Deque_len (D_unbonding d));
    in_unbonding (slash_redelegation_loop b (Z.to_nat len) 0 remaining_slash).

Definition Delegator_current_seconds c : res Z :=
  let? time := ok_or (Context_resolve (T := Time) c) (ECoins "No Time context available") in
  Ok (Time_seconds time).
Definition matured (now : Z) (start_seconds : i64) : res bool :=
  let? age := i64_sub now (i64_val start_seconds) in
  Ok (wrap_i64 UNBONDING_SECONDS <=? age).

(** [while let Some(x) = queue.front()? { if matured { pop } else { break } }]: every turn
    moves the head of the queue, so its length bounds the turns. *)
Definition turns {T} (d : Deque T) : nat := S (Z.to_nat (dtail d - dhead d)).
Section Queue.
Context {T : Type} {ST : State St T} (start : T -> i64) (msg : string) (pay : T -> M Delegator unit)
  (queue : Delegator -> Deque T) (set_queue : Deque T -> Delegator -> Delegator).
Fixpoint process_queue b (now : Z) (n : nat) : M Delegator unit :=
  match n with
  | O => panicM "out of fuel"
  | S n =>
      do front <- readM (fun d => Deque_front b (queue d));
      match front with
      | None => retM tt
      | Some x =>
          do m <- liftM (matured now (start (Ref_deref x)));
          if m : bool then
            do o <- zoomM queue set_queue (Deque_pop_front b);
            do x <- liftM (ok_or o (ECoins msg));
            run pay (ReadOnly_into_inner x);
            process_queue b now n
          else retM tt
      end
  end.
End Queue.
Definition Delegator_process_unbonds b c : M Delegator unit :=
  do now <- liftM (Delegator_current_seconds c);
  do n <- readM (fun d => Ok (turns (D_unbonding d)));
  process_queue U_start_seconds "Failed to pop unbond"
    (fun unbond =>
       do a <- liftM (Decimal_amount (Share_shares (U_coins unbond)));
       in_liquid (MultiShare_give b (Coin_mint a)))
    D_unbonding set_unbonding b now n.
Definition Delegator_process_redelegations_in b c : M Delegator unit :=
  do now <- liftM (Delegator_current_seconds c);
  do n <- readM (fun d => Ok (turns (D_redelegations_in d)));
  process_queue R_start_seconds "Failed to pop inbound redelegation" (fun _ => retM tt)
    D_redelegations_in set_redelegations_in b now n.
Definition Delegator_process_redelegations_out b c : M Delegator unit :=
  do now <- liftM (Delegator_current_seconds c);
  do n <- readM (fun d => Ok (turns (D_redelegations_out d)));
  process_queue R_start_seconds "Failed to pop outbound redelegation" (fun _ => retM tt)
    D_redelegations_out set_redelegations_out b now n.

Definition Delegator_redelegate_out (dst_val_address : VersionedAddress) (amount : Amount) (start_seconds : option i64) : M Delegator Coin :=
  do empty <- readM (fun d => Deque_is_empty (D_redelegations_in d));
  if negb empty then errM (ECoins "Cannot redelegate from validator with inbound redelegations")
  else
    do redelegated_coins <- in_staked (Share_take amount);
    run match start_seconds with
        | Some start_seconds => in_redelegations_out (Deque_push_back (St := St) (mkRedelegation amount dst_val_address start_seconds))
        | None => retM tt
        end;
    retM redelegated_coins.
Definition Delegator_add_stake (coins : Coin) : M Delegator unit := in_staked (Share_give coins).
Definition Delegator_redelegate_in (src_val_address : VersionedAddress) (coins : Coin) (start_seconds : option i64) : M Delegator unit :=
  run match start_seconds with
      | Some start_seconds => in_redelegations_in (Deque_push_back (St := St) (mkRedelegation (Coin_amount coins) src_val_address start_seconds))
      | None => retM tt
      end;
  Delegator_add_stake coins.
Definition Delegator_deduct b (amount : Amount) (denom : u8) : M Delegator unit := in_liquid (MultiShare_deduct b amount denom).
Definition Delegator_balance self : res Decimal := Ok (Share_shares (D_staked self)).
Definition Delegator_give b (coins : u8 * Amount) : M Delegator unit := in_liquid (MultiShare_give_denom b coins).

#[export] Instance Delegator_PoolValue : PoolValue St Delegator :=
  {| pv_balance := fun _ => readM Delegator_balance; pv_give := Delegator_give; pv_default := Delegator_default |}.
End Ops.
