(* ===== verification/StakingValidator.v ===== *)
(** * Validators (src/coins/staking/validator.rs)

    A declared validator: its commission, its delegators (a pool), whether it is in the
    active set, and how it is jailed, slashed and rewarded. *)

From stdpp Require Import base tactics numbers list strings gmap.
From Stdlib Require Import ZArith Lia.
From S2P Require Import Prelude Bytes BTree StoreIface StoreIter NullStore BufStore PrefixStore Codec StateIface Next StructState Utf8 Encoding Keys MapColl MapSpec MapProps MapCall MapIter Fields Address DequeColl Coins SimpleState Decimal Share Pool AbciTypes Context Delegator.
#[local] Open Scope Z_scope.

Abbreviation ValidatorInfo := (LengthVec u16 u8).

Section Data.
Context `{Profile} `{CompatMode} `{ND : NumDecimal}.
(** [struct Commission] (src/coins/staking/mod.rs). *)
Record Commission := mkCommission { C_rate : Decimal; C_max : Decimal; C_max_change : Decimal }.
Definition Commission_default : Commission := mkCommission Decimal_default Decimal_default Decimal_default.
Definition set_rate (r : Decimal) (c : Commission) : Commission := mkCommission r (C_max c) (C_max_change c).

Abbreviation Delegators := (Pool (K := Address) (V := Delegator)).
Record Validator := mkValidator {
  V_jailed_until : option i64;
  V_tombstoned : bool;
  V_address : VersionedAddress;
  V_commission : Commission;
  V_delegators : Delegators;
  V_info : ValidatorInfo;
  V_in_active_set : bool;
  V_unbonding : bool;
  V_unbonding_start_seconds : i64;
  V_last_edited_seconds : i64;
  V_min_self_delegation : Amount
}.
Definition Validator_default : Validator :=
  mkValidator None false (mkVersionedAddress (to_uint 20 0)) Commission_default Pool_default
    (LengthVec_new (to_uint 2 0) []) false false (to_i64 0) (to_i64 0) (Amount_of 0).

Record ValidatorQueryInfo := mkValidatorQueryInfo {
  VQ_jailed_until : option i64;
  VQ_tombstoned : bool;
  VQ_address : VersionedAddress;
  VQ_commission : Commission;
  VQ_info : ValidatorInfo;
  VQ_in_active_set : bool;
  VQ_unbonding : bool;
  VQ_unbonding_start_seconds : i64;
  VQ_min_self_delegation : Amount;
  VQ_jailed : bool;
  VQ_amount_staked : Amount
}.

Inductive Status := Unbonded | Bonded | Unbonding (start_seconds : i64).

Record SlashableRedelegation := mkSlashableRedelegation {
  SR_delegator_address : VersionedAddress;
  SR_outbound_redelegations : list Redelegation
}.

(** Assignments to single fields. *)
Definition set_jailed_until (x : option i64) (v : Validator) : Validator :=
  mkValidator x (V_tombstoned v) (V_address v) (V_commission v) (V_delegators v) (V_info v) (V_in_active_set v) (V_unbonding v)
    (V_unbonding_start_seconds v) (V_last_edited_seconds v) (V_min_self_delegation v).
Definition set_tombstoned (x : bool) (v : Validator) : Validator :=
  mkValidator (V_jailed_until v) x (V_address v) (V_commission v) (V_delegators v) (V_info v) (V_in_active_set v) (V_unbonding v)
    (V_unbonding_start_seconds v) (V_last_edited_seconds v) (V_min_self_delegation v).
Definition set_address (x : VersionedAddress) (v : Validator) : Validator :=
  mkValidator (V_jailed_until v) (V_tombstoned v) x (V_commission v) (V_delegators v) (V_info v) (V_in_active_set v) (V_unbonding v)
    (V_unbonding_start_seconds v) (V_last_edited_seconds v) (V_min_self_delegation v).
Definition set_commission (x : Commission) (v : Validator) : Validator :=
  mkValidator (V_jailed_until v) (V_tombstoned v) (V_address v) x (V_delegators v) (V_info v) (V_in_active_set v) (V_unbonding v)
    (V_unbonding_start_seconds v) (V_last_edited_seconds v) (V_min_self_delegation v).
Definition set_delegators (x : Delegators) (v : Validator) : Validator :=
  mkValidator (V_jailed_until v) (V_tombstoned v) (V_address v) (V_commission v) x (V_info v) (V_in_active_set v) (V_unbonding v)
    (V_unbonding_start_seconds v) (V_last_edited_seconds v) (V_min_self_delegation v).
Definition set_info (x : ValidatorInfo) (v : Validator) : Validator :=
  mkValidator (V_jailed_until v) (V_tombstoned v) (V_address v) (V_commission v) (V_delegators v) x (V_in_active_set v) (V_unbonding v)
    (V_unbonding_start_seconds v) (V_last_edited_seconds v) (V_min_self_delegation v).
Definition set_in_active_set (x : bool) (v : Validator) : Validator :=
  mkValidator (V_jailed_until v) (V_tombstoned v) (V_address v) (V_commission v) (V_delegators v) (V_info v) x (V_unbonding v)
    (V_unbonding_start_seconds v) (V_last_edited_seconds v) (V_min_self_delegation v).
Definition set_unbonding_flag (x : bool) (v : Validator) : Validator :=
  mkValidator (V_jailed_until v) (V_tombstoned v) (V_address v) (V_commission v) (V_delegators v) (V_info v) (V_in_active_set v) x
    (V_unbonding_start_seconds v) (V_last_edited_seconds v) (V_min_self_delegation v).
Definition set_unbonding_start (x : i64) (v : Validator) : Validator :=
  mkValidator (V_jailed_until v) (V_tombstoned v) (V_address v) (V_commission v) (V_delegators v) (V_info v) (V_in_active_set v) (V_unbonding v)
    x (V_last_edited_seconds v) (V_min_self_delegation v).
Definition set_last_edited (x : i64) (v : Validator) : Validator :=
  mkValidator (V_jailed_until v) (V_tombstoned v) (V_address v) (V_commission v) (V_delegators v) (V_info v) (V_in_active_set v) (V_unbonding v)
    (V_unbonding_start_seconds v) x (V_min_self_delegation v).
Definition set_min_self_delegation (x : Amount) (v : Validator) : Validator :=
  mkValidator (V_jailed_until v) (V_tombstoned v) (V_address v) (V_commission v) (V_delegators v) (V_info v) (V_in_active_set v) (V_unbonding v)
    (V_unbonding_start_seconds v) (V_last_edited_seconds v) x.
(** [self.field = ..;] *)
Definition assign {S} (f : S -> S) : M S unit := fun s => (Ok tt, f s).
Definition in_delegators {A} (f : M Delegators A) : M Validator A := zoomM V_delegators set_delegators f.
End Data.

Section Derived.
Context `{Profile} `{CompatMode} `{ND : NumDecimal} {St : Type} `{Read St} `{!Write St} `{!Bounded St}.
#[export] Instance Commission_Derived : Derived Commission 0 (FCons Decimal (FCons Decimal (FCons Decimal FNil))).
Proof.
  refine {| to_fields := fun c => fcons (C_rate c) (fcons (C_max c) (fcons (C_max_change c) fnil));
            of_fields := fun '(fcons a (fcons x (fcons y _))) => mkCommission a x y |}; [by intros []|by intros [? [? [? []]]]].
Defined.
#[export] Instance Commission_State : State St Commission := derived_State (D := Commission_Derived).
Abbreviation Delegators := (Pool (K := Address) (V := Delegator)).
Abbreviation ValidatorFields := (FCons (option i64) (FCons bool (FCons VersionedAddress (FCons Commission (FCons Delegators (FCons ValidatorInfo
  (FCons bool (FCons bool (FCons i64 (FCons i64 (FCons Amount FNil))))))))))).
#[export] Instance Validator_Derived : Derived Validator 0 ValidatorFields.
Proof.
  refine {| to_fields := fun v => fcons (V_jailed_until v) (fcons (V_tombstoned v) (fcons (V_address v) (fcons (V_commission v)
              (fcons (V_delegators v) (fcons (V_info v) (fcons (V_in_active_set v) (fcons (V_unbonding v)
              (fcons (V_unbonding_start_seconds v) (fcons (V_last_edited_seconds v) (fcons (V_min_self_delegation v) fnil))))))))));
            of_fields := fun '(fcons a (fcons b (fcons c (fcons d (fcons e (fcons f (fcons g (fcons h (fcons i (fcons j (fcons k _))))))))))) =>
              mkValidator a b c d e f g h i j k |}.
  - by intros [].
  - by intros [? [? [? [? [? [? [? [? [? [? [? []]]]]]]]]]]].
Defined.
#[export] Instance Validator_State : State St Validator := derived_State (D := Validator_Derived).
End Derived.

Section Ops.
Context `{Profile} `{CompatMode} `{ND : NumDecimal} `{Cfg} `{Symbol} {St : Type} `{Read St} `{!Write St} `{!Bounded St}.
Implicit Types (b : St) (c : ContextMap) (self : Validator).

(** [self.get_mut(address)?.g()], the reference dropped afterwards. *)
Definition Validator_get_mut_call {A} b (address : Address) (g : M Delegator A) : M Validator A :=
  in_delegators (Pool_get_mut_call b address g).
Definition Validator_get_call {A} b (address : Address) (g : M Delegator A) : M Validator A :=
  in_delegators (Pool_get_call b address g).

Definition Validator_jailed self : bool := if V_jailed_until self is Some _ then true else false.
Definition Validator_status self : Status :=
  if V_unbonding self then Unbonding (V_unbonding_start_seconds self)
  else if V_in_active_set self then Bonded
  else Unbonded.

Definition Validator_self_delegation b : M Validator Amount :=
  do self <- getM;
  Validator_get_call b (Address_from_versioned (V_address self)) (readM (fun d => Share_amount (D_staked d))).
Definition below_required_self_delegation b : M Validator bool :=
  do a <- Validator_self_delegation b;
  do self <- getM;
  retM (amt a <? amt (V_min_self_delegation self)).
Definition Validator_balance b : M Validator Decimal :=
  do self <- getM;
  do zero <- (if Validator_jailed self || negb (V_in_active_set self) then retM true else below_required_self_delegation b);
  if zero : bool then retM (Decimal_from_u64 (to_uint 8 0)) else readM (fun v => Pool_balance (V_delegators v)).

(** An error of [balance] returns before the flag is set back. *)
Definition Validator_potential_vp b : M Validator Amount :=
  do self <- getM;
  let in_active_set_before := V_in_active_set self in
  run assign (set_in_active_set true);
  do d <- Validator_balance b;
  let res := Decimal_amount d in
  run assign (set_in_active_set in_active_set_before);
  liftM res.
Definition Validator_staked b : M Validator Amount :=
  do d <- Validator_balance b;
  liftM (Decimal_amount d).

Definition Validator_current_seconds c : res Z :=
  let? time := ok_or (Context_resolve (T := Time) c) (ECoins "No Time context available") in
  Ok (Time_seconds time).
Definition Validator_jail_for_seconds c (seconds : Z) : M Validator unit :=
  do now <- liftM (Validator_current_seconds c);
  do self <- getM;
  do until <- liftM (i64_add now (wrap_i64 seconds));
  let jailed_until := match V_jailed_until self with
                      | Some jailed_until => Z.max until (i64_val jailed_until)
                      | None => until
                      end in
  assign (set_jailed_until (Some (to_i64 jailed_until))).
Definition Validator_jail_forever : M Validator unit := assign (set_jailed_until (Some (to_i64 i64_max))).
Definition Validator_try_unjail c : M Validator unit :=
  do self <- getM;
  match V_jailed_until self with
  | Some jailed_until =>
      do now <- liftM (Validator_current_seconds c);
      if i64_val jailed_until <? now then assign (set_jailed_until None)
      else errM (ECoins "Validator cannot yet unjail")
  | None => errM (ECoins "Validator is not jailed")
  end.

Definition Validator_delegator_keys b : M Validator (list Address) :=
  do l <- in_delegators (Pool_iter b);
  retM l.*1.
Fixpoint slash_each b (slash_multiplier : Decimal) (liveness_fault : bool) (keys : list Address) : M Validator (list SlashableRedelegation) :=
  match keys with
  | [] => retM []
  | k :: keys =>
      do slashable_redelegations <- Validator_get_mut_call b k (Delegator_slash b slash_multiplier liveness_fault);
      do rest <- slash_each b slash_multiplier liveness_fault keys;
      retM (mkSlashableRedelegation (VersionedAddress_from k) slashable_redelegations :: rest)
  end.
Definition Validator_slash b (penalty : Decimal) (liveness_fault : bool) : M Validator (list SlashableRedelegation) :=
  do self <- getM;
  if V_tombstoned self then retM []
  else
    run (if negb liveness_fault then assign (set_tombstoned true) else retM tt);
    do slash_multiplier <- liftM (math_try (Decimal_sub Decimal_one penalty));
    do delegator_keys <- Validator_delegator_keys b;
    slash_each b slash_multiplier liveness_fault delegator_keys.

Definition Validator_query_info self : res ValidatorQueryInfo :=
  let? d := Pool_balance (V_delegators self) in
  let? amount_staked := Decimal_amount d in
  Ok (mkValidatorQueryInfo (V_jailed_until self) (V_tombstoned self) (V_address self) (V_commission self) (V_info self)
        (V_in_active_set self) (V_unbonding self) (V_unbonding_start_seconds self) (V_min_self_delegation self)
        (Validator_jailed self) amount_staked).

Definition Validator_give b (coins : u8 * Amount) : M Validator unit :=
  let one := Decimal_from_u64 (to_uint 8 1) in
  do rate <- readM (fun v => Ok (C_rate (V_commission v)));
  do d <- liftM (math_try (Amount_mul_Decimal_AM coins.2 (Decimal_sub one rate)));
  do delegator_amount <- liftM (Decimal_amount d);
  do d <- liftM (math_try (Amount_mul_Decimal coins.2 rate));
  do validator_amount <- liftM (Decimal_amount d);
  run in_delegators (Pool_give b (coins.1, delegator_amount));
  do address <- readM (fun v => Ok (V_address v));
  Validator_get_mut_call b (Address_from_versioned address) (Delegator_give b (coins.1, validator_amount)).
(** [Give<Coin<T>>], for the symbol with the given index. *)
Definition Validator_give_coin b (index : u8) (coins : Coin) : M Validator unit :=
  let one := Decimal_from_u64 (to_uint 8 1) in
  do rate <- readM (fun v => Ok (C_rate (V_commission v)));
  do d <- liftM (math_try (Amount_mul_Decimal_AM (Coin_amount coins) (Decimal_sub one rate)));
  do delegator_amount <- liftM (Decimal_amount d);
  do d <- liftM (math_try (Amount_mul_Decimal (Coin_amount coins) rate));
  do validator_amount <- liftM (Decimal_amount d);
  run in_delegators (Pool_give_coin b index (Coin_mint delegator_amount));
  do address <- readM (fun v => Ok (V_address v));
  Validator_get_mut_call b (Address_from_versioned address) (Delegator_give b (index, validator_amount)).

#[export] Instance Validator_PoolValue : PoolValue St Validator :=
  {| pv_balance := Validator_balance; pv_give := Validator_give; pv_default := Validator_default |}.
End Ops.
