(* ===== verification/StakingState.v ===== *)
(** * The staking state (src/coins/staking/mod.rs)

    The fields of [Staking] and of the entries of its indices and queues, with what the
    derive macros generate for them. *)

From stdpp Require Import base tactics numbers list strings gmap.
From Stdlib Require Import ZArith Lia.
From S2P Require Import Prelude Bytes BTree StoreIface StoreIter NullStore BufStore PrefixStore Codec StateIface Next StructState Utf8 Encoding Keys MapColl MapSpec MapProps MapCall MapIter EntryMap Fields Address DequeColl Coins SimpleState Decimal Share Pool AbciTypes Context Delegator StakingValidator.
#[local] Open Scope Z_scope.

Definition EDIT_INTERVAL_SECONDS : Z := 60 * 60 * 24.

(** [struct ValidatorQueueEntry] and [struct ValidatorPowerEntry] with their derived
    [Entry]: both fields are keys, and the value is the empty tuple. *)
Record ValidatorQueueEntry := mkValidatorQueueEntry { VQE_start_seconds : i64; VQE_address_bytes : uint 20 }.
#[export] Instance ValidatorQueueEntry_Entry : EntryTrait ValidatorQueueEntry (i64 * uint 20) unit :=
  {| into_entry := fun e => ((VQE_start_seconds e, VQE_address_bytes e), tt); from_entry := fun e => mkValidatorQueueEntry e.1.1 e.1.2 |}.
#[export] Instance ValidatorQueueEntry_EntryLaws : EntryLaws ValidatorQueueEntry (i64 * uint 20) unit.
Proof. by split; [intros []|intros [[] []]]. Qed.
Record ValidatorPowerEntry := mkValidatorPowerEntry { VPE_inverted_power : u64; VPE_address_bytes : uint 20 }.
#[export] Instance ValidatorPowerEntry_Entry : EntryTrait ValidatorPowerEntry (u64 * uint 20) unit :=
  {| into_entry := fun e => ((VPE_inverted_power e, VPE_address_bytes e), tt); from_entry := fun e => mkValidatorPowerEntry e.1.1 e.1.2 |}.
#[export] Instance ValidatorPowerEntry_EntryLaws : EntryLaws ValidatorPowerEntry (u64 * uint 20) unit.
Proof. by split; [intros []|intros [[] []]]. Qed.
Abbreviation ValidatorQueue := (EntryMap ValidatorQueueEntry (i64 * uint 20) unit).
Abbreviation PowerIndex := (EntryMap ValidatorPowerEntry (u64 * uint 20) unit).

(** [u64::MAX - x]; the subtraction never underflows. *)
Definition invert (x : u64) : u64 := to_uint 8 (u64_max - uint_val x).
Definition ValidatorPowerEntry_power (e : ValidatorPowerEntry) : u64 := invert (VPE_inverted_power e).

Record UnbondingDelegationEntry := mkUnbondingDelegationEntry {
  UD_validator_address : VersionedAddress;
  UD_delegator_address : VersionedAddress;
  UD_start_seconds : i64
}.
Record RedelegationEntry := mkRedelegationEntry {
  RE_src_validator_address : VersionedAddress;
  RE_dst_validator_address : VersionedAddress;
  RE_delegator_address : VersionedAddress;
  RE_start_seconds : i64
}.
Section EntryDerived.
Context `{Profile} `{CompatMode} {St : Type}.
#[export] Instance UnbondingDelegationEntry_Derived :
  Derived UnbondingDelegationEntry 0 (FCons VersionedAddress (FCons VersionedAddress (FCons i64 FNil))).
Proof.
  refine {| to_fields := fun e => fcons (UD_validator_address e) (fcons (UD_delegator_address e) (fcons (UD_start_seconds e) fnil));
            of_fields := fun '(fcons v (fcons d (fcons t _))) => mkUnbondingDelegationEntry v d t |}; [by intros []|by intros [? [? [? []]]]].
Defined.
#[export] Instance UnbondingDelegationEntry_State : State St UnbondingDelegationEntry := derived_State (D := UnbondingDelegationEntry_Derived).
#[export] Instance RedelegationEntry_Derived :
  Derived RedelegationEntry 0 (FCons VersionedAddress (FCons VersionedAddress (FCons VersionedAddress (FCons i64 FNil)))).
Proof.
  refine {| to_fields := fun e => fcons (RE_src_validator_address e) (fcons (RE_dst_validator_address e) (fcons (RE_delegator_address e) (fcons (RE_start_seconds e) fnil)));
            of_fields := fun '(fcons s (fcons d (fcons v (fcons t _)))) => mkRedelegationEntry s d v t |}; [by intros []|by intros [? [? [? [? []]]]]].
Defined.
#[export] Instance RedelegationEntry_State : State St RedelegationEntry := derived_State (D := RedelegationEntry_Derived).
End EntryDerived.

Section Staking.
Context `{Profile} `{CompatMode} `{ND : NumDecimal}.
Record Staking := mkStaking {
  S_validators : Pool (K := Address) (V := Validator);
  S_min_self_delegation_min : u64;
  S_consensus_keys : Map Address PubKey;
  S_last_signed_block : Map (uint 20) u64;
  S_validators_by_power : PowerIndex;
  S_last_validator_powers : Map Address u64;
  S_max_validators : u64;
  S_last_indexed_power : Map Address u64;
  S_address_for_tm_hash : Map (uint 20) VersionedAddress;
  S_unbonding_seconds : u64;
  S_max_offline_blocks : u64;
  S_slash_fraction_double_sign : Decimal;
  S_slash_fraction_downtime : Decimal;
  S_downtime_jail_seconds : u64;
  S_validator_queue : ValidatorQueue;
  S_unbonding_delegation_queue : Deque UnbondingDelegationEntry;
  S_redelegation_queue : Deque RedelegationEntry;
  S_delegation_index : Map Address (Map Address unit)
}.
(** A method of [Staking]; the contexts are threaded. *)
Abbreviation SM := (M (Staking * ContextMap)).

(** Assignments to single fields, and methods called on them. *)
Definition set_validators (x : Pool (K := Address) (V := Validator)) (s : Staking) : Staking :=
  mkStaking x (S_min_self_delegation_min s) (S_consensus_keys s) (S_last_signed_block s) (S_validators_by_power s) (S_last_validator_powers
    s) (S_max_validators s) (S_last_indexed_power s) (S_address_for_tm_hash s) (S_unbonding_seconds s) (S_max_offline_blocks s)
    (S_slash_fraction_double_sign s) (S_slash_fraction_downtime s) (S_downtime_jail_seconds s) (S_validator_queue s)
    (S_unbonding_delegation_queue s) (S_redelegation_queue s) (S_delegation_index s).
Definition on_validators {A} (f : M (Pool (K := Address) (V := Validator)) A) : SM A :=
  zoomM (fun p => S_validators p.1) (fun x p => (set_validators x p.1, p.2)) f.
Definition set_consensus_keys (x : Map Address PubKey) (s : Staking) : Staking :=
  mkStaking (S_validators s) (S_min_self_delegation_min s) x (S_last_signed_block s) (S_validators_by_power s) (S_last_validator_powers s)
    (S_max_validators s) (S_last_indexed_power s) (S_address_for_tm_hash s) (S_unbonding_seconds s) (S_max_offline_blocks s)
    (S_slash_fraction_double_sign s) (S_slash_fraction_downtime s) (S_downtime_jail_seconds s) (S_validator_queue s)
    (S_unbonding_delegation_queue s) (S_redelegation_queue s) (S_delegation_index s).
Definition on_consensus_keys {A} (f : M (Map Address PubKey) A) : SM A :=
  zoomM (fun p => S_consensus_keys p.1) (fun x p => (set_consensus_keys x p.1, p.2)) f.
Definition set_last_signed_block (x : Map (uint 20) u64) (s : Staking) : Staking :=
  mkStaking (S_validators s) (S_min_self_delegation_min s) (S_consensus_keys s) x (S_validators_by_power s) (S_last_validator_powers s)
    (S_max_validators s) (S_last_indexed_power s) (S_address_for_tm_hash s) (S_unbonding_seconds s) (S_max_offline_blocks s)
    (S_slash_fraction_double_sign s) (S_slash_fraction_downtime s) (S_downtime_jail_seconds s) (S_validator_queue s)
    (S_unbonding_delegation_queue s) (S_redelegation_queue s) (S_delegation_index s).
Definition on_last_signed_block {A} (f : M (Map (uint 20) u64) A) : SM A :=
  zoomM (fun p => S_last_signed_block p.1) (fun x p => (set_last_signed_block x p.1, p.2)) f.
Definition set_validators_by_power (x : PowerIndex) (s : Staking) : Staking :=
  mkStaking (S_validators s) (S_min_self_delegation_min s) (S_consensus_keys s) (S_last_signed_block s) x (S_last_validator_powers s)
    (S_max_validators s) (S_last_indexed_power s) (S_address_for_tm_hash s) (S_unbonding_seconds s) (S_max_offline_blocks s)
    (S_slash_fraction_double_sign s) (S_slash_fraction_downtime s) (S_downtime_jail_seconds s) (S_validator_queue s)
    (S_unbonding_delegation_queue s) (S_redelegation_queue s) (S_delegation_index s).
Definition on_validators_by_power {A} (f : M (PowerIndex) A) : SM A :=
  zoomM (fun p => S_validators_by_power p.1) (fun x p => (set_validators_by_power x p.1, p.2)) f.
Definition set_last_validator_powers (x : Map Address u64) (s : Staking) : Staking :=
  mkStaking (S_validators s) (S_min_self_delegation_min s) (S_consensus_keys s) (S_last_signed_block s) (S_validators_by_power s) x
    (S_max_validators s) (S_last_indexed_power s) (S_address_for_tm_hash s) (S_unbonding_seconds s) (S_max_offline_blocks s)
    (S_slash_fraction_double_sign s) (S_slash_fraction_downtime s) (S_downtime_jail_seconds s) (S_validator_queue s)
    (S_unbonding_delegation_queue s) (S_redelegation_queue s) (S_delegation_index s).
Definition on_last_validator_powers {A} (f : M (Map Address u64) A) : SM A :=
  zoomM (fun p => S_last_validator_powers p.1) (fun x p => (set_last_validator_powers x p.1, p.2)) f.
Definition set_last_indexed_power (x : Map Address u64) (s : Staking) : Staking :=
  mkStaking (S_validators s) (S_min_self_delegation_min s) (S_consensus_keys s) (S_last_signed_block s) (S_validators_by_power s)
    (S_last_validator_powers s) (S_max_validators s) x (S_address_for_tm_hash s) (S_unbonding_seconds s) (S_max_offline_blocks s)
    (S_slash_fraction_double_sign s) (S_slash_fraction_downtime s) (S_downtime_jail_seconds s) (S_validator_queue s)
    (S_unbonding_delegation_queue s) (S_redelegation_queue s) (S_delegation_index s).
Definition on_last_indexed_power {A} (f : M (Map Address u64) A) : SM A :=
  zoomM (fun p => S_last_indexed_power p.1) (fun x p => (set_last_indexed_power x p.1, p.2)) f.
Definition set_address_for_tm_hash (x : Map (uint 20) VersionedAddress) (s : Staking) : Staking :=
  mkStaking (S_validators s) (S_min_self_delegation_min s) (S_consensus_keys s) (S_last_signed_block s) (S_validators_by_power s)
    (S_last_validator_powers s) (S_max_validators s) (S_last_indexed_power s) x (S_unbonding_seconds s) (S_max_offline_blocks s)
    (S_slash_fraction_double_sign s) (S_slash_fraction_downtime s) (S_downtime_jail_seconds s) (S_validator_queue s)
    (S_unbonding_delegation_queue s) (S_redelegation_queue s) (S_delegation_index s).
Definition on_address_for_tm_hash {A} (f : M (Map (uint 20) VersionedAddress) A) : SM A :=
  zoomM (fun p => S_address_for_tm_hash p.1) (fun x p => (set_address_for_tm_hash x p.1, p.2)) f.
Definition set_validator_queue (x : ValidatorQueue) (s : Staking) : Staking :=
  mkStaking (S_validators s) (S_min_self_delegation_min s) (S_consensus_keys s) (S_last_signed_block s) (S_validators_by_power s)
    (S_last_validator_powers s) (S_max_validators s) (S_last_indexed_power s) (S_address_for_tm_hash s) (S_unbonding_seconds s)
    (S_max_offline_blocks s) (S_slash_fraction_double_sign s) (S_slash_fraction_downtime s) (S_downtime_jail_seconds s) x
    (S_unbonding_delegation_queue s) (S_redelegation_queue s) (S_delegation_index s).
Definition on_validator_queue {A} (f : M (ValidatorQueue) A) : SM A :=
  zoomM (fun p => S_validator_queue p.1) (fun x p => (set_validator_queue x p.1, p.2)) f.
Definition set_unbonding_delegation_queue (x : Deque UnbondingDelegationEntry) (s : Staking) : Staking :=
  mkStaking (S_validators s) (S_min_self_delegation_min s) (S_consensus_keys s) (S_last_signed_block s) (S_validators_by_power s)
    (S_last_validator_powers s) (S_max_validators s) (S_last_indexed_power s) (S_address_for_tm_hash s) (S_unbonding_seconds s)
    (S_max_offline_blocks s) (S_slash_fraction_double_sign s) (S_slash_fraction_downtime s) (S_downtime_jail_seconds s) (S_validator_queue
    s) x (S_redelegation_queue s) (S_delegation_index s).
Definition on_unbonding_delegation_queue {A} (f : M (Deque UnbondingDelegationEntry) A) : SM A :=
  zoomM (fun p => S_unbonding_delegation_queue p.1) (fun x p => (set_unbonding_delegation_queue x p.1, p.2)) f.
Definition set_redelegation_queue (x : Deque RedelegationEntry) (s : Staking) : Staking :=
  mkStaking (S_validators s) (S_min_self_delegation_min s) (S_consensus_keys s) (S_last_signed_block s) (S_validators_by_power s)
    (S_last_validator_powers s) (S_max_validators s) (S_last_indexed_power s) (S_address_for_tm_hash s) (S_unbonding_seconds s)
    (S_max_offline_blocks s) (S_slash_fraction_double_sign s) (S_slash_fraction_downtime s) (S_downtime_jail_seconds s) (S_validator_queue
    s) (S_unbonding_delegation_queue s) x (S_delegation_index s).
Definition on_redelegation_queue {A} (f : M (Deque RedelegationEntry) A) : SM A :=
  zoomM (fun p => S_redelegation_queue p.1) (fun x p => (set_redelegation_queue x p.1, p.2)) f.
Definition set_delegation_index (x : Map Address (Map Address unit)) (s : Staking) : Staking :=
  mkStaking (S_validators s) (S_min_self_delegation_min s) (S_consensus_keys s) (S_last_signed_block s) (S_validators_by_power s)
    (S_last_validator_powers s) (S_max_validators s) (S_last_indexed_power s) (S_address_for_tm_hash s) (S_unbonding_seconds s)
    (S_max_offline_blocks s) (S_slash_fraction_double_sign s) (S_slash_fraction_downtime s) (S_downtime_jail_seconds s) (S_validator_queue
    s) (S_unbonding_delegation_queue s) (S_redelegation_queue s) x.
Definition on_delegation_index {A} (f : M (Map Address (Map Address unit)) A) : SM A :=
  zoomM (fun p => S_delegation_index p.1) (fun x p => (set_delegation_index x p.1, p.2)) f.
Definition on_ctx {A} (f : M ContextMap A) : SM A := zoomM snd (fun c p => (p.1, c)) f.

(** [#[orga(version = 1)]] *)
Abbreviation StakingFields := (FCons (Pool (K := Address) (V := Validator)) (FCons u64 (FCons (Map Address PubKey) (FCons (Map (uint 20) u64) (FCons
  PowerIndex (FCons (Map Address u64) (FCons u64 (FCons (Map Address u64) (FCons (Map (uint 20) VersionedAddress) (FCons u64 (FCons u64 (FCons Decimal
  (FCons Decimal (FCons u64 (FCons ValidatorQueue (FCons (Deque UnbondingDelegationEntry) (FCons (Deque RedelegationEntry) (FCons (Map Address (Map
  Address unit)) FNil)))))))))))))))))).
#[export] Instance Staking_Derived : Derived Staking 1 StakingFields.
Proof.
  refine {| to_fields := fun s =>
              fcons (S_validators s) (fcons (S_min_self_delegation_min s) (fcons (S_consensus_keys s) (fcons (S_last_signed_block s) (fcons
                (S_validators_by_power s) (fcons (S_last_validator_powers s) (fcons (S_max_validators s) (fcons (S_last_indexed_power s) (fcons
                (S_address_for_tm_hash s) (fcons (S_unbonding_seconds s) (fcons (S_max_offline_blocks s) (fcons (S_slash_fraction_double_sign s)
                (fcons (S_slash_fraction_downtime s) (fcons (S_downtime_jail_seconds s) (fcons (S_validator_queue s) (fcons
                (S_unbonding_delegation_queue s) (fcons (S_redelegation_queue s) (fcons (S_delegation_index s) fnil)))))))))))))))));
            of_fields := fun '(fcons f0 (fcons f1 (fcons f2 (fcons f3 (fcons f4 (fcons f5 (fcons f6 (fcons f7 (fcons f8 (fcons f9 (fcons f10 (fcons f11 (fcons f12 (fcons f13 (fcons f14 (fcons f15 (fcons f16 (fcons f17 _)))))))))))))))))) =>
              mkStaking f0 f1 f2 f3 f4 f5 f6 f7 f8 f9 f10 f11 f12 f13 f14 f15 f16 f17 |}.
  - by intros [].
  - by intros [? [? [? [? [? [? [? [? [? [? [? [? [? [? [? [? [? [? []]]]]]]]]]]]]]]]]]].
Defined.
#[export] Instance Staking_State {St} `{Read St} `{!Write St} `{!Bounded St} : State St Staking := derived_State (D := Staking_Derived).
End Staking.
Abbreviation SM := (M (Staking * ContextMap)).
