(* ===== verification/Staking.v ===== *)
(** * Staking (src/coins/staking/mod.rs)

    The operations of [Staking]: declaring and editing validators, delegating,
    unbonding and redelegating, slashing, the queues, and what happens at the beginning
    and the end of a block; then the calls of the module and its queries. *)

From stdpp Require Import base tactics numbers list strings gmap pretty.
From Stdlib Require Import ZArith Lia.
From S2P Require Import Prelude Bytes BTree StoreIface StoreIter NullStore BufStore PrefixStore Codec StateIface Next StructState Utf8 Encoding SimpleState MapColl MapSpec MapProps MapIter Keys EntryMap MapCall Fields Address DequeColl Coins Decimal Share Pool AbciTypes Context Plugins AbciStore AbciPlugin Delegator StakingValidator StakingState.
#[local] Open Scope Z_scope.

(** What the module reads of [tendermint_proto]'s messages. *)
Inductive EvidenceType := EvidenceUnknown | DuplicateVote | LightClientAttack.
Class StakingMessages `{PM : PluginMessages} := {
  VoteInfo : Type;
  TmValidator : Type;
  LastCommitInfo_votes : LastCommitInfo -> list VoteInfo;
  VoteInfo_signed_last_block : VoteInfo -> bool;
  VoteInfo_validator : VoteInfo -> option TmValidator;
  TmValidator_address : TmValidator -> bytes;
  Evidence_validator : Evidence -> option TmValidator;
  Evidence_type : Evidence -> EvidenceType
}.

(** ** Loops over iterators *)

Section Loops.
Context {St : Type} `{Profile} `{Read St} `{!Write St} `{!Bounded St}.
Implicit Types (b : St).

Definition iter_fuel {K V} b (m : Map K V) : nat := S (length (Map_children m) + entry_bound b).

(** [iter.take_while(p).collect::<Vec<_>>()]: [p] lets errors through. *)
Fixpoint EntryIter_take_while {T K V} `{Encode K} `{Decode K} {SV : State St V} `{EntryTrait T K V}
    (p : T -> res bool) (n : nat) b (em : EntryMap T K V) it : res (list (res T)) :=
  match n with
  | O => Panic "out of fuel"
  | S n =>
      match EntryIter_next b em it with
      | (Ok None, _) => Ok []
      | (Ok (Some entry), it) =>
          let? go := p (ReadOnly_into_inner entry) in
          if go then let? l := EntryIter_take_while p n b em it in Ok (Ok (ReadOnly_into_inner entry) :: l) else Ok []
      | (Err e, it) => let? l := EntryIter_take_while p n b em it in Ok (Err e :: l)
      | (Panic w, _) => Panic w
      end
  end.

(** A loop over a map that keeps what [f] makes of some entries. *)
Fixpoint MapIter_filter {K V A} `{Encode K} `{Decode K} {SV : State St V}
    (f : K -> V -> res (option A)) (n : nat) b (m : Map K V) it : res (list A) :=
  match n with
  | O => Panic "out of fuel"
  | S n =>
      match MapIter_next b m it with
      | (Ok None, _) => Ok []
      | (Ok (Some (k, v)), it) =>
          let? o := f (Ref_deref k) (Ref_deref v) in
          let? l := MapIter_filter f n b m it in
          Ok (match o with Some a => a :: l | None => l end)
      | (Err e, _) => Err e
      | (Panic w, _) => Panic w
      end
  end.
Definition Map_filter_entries {K V A} `{Encode K} `{Decode K} {SV : State St V}
    (f : K -> V -> res (option A)) b (m : Map K V) : res (list A) :=
  let? it := Map_iter m in MapIter_filter f (iter_fuel b m) b m it.

(** [try_for_each] *)
Fixpoint for_each {S A} (f : A -> M S unit) (l : list A) : M S unit :=
  match l with
  | [] => retM tt
  | x :: l => run f x; for_each f l
  end.

(** The entries of the power index, until the first with no power or until [max] have
    been seen; [i] counts them. *)
Fixpoint top_powers (n : nat) b (em : PowerIndex) it (max i : Z) : res (list (Address * u64)) :=
  match n with
  | O => Panic "out of fuel"
  | S n =>
      match EntryIter_next b em it with
      | (Ok None, _) => Ok []
      | (Ok (Some entry), it) =>
          let entry := ReadOnly_into_inner entry in
          let new_power := ValidatorPowerEntry_power entry in
          if uint_val new_power =? 0 then Ok []
          else
            let x := (Address_from_bytes (VPE_address_bytes entry), new_power) in
            let? i := u64_add i 1 in
            if i =? max then Ok [x] else let? l := top_powers n b em it max i in Ok (x :: l)
      | (Err e, _) => Err e
      | (Panic w, _) => Panic w
      end
  end.
End Loops.

Section Ops.
Context `{Profile} `{CompatMode} `{ND : NumDecimal} `{Cfg} `{Symbol} `{Hashes}.
Context {St : Type} `{Read St} `{!Write St} `{!Bounded St}.
Implicit Types (b : St) (c : ContextMap) (self : Staking).

Definition Staking_current_seconds : SM Z :=
  readM (fun p =>
    let? time := ok_or (Context_resolve (T := Time) p.2) (ECoins "No Time context available") in
    Ok (Time_seconds time)).

(** A method of [Validators], called on the context. *)
Definition in_validators_ctx {A} (f : M (Validators * Cells) A) : M ContextMap A := fun c =>
  match Context_resolve (T := Validators) c with
  | Some v => let '(r, (v', cs)) := f (v, cells c) in (r, set_cells cs (ctx_set (Some v') c))
  | None => (Err (ECoins "No Validators context available"), c)
  end.

Definition tm_pubkey_hash (consensus_key : PubKey) : res (uint 20) :=
  let hash := take 20 (Sha256 (to_vec32 consensus_key)) in
  if (length hash =? 20)%nat then Ok (to_uint 20 (from_be_bytes hash)) else Err (ECoins "Invalid consensus key").
Definition validate_info (info : ValidatorInfo) : res unit :=
  if 5000 <? Z.of_nat (length (LengthVec_values info)) then Err (ECoins "Validator info too long") else Ok tt.

Definition remove_by_address b (address : Address) : M ValidatorQueue unit :=
  do em <- getM;
  do it <- liftM (EntryMap_iter em);
  do entries <- liftM (EntryIter_take_while (fun _ => Ok true) (iter_fuel b (EntryMap_map em)) b em it);
  for_each (fun r =>
    do entry <- liftM r;
    if decide (VQE_address_bytes entry = Address_bytes address)
    then EntryMap_delete b (mkValidatorQueueEntry (VQE_start_seconds entry) (VQE_address_bytes entry))
    else retM tt) entries.

(** [self.validators.get_mut(address)?.g()], and the same for a delegator of it. *)
Definition on_validator {A} b (address : Address) (g : M Validator A) : SM A :=
  on_validators (Pool_get_mut_call b address g).
(** [self.validators.get(address)?.g()] *)
Definition on_validator_ref {A} b (address : Address) (g : M Validator A) : SM A :=
  on_validators (Pool_get_call b address g).

(** ** Powers *)

Definition set_potential_voting_power b (address : Address) (power : u64) : SM unit :=
  do last <- readM (fun p => Map_get b (S_last_indexed_power p.1) address);
  run match last with
      | Some last_indexed =>
          on_validators_by_power (EntryMap_delete b (mkValidatorPowerEntry (invert (Ref_deref last_indexed)) (Address_bytes address)))
      | None => retM tt
      end;
  run on_validators_by_power (EntryMap_insert (St := St) (mkValidatorPowerEntry (invert power) (Address_bytes address)));
  on_last_indexed_power (Map_insert (St := St) address power).
Definition update_vp b (val_address : Address) : SM unit :=
  do vp <- on_validator b val_address (Validator_potential_vp b);
  set_potential_voting_power b val_address (only_field vp).

(** ** Delegations *)

Definition consensus_key b self (val_address : Address) : res PubKey :=
  let? o := Map_get b (S_consensus_keys self) val_address in
  match o with
  | Some key => Ok (Ref_deref key)
  | None => Err (ECoins "Validator is not declared")
  end.
Definition index_delegation b (val_address delegator_address : Address) : SM unit :=
  on_delegation_index (Map_or_default_call Map_new b delegator_address (Map_insert (St := St) val_address tt)).
Definition Staking_delegate b (val_address delegator_address : Address) (coins : Coin) : SM unit :=
  do _ <- readM (fun p => consensus_key b p.1 val_address);
  run on_validator b val_address (
    do validator <- getM;
    if V_tombstoned validator then errM (ECoins "Cannot delegate to a tombstoned validator")
    else Validator_get_mut_call b delegator_address (Delegator_add_stake coins));
  run index_delegation b val_address delegator_address;
  update_vp b val_address.

Record Declaration := mkDeclaration {
  Dc_consensus_key : PubKey;
  Dc_commission : Commission;
  Dc_min_self_delegation : Amount;
  Dc_amount : Amount;
  Dc_validator_info : ValidatorInfo
}.
(** The checks of [declare], in order. *)
Definition check_declaration b self (val_address : Address) (d : Declaration) (coins : Coin) : res (uint 20) :=
  let commission := Dc_commission d in
  let? declared := Map_contains_key b (S_consensus_keys self) val_address in
  if declared then Err (ECoins "Validator is already declared")
  else if Amount_ltb (Coin_amount coins) (Dc_min_self_delegation d) then Err (ECoins "Insufficient self-delegation")
  else
    let? _ := validate_info (Dc_validator_info d) in
    let? tm_hash := tm_pubkey_hash (Dc_consensus_key d) in
    let? tm_hash_exists := Map_contains_key b (S_address_for_tm_hash self) tm_hash in
    if tm_hash_exists then Err (ECoins "Tendermint public key is already in use")
    else if is_lt (Decimal_cmp (C_rate commission) Decimal_zero) || is_gt (Decimal_cmp (C_rate commission) (C_max commission))
    then Err (ECoins "Initial commission must be between 0 and max commission")
    else if is_lt (Decimal_cmp (C_max commission) Decimal_zero) || is_gt (Decimal_cmp (C_max commission) Decimal_one)
    then Err (ECoins "Max commission must be between 0 and 1")
    else if is_lt (Decimal_cmp (C_max_change commission) Decimal_zero) || is_gt (Decimal_cmp (C_max_change commission) (C_max commission))
    then Err (ECoins "Max commission change must be between 0 and max commission")
    else if is_lt (Amount_cmp_u64 (Dc_min_self_delegation d) (S_min_self_delegation_min self))
    then Err (ECoins "Min self-delegation setting is too small")
    else Ok tm_hash.
Definition Staking_declare b (val_address : Address) (d : Declaration) (coins : Coin) : SM unit :=
  do tm_hash <- readM (fun p => check_declaration b p.1 val_address d coins);
  run on_consensus_keys (Map_insert (St := St) val_address (Dc_consensus_key d));
  run on_address_for_tm_hash (Map_insert (St := St) tm_hash (VersionedAddress_from val_address));
  run on_ctx (in_validators_ctx (Validators_set_operator (St := St) (Dc_consensus_key d) (Address_bytes val_address)));
  run on_validator b val_address (
    run assign (set_commission (Dc_commission d));
    run assign (set_min_self_delegation (Dc_min_self_delegation d));
    run assign (set_address (VersionedAddress_from val_address));
    run assign (set_info (Dc_validator_info d));
    assign (set_last_edited (to_i64 (-2147483648))));
  Staking_delegate b val_address val_address coins.

(** What [edit_validator] does to the validator. *)
Definition edit_validator b (now : Z) (commission : Decimal) (min_self_delegation : Amount) (validator_info : ValidatorInfo) : M Validator unit :=
  do self_delegation <- Validator_self_delegation b;
  if Amount_ltb self_delegation min_self_delegation then errM (ECoins "Min self-delegation cannot exceed current staked amount")
  else
    do v <- getM;
    if Amount_ltb min_self_delegation (V_min_self_delegation v) then errM (ECoins "Min self-delegation setting may not decrease")
    else if is_lt (Decimal_cmp commission Decimal_zero) || is_gt (Decimal_cmp commission (C_max (V_commission v)))
    then errM (ECoins "Commission must be between 0 and max commission")
    else
      run liftM (validate_info validator_info);
      do d <- liftM (math_try (Decimal_sub commission (C_rate (V_commission v))));
      if is_gt (Decimal_cmp (Decimal_abs d) (C_max_change (V_commission v)))
      then errM (ECoins "Commission change is greater than the validator's commission max change setting")
      else
        do earliest <- liftM (i64_sub now EDIT_INTERVAL_SECONDS);
        if earliest <? i64_val (V_last_edited_seconds v) then errM (ECoins "Validators may only be edited once per 24 hours")
        else
          run assign (fun v => set_commission (set_rate commission (V_commission v)) v);
          run assign (set_info validator_info);
          run assign (set_min_self_delegation min_self_delegation);
          assign (set_last_edited (to_i64 now)).
Definition Staking_edit_validator b (val_address : Address) (commission : Decimal) (min_self_delegation : Amount) (validator_info : ValidatorInfo) : SM unit :=
  do now <- Staking_current_seconds;
  on_validator b val_address (edit_validator b now commission min_self_delegation validator_info).

Definition Staking_staked self : res Amount :=
  let? d := Pool_balance (S_validators self) in Decimal_amount d.

(** ** Slashing *)

Definition punish_downtime b (val_address : Address) : SM unit :=
  do p <- getM;
  run on_validator b val_address (
    run Validator_jail_for_seconds p.2 (uint_val (S_downtime_jail_seconds p.1));
    run Validator_slash b (S_slash_fraction_downtime p.1) true;
    retM tt);
  update_vp b val_address.
(** [delegator.slash_redelegation((multiplier * redelegation.amount)?.amount()?)?;] *)
Definition slash_moved b (multiplier : Decimal) (moved : Amount) : M Delegator unit :=
  do d <- liftM (math_try (Decimal_mul_Amount multiplier moved));
  do amount <- liftM (Decimal_amount d);
  Delegator_slash_redelegation b amount.
Definition slash_redelegations b (multiplier : Decimal) (entry : SlashableRedelegation) : SM unit :=
  for_each (fun redelegation =>
    on_validator b (Address_from_versioned (R_address redelegation)) (
      Validator_get_mut_call b (Address_from_versioned (SR_delegator_address entry)) (
        slash_moved b multiplier (R_amount redelegation)))) (SR_outbound_redelegations entry).
Definition punish_double_sign b (val_address : Address) : SM unit :=
  do p <- getM;
  do redelegations <- on_validator b val_address (
    run Validator_jail_forever;
    Validator_slash b (S_slash_fraction_double_sign p.1) false);
  do multiplier <- liftM (math_try (Decimal_sub Decimal_one (S_slash_fraction_double_sign p.1)));
  run for_each (slash_redelegations b multiplier) redelegations;
  update_vp b val_address.
Definition punish_light_client_attack b (val_address : Address) : SM unit := punish_double_sign b val_address.

(** ** Unbonding and redelegating *)

Definition Staking_deduct b (val_address delegator_address : Address) (amount : Amount) (denom : u8) : SM unit :=
  do p <- getM;
  on_validator b val_address (Validator_get_mut_call b delegator_address (
    run Delegator_process_unbonds b p.2;
    Delegator_deduct b amount denom)).
Definition start_for (now : Z) (s : Status) : option i64 :=
  match s with
  | Bonded => Some (to_i64 now)
  | Unbonding start_seconds => Some start_seconds
  | Unbonded => None
  end.
Definition Staking_unbond b (validator_address delegator_address : Address) (amount : Amount) : SM unit :=
  do now <- Staking_current_seconds;
  do start_seconds <- on_validator b validator_address (
    do v <- getM;
    let start_seconds := start_for now (Validator_status v) in
    run Validator_get_mut_call b delegator_address (Delegator_unbond b amount start_seconds);
    retM start_seconds);
  run match start_seconds with
      | Some start_seconds =>
          on_unbonding_delegation_queue (Deque_push_back (St := St) (mkUnbondingDelegationEntry
            (VersionedAddress_from validator_address) (VersionedAddress_from delegator_address) start_seconds))
      | None => retM tt
      end;
  update_vp b validator_address.
Definition Staking_redelegate b (src_validator_address dst_validator_address delegator_address : Address) (amount : Amount) : SM unit :=
  if decide (src_validator_address = dst_validator_address) then errM (ECoins "Cannot redelegate to the same validator")
  else
    do now <- Staking_current_seconds;
    do '(coins, start_seconds) <- on_validator b src_validator_address (
      do v <- getM;
      let start_seconds := start_for now (Validator_status v) in
      do coins <- Validator_get_mut_call b delegator_address
        (Delegator_redelegate_out (St := St) (VersionedAddress_from dst_validator_address) amount start_seconds);
      retM (coins, start_seconds));
    do _ <- readM (fun p => consensus_key b p.1 dst_validator_address);
    run on_validator b dst_validator_address (
      do v <- getM;
      if V_tombstoned v then errM (ECoins "Cannot redelegate to a tombstoned validator")
      else
        match Validator_status v with
        | Bonded => Validator_get_mut_call b delegator_address
                      (Delegator_redelegate_in (St := St) (VersionedAddress_from src_validator_address) coins start_seconds)
        | _ => errM (ECoins "Cannot redelegate to an unbonding or unbonded validator")
        end);
    run match start_seconds with
        | Some start_seconds =>
            on_redelegation_queue (Deque_push_back (St := St) (mkRedelegationEntry (VersionedAddress_from src_validator_address)
              (VersionedAddress_from dst_validator_address) (VersionedAddress_from delegator_address) start_seconds))
        | None => retM tt
        end;
    run index_delegation b dst_validator_address delegator_address;
    run update_vp b src_validator_address;
    update_vp b dst_validator_address.

(** ** The queues *)

Definition transition_to_unbonded b (val_address : Address) : SM unit :=
  on_validator b val_address (assign (set_unbonding_flag false)).
Definition transition_to_bonded b (val_address : Address) : SM unit :=
  run on_validator b val_address (assign (set_unbonding_flag false));
  on_validator_queue (remove_by_address b val_address).
Definition transition_to_unbonding b (val_address : Address) : SM unit :=
  do now <- Staking_current_seconds;
  run on_validator b val_address (
    run assign (set_unbonding_flag true);
    assign (set_unbonding_start (to_i64 now)));
  on_validator_queue (EntryMap_insert (St := St) (mkValidatorQueueEntry (to_i64 now) (Address_bytes val_address))).

(** [now - start >= self.unbonding_seconds as i64] *)
Definition queue_matured (now : Z) self (start_seconds : i64) : res bool :=
  let? age := i64_sub now (i64_val start_seconds) in
  Ok (wrap_i64 (uint_val (S_unbonding_seconds self)) <=? age).
Definition process_validator_queue b : SM unit :=
  do now <- Staking_current_seconds;
  do entries <- readM (fun p =>
    let? it := EntryMap_iter (S_validator_queue p.1) in
    EntryIter_take_while (fun entry => queue_matured now p.1 (VQE_start_seconds entry))
      (iter_fuel b (EntryMap_map (S_validator_queue p.1))) b (S_validator_queue p.1) it);
  for_each (fun r =>
    do entry <- liftM r;
    run transition_to_unbonded b (Address_from_bytes (VQE_address_bytes entry));
    on_validator_queue (EntryMap_delete b entry)) entries.

(** [while let Some(x) = queue.front()? { .. }], as in [Delegator]. *)
Section Queue.
Context {T : Type} {ST : State St T} (start : T -> i64) (msg : string) (act : T -> SM unit)
  (queue : Staking -> Deque T) (set_queue : Deque T -> Staking -> Staking).
Fixpoint staking_queue_loop b (now : Z) (n : nat) : SM unit :=
  match n with
  | O => panicM "out of fuel"
  | S n =>
      do front <- readM (fun p => Deque_front b (queue p.1));
      match front with
      | None => retM tt
      | Some x =>
          do m <- readM (fun p => queue_matured now p.1 (start (Ref_deref x)));
          if m : bool then
            do o <- zoomM (fun p => queue p.1) (fun d p => (set_queue d p.1, p.2)) (Deque_pop_front b);
            do x <- liftM (ok_or o (ECoins msg));
            run act (ReadOnly_into_inner x);
            staking_queue_loop b now n
          else retM tt
      end
  end.
End Queue.
Definition process_unbonding_delegation_queue b : SM unit :=
  do now <- Staking_current_seconds;
  do n <- readM (fun p => Ok (turns (S_unbonding_delegation_queue p.1)));
  staking_queue_loop UD_start_seconds "Unbonding delegation queue is empty"
    (fun unbond =>
       do p <- getM;
       on_validator b (Address_from_versioned (UD_validator_address unbond))
         (Validator_get_mut_call b (Address_from_versioned (UD_delegator_address unbond)) (Delegator_process_unbonds b p.2)))
    S_unbonding_delegation_queue set_unbonding_delegation_queue b now n.
Definition process_redelegation_queue b : SM unit :=
  do now <- Staking_current_seconds;
  do n <- readM (fun p => Ok (turns (S_redelegation_queue p.1)));
  staking_queue_loop RE_start_seconds "Redelegation queue is empty"
    (fun redelegation =>
       do p <- getM;
       run on_validator b (Address_from_versioned (RE_src_validator_address redelegation))
         (Validator_get_mut_call b (Address_from_versioned (RE_delegator_address redelegation)) (Delegator_process_redelegations_out b p.2));
       on_validator b (Address_from_versioned (RE_dst_validator_address redelegation))
         (Validator_get_mut_call b (Address_from_versioned (RE_delegator_address redelegation)) (Delegator_process_redelegations_in b p.2)))
    S_redelegation_queue set_redelegation_queue b now n.
Definition process_all_queues b : SM unit :=
  run process_validator_queue b;
  run process_unbonding_delegation_queue b;
  process_redelegation_queue b.

(** ** The end of a block *)

(** The powers that changed among the top validators. *)
Fixpoint changed_powers b (last : Map Address u64) (l : list (Address * u64)) : res (list (Address * u64)) :=
  match l with
  | [] => Ok []
  | (address, power) :: l =>
      let? o := Map_get b last address in
      let? rest := changed_powers b last l in
      Ok (match o with
          | Some prev_power => if uint_val power =? uint_val (Ref_deref prev_power) then rest else (address, power) :: rest
          | None => (address, power) :: rest
          end)
  end.
(** The minimal set of updates: changes, and the validators that left the set. *)
Definition power_updates b self : res (list (Address * u64)) :=
  let? it := EntryMap_iter (S_validators_by_power self) in
  let? new_val_entries := top_powers (iter_fuel b (EntryMap_map (S_validators_by_power self))) b (S_validators_by_power self) it
                            (uint_val (S_max_validators self)) 0 in
  let? changed := changed_powers b (S_last_validator_powers self) new_val_entries in
  let? bumped := Map_filter_entries (fun address _ =>
      Ok (if decide (address ∈ new_val_entries.*1) then None else Some (address, to_uint 8 0))) b (S_last_validator_powers self) in
  Ok (changed ++ bumped).

(** One validator is told whether it is in the active set. *)
Definition apply_update b (height : Z) (update : Address * u64) : SM unit :=
  let '(address, power) := update in
  do '(before, now) <- on_validator b address (
    do v <- getM;
    let in_active_set_before := V_in_active_set v in
    run assign (set_in_active_set (0 <? uint_val power));
    do v <- getM;
    retM (in_active_set_before, V_in_active_set v));
  match before, now with
  | true, false =>
      do tm_hash <- readM (fun p => let? key := consensus_key b p.1 address in tm_pubkey_hash key);
      run transition_to_unbonding b address;
      run on_last_signed_block (Map_remove b tm_hash);
      retM tt
  | false, true =>
      do tm_hash <- readM (fun p => let? key := consensus_key b p.1 address in tm_pubkey_hash key);
      run transition_to_bonded b address;
      on_last_signed_block (Map_insert (St := St) tm_hash (to_uint 8 height))
  | _, _ => retM tt
  end.
Fixpoint with_consensus_keys b self (updates : list (Address * u64)) : res (list (PubKey * u64)) :=
  match updates with
  | [] => Ok []
  | (address, power) :: updates =>
      let? o := Map_get b (S_consensus_keys self) address in
      let? key := ok_or o (ECoins "No consensus key for validator") in
      let? rest := with_consensus_keys b self updates in
      Ok ((Ref_deref key, power) :: rest)
  end.
Definition report_power (update : PubKey * u64) : M (Validators * Cells) unit :=
  Validators_set_voting_power (St := St) update.1 update.2.
Definition record_power b (update : Address * u64) : SM unit :=
  let '(address, power) := update in
  if 0 <? uint_val power then on_last_validator_powers (Map_insert (St := St) address power)
  else run on_last_validator_powers (Map_remove b address); retM tt.
Definition end_block_step b (height : Z) : SM unit :=
  run process_all_queues b;
  do new_power_updates <- readM (fun p => power_updates b p.1);
  run for_each (apply_update b height) new_power_updates;
  do new_power_updates_con <- readM (fun p => with_consensus_keys b p.1 new_power_updates);
  run on_ctx (in_validators_ctx (for_each report_power new_power_updates_con));
  for_each (record_power b) new_power_updates.

(** ** The beginning of a block *)

Context `{SMsg : StakingMessages}.
Definition to_hash (address : bytes) (err : string) : res (uint 20) :=
  if (length address =? 20)%nat then Ok (to_uint 20 (from_be_bytes address)) else Err (ECoins err).
Definition record_signers (height : Z) (votes : list VoteInfo) : SM unit :=
  for_each (fun v =>
    do hash <- liftM (to_hash (TmValidator_address v) "Invalid pubkey length from Tendermint");
    on_last_signed_block (Map_insert (St := St) hash (to_uint 8 height)))
    (omap VoteInfo_validator (filter (fun vote_info => VoteInfo_signed_last_block vote_info = true) votes)).
Definition offline_validator_hashes b self (height : Z) : res (list (uint 20)) :=
  Map_filter_entries (fun hash last_height =>
    let? h := u64_add (uint_val last_height) (uint_val (S_max_offline_blocks self)) in
    Ok (if h <? height then Some hash else None)) b (S_last_signed_block self).
Definition punish_offline b (hash : uint 20) : SM unit :=
  do o <- readM (fun p => Map_get b (S_address_for_tm_hash p.1) hash);
  match o with
  | Some address =>
      let address := Address_from_versioned (Ref_deref address) in
      do in_active_set <- on_validator_ref b address (readM (fun v => Ok (V_in_active_set v)));
      run (if in_active_set : bool then punish_downtime b address else retM tt);
      run on_last_signed_block (Map_remove b hash);
      retM tt
  | None => retM tt
  end.
Definition punish_evidence b (evidence : Evidence) : SM unit :=
  match Evidence_validator evidence with
  | Some validator =>
      do hash <- liftM (to_hash (TmValidator_address validator) "Invalid pubkey length from Tendermint");
      do o <- readM (fun p => Map_get b (S_address_for_tm_hash p.1) hash);
      match o with
      | Some address =>
          let address := Address_from_versioned (Ref_deref address) in
          match Evidence_type evidence with
          | DuplicateVote => punish_double_sign b address
          | LightClientAttack => punish_light_client_attack b address
          | EvidenceUnknown => retM tt
          end
      | None => errM (ECoins "Invalid pubkey length from Tendermint")
      end
  | None => retM tt
  end.
Definition Staking_begin_block b (ctx : BeginBlockCtx) : SM unit :=
  run match BB_last_commit_info ctx with
      | Some last_commit_info =>
          run record_signers (BB_height ctx) (LastCommitInfo_votes last_commit_info);
          do hashes <- readM (fun p => offline_validator_hashes b p.1 (BB_height ctx));
          for_each (punish_offline b) hashes
      | None => retM tt
      end;
  for_each (punish_evidence b) (BB_byzantine_validators ctx).
Definition Staking_end_block b (ctx : EndBlockCtx) : SM unit := end_block_step b (EB_height ctx).

(** [Give<Coin<T>>], for the symbol with the given index. *)
Definition Staking_give b (index : u8) (coins : Coin) : SM unit := on_validators (Pool_give_coin b index coins).
End Ops.

(** ** The calls and queries of the staking module (src/coins/staking/mod.rs)

    The methods marked [#[call]], which act for the signer with the funds of the [Paid]
    context and announce themselves as events, and those marked [#[query]]. *)

Section Calls.
Context `{Profile} `{CompatMode} `{ND : NumDecimal} `{Cfg} `{Symbol} `{Hashes} `{Bech32}.
Context {St : Type} `{Read St} `{!Write St} `{!Bounded St}.
Implicit Types (b : St) (c : ContextMap) (self : Staking).

(** ** Queries *)

(** A loop over [self.validators.iter()?]: the keys come from the map, each entry is
    fetched by its key. *)
Fixpoint over_validators {A} b (f : Address -> Validator -> SM A) (keys : list Address) : SM (list A) :=
  match keys with
  | [] => retM []
  | k :: keys =>
      do v <- on_validators (Pool_get b k);
      do x <- f k v;
      do rest <- over_validators b f keys;
      retM (x :: rest)
  end.
Definition pool_keys {V} `{State St V} b (p : Pool (K := Address) (V := V)) : res (list Address) :=
  Map_filter_entries (fun k _ => Ok (Some k)) b (pool_map p).
Definition query_consensus_keys b : SM (list (Address * PubKey)) :=
  do keys <- readM (fun p => pool_keys b (S_validators p.1));
  over_validators b (fun _ validator =>
    let address := Address_from_versioned (V_address validator) in
    readM (fun p => let? key := consensus_key b p.1 address in Ok (address, key))) keys.
Definition all_validators b : SM (list ValidatorQueryInfo) :=
  do keys <- readM (fun p => pool_keys b (S_validators p.1));
  over_validators b (fun _ validator => liftM (Validator_query_info validator)) keys.
Definition last_signed_blocks b self : res (list (Address * option u64)) :=
  Map_filter_entries (fun address cons_key =>
    let? hash := tm_pubkey_hash cons_key in
    let? o := Map_get b (S_last_signed_block self) hash in
    Ok (Some (address, Ref_deref <$> o))) b (S_consensus_keys self).
Definition address_by_consensus_key b self (cons_key : PubKey) : res (option Address) :=
  let? hash := tm_pubkey_hash cons_key in
  let? o := Map_get b (S_address_for_tm_hash self) hash in
  Ok ((fun a => Address_from_versioned (Ref_deref a)) <$> o).

Fixpoint delegation_infos b (delegator_address : Address) (vals : list Address) : SM (list (Address * DelegationInfo)) :=
  match vals with
  | [] => retM []
  | val_address :: vals =>
      do info <- on_validator_ref b val_address (Validator_get_call b delegator_address (readM (Delegator_info b)));
      do rest <- delegation_infos b delegator_address vals;
      retM ((val_address, info) :: rest)
  end.
Definition delegations b (delegator_address : Address) : SM (list (Address * DelegationInfo)) :=
  do vals <- readM (fun p =>
    let? index := Map_get_or_default Map_new b (S_delegation_index p.1) delegator_address in
    Map_filter_entries (fun k (_ : unit) => Ok (Some k)) b (Ref_deref index));
  delegation_infos b delegator_address vals.
Fixpoint infos_of b (keys : list Address) : M (Pool (K := Address) (V := Delegator)) (list (Address * DelegationInfo)) :=
  match keys with
  | [] => retM []
  | k :: keys =>
      do delegation <- Pool_get b k;
      do info <- liftM (Delegator_info b delegation);
      do rest <- infos_of b keys;
      retM ((k, info) :: rest)
  end.
Definition validator_delegations b (validator_address : Address) : SM (list (Address * DelegationInfo)) :=
  on_validator_ref b validator_address (in_delegators (
    do keys <- readM (pool_keys b);
    infos_of b keys)).

(** ** Calls *)

Definition assert_positive (amount : Amount) : res unit :=
  if 0 <? amt amount then Ok tt else Err (ECoins "Amount must be positive").
Definition Staking_signer : SM Address :=
  readM (fun p =>
    let? s := ok_or (Context_resolve (T := Signer) p.2) (ECoins "No Signer context available") in
    ok_or (Signer_signer s) (ECoins "Call must be signed")).
Definition on_paid {A} (f : M Paid A) : SM A := on_ctx (Context_call (ECoins "No Payment context available") f).
Definition add_event (event : Event) : SM unit := on_ctx (Context_call (ECoins "No Events context available") (Events_add event)).

Definition attribute (key value : string) : EventAttribute := mkEventAttribute key value true.
(** [format!("{}{}", amount, denom)] *)
Definition show_amount (amount : Amount) : string := pretty (amt amount) +:+ NAME.

Definition unbond_self b (val_address : Address) (amount : Amount) : SM unit :=
  run liftM (assert_positive amount);
  do signer <- Staking_signer;
  run add_event (mkEvent "unbond" [attribute "validator" (Address_to_string val_address);
                                   attribute "delegator" (Address_to_string signer); attribute "amount" (show_amount amount)]);
  Staking_unbond b val_address signer amount.
Definition redelegate_self b (src_val_address dst_val_address : Address) (amount : Amount) : SM unit :=
  run liftM (assert_positive amount);
  do signer <- Staking_signer;
  run add_event (mkEvent "redelegate" [attribute "source_validator" (Address_to_string src_val_address);
                                       attribute "destination_validator" (Address_to_string dst_val_address);
                                       attribute "delegator" (Address_to_string signer); attribute "amount" (show_amount amount)]);
  Staking_redelegate b src_val_address dst_val_address signer amount.
Definition declare_self b (declaration : Declaration) : SM unit :=
  run liftM (assert_positive (Dc_amount declaration));
  do signer <- Staking_signer;
  do payment <- on_paid (Paid_take (Dc_amount declaration));
  Staking_declare b signer declaration payment.
Definition delegate_from_self b (validator_address : Address) (amount : Amount) : SM unit :=
  run liftM (assert_positive amount);
  do signer <- Staking_signer;
  do payment <- on_paid (Paid_take amount);
  run add_event (mkEvent "delegate" [attribute "validator" (Address_to_string validator_address);
                                     attribute "delegator" (Address_to_string signer); attribute "amount" (show_amount amount)]);
  Staking_delegate b validator_address signer payment.
Definition Staking_take_as_funding b (validator_address : Address) (amount : Amount) (denom : u8) : SM unit :=
  run liftM (assert_positive amount);
  do signer <- Staking_signer;
  run add_event (mkEvent "coin_spend" [attribute "spender" (Address_to_string signer); attribute "amount" (show_amount amount)]);
  run Staking_deduct b validator_address signer amount denom;
  on_paid (Paid_give_denom amount (uint_val denom)).
Definition claim_each b (signer val_address : Address) (liquid : list (u8 * Amount)) : SM unit :=
  for_each (fun '(denom, amount) =>
    if 0 <? amt amount then
      run add_event (mkEvent "withdraw_rewards" [attribute "validator" (Address_to_string val_address); attribute "delegator" (Address_to_string signer)]);
      Staking_take_as_funding b val_address amount denom
    else retM tt) liquid.
Definition claim_all b : SM unit :=
  do signer <- Staking_signer;
  do delegations <- delegations b signer;
  for_each (fun '(val_address, delegation) => claim_each b signer val_address (DI_liquid delegation)) delegations.
Definition unjail b : SM unit :=
  do signer <- Staking_signer;
  do p <- getM;
  run on_validator b signer (Validator_try_unjail p.2);
  update_vp b signer.
Definition edit_validator_self b (commission : Decimal) (min_self_delegation : Amount) (validator_info : ValidatorInfo) : SM unit :=
  do val_address <- Staking_signer;
  do _ <- readM (fun p => consensus_key b p.1 val_address);
  Staking_edit_validator b val_address commission min_self_delegation validator_info.

(** The call enum the macro derives. *)
Inductive StakingCall :=
| CallUnbondSelf (val_address : Address) (amount : Amount)
| CallRedelegateSelf (src_val_address dst_val_address : Address) (amount : Amount)
| CallDeclareSelf (declaration : Declaration)
| CallDelegateFromSelf (validator_address : Address) (amount : Amount)
| CallTakeAsFundingFrom (validator_address : Address) (amount : Amount) (denom : u8)
| CallClaimAll
| CallUnjail
| CallEditValidatorSelf (commission : Decimal) (min_self_delegation : Amount) (validator_info : ValidatorInfo).
Definition Staking_call b (call : StakingCall) : SM unit :=
  match call with
  | CallUnbondSelf v a => unbond_self b v a
  | CallRedelegateSelf s d a => redelegate_self b s d a
  | CallDeclareSelf d => declare_self b d
  | CallDelegateFromSelf v a => delegate_from_self b v a
  | CallTakeAsFundingFrom v a d => Staking_take_as_funding b v a d
  | CallClaimAll => claim_all b
  | CallUnjail => unjail b
  | CallEditValidatorSelf r m i => edit_validator_self b r m i
  end.

(** [repair]: entries without metadata are removed, and the queues emptied. *)
Definition empty_queue {T} {ST : State St T} b : M (Deque T) unit := fun d =>
  let '(r, (d', _)) := Deque_retain_unordered (fun (_ : T) (u : unit) => (Ok (false, None), u)) b (d, tt) in (r, d').
Definition repair b : SM unit :=
  do keys <- readM (fun p => pool_keys b (S_validators p.1));
  do flags <- over_validators b (fun address validator =>
    retM (address, if LengthVec_values (V_info validator) is [] then true else false)) keys;
  run for_each (fun address =>
    run on_validators (Pool.in_map (Map_remove b address)); retM tt)
    (fst <$> filter (fun x => x.2 = true) flags);
  run on_unbonding_delegation_queue (empty_queue b);
  on_redelegation_queue (empty_queue b).
End Calls.
