(* ===== verification/StakingPowers.v ===== *)
(** * The powers of validators

    The index of validators by voting power, the minimal set of updates a block's end
    computes from it, and what is remembered of them for the next block
    (src/coins/staking/mod.rs: [set_potential_voting_power], [end_block_step]). *)

From stdpp Require Import base tactics numbers list strings gmap sorting.
From Stdlib Require Import ZArith Lia.
From S2P Require Import Prelude Bytes BTree StoreIface StoreIter NullStore BufStore PrefixStore Codec StateIface Next StructState Utf8 Encoding Keys MapColl MapSpec MapProps MapCall MapIter MapIterSpec EntryMap LeafMap Fields Address DequeColl DequeSpec Coins SimpleState Decimal Share Pool PoolSpec AbciTypes Context Plugins AbciStore AbciPlugin Delegator StakingValidator StakingState Staking.
#[local] Open Scope Z_scope.

(** ** Loops over collected entries *)

Section LoopFacts.
Context `{Profile} `{WS : WriteSpec St} `{!Bounded St}.
Implicit Types (b : St).

(** What a loop with early exits sees of the entries a full loop would. *)
Fixpoint top_list (max i : Z) (l : list ValidatorPowerEntry) : list (Address * u64) :=
  match l with
  | [] => []
  | e :: l =>
      if uint_val (ValidatorPowerEntry_power e) =? 0 then []
      else
        let x := (Address_from_bytes (VPE_address_bytes e), ValidatorPowerEntry_power e) in
        if i + 1 =? max then [x] else x :: top_list max (i + 1) l
  end.
Lemma top_powers_list n b (em : PowerIndex) max : forall it l i,
  EntryIter_collect n b em it = Ok l -> 0 <= i -> i + Z.of_nat (length l) <= u64_max ->
  top_powers n b em it max i = Ok (top_list max i l).
Proof.
  induction n as [|n IH]; intros it l i Hc Hi Hl; [done|]. cbn [EntryIter_collect top_powers] in *.
  destruct (EntryIter_next b em it) as [[[e|]|?|?] it']; [| |done..].
  - destruct (EntryIter_collect n b em it') as [l'|?|?] eqn:E; [|done..]. injection Hc as <-. cbn [length] in Hl.
    cbn [top_list]. destruct (_ =? 0); [done|]. unfold u64_add. rewrite u64_op_ok by (unfold is_u64; lia). cbn [res_bind].
    destruct (i + 1 =? max); [done|]. rewrite (IH it' l' (i + 1) E) by lia. done.
  - by injection Hc as <-.
Qed.
Lemma EntryIter_collect_short {T K V} `{Encode K} `{Decode K} {SV : State St V} `{EntryTrait T K V} n b (em : EntryMap T K V) : forall it l,
  EntryIter_collect n b em it = Ok l -> (length l < n)%nat.
Proof.
  induction n as [|n IH]; intros it l Hc; [done|]. cbn [EntryIter_collect] in Hc.
  destruct (EntryIter_next b em it) as [[[e|]|?|?] it']; [| |done..]; [|injection Hc as <-; simpl; lia].
  destruct (EntryIter_collect n b em it') as [l'|?|?] eqn:E; [|done..]. injection Hc as <-. apply IH in E. simpl. lia.
Qed.
Lemma MapIter_filter_list {K V A} `{Encode K} `{Decode K} {SV : State St V} (g : K -> V -> option A) n b (m : Map K V) : forall it l,
  MapIter_collect n b m it = Ok l -> MapIter_filter (fun k v => Ok (g k v)) n b m it = Ok (omap (fun kv => g kv.1 kv.2) l).
Proof.
  induction n as [|n IH]; intros it l Hc; [done|]. cbn [MapIter_collect MapIter_filter] in *.
  destruct (MapIter_next b m it) as [[[[k v]|]|?|?] it']; [| |done..].
  - destruct (MapIter_collect n b m it') as [l'|?|?] eqn:E; [|done..]. injection Hc as <-. cbn [res_bind].
    rewrite (IH it' l' E). simpl. by destruct (g _ _).
  - by injection Hc as <-.
Qed.
End LoopFacts.

(** ** Ranking *)

Implicit Types (a : Address) (pw : Address -> option u64).

(** More power first, then the smaller address. *)
Definition outranks (x y : Address * u64) : Prop :=
  uint_val y.2 < uint_val x.2 \/ uint_val x.2 = uint_val y.2 /\ uint_val (Address_bytes x.1) < uint_val (Address_bytes y.1).

(** The top [max] of the validators with some power, or all of them when [max] is 0. *)
Record is_top (max : Z) pw (top : list (Address * u64)) : Prop := {
  top_sorted : StronglySorted outranks top;
  top_sound a p : (a, p) ∈ top -> pw a = Some p /\ 0 < uint_val p;
  top_short : 0 < max -> Z.of_nat (length top) <= max;
  top_best a p : pw a = Some p -> 0 < uint_val p -> (a, p) ∉ top ->
    0 < max /\ Z.of_nat (length top) = max /\ Forall (fun x => outranks x (a, p)) top
}.

(** The entries of the index for the given powers. *)
Definition indexed pw (k : u64 * uint 20) : bool :=
  match pw (mkAddress k.2) with Some p => bool_decide (k.1 = invert p) | None => false end.

Lemma invert_val x : uint_val (invert x) = u64_max - uint_val x.
Proof.
  pose proof (u64_val_range x). unfold invert. simpl. unfold uint_wrap. apply Z.mod_small.
  change (256 ^ Z.of_nat 8) with (u64_max + 1). lia.
Qed.
Lemma invert_invert x : invert (invert x) = x.
Proof. apply uint_eq. rewrite !invert_val. lia. Qed.

Definition pkey (e : ValidatorPowerEntry) : u64 * uint 20 := key_of e.
Definition psorted (l : list ValidatorPowerEntry) : Prop := entries_sorted (K := u64 * uint 20) (V := unit) l.
Definition pair_of (e : ValidatorPowerEntry) : Address * u64 := (Address_from_bytes (VPE_address_bytes e), ValidatorPowerEntry_power e).
Definition powered (x : Address * u64) : bool := negb (uint_val x.2 =? 0).

Lemma bcmp_app_eq (x y : bytes) u w : length x = length y -> bcmp (x ++ u) (y ++ w) = match bcmp x y with Eq => bcmp u w | c => c end.
Proof.
  revert y; induction x as [|h x IH]; intros [|h' y] Hl; simplify_eq/=; [done|]. destruct (h ?= h'); auto.
Qed.
Lemma entry_before e e' : blt (enc (pkey e)) (enc (pkey e')) -> outranks (pair_of e) (pair_of e').
Proof.
  destruct e as [i x], e' as [i' x']. unfold pkey, key_of, outranks, pair_of, ValidatorPowerEntry_power. cbn [into_entry ValidatorPowerEntry_Entry fst snd VPE_inverted_power VPE_address_bytes Address_from_bytes Address_bytes].
  change (enc (i, x)) with (to_be_bytes 8 (uint_val i) ++ to_be_bytes 20 (uint_val x)).
  change (enc (i', x')) with (to_be_bytes 8 (uint_val i') ++ to_be_bytes 20 (uint_val x')).
  unfold blt. rewrite bcmp_app_eq, !to_be_bytes_order by (apply uint_ok || by rewrite !to_be_bytes_length). rewrite !invert_val.
  destruct (Z.compare_spec (uint_val i) (uint_val i')); [|intros _; lia|done]. intros Hx. rewrite Z.compare_lt_iff in Hx. lia.
Qed.

Lemma before_irrefl x : ~ outranks x x.
Proof. unfold outranks. lia. Qed.
Lemma before_power x y : outranks x y -> powered y = true -> powered x = true.
Proof.
  unfold outranks, powered. pose proof (u64_val_range x.2). pose proof (u64_val_range y.2).
  destruct (Z.eqb_spec (uint_val x.2) 0), (Z.eqb_spec (uint_val y.2) 0); simpl; try done. lia.
Qed.

(** With no power comes last: the loop keeps the powered entries, up to the limit. *)
Lemma top_list_take max l : forall i, psorted l -> 0 <= i -> (i < max \/ max = 0) ->
  top_list max i l = (if max =? 0 then id else take (Z.to_nat (max - i))) (List.filter powered (pair_of <$> l)).
Proof.
  induction l as [|e l IH]; intros i Hs Hi Hm; cbn [top_list fmap list_fmap List.filter].
  { destruct (max =? 0); [done|]. by rewrite take_nil. }
  apply StronglySorted_inv in Hs as [Hs Hall].
  change (ValidatorPowerEntry_power e) with (pair_of e).2. unfold powered at 1. destruct (Z.eqb_spec (uint_val (pair_of e).2) 0) as [H0|H0]; cbn [negb].
  - assert (Hnil : List.filter powered (pair_of <$> l) = []).
    { clear IH Hs. induction Hall as [|e' l He' Hl IHl]; [done|]. cbn [fmap list_fmap List.filter].
      destruct (powered (pair_of e')) eqn:Hp; [|done]. exfalso. pose proof (before_power _ _ (entry_before _ _ He') Hp) as Hq.
      unfold powered in Hq. rewrite H0 in Hq. done. }
    rewrite Hnil. destruct (max =? 0); [done|]. by rewrite take_nil.
  - destruct (Z.eqb_spec (i + 1) max) as [Hmax|Hmax].
    + destruct (Z.eqb_spec max 0); [lia|]. replace (Z.to_nat (max - i)) with 1%nat by lia. done.
    + rewrite IH by (done || lia). destruct (Z.eqb_spec max 0); [done|].
      replace (Z.to_nat (max - i)) with (S (Z.to_nat (max - (i + 1)))) by lia. done.
Qed.

(** The members of the index, ranked. *)
Lemma ranked_members pw l :
  psorted l -> (forall e, e ∈ l <-> indexed pw (pkey e) = true) ->
  let L := List.filter powered (pair_of <$> l) in
  StronglySorted outranks L /\ (forall a p, (a, p) ∈ L <-> pw a = Some p /\ 0 < uint_val p).
Proof.
  intros Hs Hin L. split.
  - unfold L. clear Hin L. induction Hs as [|e l Hs IH Hall]; cbn [fmap list_fmap List.filter]; [constructor|].
    destruct (powered _); [|done]. constructor; [done|]. rewrite Forall_forall. intros x Hx.
    apply list_elem_of_In, filter_In in Hx as [Hx _]. apply list_elem_of_In, list_elem_of_fmap in Hx as (e' & -> & He').
    apply entry_before. rewrite Forall_forall in Hall. by apply Hall.
  - intros a p. unfold L. rewrite list_elem_of_In, filter_In, <- list_elem_of_In. unfold powered. cbn [snd].
    pose proof (u64_val_range p) as Hp. rewrite list_elem_of_fmap. split.
    + intros [(e & He & Hel) Hn]. apply Hin in Hel. destruct e as [i x]. unfold pair_of, ValidatorPowerEntry_power, Address_from_bytes in He.
      cbn [VPE_inverted_power VPE_address_bytes] in He. injection He as -> ->. unfold indexed in Hel.
      cbn [pkey key_of into_entry ValidatorPowerEntry_Entry fst snd VPE_address_bytes VPE_inverted_power] in Hel.
      destruct (pw (mkAddress x)) as [q|]; [|done]. apply bool_decide_eq_true in Hel as ->. rewrite invert_invert in *.
      split; [done|]. destruct (Z.eqb_spec (uint_val q) 0); [done|lia].
    + intros [Hpw Hpos]. split; [|destruct (Z.eqb_spec (uint_val p) 0); [lia|done]].
      destruct a as [x]. exists (mkValidatorPowerEntry (invert p) x). split.
      * unfold pair_of, ValidatorPowerEntry_power. cbn [VPE_inverted_power VPE_address_bytes]. by rewrite invert_invert.
      * apply Hin. unfold indexed. cbn [pkey key_of into_entry ValidatorPowerEntry_Entry fst snd VPE_address_bytes VPE_inverted_power].
        rewrite Hpw. by apply bool_decide_eq_true.
Qed.

Lemma sorted_take {A} (R : A -> A -> Prop) (n : nat) (l : list A) :
  StronglySorted R l -> StronglySorted R (take n l) /\ Forall (fun x => forall y, y ∈ drop n l -> R x y) (take n l).
Proof.
  intros Hs. revert n. induction Hs as [|x l Hs IH Hall]; intros n; [rewrite take_nil; by repeat constructor|].
  destruct n as [|n]; [by repeat constructor|]. cbn [take drop]. destruct (IH n) as [H1 H2]. split.
  - constructor; [done|]. by apply Forall_take.
  - constructor; [|done]. intros y Hy. rewrite Forall_forall in Hall. apply Hall. rewrite <- (take_drop n l). apply elem_of_app. by right.
Qed.
Lemma is_top_take max pw L : 0 <= max ->
  StronglySorted outranks L -> (forall a p, (a, p) ∈ L <-> pw a = Some p /\ 0 < uint_val p) ->
  is_top max pw ((if max =? 0 then id else take (Z.to_nat max)) L).
Proof.
  intros Hmax Hs Hin. destruct (Z.eqb_spec max 0) as [H0|H0].
  - split; [done|by intros ? ?; apply Hin|lia|]. intros a p Ha Hp Hn. exfalso. by apply Hn, Hin.
  - destruct (sorted_take outranks (Z.to_nat max) L Hs) as [H1 H2]. split; [done| | |].
    + intros a p Hap. apply Hin. rewrite <- (take_drop (Z.to_nat max) L). apply elem_of_app. by left.
    + intros _. rewrite length_take. lia.
    + intros a p Ha Hp Hn. assert (HL : (a, p) ∈ L) by by apply Hin. rewrite <- (take_drop (Z.to_nat max) L) in HL.
      apply elem_of_app in HL as [HL|HL]; [done|]. split; [lia|]. split.
      * rewrite length_take. assert (Z.to_nat max < length L)%nat; [|lia].
        destruct (Nat.lt_ge_cases (Z.to_nat max) (length L)); [done|]. rewrite drop_ge in HL by done. by apply elem_of_nil in HL.
      * eapply Forall_impl; [exact H2|]. intros x Hx. by apply Hx.
Qed.

(** ** The index *)

Section Powers.
Context `{Profile} `{CompatMode} `{ND : NumDecimal} `{Cfg} `{Symbol} `{Hashes}.
Context `{WS : WriteSpec St} `{!Bounded St} `{!BoundedSpec St}.
Implicit Types (b : St) (s : Store) (self : Staking) (c : ContextMap).

(** The power index has exactly the entries of the powers last indexed. *)
Definition index_rep si sl b self pw : Prop :=
  set_rep si b (S_validators_by_power self) (indexed pw) /\ leaf_rep sl b (S_last_indexed_power self) pw.
(** Nothing but the index has changed. *)
Definition index_only self self' : Prop :=
  exists em m, self' = set_last_indexed_power m (set_validators_by_power em self).

(** The index for one more power. *)
Lemma indexed_set pw (a : Address) (p : u64) (k : u64 * uint 20) :
  indexed (set_at pw a (Some p)) k =
    if decide (k.2 = Address_bytes a) then bool_decide (k.1 = invert p) else indexed pw k.
Proof.
  destruct k as [i x], a as [y]. unfold indexed, set_at. cbn [fst snd Address_bytes].
  destruct (decide (x = y)) as [->|Hn]; [by rewrite decide_True|]. rewrite decide_False by congruence. done.
Qed.

(** Recording a validator's power always succeeds, and keeps the index by power in
    step with the powers last recorded: afterwards it has exactly one entry per
    validator, for its last power, and nothing else of the state has changed. *)
Lemma set_potential_voting_power_indexes si sl b self c pw (address : Address) (power : u64) :
  Read_inv b -> index_rep si sl b self pw ->
  exists self', set_potential_voting_power b address power (self, c) = (Ok tt, (self', c)) /\
    index_rep si sl b self' (set_at pw address (Some power)) /\ index_only self self'.
Proof.
  intros Hb [Hidx Hpw]. unfold set_potential_voting_power, bindM, readM. cbn [fst snd].
  destruct (leaf_get sl b _ _ address Hb Hpw) as (r & Hr & Hrv).
  change (Map_get b (S_last_indexed_power self) address = Ok r) in Hr. rewrite Hr. cbn iota beta.
  assert (Hold : exists em, match r with
      | Some last_indexed => on_validators_by_power (EntryMap_delete b (mkValidatorPowerEntry (invert (Ref_deref last_indexed)) (Address_bytes address)))
      | None => retM tt end (self, c) = (Ok tt, (set_validators_by_power em self, c)) /\
      set_rep si b em (fun k => if decide (k.2 = Address_bytes address) then false else indexed pw k)).
  { destruct r as [r|]; cbn [fmap option_fmap option_map] in Hrv.
    - destruct (set_delete si b _ _ (mkValidatorPowerEntry (invert (Ref_deref r)) (Address_bytes address)) Hb Hidx) as (em & Hd & Hem).
      exists em. split.
      + unfold on_validators_by_power, zoomM. cbn [fst snd]. change (EntryMap_delete b (mkValidatorPowerEntry (invert (Ref_deref r)) (Address_bytes address)) (S_validators_by_power self) = (Ok tt, em)) in Hd. by rewrite Hd.
      + eapply set_rep_ext; [exact Hem|]. intros [i x]. unfold member, change. cbn [key_of into_entry ValidatorPowerEntry_Entry VPE_inverted_power VPE_address_bytes fst snd].
        destruct (decide (x = Address_bytes address)) as [->|Hn]; [|by rewrite decide_False by congruence].
        unfold indexed. cbn [fst snd]. replace (mkAddress (Address_bytes address)) with address by by destruct address. rewrite <- Hrv.
        destruct (decide ((i, Address_bytes address) = _)) as [He|He]; [done|]. rewrite bool_decide_false; [done|]. intros ->. by apply He.
    - exists (S_validators_by_power self). split; [by destruct self|]. eapply set_rep_ext; [exact Hidx|]. intros [i x]. unfold member. cbn [fst snd].
      destruct (decide (x = Address_bytes address)) as [->|Hn]; [|done]. unfold indexed. cbn [fst snd].
      replace (mkAddress (Address_bytes address)) with address by by destruct address. by rewrite <- Hrv. }
  destruct Hold as (em & -> & Hem). cbn iota beta.
  destruct (set_insert si b _ _ (mkValidatorPowerEntry (invert power) (Address_bytes address)) Hem) as (em' & Hi & Hem').
  unfold on_validators_by_power, zoomM. cbn [fst snd S_validators_by_power set_validators_by_power].
  change (EntryMap_insert (St := St) (mkValidatorPowerEntry (invert power) (Address_bytes address)) em = (Ok tt, em')) in Hi. rewrite Hi.
  destruct (leaf_insert sl b _ _ address power Hpw) as (m' & Hm & Hm').
  unfold on_last_indexed_power, zoomM. cbn [fst snd S_last_indexed_power set_validators_by_power].
  change (Map_insert (St := St) address power (S_last_indexed_power self) = (Ok tt, m')) in Hm. rewrite Hm.
  eexists. split; [done|]. split; [|by exists em', m']. split; [|exact Hm']. eapply set_rep_ext; [exact Hem'|].
  intros [i x]. unfold member, change. rewrite indexed_set. cbn [key_of into_entry ValidatorPowerEntry_Entry VPE_inverted_power VPE_address_bytes fst snd].
  destruct (decide (x = Address_bytes address)) as [->|Hn]; [|by rewrite decide_False by congruence].
  destruct (decide ((i, Address_bytes address) = _)) as [[= ->]|He]; [by rewrite bool_decide_true|].
  rewrite bool_decide_false; [done|]. intros ->. by apply He.
Qed.

(** ** The updates of a block *)

Fixpoint power_in (l : list (Address * u64)) a : option u64 :=
  match l with
  | [] => None
  | (a', p) :: l => if decide (a = a') then Some p else power_in l a
  end.
Lemma powers_elem l a p : NoDup l.*1 -> power_in l a = Some p <-> (a, p) ∈ l.
Proof.
  induction l as [|[a' q] l IH]; simpl; intros Hnd; [split; [done|by intros ?%elem_of_nil]|].
  apply NoDup_cons in Hnd as [Hn Hnd]. rewrite elem_of_cons. destruct (decide (a = a')) as [->|Ha].
  - split; [intros [= ->]; by left|]. intros [[= ->]|Hin]; [done|]. exfalso. apply Hn, list_elem_of_fmap. by exists (a', p).
  - rewrite IH by done. split; [by right|]. intros [[= -> _]|Hin]; done.
Qed.
Lemma powers_none l a : power_in l a = None <-> a ∉ l.*1.
Proof.
  induction l as [|[a' q] l IH]; simpl; [split; [intros _; apply not_elem_of_nil|done]|].
  rewrite not_elem_of_cons, <- IH. destruct (decide (a = a')); naive_solver.
Qed.
Lemma top_NoDup max pw top : is_top max pw top -> NoDup top.*1.
Proof.
  intros [Hs Hsound _ _]. assert (Hf : forall x, x ∈ top -> pw x.1 = Some x.2) by (intros [x q] Hx; by apply Hsound in Hx as [? _]).
  clear Hsound. induction Hs as [|[x q] top Hs IH Hall]; [constructor|]. simpl. constructor; [|apply IH; intros y Hy; apply Hf; by right].
  intros Hin. apply list_elem_of_fmap in Hin as ([x' q'] & Hx & Hin). simpl in Hx. subst x'.
  pose proof (Hf (x, q) ltac:(by left)) as H1'. pose proof (Hf (x, q') ltac:(by right)) as H2'. simpl in H1', H2'.
  rewrite H1' in H2'. injection H2' as ->. rewrite Forall_forall in Hall. by apply (before_irrefl (x, q')), Hall.
Qed.

(** What has to be reported to get from the powers [old] to the powers of [top]: what
    changed and what is gone, each once. *)
Definition is_diff (old : Address -> option u64) (top ups : list (Address * u64)) : Prop :=
  NoDup ups.*1 /\
  forall a p, (a, p) ∈ ups <->
    (power_in top a = Some p /\ old a <> Some p) \/ (uint_val p = 0 /\ power_in top a = None /\ is_Some (old a)).

Record lawful (sd : Store) b {K} `{KeySpec K} : Prop := { lawful_tidy : Map_tidy (K := K) sd b; lawful_no_ff : no_ff_key (K := K) sd b }.

Lemma changed_powers_spec sv b self (old : Address -> option u64) top :
  Read_inv b -> leaf_rep sv b (S_last_validator_powers self) old ->
  changed_powers b (S_last_validator_powers self) top = Ok (List.filter (fun x => negb (bool_decide (old x.1 = Some x.2))) top).
Proof.
  intros Hb Hold. induction top as [|[x q] top IH]; [done|]. cbn [changed_powers List.filter].
  destruct (leaf_get sv b _ _ x Hb Hold) as (r & Hr & Hrv). change (Map_get b (S_last_validator_powers self) x = Ok r) in Hr.
  rewrite Hr, IH. cbn [res_bind fst snd]. rewrite <- Hrv. destruct r as [r|]; [|done]. cbn [fmap option_fmap option_map].
  destruct (Z.eqb_spec (uint_val q) (uint_val (Ref_deref r))) as [He|He].
  - apply uint_eq in He. by rewrite bool_decide_true by congruence.
  - rewrite bool_decide_false by congruence. done.
Qed.

Lemma diff_lists (old : Address -> option u64) top (out : list (Address * u64)) :
  NoDup top.*1 -> graph_of old out ->
  is_diff old top (List.filter (fun x => negb (bool_decide (old x.1 = Some x.2))) top ++
    omap (fun kv => if decide (kv.1 ∈ top.*1) then None else Some (kv.1, to_uint 8 0)) out).
Proof.
  intros Hnd [Hs Hg]. pose proof (keys_sorted_NoDup out Hs) as Hno.
  assert (Hb : forall a p, (a, p) ∈ (omap (fun kv => if decide (kv.1 ∈ top.*1) then None else Some (kv.1, to_uint 8 0)) out) <->
    p = to_uint 8 0 /\ (a ∉ top.*1) /\ is_Some (old a)).
  { intros a p. rewrite list_elem_of_omap. split.
    - intros ([k v] & Hin & He). simpl in He. destruct (decide (k ∈ top.*1)); [done|]. injection He as <- <-. apply Hg in Hin. by rewrite Hin.
    - intros (-> & Hn & v & Hv). exists (a, v). split; [by apply Hg|]. simpl. by rewrite decide_False. }
  assert (Hc : forall a p, (a, p) ∈ List.filter (fun x => negb (bool_decide (old x.1 = Some x.2))) top <-> (a, p) ∈ top /\ old a <> Some p).
  { intros a p. rewrite list_elem_of_In, filter_In, <- list_elem_of_In. cbn [fst snd].
    case_bool_decide; simpl; naive_solver. }
  split.
  - rewrite fmap_app. apply NoDup_app. split_and!.
    + clear -Hnd. induction top as [|x top IH]; [constructor|]. simpl in *. apply NoDup_cons in Hnd as [Hn Hnd].
      destruct (negb _); [|by apply IH]. simpl. constructor; [|by apply IH]. intros Hin. apply Hn.
      apply list_elem_of_fmap in Hin as (y & -> & Hy). apply list_elem_of_In, filter_In in Hy as [Hy _]. apply list_elem_of_fmap.
      exists y. split; [done|]. by apply list_elem_of_In.
    + intros a Ha Hin. apply list_elem_of_fmap in Ha as ([a1 p1] & -> & Ha). apply list_elem_of_fmap in Hin as ([a2 p2] & He & Hin).
      simpl in He. subst a2. apply Hb in Hin as (_ & Hn & _). apply Hn. apply Hc in Ha as [Ha _]. apply list_elem_of_fmap. by exists (a1, p1).
    + clear -Hno. induction out as [|[k v] out IH]; [constructor|]. simpl in *. apply NoDup_cons in Hno as [Hn Hno].
      destruct (decide (k ∈ top.*1)); [by apply IH|]. simpl. constructor; [|by apply IH]. intros Hin. apply Hn.
      apply list_elem_of_fmap in Hin as ([k' v'] & -> & Hin). apply list_elem_of_omap in Hin as ([k2 v2] & Hin & He). simpl in He.
      destruct (decide _); [done|]. injection He as -> _. apply list_elem_of_fmap. by exists (k', v2).
  - intros a p. rewrite elem_of_app, Hc, Hb, powers_elem, powers_none by done. split; [|].
    + intros [?|(-> & ? & ?)]; [by left|right; split_and!; [done|done|done]].
    + intros [?|(Hp & ? & ?)]; [by left|]. right. split_and!; [|done..]. apply uint_eq. exact Hp.
Qed.

(** Computing the updates always succeeds, and gives the difference to the top of the
    powers. *)
Lemma power_updates_spec si sl sv b self pw (old : Address -> option u64) :
  Read_inv b -> index_rep si sl b self pw -> leaf_rep sv b (S_last_validator_powers self) old ->
  lawful si b (K := u64 * uint 20) -> lawful sv b (K := Address) ->
  Z.of_nat (length (Map_children (EntryMap_map (S_validators_by_power self))) + entry_bound b) < u64_max ->
  exists top ups, power_updates b self = Ok ups /\ is_top (uint_val (S_max_validators self)) pw top /\ is_diff old top ups.
Proof.
  intros Hb [Hidx Hpw] Hold [Hti Hfi] [Htv Hfv] Hlen. unfold power_updates, iter_fuel.
  destruct (set_iter si b _ _ (S (length (Map_children (EntryMap_map (S_validators_by_power self))) + entry_bound b)) Hb Hidx Hti Hfi ltac:(lia))
    as (it & l & Hit & Hl & Hs & Hin).
  change (EntryMap_iter (S_validators_by_power self) = Ok it) in Hit. rewrite Hit. cbn [res_bind].
  change (EntryIter_collect (S (length (Map_children (EntryMap_map (S_validators_by_power self))) + entry_bound b)) b (S_validators_by_power self) it = Ok l) in Hl.
  pose proof (EntryIter_collect_short _ b _ it l Hl) as Hll.
  rewrite (top_powers_list _ b _ _ it l 0 Hl) by lia. cbn [res_bind].
  set (max := uint_val (S_max_validators self)). pose proof (u64_val_range (S_max_validators self)) as Hmax. fold max in Hmax.
  rewrite (top_list_take max l 0 Hs) by lia. replace (max - 0) with max by lia.
  destruct (ranked_members pw l Hs Hin) as [HLs HLin]. pose proof (is_top_take max pw _ ltac:(lia) HLs HLin) as Htop.
  set (top := (if max =? 0 then id else take (Z.to_nat max)) (List.filter powered (pair_of <$> l))) in *.
  rewrite (changed_powers_spec sv b self old top Hb Hold). cbn [res_bind].
  destruct (leaf_iter sv b _ _ (iter_fuel b (S_last_validator_powers self)) Hb Hold Htv Hfv ltac:(unfold iter_fuel; lia)) as (it2 & out & Hit2 & Hout & Hg).
  unfold Map_filter_entries.
  change (Map_iter (S_last_validator_powers self) = Ok it2) in Hit2. rewrite Hit2. cbn [res_bind].
  change (MapIter_collect (iter_fuel b (S_last_validator_powers self)) b (S_last_validator_powers self) it2 = Ok out) in Hout.
  rewrite (MapIter_filter_list (fun address _ => if decide (address ∈ top.*1) then None else Some (address, to_uint 8 0)) _ b _ it2 out Hout). cbn [res_bind].
  eexists top, _. split; [done|]. split; [done|]. apply diff_lists; [by eapply top_NoDup|done].
Qed.
End Powers.
