(* ===== verification/StakingFrame.v ===== *)
(** * What the operations of the staking module leave alone

    The index by power, the powers it was made from, the powers last reported and the
    consensus keys are only changed by a few operations of src/coins/staking/mod.rs;
    every other one keeps whatever is true of them. *)

From stdpp Require Import base tactics numbers list strings gmap.
From Stdlib Require Import ZArith Lia.
From S2P Require Import Prelude Bytes BTree StoreIface StoreIter NullStore BufStore PrefixStore Codec StateIface Next StructState Utf8 Encoding Keys MapColl MapSpec MapProps MapCall MapIter EntryMap Fields Address DequeColl Coins SimpleState Decimal Share Pool AbciTypes Context Plugins AbciStore AbciPlugin Delegator StakingValidator StakingState Staking.
#[local] Open Scope Z_scope.

Section Frame.
Context `{Profile} `{CompatMode} `{ND : NumDecimal} `{Cfg} `{Symbol} `{Hashes} `{Bech32}.
Context {St : Type} `{Read St} `{!Write St} `{!Bounded St}.
Implicit Types (b : St) (c : ContextMap) (self : Staking).

(** The fields that matter. *)
Definition core self :=
  (S_validators_by_power self, S_last_indexed_power self, S_last_validator_powers self, S_consensus_keys self, S_address_for_tm_hash self, S_max_validators self).

Lemma keeps_for_each {S A} (P : S -> Prop) (f : A -> M S unit) l : (forall x, keeps P (f x)) -> keeps P (for_each f l).
Proof. intros Hf. induction l as [|x l IH]; cbn [for_each]; keeping. Qed.
#[local] Hint Resolve keeps_for_each : frames.

(** ** Operations that change none of them *)

Section Inert.
Context (P : Staking * ContextMap -> Prop) (P_core : forall self self' c, core self' = core self -> P (self, c) -> P (self', c)).

Lemma keeps_on_field {T A} (get : Staking * ContextMap -> T) (set : T -> Staking -> Staking) (m : M T A) :
  (forall x self, core (set x self) = core self) -> keeps P (zoomM get (fun x p => (set x p.1, p.2)) m).
Proof. intros Hs. apply keeps_zoom. intros [self c] x Hp. by apply (P_core self). Qed.
Lemma keeps_validators {A} f : keeps P (on_validators (A := A) f).
Proof. by apply keeps_on_field. Qed.
Lemma keeps_last_signed_block {A} f : keeps P (on_last_signed_block (A := A) f).
Proof. by apply keeps_on_field. Qed.
Lemma keeps_validator_queue {A} f : keeps P (on_validator_queue (A := A) f).
Proof. by apply keeps_on_field. Qed.
Lemma keeps_unbonding_delegation_queue {A} f : keeps P (on_unbonding_delegation_queue (A := A) f).
Proof. by apply keeps_on_field. Qed.
Lemma keeps_redelegation_queue {A} f : keeps P (on_redelegation_queue (A := A) f).
Proof. by apply keeps_on_field. Qed.
Lemma keeps_delegation_index {A} f : keeps P (on_delegation_index (A := A) f).
Proof. by apply keeps_on_field. Qed.
#[local] Hint Resolve keeps_validators keeps_last_signed_block keeps_validator_queue keeps_unbonding_delegation_queue
  keeps_redelegation_queue keeps_delegation_index : frames.

Lemma keeps_on_validator {A} b address g : keeps P (on_validator (A := A) b address g).
Proof. apply keeps_validators. Qed.
Lemma keeps_on_validator_ref {A} b address g : keeps P (on_validator_ref (A := A) b address g).
Proof. apply keeps_validators. Qed.
Lemma keeps_current_seconds : keeps P Staking_current_seconds.
Proof. unfold Staking_current_seconds. keeping. Qed.
#[local] Hint Resolve keeps_on_validator keeps_on_validator_ref keeps_current_seconds : frames.

Lemma keeps_queue_loop {T} {ST : State St T} start msg (act : T -> SM unit) queue set_queue b now n :
  (forall x self, core (set_queue x self) = core self) -> (forall x, keeps P (act x)) ->
  keeps P (staking_queue_loop start msg act queue set_queue b now n).
Proof.
  intros Hs Ha. induction n as [|n IH]; cbn [staking_queue_loop]; keeping. by apply keeps_on_field.
Qed.
Lemma keeps_process_validator_queue b : keeps P (process_validator_queue b).
Proof.
  unfold process_validator_queue, transition_to_unbonded. keeping. apply keeps_for_each. intros r. keeping.
Qed.
Lemma keeps_process_all_queues b : keeps P (process_all_queues b).
Proof.
  unfold process_all_queues, process_unbonding_delegation_queue, process_redelegation_queue. keeping.
  - apply keeps_process_validator_queue.
  - apply keeps_queue_loop; [done|]. intros x. keeping.
  - apply keeps_queue_loop; [done|]. intros x. keeping.
Qed.
Lemma keeps_apply_update b height u : keeps P (apply_update b height u).
Proof.
  unfold apply_update, transition_to_unbonding, transition_to_bonded. keeping.
Qed.
Lemma keeps_apply_updates b height l : keeps P (for_each (apply_update b height) l).
Proof. apply keeps_for_each. intros u. apply keeps_apply_update. Qed.
Lemma keeps_over_validators {A} b (f : Address -> Validator -> SM A) keys :
  (forall k v, keeps P (f k v)) -> keeps P (over_validators b f keys).
Proof. intros Hf. induction keys as [|k keys IH]; cbn [over_validators]; keeping. Qed.
Lemma keeps_repair b : keeps P (repair b).
Proof.
  unfold repair. keeping; [apply keeps_over_validators|apply keeps_for_each]; intros; keeping.
Qed.
Lemma keeps_delegations b d : keeps P (delegations b d).
Proof.
  unfold delegations. keeping. match goal with |- keeps P (delegation_infos _ _ ?l) => induction l as [|x l IH] end; cbn [delegation_infos]; keeping.
Qed.
End Inert.

(** ** All operations *)

Context `{SMsg : StakingMessages}.

(** What code outside the module can do to it: the calls, the hooks, the other public
    methods, and any change to a validator through [get_mut]. *)
Inductive StakingOp :=
| OpCall (call : StakingCall)
| OpBeginBlock (ctx : BeginBlockCtx)
| OpEndBlock (ctx : EndBlockCtx)
| OpDelegate (val_address delegator_address : Address) (coins : Coin)
| OpDeclare (val_address : Address) (d : Declaration) (coins : Coin)
| OpEditValidator (val_address : Address) (commission : Decimal) (min_self_delegation : Amount) (info : ValidatorInfo)
| OpPunishDowntime (val_address : Address)
| OpDeduct (val_address delegator_address : Address) (amount : Amount) (denom : u8)
| OpUnbond (val_address delegator_address : Address) (amount : Amount)
| OpRedelegate (src dst delegator_address : Address) (amount : Amount)
| OpGetMut (val_address : Address) (g : M Validator unit)
| OpGive (index : u8) (coins : Coin)
| OpRepair.
Definition staking_op b (op : StakingOp) : SM unit :=
  match op with
  | OpCall call => Staking_call b call
  | OpBeginBlock ctx => Staking_begin_block b ctx
  | OpEndBlock ctx => Staking_end_block b ctx
  | OpDelegate v d coins => Staking_delegate b v d coins
  | OpDeclare v d coins => Staking_declare b v d coins
  | OpEditValidator v r m i => Staking_edit_validator b v r m i
  | OpPunishDowntime v => punish_downtime b v
  | OpDeduct v d a i => Staking_deduct b v d a i
  | OpUnbond v d a => Staking_unbond b v d a
  | OpRedelegate s d x a => Staking_redelegate b s d x a
  | OpGetMut v g => on_validator b v g
  | OpGive i coins => Staking_give b i coins
  | OpRepair => repair b
  end.
(** A history: operations one after the other, each whatever the outcome of those
    before it. *)
Definition staking_run b (ops : list StakingOp) (p : Staking * ContextMap) : Staking * ContextMap :=
  foldl (fun p op => (staking_op b op p).2) p ops.

Section Active.
Context (b : St) (P : Staking * ContextMap -> Prop).
Context (P_core : forall self self' c, core self' = core self -> P (self, c) -> P (self', c)).
Context (P_ctx : forall self c c', P (self, c) -> P (self, c')).
Context (P_index : forall address power, keeps P (set_potential_voting_power b address power)).
Context (P_record : forall u, keeps P (record_power b u)).
Context (P_keys : forall self c val_address d coins tm_hash, P (self, c) -> check_declaration b self val_address d coins = Ok tm_hash ->
  exists self1 self2, on_consensus_keys (Map_insert (St := St) val_address (Dc_consensus_key d)) (self, c) = (Ok tt, (self1, c)) /\
    on_address_for_tm_hash (Map_insert (St := St) tm_hash (VersionedAddress_from val_address)) (self1, c) = (Ok tt, (self2, c)) /\ P (self2, c)).

Lemma keeps_on_ctx {A} f : keeps P (on_ctx (A := A) f).
Proof. apply keeps_zoom. intros [self c] c' Hp. by apply (P_ctx self c). Qed.
#[local] Hint Resolve keeps_validators keeps_last_signed_block keeps_validator_queue keeps_unbonding_delegation_queue
  keeps_redelegation_queue keeps_delegation_index keeps_on_validator keeps_on_validator_ref keeps_current_seconds
  keeps_process_all_queues keeps_apply_updates keeps_repair keeps_delegations keeps_on_ctx : frames.

Lemma keeps_update_vp a : keeps P (update_vp b a).
Proof. unfold update_vp. keeping. Qed.
Lemma keeps_index_delegation v d : keeps P (index_delegation b v d).
Proof. apply keeps_delegation_index, P_core. Qed.
#[local] Hint Resolve keeps_update_vp keeps_index_delegation : frames.
Lemma keeps_delegate v d coins : keeps P (Staking_delegate b v d coins).
Proof. unfold Staking_delegate. keeping. Qed.
Lemma keeps_declare v d coins : keeps P (Staking_declare b v d coins).
Proof.
  intros [self c] Hp. unfold Staking_declare, bindM at 1, readM. destruct (check_declaration b self v d coins) as [h|?|?] eqn:Hc; cbn [fst]; rewrite Hc; [|done..].
  destruct (P_keys self c v d coins h Hp Hc) as (self1 & self2 & H1' & H2' & Hp2).
  erewrite bindM_run by exact H1'. erewrite bindM_run by exact H2'.
  revert Hp2. match goal with |- P ?s -> P (?m ?s).2 => enough (keeps P m) by auto end. keeping. apply keeps_delegate.
Qed.
Lemma keeps_edit_validator v r m i : keeps P (Staking_edit_validator b v r m i).
Proof. unfold Staking_edit_validator. keeping. Qed.
Lemma keeps_punish_downtime v : keeps P (punish_downtime b v).
Proof. unfold punish_downtime. keeping. Qed.
Lemma keeps_slash_redelegations m e : keeps P (slash_redelegations b m e).
Proof. apply keeps_for_each. intros r. keeping. Qed.
Lemma keeps_punish_double_sign v : keeps P (punish_double_sign b v).
Proof. unfold punish_double_sign. keeping. apply keeps_for_each. intros e. apply keeps_slash_redelegations. Qed.
Lemma keeps_deduct v d a i : keeps P (Staking_deduct b v d a i).
Proof. unfold Staking_deduct. keeping. Qed.
Lemma keeps_unbond v d a : keeps P (Staking_unbond b v d a).
Proof. unfold Staking_unbond. keeping. Qed.
Lemma keeps_redelegate s d x a : keeps P (Staking_redelegate b s d x a).
Proof. unfold Staking_redelegate. keeping. Qed.
#[local] Hint Resolve keeps_delegate keeps_declare keeps_edit_validator keeps_punish_downtime keeps_punish_double_sign keeps_deduct
  keeps_unbond keeps_redelegate : frames.
Lemma keeps_end_block_step height : keeps P (end_block_step b height).
Proof. unfold end_block_step. keeping. Qed.
Lemma keeps_begin_block ctx : keeps P (Staking_begin_block b ctx).
Proof.
  unfold Staking_begin_block, record_signers. keeping; apply keeps_for_each; intros x; unfold punish_offline, punish_evidence, punish_light_client_attack; keeping.
Qed.
Lemma keeps_signer : keeps P Staking_signer.
Proof. exact (keeps_state _ _). Qed.
Lemma keeps_add_event e : keeps P (add_event e).
Proof. apply keeps_on_ctx. Qed.
Lemma keeps_on_paid {A} f : keeps P (on_paid (A := A) f).
Proof. apply keeps_on_ctx. Qed.
#[local] Hint Resolve keeps_signer keeps_add_event keeps_on_paid : frames.
Lemma keeps_take_as_funding v a d : keeps P (Staking_take_as_funding b v a d).
Proof. unfold Staking_take_as_funding. keeping. Qed.
#[local] Hint Resolve keeps_take_as_funding : frames.
Lemma keeps_call call : keeps P (Staking_call b call).
Proof.
  destruct call; cbn [Staking_call]; unfold unbond_self, redelegate_self, declare_self, delegate_from_self, claim_all, unjail, edit_validator_self;
    keeping; [].
  apply keeps_for_each. intros [? ?]. apply keeps_for_each. intros [? ?]. keeping.
Qed.
Lemma keeps_op op : keeps P (staking_op b op).
Proof.
  destruct op; cbn [staking_op]; unfold Staking_end_block, Staking_give; auto using keeps_call, keeps_begin_block, keeps_end_block_step with frames.
Qed.
Lemma keeps_run ops p : P p -> P (staking_run b ops p).
Proof. unfold staking_run. revert p. induction ops as [|op ops IH]; intros p Hp; [done|]. cbn [foldl]. by apply IH, keeps_op. Qed.
End Active.
End Frame.
