(* ===== verification/StakingBlock.v ===== *)
(** * The bookkeeping of the staking module

    What the operations of src/coins/staking/mod.rs keep true of the index by power, the
    powers last reported and the consensus keys, and what the end of a block makes of
    them: the updates that are reported, and what is remembered for the next block. *)

From stdpp Require Import base tactics numbers list strings gmap sorting.
From Stdlib Require Import ZArith QArith Qabs Lia Lqa.
From S2P Require Import Prelude Bytes BTree StoreIface StoreIter NullStore BufStore PrefixStore Codec StateIface Next StructState Utf8 Encoding SimpleState MapColl MapSpec MapProps MapIter MapIterSpec Keys EntryMap LeafMap MapCall Fields Address DequeColl Coins Decimal Share Pool PoolSpec AbciTypes Context Plugins AbciStore AbciPlugin AbciPluginSpec Delegator StakingValidator StakingState Staking StakingPowers StakingFrame.
#[local] Open Scope Z_scope.

Implicit Types (a : Address) (pw old : Address -> option u64) (keys : Address -> option PubKey) (owners : uint 20 -> option Address).

(** Where the maps have their data. *)
Record Places := mkPlaces { at_index : Store; at_indexed : Store; at_powers : Store; at_keys : Store; at_hashes : Store }.

Section Book.
Context `{Profile} `{CompatMode} `{ND : NumDecimal} `{Cfg} `{Symbol} `{Hashes} `{Bech32}.
Context `{WS : WriteSpec St} `{!Bounded St} `{!BoundedSpec St}.
Implicit Types (b : St) (s : Store) (self : Staking) (c : ContextMap) (w : Places).

(** ** The invariant *)

(** The operators by the hash of their key. *)
Definition owner_model (a : Address) : uint 20 * unit := (Address_bytes a, tt).
Definition hashes_rep s b (m : Map (uint 20) VersionedAddress) owners : Prop :=
  Map_attached (StateSpec0 := VersionedAddress_StateSpec) s m /\
  Map_abs (StateSpec0 := VersionedAddress_StateSpec) b m (fun h => owner_model <$> owners h).

(** Every declared key is found by its hash, under its operator. *)
Definition keys_owned keys owners : Prop :=
  forall a k, keys a = Some k -> exists h, tm_pubkey_hash k = Ok h /\ owners h = Some a.

Record book w b self pw old keys owners : Prop := {
  book_index : index_rep (at_index w) (at_indexed w) b self pw;
  book_powers : leaf_rep (at_powers w) b (S_last_validator_powers self) old;
  book_keys : leaf_rep (at_keys w) b (S_consensus_keys self) keys;
  book_hashes : hashes_rep (at_hashes w) b (S_address_for_tm_hash self) owners;
  book_owned : keys_owned keys owners
}.
Definition in_book w b (p : Staking * ContextMap) : Prop := exists pw old keys owners, book w b p.1 pw old keys owners.

Lemma hashes_insert s b m owners h a : hashes_rep s b m owners ->
  exists m', Map_insert (St := St) h (VersionedAddress_from a) m = (Ok tt, m') /\ hashes_rep s b m' (set_at owners h (Some a)).
Proof.
  intros [Hm Hf]. destruct (Map_insert_spec (StateSpec0 := VersionedAddress_StateSpec) s b m _ h (VersionedAddress_from a) Hm Hf) as (v' & Hat & _ & Hins); [done|].
  assert (v' = VersionedAddress_from a) as -> by (injection Hat as <-; by destruct a).
  destruct (Hins (owner_model a)) as (m' & Hi & Hm' & Hf'); [done|]. exists m'. split; [done|]. split; [done|].
  eapply Map_abs_ext, Hf'. intros j. unfold upd, set_at.
  destruct (decide (enc j = enc h)) as [Hj%enc_inj|Hj]; [by rewrite decide_True|]. rewrite decide_False; [done|]. by intros ->.
Qed.
Lemma keys_owned_insert keys owners a k h :
  keys_owned keys owners -> tm_pubkey_hash k = Ok h -> owners h = None ->
  keys_owned (set_at keys a (Some k)) (set_at owners h (Some a)).
Proof.
  intros Ho Hh Hn a' k'. unfold set_at. destruct (decide (a' = a)) as [->|Ha].
  - intros [= <-]. exists h. split; [done|]. by rewrite decide_True.
  - intros Hk. destruct (Ho a' k' Hk) as (h' & Hh' & Hr). exists h'. split; [done|]. rewrite decide_False; [done|]. congruence.
Qed.
(** No key is the key of two operators. *)
Lemma keys_injective keys owners a a' k : keys_owned keys owners -> keys a = Some k -> keys a' = Some k -> a = a'.
Proof. intros Ho H1' H2'. destruct (Ho _ _ H1') as (h & Hh & Ha), (Ho _ _ H2') as (h' & Hh' & Ha'). congruence. Qed.

Lemma check_declaration_fresh b self a d coins h s owners :
  Read_inv b -> hashes_rep s b (S_address_for_tm_hash self) owners ->
  check_declaration b self a d coins = Ok h -> tm_pubkey_hash (Dc_consensus_key d) = Ok h /\ owners h = None.
Proof.
  intros Hb [_ Hf] Hc. unfold check_declaration in Hc.
  destruct (Map_contains_key b (S_consensus_keys self) a) as [[]|?|?]; [done| |done..]. cbn [res_bind] in Hc.
  destruct (Amount_ltb _ _); [done|]. destruct (validate_info _); [|done..]. cbn [res_bind] in Hc.
  destruct (tm_pubkey_hash _) as [h'|?|?] eqn:Hh; [|done..]. cbn [res_bind] in Hc.
  pose proof (Map_contains_key_spec (StateSpec0 := VersionedAddress_StateSpec) b _ _ h' Hb Hf) as Hk.
  change (Map_contains_key b (S_address_for_tm_hash self) h' = Ok (match owner_model <$> owners h' with Some _ => true | None => false end)) in Hk.
  rewrite Hk in Hc. cbn [res_bind] in Hc. destruct (owners h') eqn:Ho; [done|]. cbn [fmap option_fmap option_map] in Hc.
  repeat match type of Hc with context [if ?x then _ else _] => destruct x; [done|] end. by injection Hc as <-.
Qed.

(** The book is kept by what touches it. *)
Section Kept.
Context (w : Places) (b : St) (Hb : Read_inv b).

Lemma book_core self self' pw old keys owners : core self' = core self -> book w b self pw old keys owners -> book w b self' pw old keys owners.
Proof.
  unfold core. intros [= E1 E2 E3 E4 E5 _] [[Hi Hl] Hp Hk Hh Ho]. split; [split; by rewrite ?E1, ?E2|by rewrite E3|by rewrite E4|by rewrite E5|done].
Qed.
Lemma in_book_core self self' c : core self' = core self -> in_book w b (self, c) -> in_book w b (self', c).
Proof. intros He (pw & old & keys & owners & Hk). exists pw, old, keys, owners. by apply (book_core self). Qed.
Lemma in_book_index a p : keeps (in_book w b) (set_potential_voting_power b a p).
Proof.
  intros [self c] (pw & old & keys & owners & [Hi Hp Hk Hh Ho]).
  destruct (set_potential_voting_power_indexes _ _ b self c pw a p Hb Hi) as (self' & -> & Hi' & em & m & ->).
  exists (set_at pw a (Some p)), old, keys, owners. by split.
Qed.
Lemma record_power_run self c old (u : Address * u64) : leaf_rep (at_powers w) b (S_last_validator_powers self) old ->
  exists m, record_power b u (self, c) = (Ok tt, (set_last_validator_powers m self, c)) /\
    leaf_rep (at_powers w) b m (set_at old u.1 (if 0 <? uint_val u.2 then Some u.2 else None)).
Proof.
  intros Hp. destruct u as [a p]. unfold record_power, bindM, on_last_validator_powers, zoomM. cbn [fst snd]. destruct (0 <? uint_val p).
  - destruct (leaf_insert _ b _ _ a p Hp) as (m & Hm & Hr). exists m. split; [|done].
    change (Map_insert (St := St) a p (S_last_validator_powers self) = (Ok tt, m)) in Hm. cbn [fst snd]. by rewrite Hm.
  - destruct (leaf_remove _ b _ _ a Hb Hp) as (o & m & Hm & Hr). exists m. split; [|done].
    change (Map_remove b a (S_last_validator_powers self) = (Ok o, m)) in Hm. cbn [fst snd]. by rewrite Hm.
Qed.
Lemma in_book_record u : keeps (in_book w b) (record_power b u).
Proof.
  intros [self c] (pw & old & keys & owners & [Hi Hp Hk Hh Ho]). destruct (record_power_run self c old u Hp) as (m & -> & Hr).
  eexists pw, _, keys, owners. split; [exact Hi|exact Hr|exact Hk|exact Hh|exact Ho].
Qed.
Lemma in_book_keys self c a d coins h : in_book w b (self, c) -> check_declaration b self a d coins = Ok h ->
  exists self1 self2, on_consensus_keys (Map_insert (St := St) a (Dc_consensus_key d)) (self, c) = (Ok tt, (self1, c)) /\
    on_address_for_tm_hash (Map_insert (St := St) h (VersionedAddress_from a)) (self1, c) = (Ok tt, (self2, c)) /\ in_book w b (self2, c).
Proof.
  intros (pw & old & keys & owners & [Hi Hp Hk Hh Ho]) Hc. cbn [fst] in *.
  destruct (check_declaration_fresh b self a d coins h _ owners Hb Hh Hc) as [Hkh Hfree].
  destruct (leaf_insert _ b _ _ a (Dc_consensus_key d) Hk) as (mk & Hmk & Hk').
  change (Map_insert (St := St) a (Dc_consensus_key d) (S_consensus_keys self) = (Ok tt, mk)) in Hmk.
  destruct (hashes_insert _ b _ _ h a Hh) as (mh & Hmh & Hh').
  exists (set_consensus_keys mk self), (set_address_for_tm_hash mh (set_consensus_keys mk self)).
  unfold on_consensus_keys, on_address_for_tm_hash, zoomM. cbn [fst snd S_address_for_tm_hash set_consensus_keys]. rewrite Hmk, Hmh.
  split; [done|]. split; [done|]. eexists pw, old, _, _. split; [exact Hi|exact Hp|exact Hk'|exact Hh'|]. by apply keys_owned_insert.
Qed.

Context `{SMsg : StakingMessages}.
(** C23: whatever is done to the module, and whatever the outcomes, the books stay in
    order: the index by power has exactly one entry per validator ever indexed, for the
    power recorded last, and the key of every declared validator is found by its hash
    under that validator, so that no two validators share a consensus key. *)
Theorem staking_book_kept ops self c :
  in_book w b (self, c) -> in_book w b (staking_run b ops (self, c)).
Proof.
  apply keeps_run; [exact in_book_core|done|exact in_book_index|exact in_book_record|exact in_book_keys].
Qed.

(** ** The end of a block *)

Definition recorded (p : u64) : option u64 := if 0 <? uint_val p then Some p else None.
Definition after_updates (l : list (Address * u64)) old : Address -> option u64 :=
  foldl (fun f u => set_at f u.1 (recorded u.2)) old l.

Lemma record_all c l : forall self old, leaf_rep (at_powers w) b (S_last_validator_powers self) old ->
  exists m, for_each (record_power b) l (self, c) = (Ok tt, (set_last_validator_powers m self, c)) /\
    leaf_rep (at_powers w) b m (after_updates l old).
Proof.
  induction l as [|u l IH]; intros self old Hp; cbn [for_each after_updates foldl]; [by exists (S_last_validator_powers self); destruct self|].
  destruct (record_power_run self c old u Hp) as (m & Hr & Hm). erewrite bindM_run by exact Hr.
  destruct (IH (set_last_validator_powers m self) _ Hm) as (m' & -> & Hm'). by exists m'.
Qed.
Lemma after_updates_at l old a : NoDup l.*1 -> after_updates l old a = match power_in l a with Some p => recorded p | None => old a end.
Proof.
  revert old. induction l as [|[a' p] l IH]; intros old Hnd; [done|]. apply NoDup_cons in Hnd as [Hn Hnd].
  cbn [after_updates foldl power_in fst snd]. fold (after_updates l (set_at old a' (recorded p))). rewrite IH by done.
  destruct (decide (a = a')) as [->|Ha]; [|by rewrite set_at_other].
  apply powers_none in Hn. cbn [fst] in Hn. rewrite Hn. apply set_at_same.
Qed.
(** Recording the difference gives the new powers. *)
Lemma after_diff old max pw top ups a : is_top max pw top -> is_diff old top ups -> after_updates ups old a = power_in top a.
Proof.
  intros Htop [Hnd Hd]. pose proof (top_NoDup _ _ _ Htop) as Hndt. rewrite after_updates_at by done. unfold recorded.
  destruct (power_in ups a) as [p|] eqn:Hu.
  - apply powers_elem, Hd in Hu as [[Ht _]|(Hz & -> & _)]; [| |done].
    + rewrite Ht. apply powers_elem, (top_sound _ _ _ Htop) in Ht as [_ Hpos]; [|done]. by destruct (Z.ltb_spec 0 (uint_val p)); [|lia].
    + by rewrite Hz.
  - destruct (power_in top a) as [p|] eqn:Ht.
    + destruct (decide (old a = Some p)); [done|]. assert (Hin : (a, p) ∈ ups) by (apply Hd; by left). apply powers_elem in Hin; [congruence|done].
    + destruct (old a) as [q|] eqn:Hq; [|done]. assert (Hin : (a, to_uint 8 0) ∈ ups) by (apply Hd; right; by rewrite Hq).
      apply powers_elem in Hin; [congruence|done].
Qed.
Lemma leaf_rep_ext {K V} `{KeySpec K} `{!EqDecision K} `{CodecSpec V} s (m : Map K V) (f g : K -> option V) :
  (forall k, f k = g k) -> leaf_rep s b m f -> leaf_rep s b m g.
Proof. intros Hfg [Hm Hf]. split; [done|]. by eapply Map_abs_ext. Qed.

(** Under which key an update is reported, and how. *)
Definition under_key keys (u : Address * u64) (r : PubKey * u64) : Prop := keys u.1 = Some r.1 /\ r.2 = u.2.
Definition report (r : PubKey * u64) : Z * (PubKey * ValidatorUpdate) :=
  (uint_val r.1, (r.1, mkValidatorUpdate (Some (mkPublicKey (Some (Ed25519 (to_vec32 r.1))))) (wrap_i64 (uint_val r.2)))).

Lemma with_consensus_keys_spec self keys ups : leaf_rep (at_keys w) b (S_consensus_keys self) keys ->
  (forall a p, (a, p) ∈ ups -> is_Some (keys a)) ->
  exists con, with_consensus_keys b self ups = Ok con /\ Forall2 (under_key keys) ups con.
Proof.
  intros Hk. induction ups as [|[a p] ups IH]; intros Hd; [by exists []|]. cbn [with_consensus_keys].
  destruct (leaf_get _ b _ _ a Hb Hk) as (r & Hr & Hrv). change (Map_get b (S_consensus_keys self) a = Ok r) in Hr. rewrite Hr. cbn [res_bind].
  destruct (Hd a p) as [k Hka]; [by left|]. rewrite Hka in Hrv. destruct r as [r|]; [|done]. injection Hrv as Hrv. cbn [ok_or res_bind].
  destruct IH as (con & -> & Hc); [intros ? ? ?; eapply Hd; by right|]. cbn [res_bind]. eexists. split; [done|]. constructor; [|done].
  split; [|done]. cbn [fst]. by rewrite Hrv.
Qed.
Lemma under_key_NoDup keys owners ups con : keys_owned keys owners -> NoDup ups.*1 -> Forall2 (under_key keys) ups con -> NoDup con.*1.
Proof.
  intros Ho Hnd Hf. induction Hf as [|u r ups con [Hk _] Hf IH]; [constructor|]. apply NoDup_cons in Hnd as [Hn Hnd].
  cbn [fmap list_fmap]. constructor; [|by apply IH]. intros Hin. apply list_elem_of_fmap in Hin as (r' & He & Hin). apply Hn.
  apply list_elem_of_lookup in Hin as [i Hi]. destruct (Forall2_lookup_r _ _ _ _ _ Hf Hi) as (u' & Hu' & Hk' & _).
  apply list_elem_of_fmap. exists u'. split; [|by eapply list_elem_of_lookup_2]. rewrite He in Hk. by eapply keys_injective.
Qed.

Abbreviation vp_abs := (EntryMap_abs (T := ValidatorEntry) (K := PubKey) (V := u64) (SV := uint_State 8) (StateSpec0 := uint_StateSpec 8)).
Abbreviation vp_attached := (EntryMap_attached (T := ValidatorEntry) (K := PubKey) (V := u64) (SV := uint_State 8) (StateSpec0 := uint_StateSpec 8)).
(** The map of the current powers is there, behind the cell of the context. *)
Definition vp_ready (v : Validators) (cs : Cells) : Prop :=
  exists s vm (g : PubKey -> option u64), vp_cells cs !! V_current_vp v = Some (Some vm) /\ vp_attached s vm /\ vp_abs b vm g.

Lemma report_power_run r v cs : vp_ready v cs ->
  exists cs', report_power (St := St) r (v, cs) = (Ok tt, (insert_update r.1 (report r).2.2 v, cs')) /\ vp_ready v cs'.
Proof.
  intros (s & vm & g & Hc & Ha & Hg). destruct (VpMap_insert_spec s b vm g r.1 r.2 Ha Hg) as (vm' & Hi & Ha' & Hg').
  exists (set_vp (V_current_vp v) (Some vm') cs). split.
  - unfold report_power, Validators_set_voting_power. erewrite bindM_run; [|done].
    erewrite bindM_run; [|apply zoomM_run; unfold in_vp; cbn [snd fst]; rewrite Hc; unfold unwrapM; rewrite Hi; done]. done.
  - eexists s, vm', _. split; [by eapply set_vp_lookup|done].
Qed.
Lemma report_all con : forall v cs, vp_ready v cs ->
  exists v' cs', for_each (report_power (St := St)) con (v, cs) = (Ok tt, (v', cs')) /\ vp_ready v' cs' /\
    V_updates v' = foldl (fun U r => <[(report r).1 := (report r).2]> U) (V_updates v) con.
Proof.
  induction con as [|r con IH]; intros v cs Hv; cbn [for_each foldl]; [by exists v, cs|].
  destruct (report_power_run r v cs Hv) as (cs1 & Hr & Hv1). erewrite bindM_run by exact Hr.
  destruct (IH (insert_update r.1 (report r).2.2 v) cs1) as (v' & cs' & Hf & Hv' & Hu); [exact Hv1|]. exists v', cs'. by rewrite Hf, Hu.
Qed.
Lemma reports_union con : forall U : gmap Z (PubKey * ValidatorUpdate), NoDup con.*1 ->
  foldl (fun U r => <[(report r).1 := (report r).2]> U) U con = list_to_map (report <$> con) ∪ U.
Proof.
  induction con as [|r con IH]; intros U Hnd; [cbn; by rewrite (left_id_L ∅ (∪))|]. apply NoDup_cons in Hnd as [Hn Hnd]. cbn [foldl fmap list_fmap].
  rewrite IH by done. change (report r) with ((report r).1, (report r).2) at 3. cbn [list_to_map foldr]. 
  rewrite <- insert_union_l, insert_union_r; [done|]. apply not_elem_of_list_to_map_1. intros Hin. apply Hn.
  rewrite <- list_fmap_compose in Hin. apply list_elem_of_fmap in Hin as (r' & He & Hin). apply list_elem_of_fmap. exists r'.
  split; [|done]. by apply uint_eq.
Qed.

(** C22: the end of a block. When the queues have been processed, the new active set is the
    top of the indexed powers, and the updates are its difference to the powers reported
    last. Once each of these validators has been told, and if each has a consensus key,
    the rest cannot fail: each update is reported under the validator's own key, once,
    beside what was reported before, and the powers of the active set are what is
    remembered for the next block. *)
Theorem end_block_reports height self c self1 c1 pw old keys owners v :
  book w b self pw old keys owners ->
  lawful (at_index w) b (K := u64 * uint 20) -> lawful (at_powers w) b (K := Address) ->
  Z.of_nat (length (Map_children (EntryMap_map (S_validators_by_power self))) + entry_bound b) < u64_max ->
  Context_resolve (T := Validators) c = Some v -> vp_ready v (cells c) ->
  process_all_queues b (self, c) = (Ok tt, (self1, c1)) ->
  exists top ups, is_top (uint_val (S_max_validators self)) pw top /\ is_diff old top ups /\
    forall self2 c2, for_each (apply_update b height) ups (self1, c1) = (Ok tt, (self2, c2)) ->
      (forall a p, (a, p) ∈ ups -> is_Some (keys a)) ->
      exists self' c' v' con, end_block_step b height (self, c) = (Ok tt, (self', c')) /\
        book w b self' pw (power_in top) keys owners /\
        Forall2 (under_key keys) ups con /\ Context_resolve (T := Validators) c' = Some v' /\
        V_updates v' = list_to_map (report <$> con) ∪ V_updates v.
Proof.
  intros Hbook Hli Hlp Hlen Hv Hvp Hq.
  pose (P := fun p : Staking * ContextMap => core p.1 = core self /\ p.2 = c).
  assert (HP : forall x x' c', core x' = core x -> P (x, c') -> P (x', c')) by (intros x x' c' He [H1' H2']; split; [by etrans|done]).
  pose proof (keeps_process_all_queues P HP b (self, c) ltac:(done)) as HP1. rewrite Hq in HP1. destruct HP1 as [Hcore1 Hc1]. cbn [fst snd] in *. subst c1.
  pose proof (book_core _ _ _ _ _ _ Hcore1 Hbook) as [Hi1 Hp1 _ _ _].
  assert (Hmax : S_max_validators self1 = S_max_validators self) by (unfold core in Hcore1; congruence).
  assert (Hidx : S_validators_by_power self1 = S_validators_by_power self) by (unfold core in Hcore1; congruence).
  destruct (power_updates_spec _ _ _ b self1 pw old Hb Hi1 Hp1 Hli Hlp) as (top & ups & Hups & Htop & Hdiff); [by rewrite Hidx|].
  rewrite Hmax in Htop. exists top, ups. split; [done|]. split; [done|]. intros self2 c2 Happ Hkeys.
  pose proof (keeps_apply_updates P HP b height ups (self1, c) ltac:(done)) as HP2. rewrite Happ in HP2. destruct HP2 as [Hcore2 Hc2]. cbn [fst snd] in *. subst c2.
  pose proof (book_core _ _ _ _ _ _ Hcore2 Hbook) as [Hi2 Hp2 Hk2 Hh2 Ho].
  destruct (with_consensus_keys_spec self2 keys ups Hk2 Hkeys) as (con & Hcon & Hf2).
  destruct (report_all con v (cells c) Hvp) as (v' & cs' & Hrep & _ & Hupd).
  rewrite reports_union in Hupd by (destruct Hdiff as [Hnd _]; by eapply under_key_NoDup).
  set (c' := set_cells cs' (ctx_set (Some v') c)).
  destruct (record_all c' ups self2 old Hp2) as (m & Hrec & Hm).
  exists (set_last_validator_powers m self2), c', v', con. split_and!; [|split; try done|done|done|done].
  - unfold end_block_step. erewrite bindM_run by exact Hq. erewrite bindM_run; [|unfold readM; cbn [fst]; by rewrite Hups].
    erewrite bindM_run by exact Happ. erewrite bindM_run; [|unfold readM; cbn [fst]; by rewrite Hcon].
    rewrite (bindM_run _ _ _ tt (self2, c')); [exact Hrec|]. unfold on_ctx, zoomM, in_validators_ctx. cbn [fst snd]. by rewrite Hv, Hrep.
  - eapply leaf_rep_ext; [|exact Hm]. intros a. by eapply after_diff.
Qed.
End Kept.
End Book.

(** ** Commissions (src/coins/staking/mod.rs: [declare], [edit_validator])

    What the checks of a declaration and of an edit guarantee of a validator's
    commission and settings. *)

Section Commission.
Context `{NDS : NumDecimalSpec}.
#[local] Open Scope Q_scope.

Definition commission_ok (c : Commission) : Prop :=
  0 <= dval (C_rate c) <= dval (C_max c) /\ dval (C_max c) <= 1 /\ 0 <= dval (C_max_change c) <= dval (C_max c).

Lemma is_lt_spec x y : is_lt (Decimal_cmp x y) = false <-> dval y <= dval x.
Proof.
  unfold Decimal_cmp. rewrite nd_cmp_spec. fold (dval x) (dval y). destruct (Qcompare_spec (dval x) (dval y)); simpl; split; try done; lra.
Qed.
Lemma is_gt_spec x y : is_gt (Decimal_cmp x y) = false <-> dval x <= dval y.
Proof.
  unfold Decimal_cmp. rewrite nd_cmp_spec. fold (dval x) (dval y). destruct (Qcompare_spec (dval x) (dval y)); simpl; split; try done; lra.
Qed.
Lemma dval_zero : dval Decimal_zero == 0.
Proof. apply nd_zero_spec. Qed.
Lemma dval_one : dval Decimal_one == 1.
Proof. apply nd_one_spec. Qed.
Lemma dval_abs d : dval (Decimal_abs d) == Qabs (dval d).
Proof. apply nd_abs_spec. Qed.
(** The check of a range. *)
Lemma in_range x lo hi : is_lt (Decimal_cmp x lo) || is_gt (Decimal_cmp x hi) = false <-> dval lo <= dval x <= dval hi.
Proof. by rewrite orb_false_iff, is_lt_spec, is_gt_spec. Qed.

(** A value with its scale raised to the largest. *)
Lemma at_full_scale (d : Decimal) : exists m, dval d * inject_Z (10 ^ 28) == inject_Z m.
Proof.
  destruct (nd_representable (Decimal_value d)) as (m & e & He & _ & Hm). exists (m * 10 ^ (28 - e))%Z.
  rewrite inject_Z_mult, <- Hm, <- Qmult_assoc, <- inject_Z_mult, <- Z.pow_add_r by lia. by replace (e + (28 - e))%Z with 28%Z by lia.
Qed.
(** Differences of fractions are exact. *)
Lemma representable_fractions x y : 0 <= dval x <= 1 -> 0 <= dval y <= 1 -> representable (dval x - dval y).
Proof.
  intros Hx Hy. destruct (at_full_scale x) as [m Hm], (at_full_scale y) as [n Hn]. exists (m - n)%Z, 28%Z. split; [lia|].
  assert (Heq : (dval x - dval y) * inject_Z (10 ^ 28) == inject_Z (m - n)).
  { unfold Z.sub. rewrite inject_Z_plus, inject_Z_opp, <- Hm, <- Hn. ring. }
  split; [|done]. assert (Hb : (- 10 ^ 28 <= m - n <= 10 ^ 28)%Z).
  { rewrite !Zle_Qle, <- Heq, inject_Z_opp. assert (Hp : 0 <= inject_Z (10 ^ 28)) by done. set (p := inject_Z (10 ^ 28)) in *. clearbody p. split; nra. }
  assert (10 ^ 28 < 2 ^ 96)%Z by done. lia.
Qed.
End Commission.

Section Checks.
Context `{Profile} `{CompatMode} `{NDS : NumDecimalSpec} `{Cfg} `{Symbol} `{Hashes}.
Context {St : Type} `{Read St} `{!Write St} `{!Bounded St}.
Implicit Types (b : St) (v : Validator).

(** Looking at the self-delegation may adjust the delegators in memory, nothing else. *)
Lemma self_delegation_frame b v : exists r d, Validator_self_delegation b v = (r, set_delegators d v).
Proof.
  unfold Validator_self_delegation, Validator_get_call, in_delegators, zoomM, bindM, getM.
  destruct (Pool_get_call _ _ _ _) as [r d]. by exists r, d.
Qed.

(** The validator after an edit. *)
Definition edited (now : Z) (rate : Decimal) (min : Amount) (info : ValidatorInfo) v : Validator :=
  set_last_edited (to_i64 now) (set_min_self_delegation min (set_info info (set_commission (set_rate rate (V_commission v)) v))).

(** What an edit leaves behind. *)
Definition edit_result now rate min info v (o : res unit * Validator) : Prop :=
  let v' := o.2 in
  commission_ok (V_commission v') /\
  match o.1 with
  | Ok _ =>
      (exists ds, v' = edited now rate min info (set_delegators ds v)) /\
      (Qabs (dval rate - dval (C_rate (V_commission v))) <= dval (C_max_change (V_commission v)))%Q /\
      amt (V_min_self_delegation v) <= amt min /\ Z.of_nat (length (LengthVec_values info)) <= 5000 /\
      i64_val (V_last_edited_seconds v) + EDIT_INTERVAL_SECONDS <= now
  | _ => exists ds, v' = set_delegators ds v
  end.
Lemma edit_fails now rate min info v ds (r : res unit) : commission_ok (V_commission v) -> (match r with Ok _ => False | _ => True end) ->
  edit_result now rate min info v (r, set_delegators ds v).
Proof. intros Hc Hr. split; [done|]. destruct r; [done|by exists ds..]. Qed.

Lemma edit_validator_spec b now rate min info v :
  is_i64 (now - EDIT_INTERVAL_SECONDS) -> commission_ok (V_commission v) ->
  edit_result now rate min info v (edit_validator b now rate min info v).
Proof.
  intros Hnow Hc. unfold edit_validator. unfold bindM at 1. destruct (self_delegation_frame b v) as (rs & ds & ->).
  destruct rs as [sd|?|?]; [|by apply edit_fails..]. destruct (Amount_ltb sd min); [by apply edit_fails|].
  unfold bindM at 1. cbn [getM]. destruct (Amount_ltb min _) eqn:Hmin; [by apply edit_fails|].
  change (V_commission (set_delegators ds v)) with (V_commission v).
  change (V_last_edited_seconds (set_delegators ds v)) with (V_last_edited_seconds v).
  change (V_min_self_delegation (set_delegators ds v)) with (V_min_self_delegation v) in Hmin.
  destruct (is_lt _ || _) eqn:Hr; [by apply edit_fails|]. apply in_range in Hr. rewrite dval_zero in Hr.
  unfold validate_info. destruct (Z.ltb_spec 5000 (Z.of_nat (length (LengthVec_values info)))); [by apply edit_fails|].
  unfold liftM, bindM. destruct Hc as (Hrate & Hmax & Hchange).
  destruct (math_try (Decimal_sub rate (C_rate (V_commission v)))) as [diff|?|?] eqn:Hdiff; [|by apply edit_fails..].
  destruct (is_gt _) eqn:Hgt; [by apply edit_fails|]. apply is_gt_spec in Hgt. rewrite dval_abs in Hgt.
  unfold i64_sub. rewrite i64_op_ok by done. destruct (Z.ltb_spec (now - EDIT_INTERVAL_SECONDS) (i64_val (V_last_edited_seconds v))); [by apply edit_fails|].
  cbn [assign fst snd]. split; [by cbn; unfold commission_ok; cbn; lra|]. split_and!; [by exists ds| | |done|lia].
  - assert (Hd : (dval diff == dval rate - dval (C_rate (V_commission v)))%Q); [|by rewrite Hd in Hgt].
    apply Decimal_sub_exact; [|apply representable_fractions; lra]. unfold math_try in Hdiff. by destruct (Decimal_sub _ _) as [x|[]]; simplify_eq/=.
  - unfold Amount_ltb in Hmin. lia.
Qed.

(** C25: commissions stay in their bounds. A declaration that passes its checks has a rate
    and a largest change between zero and the maximum, which is at most one. An edit of
    such a validator either fails and changes none of its settings, or sets exactly the
    four settings it may: then the rate has moved by at most the largest change, the
    required self-delegation has not gone down, the information is at most 5000 bytes,
    and at least a day has passed since the last edit. In both cases the commission is
    still in its bounds. *)
Theorem edit_validator_checked b self a d coins h now rate min info v :
  check_declaration b self a d coins = Ok h -> is_i64 (now - EDIT_INTERVAL_SECONDS) ->
  commission_ok (Dc_commission d) /\
  (commission_ok (V_commission v) ->
   edit_result now rate min info v (edit_validator b now rate min info v)).
Proof.
  intros Hd Hnow. split; [|intros Hc; by apply edit_validator_spec].
  unfold check_declaration in Hd.
  destruct (Map_contains_key b (S_consensus_keys self) a) as [[]|?|?]; [done| |done..]. cbn [res_bind] in Hd.
  destruct (Amount_ltb _ _); [done|]. destruct (validate_info _); [|done..]. cbn [res_bind] in Hd.
  destruct (tm_pubkey_hash _) as [h'|?|?]; [|done..]. cbn [res_bind] in Hd.
  destruct (Map_contains_key b (S_address_for_tm_hash self) h') as [[]|?|?]; [done| |done..]. cbn [res_bind] in Hd.
  destruct (is_lt _ || _) eqn:E1; [done|]. destruct (is_lt _ || _) eqn:E2 in Hd; [done|]. destruct (is_lt _ || _) eqn:E3 in Hd; [done|].
  apply in_range in E1, E2, E3. unfold commission_ok. pose proof dval_zero. pose proof dval_one. lra.
Qed.
End Checks.
