(* ===== verification/DelegatorSpec.v ===== *)
(** * The queues of a delegator (src/coins/staking/delegator.rs)

    Processing a queue drops the entries that have matured from its front, up to the
    first that has not, and always ends. *)

From stdpp Require Import base tactics numbers list strings gmap.
From Stdlib Require Import ZArith QArith Qabs Lia.
From S2P Require Import Prelude Bytes BTree StoreIface StoreIter NullStore BufStore PrefixStore Codec StateIface Next StructState Utf8 Encoding Keys MapColl MapSpec MapProps MapCall MapIter EntryMap Fields Address DequeColl DequeSpec Coins SimpleState Decimal Share Pool PoolSpec AbciTypes Context Plugins AbciStore AbciPlugin Delegator StakingValidator StakingState Staking StakingPowers.
#[local] Open Scope Z_scope.

(** The front of a list up to the first element without the property, and the rest. *)
Fixpoint front_while {A} (p : A -> bool) (l : list A) : list A :=
  match l with [] => [] | x :: l => if p x then x :: front_while p l else [] end.
Fixpoint drop_while {A} (p : A -> bool) (l : list A) : list A :=
  match l with [] => [] | x :: l' => if p x then drop_while p l' else l end.

Section Queues.
Context `{Profile} `{CompatMode} `{ND : NumDecimal} `{Cfg} `{WS : WriteSpec St} `{!Bounded St} `{!BoundedSpec St}.
Implicit Types (b : St) (s : Store) (c : ContextMap) (self : Delegator).

Definition has_matured (now : Z) (start : i64) : bool := wrap_i64 UNBONDING_SECONDS <=? now - i64_val start.

Lemma front_spec {T} {ST : State St T} {SS : StateSpec St T} s b (d : Deque T) xs : Read_inv b -> Deque_attached s d -> Deque_abs b d xs ->
  match xs with
  | [] => Deque_front b d = Ok None
  | x :: _ => exists r, Deque_front b d = Ok (Some r) /\ abs b (Ref_deref r) x
  end.
Proof.
  intros Hb Ha Hx. destruct (Map_get_at s b d xs (to_uint 8 (dhead d)) Hb Ha Hx) as (r & Hr & Hv).
  pose proof (dhead_range d). pose proof (deq_content_at (dhead d) xs 0) as Hc. rewrite Z.add_0_r in Hc. rewrite Hc in Hv by (unfold is_u64; lia).
  unfold Deque_front. rewrite Hr. destruct xs as [|x xs]; cbn [Z.to_nat lookup list_lookup] in Hv; destruct r as [r|]; try done.
  exists r. split; [done|]. by destruct Hv.
Qed.

Section Process.
Context {T : Type} {ST : State St T} {SS : StateSpec St T} (start : T -> i64) (msg : string) (pay : T -> M Delegator unit)
  (queue : Delegator -> Deque T) (set_queue : Deque T -> Delegator -> Delegator) (start_of : model (V := T) -> i64).
Context (start_abs : forall b v x, abs b v x -> start v = start_of x).
Context (queue_set : forall q self, queue (set_queue q self) = q) (set_set : forall q q' self, set_queue q (set_queue q' self) = set_queue q self)
  (set_queue_id : forall self, set_queue (queue self) self = self).
(** Paying does not look at the queue. *)
Context (pay_frame : forall v q self, pay v (set_queue q self) = ((pay v self).1, set_queue q (pay v self).2)).

Lemma pay_all_frame vs q : forall self self', for_each pay vs self = (Ok tt, self') -> for_each pay vs (set_queue q self) = (Ok tt, set_queue q self').
Proof.
  induction vs as [|v vs IH]; intros self self'; cbn [for_each]; [by intros [= <-]|]. unfold bindM. rewrite pay_frame.
  destruct (pay v self) as [[[]|?|?] self1]; [|done..]. cbn [fst snd]. apply IH.
Qed.
Lemma pay_queue v self : queue (pay v self).2 = queue self.
Proof.
  pose proof (pay_frame v (queue self) self) as Hf. rewrite set_queue_id in Hf. rewrite Hf at 1. cbn [snd]. apply queue_set.
Qed.

Lemma process_queue_spec s b now n : Read_inv b -> forall self xs,
  Deque_attached s (queue self) -> Deque_abs b (queue self) xs -> (length xs < n)%nat ->
  Forall (fun x => is_i64 (now - i64_val (start_of x))) xs ->
  let due := fun x => has_matured now (start_of x) in
  exists vs q', Forall2 (fun v x => abs b v x) vs (front_while due xs) /\ Deque_attached s q' /\ Deque_abs b q' (drop_while due xs) /\
    forall self', for_each pay vs self = (Ok tt, self') ->
      process_queue start msg pay queue set_queue b now n self = (Ok tt, set_queue q' self').
Proof.
  intros Hb. induction n as [|n IH]; intros self xs Ha Hx Hn Hi due; [lia|]. cbn [process_queue].
  pose proof (front_spec s b _ xs Hb Ha Hx) as Hfront.
  pose proof (Deque_pop_front_spec s b _ xs Hb Ha Hx) as Hpop. destruct xs as [|x xs].
  - exists [], (queue self). split; [constructor|]. split; [done|]. split; [done|]. intros self' [= <-].
    erewrite bindM_run; [|unfold readM; by rewrite Hfront]. by rewrite set_queue_id.
  - apply Forall_cons in Hi as [Hix Hi]. cbn [front_while drop_while due].
    destruct Hfront as (r & Hf & Hfx).
    assert (Hm : matured now (start (Ref_deref r)) = Ok (due x)).
    { unfold matured, i64_sub. rewrite (start_abs _ _ _ Hfx), i64_op_ok by done. done. }
    change (has_matured now (start_of x)) with (due x). destruct (due x) eqn:Hdue.
    + destruct Hpop as (v & q1 & Hp & [_ Hv] & Ha1 & Hx1). set (self1 := (pay v (set_queue q1 self)).2).
      destruct (IH self1 xs) as (vs & q' & Hvs & Ha' & Hx' & Hrun);
        [unfold self1; by rewrite pay_queue, queue_set|unfold self1; by rewrite pay_queue, queue_set|simpl in Hn; lia|done|].
      exists (v :: vs), q'. split; [by constructor|]. split; [done|]. split; [done|]. intros self'. cbn [for_each]. unfold bindM at 1.
      destruct (pay v self) as [[[]|?|?] self2] eqn:Epay; [|done..]. intros Hall. unfold self1 in Hrun. rewrite pay_frame, Epay in Hrun. cbn [snd] in Hrun.
      erewrite bindM_run; [|unfold readM; by rewrite Hf]. cbn iota. erewrite bindM_run; [|unfold liftM; by rewrite Hm]. cbn iota.
      erewrite bindM_run; [|apply zoomM_run; exact Hp]. erewrite bindM_run; [|done]. cbn [ReadOnly_into_inner].
      erewrite bindM_run; [|rewrite pay_frame, Epay; done]. cbn [snd]. rewrite (Hrun (set_queue q1 self')); [by rewrite set_set|by apply pay_all_frame].
    + exists [], (queue self). split; [constructor|]. split; [done|]. split; [done|]. intros self' [= <-].
      erewrite bindM_run; [|unfold readM; by rewrite Hf]. cbn iota. erewrite bindM_run; [|unfold liftM; by rewrite Hm]. cbn iota.
      by rewrite set_queue_id.
Qed.
End Process.
End Queues.

Section Delegators.
Context `{Profile} `{CompatMode} `{NDS : NumDecimalSpec} `{Cfg} `{Symbol} `{WS : WriteSpec St} `{!Bounded St} `{!BoundedSpec St}.
#[export] Instance Redelegation_FieldsOk : FieldsOk St (FCons Amount (FCons VersionedAddress (FCons i64 FNil))).
Proof. split; [|done]. simpl. tauto. Qed.
#[export] Instance Redelegation_StateSpec : StateSpec St Redelegation := derived_StateSpec (D := Redelegation_Derived).
Lemma Decimal_terminated : State_terminated (St := St) (V := Decimal).
Proof. done. Qed.
#[export] Instance Share_StateSpec : StateSpec St Share := Struct2_StateSpec Decimal_terminated.
#[export] Instance Unbond_FieldsOk : FieldsOk St (FCons Share (FCons i64 FNil)).
Proof. split; [|done]. simpl. tauto. Qed.
#[export] Instance Unbond_StateSpec : StateSpec St Unbond := derived_StateSpec (D := Unbond_Derived).
Implicit Types (b : St) (s : Store) (c : ContextMap) (self : Delegator).

Abbreviation UnbondModel := (model (St := St) (V := Unbond)).
Abbreviation RedelegationModel := (model (St := St) (V := Redelegation)).
Definition unbond_shares (x : UnbondModel) : Decimal := x.1.1.
Definition unbond_start (x : UnbondModel) : i64 := x.2.1.
Definition redelegation_start (x : RedelegationModel) : i64 := x.2.2.1.
Lemma unbond_abs b v (x : UnbondModel) : abs b v x -> U_start_seconds v = unbond_start x /\ Share_shares (U_coins v) = unbond_shares x.
Proof. intros [[Hs _] [Ht _]]. by split. Qed.

Definition pay_unbond b (u : Unbond) : M Delegator unit :=
  do a <- liftM (Decimal_amount (Share_shares (U_coins u)));
  in_liquid (MultiShare_give b (Coin_mint a)).
Definition total (l : list Amount) : Z := foldr (fun a z => amt a + z) 0 l.
Lemma total_nonneg l : 0 <= total l.
Proof. induction l as [|a l IH]; simpl; [done|]. pose proof (amt_range a) as Ha. unfold is_u64 in Ha. lia. Qed.

(** The liquid balances of a delegator. *)
Definition set_liquid (ms : MultiShare) self : Delegator :=
  mkDelegator ms (D_staked self) (D_unbonding self) (D_redelegations_out self) (D_redelegations_in self).
Lemma pay_unbonds_spec s b : Read_inv b -> forall vs amounts self f,
  MultiShare_abs s b (D_liquid self) f -> Forall2 (fun v a => Decimal_amount (Share_shares (U_coins v)) = Ok a) vs amounts ->
  (forall n, 0 <= n <= total amounts -> representable (inject_Z n + sbal f INDEX)) ->
  exists ms f', for_each (pay_unbond b) vs self = (Ok tt, set_liquid ms self) /\ MultiShare_abs s b ms f' /\
    forall j, (sbal f' j == sbal f j + if decide (j = INDEX) then inject_Z (total amounts) else 0)%Q.
Proof.
  intros Hb vs. induction vs as [|v vs IH]; intros amounts self f Hl Hf Hr; inversion Hf as [|? a ? amounts' Ha Hf']; subst; clear Hf; cbn [for_each total foldr].
  { exists (D_liquid self), f. split; [by destruct self|]. split; [done|]. intros j. destruct (decide _); ring. }
  fold (total amounts'). cbn [total foldr] in Hr. fold (total amounts') in Hr. pose proof (total_nonneg amounts') as Hn. pose proof (amt_range a) as Hra. unfold is_u64 in Hra.
  destruct (MultiShare_give_denom_spec s b (D_liquid self) f a INDEX Hb Hl) as (ms1 & f1 & Hg & Hl1 & Hf1); [apply Hr; lia|].
  destruct (IH amounts' (set_liquid ms1 self) f1) as (ms & f' & Hrun & Hl' & Hf2); [done|done| |].
  { intros n Hn'. eapply representable_eq; [|apply (Hr (n + amt a)); lia]. rewrite Hf1, decide_True by done. rewrite inject_Z_plus. ring. }
  exists ms, f'. split; [|split; [done|]].
  - erewrite bindM_run; [exact Hrun|]. unfold pay_unbond. erewrite bindM_run; [|unfold liftM; by rewrite Ha].
    unfold in_liquid. apply zoomM_run. exact Hg.
  - intros j. rewrite Hf2, Hf1. destruct (decide (j = INDEX)); [rewrite inject_Z_plus; ring|ring].
Qed.

(** C24: processing the queues of a delegator always ends. The unbonds at the front of the
    queue that have matured, up to the first that has not, leave it, and exactly their
    amounts, each rounded, become liquid in the staking denomination; matured inbound
    redelegations leave their queue and change nothing else. *)
Theorem delegator_queues_processed s s1 s2 b c now self f (us : list UnbondModel) (rs : list RedelegationModel) amounts :
  Read_inv b -> Delegator_current_seconds c = Ok now ->
  MultiShare_abs s b (D_liquid self) f ->
  Deque_attached s1 (D_unbonding self) -> Deque_abs b (D_unbonding self) us ->
  Deque_attached s2 (D_redelegations_in self) -> Deque_abs b (D_redelegations_in self) rs ->
  Forall (fun x => is_i64 (now - i64_val (unbond_start x))) us -> Forall (fun x => is_i64 (now - i64_val (redelegation_start x))) rs ->
  let due x := has_matured now (unbond_start x) in let due' x := has_matured now (redelegation_start x) in
  Forall2 (fun x a => Decimal_amount (unbond_shares x) = Ok a) (front_while due us) amounts ->
  (forall n, 0 <= n <= total amounts -> representable (inject_Z n + sbal f INDEX)) ->
  (exists q ms f', Delegator_process_unbonds b c self = (Ok tt, set_unbonding q (set_liquid ms self)) /\
    Deque_attached s1 q /\ Deque_abs b q (drop_while due us) /\ MultiShare_abs s b ms f' /\
    forall j, (sbal f' j == sbal f j + if decide (j = INDEX) then inject_Z (total amounts) else 0)%Q) /\
  (exists q, Delegator_process_redelegations_in b c self = (Ok tt, set_redelegations_in q self) /\
    Deque_attached s2 q /\ Deque_abs b q (drop_while due' rs)).
Proof.
  intros Hb Hnow Hl Ha1 Hx1 Ha2 Hx2 Hi1 Hi2 due due' Ham Hrep. split.
  - destruct (process_queue_spec U_start_seconds "Failed to pop unbond" (pay_unbond b) D_unbonding set_unbonding unbond_start) with
      (s := s1) (b := b) (now := now) (n := turns (D_unbonding self)) (self := self) (xs := us) as (vs & q & Hvs & Haq & Hxq & Hrun); try done.
    + intros ? ? ? Hv. by apply unbond_abs in Hv as [? _].
    + by intros [].
    + intros v q d. unfold pay_unbond, bindM, liftM. destruct (Decimal_amount _); [|done..]. unfold in_liquid, zoomM. cbn [D_liquid set_unbonding].
      by destruct (MultiShare_give _ _ _).
    + destruct Hx1 as [Hlen _]. unfold turns. lia.
    + destruct (pay_unbonds_spec s b Hb vs amounts self f Hl) as (ms & f' & Hpay & Hms & Hf'); [|done|].
      { revert Ham. fold due in Hvs. clear -Hvs. intros Ham. revert amounts Ham. induction Hvs as [|v x vs xs Hv _ IH]; intros amounts Ham; inversion Ham; subst; constructor; [|by apply IH].
        apply unbond_abs in Hv as [_ ->]. done. }
      exists q, ms, f'. split; [|done]. unfold Delegator_process_unbonds. erewrite bindM_run; [|unfold liftM; by rewrite Hnow].
      erewrite bindM_run; [|done]. exact (Hrun _ Hpay).
  - destruct (process_queue_spec R_start_seconds "Failed to pop inbound redelegation" (fun _ => retM tt) D_redelegations_in set_redelegations_in redelegation_start) with
      (s := s2) (b := b) (now := now) (n := turns (D_redelegations_in self)) (self := self) (xs := rs) as (vs & q & Hvs & Haq & Hxq & Hrun); try done.
    + intros ? ? ? (_ & _ & Hv & _). exact Hv.
    + by intros [].
    + destruct Hx2 as [Hlen _]. unfold turns. lia.
    + exists q. split; [|done]. unfold Delegator_process_redelegations_in. erewrite bindM_run; [|unfold liftM; by rewrite Hnow].
      erewrite bindM_run; [|done]. apply Hrun. clear. induction vs as [|v vs IH]; [done|]. cbn [for_each]. by erewrite bindM_run.
Qed.
(** *** Slashing what was moved *)









End Delegators.
