(* ===== verification/StakingProps.v ===== *)
(** * Staking: scenarios

    Tests of src/coins/staking/tests.rs, and scenarios that show how the slashing of
    redelegations and the configured unbonding period work out. *)

From stdpp Require Import base tactics numbers list strings gmap.
From Stdlib Require Import ZArith QArith Lia.
From S2P Require Import Prelude Bytes BTree StoreIface StoreIter NullStore BufStore PrefixStore Codec StateIface Next StructState Utf8 Encoding Keys MapColl MapSpec MapProps MapCall MapIter MapIterSpec EntryMap LeafMap Fields Address DequeColl DequeSpec Coins SimpleState Decimal DecimalInst Share Pool PoolSpec AbciTypes Context Plugins AbciStore AbciPlugin AbciPluginSpec InternalAppProps Delegator StakingValidator StakingState Staking StakingPowers StakingFrame StakingBlock DelegatorSpec.
#[local] Open Scope Z_scope.

#[local] Instance staking_profile : Profile := {| overflow_checks := true; debug_assertions := true |}.
#[local] Instance staking_compat : CompatMode := {| compat_mode := false |}.
#[local] Instance staking_symbol : Symbol := {| INDEX := to_uint 1 0; NAME := "SIMP" |}.
#[local] Instance staking_cfg : Cfg := {| cfg_test := true |}.

#[local] Instance staking_hashes : Hashes := padded_hashes.

Definition ex_st : MapStore := mkBufStore [] mkEmpty.
Definition val (i : Z) : Address := mkAddress (to_uint 20 i).
Definition staker : Address := mkAddress (to_uint 20 99).
Definition con (i : Z) : PubKey := to_uint 32 i.
Definition dec (m e : Z) : Decimal := mkDecimal (dec_of m e).

(** [setup_state], with the given fraction for double signing and unbonding period. *)
Definition ex_staking (double_sign : Decimal) (unbonding_seconds : Z) : Staking :=
  mkStaking Pool_default (to_uint 8 1) Map_new Map_new EntryMap_default Map_new (to_uint 8 100) Map_new Map_new
    (to_uint 8 unbonding_seconds) (to_uint 8 50000) double_sign (dec 5 1) (to_uint 8 5) EntryMap_default Deque_new Deque_new Map_new.
Definition ex_sctx : ContextMap :=
  ((run Context_add (Time_from_seconds 0);
    run Context_add Events_default;
    Context_add (Validators_new 0 0)) (set_cells (mkCells [Some EntryMap_default] [Some Map_new]) ContextMap_empty)).2.
Definition at_time (t : Z) : SM unit := on_ctx (Context_add (Time_from_seconds t)).

Definition declare_100 (i : Z) : SM unit :=
  Staking_declare ex_st (val i) (mkDeclaration (con i) (mkCommission (dec 0 0) (dec 1 0) (dec 1 1)) (Amount_of 1) (Amount_of 100)
    (LengthVec_new (to_uint 2 0) [])) (Coin_mint (Amount_of 100)).
Definition stake (i n : Z) : SM unit := Staking_delegate ex_st (val i) staker (Coin_mint (Amount_of n)).
Definition move (i j n : Z) : SM unit := Staking_redelegate ex_st (val i) (val j) staker (Amount_of n).
Definition end_block : SM unit := end_block_step ex_st 0.
Definition staked_with (i : Z) : SM Z :=
  on_validator_ref ex_st (val i) (Validator_get_call ex_st staker (readM (fun d => let? a := Share_amount (D_staked d) in Ok (amt a)))).
Definition total_of (i : Z) : SM Z :=
  on_validator ex_st (val i) (readM (fun v => let? d := Pool_balance (V_delegators v) in let? a := Decimal_amount d in Ok (amt a))).
Definition power_of (i : Z) : SM Z :=
  readM (fun p =>
    match Context_resolve (T := Validators) p.2 with
    | Some v => match V_updates v !! i with Some (_, u) => Ok (VU_power u) | None => Err EUnknown end
    | None => Err EUnknown
    end).

Definition three_validators : SM unit :=
  run declare_100 0; run declare_100 1; run declare_100 2;
  run stake 0 100; run stake 1 100; run stake 2 100;
  end_block.

Definition run_test {A} (m : SM A) (s : Staking) : res A := (m (s, ex_sctx)).1.

Example redelegation_slash_test :
  run_test (
    run three_validators; run move 0 2 50; run end_block;
    do p0 <- power_of 0; do p1 <- power_of 1; do p2 <- power_of 2;
    run move 1 0 30; run end_block; run move 1 2 30; run end_block;
    do q0 <- power_of 0; do q1 <- power_of 1; do q2 <- power_of 2;
    run punish_double_sign ex_st (val 1); run end_block;
    do s0 <- staked_with 0; do s1 <- staked_with 1; do s2 <- staked_with 2;
    do t0 <- total_of 0; do t1 <- total_of 1; do t2 <- total_of 2;
    retM [p0; p1; p2; q0; q1; q2; s0; s1; s2; t0; t1; t2]) (ex_staking (dec 5 1) 10)
  = Ok [150; 200; 250; 180; 140; 280; 65; 20; 165; 165; 70; 265].
Proof. vm_compute. reflexivity. Qed.

(** ** The books, from the start *)

#[local] Instance staking_bech32 : Bech32 := {| Address_to_string := fun a => pretty.pretty (uint_val (Address_bytes a)) |}.
Definition ex_places : Places := mkPlaces Store_new Store_new Store_new Store_new Store_new.
Definition no_power : Address -> option u64 := fun _ => None.
Lemma ex_st_empty s : Store_view s ex_st = ∅.
Proof. apply map_empty. intros k. unfold Store_view. by rewrite strip_lookup. Qed.
Lemma ex_st_inv : Read_inv ex_st.
Proof. by repeat constructor. Qed.
Lemma ex_book d u : book ex_places ex_st (ex_staking d u) no_power no_power (fun _ => None) (fun _ => None).
Proof.
  split; [split|..].
  - eapply set_rep_ext; [exact (Map_fresh Store_new ex_st (ex_st_empty _))|done].
  - exact (Map_fresh Store_new ex_st (ex_st_empty _)).
  - exact (Map_fresh Store_new ex_st (ex_st_empty _)).
  - exact (Map_fresh Store_new ex_st (ex_st_empty _)).
  - exact (Map_fresh Store_new ex_st (ex_st_empty _)).
  - done.
Qed.

(** Votes and evidence as the module sees them. *)
#[local] Existing Instance ex_app_messages.
#[local] Instance staking_plugin_messages : PluginMessages :=
  {| LastCommitInfo := list (bytes * bool); Evidence := bytes * EvidenceType; RequestInitChain_time := fun _ => None;
     RequestInitChain_chain_id := fun _ => EmptyString; RequestInitChain_validators := fun _ => []; RequestInitChain_app_state_bytes := fun _ => [];
     RequestInitChain_initial_height := fun _ => 1; Header_time := fun _ => None; RequestBeginBlock_hash := fun _ => [];
     RequestBeginBlock_last_commit_info := fun _ => None; RequestBeginBlock_byzantine_validators := fun _ => [] |}.
#[local] Instance staking_messages : StakingMessages :=
  {| VoteInfo := bytes * bool; TmValidator := bytes; LastCommitInfo_votes := fun l => l; VoteInfo_signed_last_block := snd;
     VoteInfo_validator := fun v => Some v.1; TmValidator_address := fun a => a; Evidence_validator := fun e => Some e.1; Evidence_type := snd |}.

Definition declare_op (i : Z) : StakingOp :=
  OpDeclare (val i) (mkDeclaration (con i) (mkCommission (dec 0 0) (dec 1 0) (dec 1 1)) (Amount_of 1) (Amount_of 100)
    (LengthVec_new (to_uint 2 0) [])) (Coin_mint (Amount_of 100)).
(** Two validators with one delegation each. *)
Definition ex_ops : list StakingOp :=
  [declare_op 0; declare_op 1; OpDelegate (val 0) staker (Coin_mint (Amount_of 50)); OpDelegate (val 1) staker (Coin_mint (Amount_of 20))].
Definition ex_staked : Staking * ContextMap := staking_run ex_st ex_ops (ex_staking (dec 5 1) 10, ex_sctx).

Lemma ex_kept ops self c : in_book ex_places ex_st (self, c) -> in_book ex_places ex_st (staking_run ex_st ops (self, c)).
Proof.
  pose proof ex_st_inv as Hb. apply keeps_run; [apply in_book_core|done|by apply in_book_index|by apply in_book_record|by apply in_book_keys].
Qed.
(** Also after the second validator has signed twice and a block has ended. *)
Definition ex_punished : list StakingOp :=
  ex_ops ++ [OpEndBlock (mkEndBlockCtx 1);
             OpBeginBlock (mkBeginBlockCtx [] 2 tt None [(take 20 (Sha256 (to_vec32 (con 1))), DuplicateVote)]); OpEndBlock (mkEndBlockCtx 2)].
Lemma staking_book_kept_witness : in_book ex_places ex_st (staking_run ex_st ex_punished (ex_staking (dec 5 1) 10, ex_sctx)).
Proof.
  apply staking_book_kept; [exact ex_st_inv|]. eexists no_power, no_power, _, _. apply ex_book.
Defined.

Lemma ok_outcome {A S T} (m : M (S * T) A) (p : S * T) a : (m p).1 = Ok a -> m (p.1, p.2) = (Ok a, ((m p).2.1, (m p).2.2)).
Proof. destruct p as [s t]. cbn [fst snd]. by destruct (m (s, t)) as [r [s' t']]; intros [= ->]. Qed.
Lemma ex_vp_ready : exists v, Context_resolve (T := Validators) ex_staked.2 = Some v /\ vp_ready ex_st v (cells ex_staked.2).
Proof.
  eexists. split; [by vm_compute|]. exists Store_new, EntryMap_default, (fun _ => None). split; [by vm_compute|].
  exact (Map_fresh (K := PubKey) (SS := uint_StateSpec 8) Store_new ex_st (ex_st_empty _)).
Qed.
Lemma end_block_reports_witness :
  exists pw old keys owners top ups, book ex_places ex_st ex_staked.1 pw old keys owners /\ is_top 100 pw top /\ is_diff old top ups.
Proof.
  assert (Hin : in_book ex_places ex_st ex_staked).
  { apply ex_kept. eexists no_power, no_power, _, _. apply ex_book. }
  destruct Hin as (pw & old & keys & owners & Hbook). destruct ex_vp_ready as (v & Hv & Hr).
  destruct (end_block_reports ex_places ex_st ex_st_inv 1 ex_staked.1 ex_staked.2
    (process_all_queues ex_st ex_staked).2.1 (process_all_queues ex_st ex_staked).2.2 pw old keys owners v Hbook) as (top & ups & Ht & Hd & _).
  - split; apply Map_fresh_tidy, ex_st_empty.
  - split; apply Map_fresh_tidy, ex_st_empty.
  - by vm_compute.
  - exact Hv.
  - exact Hr.
  - apply (ok_outcome (process_all_queues ex_st)). by vm_compute.
  - exists pw, old, keys, owners, top, ups. split; [exact Hbook|]. split; [|exact Hd]. replace 100 with (uint_val (S_max_validators ex_staked.1)) by by vm_compute. exact Ht.
Defined.

(** ** A delegator with two unbonds *)

(** Seven and a half shares since time 0, and four since time 8. *)
Definition unbond_of (m e start : Z) : Unbond := mkUnbond (mkShare (dec m e)) (to_i64 start).
Definition ex_queue : Deque Unbond :=
  (Deque_push_back (St := MapStore) (unbond_of 4 0 8) (Deque_push_back (St := MapStore) (unbond_of 75 1 0) Deque_new).2).2.
Definition ex_delegator : Delegator := set_unbonding ex_queue Delegator_default.
Definition unbond_model (u : Unbond) : Decimal * unit * (i64 * unit) := ((Share_shares (U_coins u), tt), (U_start_seconds u, tt)).
Definition ex_ctx10 : ContextMap := (Context_add (Time_from_seconds 10) ContextMap_empty).2.

Lemma fresh_deque {T} {ST : State MapStore T} {SS : StateSpec (ST := ST) MapStore T} :
  Deque_attached (T := T) (SV := ST) (StateSpec0 := SS) Store_new Deque_new /\ Deque_abs (T := T) (SV := ST) (StateSpec0 := SS) ex_st Deque_new [].
Proof.
  destruct (Map_fresh (K := u64) (SV := ST) (SS := SS) Store_new ex_st (ex_st_empty _)) as [Ha Hm]. split; [exact Ha|]. split; [done|].
  eapply Map_abs_ext, Hm. intros k. unfold deq_content. by destruct (_ <=? _).
Qed.
Definition unbond_spec : StateSpec (ST := Unbond_State) MapStore Unbond := Unbond_StateSpec.
Definition redelegation_spec : StateSpec (ST := Redelegation_State) MapStore Redelegation := Redelegation_StateSpec.
Definition queue_attached (d : Deque Unbond) : Prop := Deque_attached (StateSpec0 := unbond_spec) Store_new d.
Definition queue_abs (d : Deque Unbond) (xs : list (Decimal * unit * (i64 * unit))) : Prop := Deque_abs (StateSpec0 := unbond_spec) ex_st d xs.
Lemma push_unbond d xs m e start : queue_attached d -> queue_abs d xs -> dtail d < u64_max ->
  let d' := (Deque_push_back (St := MapStore) (unbond_of m e start) d).2 in
  queue_attached d' /\ queue_abs d' (xs ++ [unbond_model (unbond_of m e start)]).
Proof.
  intros Ha Hx Ht. destruct (Deque_push_back_spec (StateSpec0 := unbond_spec) Store_new ex_st d xs (unbond_of m e start) Ha Hx) as (v' & Hat & Hpush); [done|done|].
  destruct (Hpush (unbond_model (unbond_of m e start))) as (d' & Hd & Hr); [|by rewrite Hd].
  injection Hat as <-. done.
Qed.
Lemma ex_queue_abs : queue_attached ex_queue /\ queue_abs ex_queue [unbond_model (unbond_of 75 1 0); unbond_model (unbond_of 4 0 8)].
Proof.
  destruct (fresh_deque (T := Unbond) (SS := unbond_spec)) as [Ha Hx]. destruct (push_unbond _ _ 75 1 0 Ha Hx ltac:(done)) as [Ha1 Hx1].
  exact (push_unbond _ _ 4 0 8 Ha1 Hx1 ltac:(done)).
Qed.
Lemma ex_liquid : MultiShare_abs Store_new ex_st MultiShare_default (fun _ => None).
Proof.
  destruct (Map_fresh (K := u8) (SS := Decimal_StateSpec) Store_new ex_st (ex_st_empty _)) as [Ha Hm]. split_and!; [exact Ha|by constructor|exact Hm].
Qed.
Lemma whole_representable n : 0 <= n < 2 ^ 96 -> representable (inject_Z n + 0).
Proof. intros Hn. exists n, 0. split_and!; [lia..|]. change (inject_Z (10 ^ 0)) with 1%Q. ring. Qed.
(** At time 10 the first has matured: eight coins become liquid, the second stays. *)
Lemma delegator_queues_processed_witness :
  exists q ms f', Delegator_process_unbonds ex_st ex_ctx10 ex_delegator = (Ok tt, set_unbonding q (set_liquid ms ex_delegator)) /\
    queue_abs q [unbond_model (unbond_of 4 0 8)] /\ MultiShare_abs Store_new ex_st ms f' /\ (sbal f' INDEX == 8)%Q.
Proof.
  destruct ex_queue_abs as [Ha Hx]. destruct (fresh_deque (T := Redelegation) (SS := redelegation_spec)) as [Ha2 Hx2].
  destruct (delegator_queues_processed Store_new Store_new Store_new ex_st ex_ctx10 10 ex_delegator (fun _ => None) _ [] [Amount_of 8]
    ex_st_inv eq_refl ex_liquid Ha Hx Ha2 Hx2) as [(q & ms & f' & Hrun & _ & Hq & Hms & Hf) _].
  - by repeat constructor.
  - constructor.
  - constructor; [by vm_compute|constructor].
  - intros n Hn. change (total [Amount_of 8]) with 8 in Hn. apply whole_representable. lia.
  - exists q, ms, f'. split; [exact Hrun|]. split; [exact Hq|]. split; [exact Hms|]. rewrite Hf. rewrite decide_True by done. by vm_compute.
Defined.


(** ** An edit *)

Definition ex_commission : Commission := mkCommission (dec 10 2) (dec 1 0) (dec 1 1).
Definition ex_declaration : Declaration :=
  mkDeclaration (con 0) ex_commission (Amount_of 1) (Amount_of 100) (LengthVec_new (to_uint 2 0) []).
Definition ex_validator : Validator := set_commission ex_commission Validator_default.
Lemma ex_commission_ok : commission_ok ex_commission.
Proof. unfold commission_ok, Qle. by vm_compute. Qed.
(** From ten to fifteen percent, a day after the last edit. *)
Lemma edit_validator_checked_witness :
  (edit_validator ex_st 86400 (dec 15 2) (Amount_of 0) (LengthVec_new (to_uint 2 0) []) ex_validator).1 = Ok tt /\
  edit_result 86400 (dec 15 2) (Amount_of 0) (LengthVec_new (to_uint 2 0) []) ex_validator
    (edit_validator ex_st 86400 (dec 15 2) (Amount_of 0) (LengthVec_new (to_uint 2 0) []) ex_validator).
Proof.
  split; [by vm_compute|].
  destruct (edit_validator_checked ex_st (ex_staking (dec 5 1) 10) (val 0) ex_declaration (Coin_mint (Amount_of 100)) (to_uint 20 0) 86400 (dec 15 2) (Amount_of 0)
    (LengthVec_new (to_uint 2 0) []) ex_validator) as [_ He]; [by vm_compute|by vm_compute|].
  apply He, ex_commission_ok.
Defined.

(** ** Scenarios *)

Definition indexed_of (i : Z) : SM Z :=
  readM (fun p =>
    let? o := Map_get ex_st (S_last_indexed_power p.1) (val i) in
    Ok (match o with Some r => uint_val (Ref_deref r) | None => 0 end)).
Definition potential_of (i : Z) : SM Z := do a <- on_validator ex_st (val i) (Validator_potential_vp ex_st); retM (amt a).
Definition liquid_with (i : Z) : SM Z :=
  on_validator_ref ex_st (val i) (Validator_get_call ex_st staker (readM (fun d =>
    let? a := MultiShare_balance_Amount ex_st (D_liquid d) in Ok (amt a)))).

(** A double sign with a tenth to be slashed. Thirty coins had been moved from the
    validator that signs twice to another one: the seventy that stayed lose a tenth, but
    of the thirty that were moved nine tenths are taken. The other validator is left in
    the index with the power it had before, and goes on with it after the block. And
    where the stake there has been slashed to a fraction in the meantime, the punishment
    of the double sign fails altogether. *)
Example double_sign_scenario :
  run_test (
    run three_validators; run move 1 0 30; run end_block;
    run punish_double_sign ex_st (val 1); run end_block;
    do s0 <- staked_with 0; do s1 <- staked_with 1;
    do i0 <- indexed_of 0; do q0 <- potential_of 0; do p0 <- power_of 0;
    retM [s0; s1; i0; q0; p0]) (ex_staking (dec 1 1) 10)
  = Ok [130 - 27; 70 - 7; 230; 203; 230] /\
  run_test (
    run three_validators; run move 1 0 5; run end_block;
    run Staking_unbond ex_st (val 0) staker (Amount_of 102); run punish_downtime ex_st (val 0);
    punish_double_sign ex_st (val 1)) (ex_staking (dec 1 1) 10)
  = Err (ECoins "Insufficient balance").
Proof. split; vm_compute; reflexivity. Qed.

(** an unbonding period below the constant. With five seconds configured, and ten for
    the constant, the ends of the blocks neither make liquid what was unbonded nor free
    for a further move what was moved, long after both periods: the entries of the
    module's queues are gone by the time those of the delegator have matured. With ten
    seconds configured both work. *)
Theorem short_unbonding_period_sticks :
  let scenario :=
    run three_validators; run Staking_unbond ex_st (val 0) staker (Amount_of 40); run move 1 2 30;
    run at_time 5; run end_block; run at_time 1000; end_block in
  run_test (run scenario; liquid_with 0) (ex_staking (dec 1 1) 5) = Ok 0 /\
  run_test (run scenario; move 2 0 1) (ex_staking (dec 1 1) 5)
    = Err (ECoins "Cannot redelegate from validator with inbound redelegations") /\
  run_test (run scenario; run move 2 0 1; liquid_with 0) (ex_staking (dec 1 1) 10) = Ok 40.
Proof. split_and!; vm_compute; reflexivity. Qed.
