(* ===== verification/Abci.v ===== *)
(** * The ABCI state machine ([src/abci/mod.rs])

    [ABCIStateMachine::run] handles one request at a time. The fields it takes
    out of [self] ([app], [store], [consensus_state], [mempool_state]) are
    options, as in the source: a handler that fails part of the way leaves them
    empty. The store is generic in the [ABCIStore] trait (the source fixes it to
    [MerkStore]). [Shared] handles are transparent: within one request every clone
    is dropped before [into_inner] is called, so the contents are passed along
    instead. The channels, the worker threads and [listen] are not modelled. *)

From stdpp Require Import base tactics numbers list strings gmap pretty.
From Stdlib Require Import ZArith Lia.
From S2P Require Import Prelude Bytes BTree StoreIface StoreIter NullStore BufStore AbciStore.

(** The environment variable [ORGA_STOP_HEIGHT]: unset, or set to a text that is
    a number or is not. *)
Class Env := { ORGA_STOP_HEIGHT : option (option Z) }.

(** ** Requests and responses *)

Section Values.
Context `{Messages}.

Inductive Req :=
| ReqInfo
| ReqFlush
| ReqEcho
| ReqSetOption
| ReqQuery (req : RequestQuery)
| ReqInitChain (req : RequestInitChain)
| ReqBeginBlock (req : RequestBeginBlock)
| ReqDeliverTx (req : RequestDeliverTx)
| ReqEndBlock (req : RequestEndBlock)
| ReqCommit
| ReqCheckTx (req : RequestCheckTx)
| ReqListSnapshots
| ReqOfferSnapshot (req : RequestOfferSnapshot)
| ReqLoadSnapshotChunk (req : RequestLoadSnapshotChunk)
| ReqApplySnapshotChunk (req : RequestApplySnapshotChunk).

Inductive Res :=
| ResInfo (data version : string) (app_version last_block_height : Z) (last_block_app_hash : bytes)
| ResFlush
| ResEcho
| ResSetOption
| ResQuery (res : ResponseQuery)
| ResInitChain (res : ResponseInitChain)
| ResBeginBlock (res : ResponseBeginBlock)
| ResDeliverTx (res : ResponseDeliverTx)
| ResEndBlock (res : ResponseEndBlock)
| ResCommit (data : bytes)
| ResCheckTx (res : ResponseCheckTx)
| ResListSnapshots (snapshots : list Snapshot)
| ResOfferSnapshot (res : ResponseOfferSnapshot)
| ResLoadSnapshotChunk (chunk : bytes)
| ResApplySnapshotChunk (result : Z) (refetch_chunks : list Z) (reject_senders : list string).

(** ** [trait Application] *)

Record Application (St : Type) := mkApplication {
  init_chain : RequestInitChain -> StoreProg ResponseInitChain;
  begin_block : RequestBeginBlock -> StoreProg ResponseBeginBlock;
  deliver_tx : RequestDeliverTx -> StoreProg ResponseDeliverTx;
  end_block : RequestEndBlock -> StoreProg ResponseEndBlock;
  check_tx : RequestCheckTx -> StoreProg ResponseCheckTx;
  query : RequestQuery -> M St ResponseQuery
}.

(** The trait's default methods. *)
Definition Application_default (St : Type) : Application St :=
  {| init_chain _ := PRet (Ok ResponseInitChain_default);
     begin_block _ := PRet (Ok ResponseBeginBlock_default);
     deliver_tx _ := PRet (Ok ResponseDeliverTx_default);
     end_block _ := PRet (Ok ResponseEndBlock_default);
     check_tx _ := PRet (Ok ResponseCheckTx_default);
     query _ := retM ResponseQuery_default |}.
End Values.
Arguments mkApplication {_ St} _ _ _ _ _ _.
Arguments init_chain {_ St} _ _.
Arguments begin_block {_ St} _ _.
Arguments deliver_tx {_ St} _ _.
Arguments end_block {_ St} _ _.
Arguments check_tx {_ St} _ _.
Arguments query {_ St} _ _.

Abbreviation BufStoreMap := (BTree (option bytes)).

(** ** The machine *)

Record ABCIStateMachine `{Messages} (St : Type) := mkABCIStateMachine {
  sm_app : option (Application St);
  sm_store : option St;
  mempool_state : option BufStoreMap;
  consensus_state : option BufStoreMap;
  sm_height : Z;
  skip_init_chain : bool;
  sm_header : option Header
}.
Arguments mkABCIStateMachine {_ St} _ _ _ _ _ _ _.
Arguments sm_app {_ St} _.
Arguments sm_store {_ St} _.
Arguments mempool_state {_ St} _.
Arguments consensus_state {_ St} _.
Arguments sm_height {_ St} _.
Arguments skip_init_chain {_ St} _.
Arguments sm_header {_ St} _.

Section Machine.
Context `{AS : ABCIStore St} `{Env}.
Abbreviation SM := (ABCIStateMachine St).

Definition ABCIStateMachine_new (app : Application St) (store : St) (skip : bool) : SM :=
  mkABCIStateMachine (Some app) (Some store) (Some []) (Some []) 0 skip None.

Definition set_app (a : option (Application St)) (m : SM) : SM :=
  mkABCIStateMachine a (sm_store m) (mempool_state m) (consensus_state m)
    (sm_height m) (skip_init_chain m) (sm_header m).
Definition set_store (s : option St) (m : SM) : SM :=
  mkABCIStateMachine (sm_app m) s (mempool_state m) (consensus_state m)
    (sm_height m) (skip_init_chain m) (sm_header m).
Definition set_mempool_state (b : option BufStoreMap) (m : SM) : SM :=
  mkABCIStateMachine (sm_app m) (sm_store m) b (consensus_state m)
    (sm_height m) (skip_init_chain m) (sm_header m).
Definition set_consensus_state (b : option BufStoreMap) (m : SM) : SM :=
  mkABCIStateMachine (sm_app m) (sm_store m) (mempool_state m) b
    (sm_height m) (skip_init_chain m) (sm_header m).
Definition set_height (h : Z) (m : SM) : SM :=
  mkABCIStateMachine (sm_app m) (sm_store m) (mempool_state m) (consensus_state m)
    h (skip_init_chain m) (sm_header m).
Definition set_header (h : option Header) (m : SM) : SM :=
  mkABCIStateMachine (sm_app m) (sm_store m) (mempool_state m) (consensus_state m)
    (sm_height m) (skip_init_chain m) h.

(** [self.field.take().unwrap()], and [self.field = v] or [replace]. *)
Definition take_unwrap {A} (get : SM -> option A) (set : option A -> SM -> SM) : M SM A := fun m =>
  (unwrap (get m) "called `Option::unwrap()` on a `None` value", set None m).
Definition modifyM (f : SM -> SM) : M SM unit := fun m => (Ok tt, f m).

(** The inner block every state-changing handler has: [owned_store] is wrapped in
    a second buffer, the handler runs on it, and on success the buffer is flushed
    into [owned_store]. *)
Definition with_flush_store {A} (p : StoreProg A) (owned_store : BufStore St)
  : res (A * BufStore St) :=
  let '(r, flush_store) := run_prog p (BufStore_wrap owned_store) in
  let? response := r in
  let '(flushed, unwrapped_fs) := BufStore_flush flush_store in
  let? _ := flushed in
  Ok (response, BufStore_store unwrapped_fs).

(** [BufStore::flush] on an owned store. *)
Definition flush_owned (owned_store : BufStore St) : res (BufStore St) :=
  let '(flushed, b) := BufStore_flush owned_store in
  let? _ := flushed in Ok b.

Definition run_info : M SM Res :=
  do self_store <- take_unwrap sm_store set_store;
  do start_height <- liftM (ABCIStore_height self_store);
  do app_hash <- (if (start_height =? 0)%Z then retM [] else liftM (ABCIStore_root_hash self_store));
  run modifyM (set_store (Some self_store));
  retM (ResInfo "Rust ABCI State Machine" "X" 0 (wrap_i64 start_height) app_hash).

(** An error of the application becomes a response; the store is handed out by
    reference and put back with what the query left in it. *)
Definition run_query (req : RequestQuery) : M SM Res :=
  do store <- take_unwrap sm_store set_store;
  do app <- take_unwrap sm_app set_app;
  do height <- readM (fun m => Ok (sm_height m));
  let '(r, store') := query app req store in
  do res <- (match r with
             | Ok res => retM res
             | Err err => retM (ResponseQuery_failed 1 (Error_to_string err) (Error_to_string err)
                                  (wrap_i64 height))
             | Panic w => panicM w
             end);
  run modifyM (set_store (Some store'));
  run modifyM (set_app (Some app));
  retM (ResQuery res).

Definition run_init_chain (req : RequestInitChain) : M SM Res :=
  do skip <- readM (fun m => Ok (skip_init_chain m));
  if skip : bool then retM (ResInitChain ResponseInitChain_default)
  else
    do app <- take_unwrap sm_app set_app;
    do self_store <- take_unwrap sm_store set_store;
    do map <- take_unwrap consensus_state set_consensus_state;
    let store := BufStore_wrap_with_map self_store map in
    do '(res_init_chain, store) <- liftM (with_flush_store (init_chain app req) store);
    do store <- liftM (flush_owned store);
    run modifyM (set_app (Some app));
    run modifyM (set_consensus_state (Some []));
    run modifyM (set_store (Some (BufStore_store store)));
    retM (ResInitChain res_init_chain).

(** The guard at the top of [BeginBlock]. *)
Definition check_stop_height (req : RequestBeginBlock) : res unit :=
  match ORGA_STOP_HEIGHT with
  | None => Ok tt
  | Some None => Panic "Invalid ORGA_STOP_HEIGHT value"
  | Some (Some stop_height) =>
      let? header := unwrap (RequestBeginBlock_header req) "called `Option::unwrap()` on a `None` value" in
      if (stop_height <? Header_height header)%Z
      then Err (EABCI ("Reached stop height (" +:+ pretty stop_height +:+ ")"))
      else Ok tt
  end.

Definition run_begin_block (req : RequestBeginBlock) : M SM Res :=
  run liftM (check_stop_height req);
  do app <- take_unwrap sm_app set_app;
  do self_store <- take_unwrap sm_store set_store;
  run modifyM (set_header (RequestBeginBlock_header req));
  do map <- take_unwrap consensus_state set_consensus_state;
  let store := BufStore_wrap_with_map self_store map in
  do '(res_begin_block, store) <- liftM (with_flush_store (begin_block app req) store);
  run modifyM (set_app (Some app));
  run modifyM (set_consensus_state (Some (BufStore_into_map store)));
  run modifyM (set_store (Some (BufStore_store store)));
  retM (ResBeginBlock res_begin_block).

(** Unlike the other handlers, [DeliverTx] also flushes the consensus buffer into
    the store. *)
Definition run_deliver_tx (req : RequestDeliverTx) : M SM Res :=
  do app <- take_unwrap sm_app set_app;
  do self_store <- take_unwrap sm_store set_store;
  do map <- take_unwrap consensus_state set_consensus_state;
  let store := BufStore_wrap_with_map self_store map in
  do '(res_deliver_tx, owned_store) <- liftM (with_flush_store (deliver_tx app req) store);
  do store <- liftM (flush_owned owned_store);
  run modifyM (set_app (Some app));
  run modifyM (set_consensus_state (Some (BufStore_into_map store)));
  run modifyM (set_store (Some (BufStore_store store)));
  retM (ResDeliverTx res_deliver_tx).

Definition run_end_block (req : RequestEndBlock) : M SM Res :=
  run modifyM (set_height (wrap64 (RequestEndBlock_height req)));
  do app <- take_unwrap sm_app set_app;
  do self_store <- take_unwrap sm_store set_store;
  do map <- take_unwrap consensus_state set_consensus_state;
  let store := BufStore_wrap_with_map self_store map in
  do '(res_end_block, store) <- liftM (with_flush_store (end_block app req) store);
  run modifyM (set_app (Some app));
  run modifyM (set_consensus_state (Some (BufStore_into_map store)));
  run modifyM (set_store (Some (BufStore_store store)));
  retM (ResEndBlock res_end_block).

Definition run_commit : M SM Res :=
  do self_store <- take_unwrap sm_store set_store;
  do map <- take_unwrap consensus_state set_consensus_state;
  do store <- liftM (flush_owned (BufStore_wrap_with_map self_store map));
  do header <- readM (fun m => unwrap (sm_header m) "called `Option::unwrap()` on a `None` value");
  let '(committed, self_store) := ABCIStore_commit header (BufStore_store store) in
  run liftM committed;
  run modifyM (set_mempool_state (Some []));
  run modifyM (set_consensus_state (Some []));
  do data <- liftM (ABCIStore_root_hash self_store);
  run modifyM (set_store (Some self_store));
  retM (ResCommit data).

Definition run_check_tx (req : RequestCheckTx) : M SM Res :=
  do app <- take_unwrap sm_app set_app;
  do self_store <- take_unwrap sm_store set_store;
  do map <- take_unwrap mempool_state set_mempool_state;
  let store := BufStore_wrap_with_map self_store map in
  do '(res_check_tx, store) <- liftM (with_flush_store (check_tx app req) store);
  run modifyM (set_app (Some app));
  run modifyM (set_mempool_state (Some (BufStore_into_map store)));
  run modifyM (set_store (Some (BufStore_store store)));
  retM (ResCheckTx res_check_tx).

(** [self.store.as_mut().unwrap().borrow_mut()]: the store stays in place. *)
Definition on_store {A} (f : M St A) : M SM A := fun m =>
  match sm_store m with
  | Some s => let '(r, s') := f s in (r, set_store (Some s') m)
  | None => (Panic "called `Option::unwrap()` on a `None` value", m)
  end.

Definition run_apply_snapshot_chunk (req : RequestApplySnapshotChunk) : M SM Res :=
  on_store (fun s =>
    match ABCIStore_apply_snapshot_chunk req s with
    | (Ok _, s') => (Ok (ResApplySnapshotChunk 1 [] []), s')
    | (Err _, s') => (Ok (ResApplySnapshotChunk 3 [RequestApplySnapshotChunk_index req]
                            [RequestApplySnapshotChunk_sender req]), s')
    | (Panic w, s') => (Panic w, s')
    end).

Definition ABCIStateMachine_run (req : option Req) : M SM Res :=
  match req with
  | None => errM (EABCI "Received empty request")
  | Some value =>
      match value with
      | ReqInfo => run_info
      | ReqFlush => retM ResFlush
      | ReqEcho => retM ResEcho
      | ReqSetOption => retM ResSetOption
      | ReqQuery req => run_query req
      | ReqInitChain req => run_init_chain req
      | ReqBeginBlock req => run_begin_block req
      | ReqDeliverTx req => run_deliver_tx req
      | ReqEndBlock req => run_end_block req
      | ReqCommit => run_commit
      | ReqCheckTx req => run_check_tx req
      | ReqListSnapshots =>
          do snapshots <- on_store (readM ABCIStore_list_snapshots);
          retM (ResListSnapshots snapshots)
      | ReqOfferSnapshot req =>
          do res <- on_store (ABCIStore_offer_snapshot req);
          retM (ResOfferSnapshot res)
      | ReqLoadSnapshotChunk req =>
          do chunk <- on_store (readM (fun s => ABCIStore_load_snapshot_chunk s req));
          retM (ResLoadSnapshotChunk chunk)
      | ReqApplySnapshotChunk req => run_apply_snapshot_chunk req
      end
  end.

(** The server loop of [listen], without the channels: requests are handled in
    the order they arrive, and the first error ends it. *)
Fixpoint run_all (reqs : list Req) : M SM (list Res) :=
  match reqs with
  | [] => retM []
  | req :: reqs =>
      do res <- ABCIStateMachine_run (Some req);
      do ress <- run_all reqs;
      retM (res :: ress)
  end.
End Machine.
