(* ===== verification/AbciSpec.v ===== *)
(** * What the ABCI state machine guarantees

    Two groups of facts. Handling a block (BeginBlock, the transactions, EndBlock,
    Commit) has the effect of running the application's handlers one after the
    other on the chain's state, whatever buffers the machine uses in between; and
    checking transactions for the mempool, interleaved in any way, has no effect
    on the chain's state or on any other response. *)

From stdpp Require Import base tactics numbers list strings gmap pretty.
From Stdlib Require Import ZArith Lia.
From S2P Require Import Prelude Bytes BTree StoreIface StoreIter NullStore BufStore AbciStore Abci.

(** ** Buffers protect what they wrap *)

Lemma run_prog_keeps_store `{Read St} `{!Write St} {A} (p : StoreProg A) : forall b : BufStore St,
  BufStore_store (run_prog p b).2 = BufStore_store b.
Proof.
  induction p as [r|k f IH|k f IH|k f IH|k x f IH|k f IH]; intros b; cbn [run_prog]; [done|by apply IH..| |].
  - cbn. rewrite IH. done.
  - cbn. rewrite IH. done.
Qed.

Section Buffers.
Context `{Read St} `{!Write St}.

(** Flushing one buffer into another cannot fail. *)
Lemma flush_into_buffer m : forall b : BufStore St,
  exists b', BufStore_flush_loop m b = (Ok tt, mkBufStore [] b') /\ BufStore_store b' = BufStore_store b.
Proof.
  induction m as [|[k [x|]] m IH]; intros b; simpl; [by exists b| |].
  - destruct (IH (mkBufStore (bt_insert k (Some x) (BufStore_map b)) (BufStore_store b))) as (b' & -> & Hb').
    by exists b'.
  - destruct (IH (mkBufStore (bt_insert k None (BufStore_map b)) (BufStore_store b))) as (b' & -> & Hb').
    by exists b'.
Qed.

(** The inner block of a handler fails exactly when the handler does, and does
    not touch the store below the buffers. *)
Lemma with_flush_store_keeps {A} (p : StoreProg A) (b : BufStore St) :
  match (run_prog p (BufStore_wrap b)).1 with
  | Ok r => exists b', with_flush_store p b = Ok (r, b') /\ BufStore_store b' = BufStore_store b
  | Err e => with_flush_store p b = Err e
  | Panic w => with_flush_store p b = Panic w
  end.
Proof.
  unfold with_flush_store. pose proof (run_prog_keeps_store p (BufStore_wrap b)) as Hk.
  destruct (run_prog p (BufStore_wrap b)) as [[r|e|w] fs]; simpl in *; [|done..].
  unfold BufStore_flush. destruct (flush_into_buffer (BufStore_map fs) (BufStore_store fs)) as (b' & -> & Hb').
  exists b'. split; [done|]. by rewrite Hb', Hk.
Qed.
End Buffers.

Section BufferLaws.
Context {iter : bool} `{SL : StoreLaws iter St}.

(** ... and with a lawful store below, it does what the handler means. *)
Lemma with_flush_store_exec {A} (p : StoreProg A) (s : St) m :
  law_inv s -> bt_wf m -> (iter = false -> point_prog p) ->
  match exec p (overlay (bt_map m) (law_view s)) with
  | (Ok r, v') => exists m', with_flush_store p (BufStore_wrap_with_map s m) = Ok (r, mkBufStore m' s) /\
                    bt_wf m' /\ overlay (bt_map m') (law_view s) = v'
  | (Err e, _) => with_flush_store p (BufStore_wrap_with_map s m) = Err e
  | (Panic w, _) => with_flush_store p (BufStore_wrap_with_map s m) = Panic w
  end.
Proof.
  intros Hs Hm Hp. set (b := BufStore_wrap_with_map s m).
  pose proof (with_flush_store_keeps p b) as Hk.
  destruct (run_prog_exec p (BufStore_wrap b)) as (fs & Hrun & [Hfm Hfb] & Hfv); [split; [constructor|exact (conj Hm Hs)]|done|].
  assert (Hv : law_view (BufStore_wrap b) = overlay (bt_map m) (law_view s))
    by (cbn; unfold buf_view; simpl; by rewrite overlay_empty).
  rewrite Hv in Hrun, Hfv. rewrite Hrun in Hk. cbn [fst] in Hk.
  destruct (exec p (overlay (bt_map m) (law_view s))) as [[r|e|w] v']; cbn [fst snd] in *; [|done..].
  destruct Hk as ([m' s'] & Hw & Heq). simpl in Heq. subst s'. exists m'. split; [done|].
  unfold with_flush_store in Hw. rewrite Hrun in Hw. cbn [res_bind] in Hw.
  unfold BufStore_flush in Hw. destruct (laws_flush _ _ Hfm Hfb) as ([m2 s2] & Hfl & [Hm2 _] & Hv2).
  rewrite Hfl in Hw. cbn [res_bind BufStore_store] in Hw. injection Hw as -> ->.
  split; [done|]. etransitivity; [exact Hv2|exact Hfv].
Qed.

Lemma flush_owned_exec (s : St) m :
  law_inv s -> bt_wf m ->
  exists s', flush_owned (BufStore_wrap_with_map s m) = Ok (mkBufStore [] s') /\ law_inv s' /\
             law_view s' = overlay (bt_map m) (law_view s).
Proof.
  intros Hs Hm. unfold flush_owned, BufStore_flush.
  destruct (laws_flush m s Hm Hs) as (s' & Hf & H1 & H2). simpl. rewrite Hf. by exists s'.
Qed.
End BufferLaws.

(** ** A block *)

Section Block.
Context {iter : bool} `{AL : ABCIStoreLaws iter St} `{Env}.
Abbreviation SM := (ABCIStateMachine St).
Implicit Types (app : Application St) (sm : SM) (v : View) (h : Header).

(** What a block means: the handlers in turn, on the state of the chain. *)
Fixpoint exec_txs app (txs : list RequestDeliverTx) : M View (list Res) :=
  match txs with
  | [] => retM []
  | tx :: txs =>
      do r <- exec (deliver_tx app tx);
      do rs <- exec_txs app txs;
      retM (ResDeliverTx r :: rs)
  end.
Definition exec_block app (b : RequestBeginBlock) (txs : list RequestDeliverTx) (e : RequestEndBlock)
  : M View (list Res) :=
  do rb <- exec (begin_block app b);
  do rs <- exec_txs app txs;
  do re <- exec (end_block app e);
  retM (ResBeginBlock rb :: rs ++ [ResEndBlock re]).

(** The requests a block is delivered with. *)
Definition block_reqs (b : RequestBeginBlock) (txs : list RequestDeliverTx) (e : RequestEndBlock) : list Req :=
  ReqBeginBlock b :: map ReqDeliverTx txs ++ [ReqEndBlock e; ReqCommit].

(** Between requests: everything is in place and the store under the consensus
    buffer reads as [v]. *)
Definition ready sm app v : Prop :=
  sm_app sm = Some app /\
  exists s m, sm_store sm = Some s /\ consensus_state sm = Some m /\
    law_inv s /\ bt_wf m /\ overlay (bt_map m) (law_view s) = v.
(** After a failed handler. *)
Definition dead sm : Prop := sm_app sm = None /\ sm_store sm = None /\ consensus_state sm = None.

(** The outcome of a handler against what its program means. *)
Definition handled {A} (wrap : A -> Res) app (hdr : option Header) (o : res A * View) (out : res Res * SM) : Prop :=
  match o with
  | (Ok r, v') => exists sm', out = (Ok (wrap r), sm') /\ ready sm' app v' /\ sm_header sm' = hdr
  | (Err e, _) => exists sm', out = (Err e, sm') /\ dead sm'
  | (Panic w, _) => out.1 = Panic w
  end.

Ltac handle p Hs Hm Hp :=
  pose proof (with_flush_store_exec p _ _ Hs Hm Hp) as Hx;
  unfold bindM, take_unwrap, liftM, modifyM, set_app, set_store, set_consensus_state, set_header, set_height;
  cbn [fst snd unwrap sm_app sm_store consensus_state mempool_state sm_header sm_height skip_init_chain];
  destruct (exec p _) as [[r|err|w] v'];
  [destruct Hx as (m' & -> & Hm' & Hv')|rewrite Hx; by eexists|by rewrite Hx].

Lemma begin_block_handled sm app v b :
  ready sm app v -> check_stop_height b = Ok tt -> (iter = false -> point_prog (begin_block app b)) ->
  handled ResBeginBlock app (RequestBeginBlock_header b) (exec (begin_block app b) v) (run_begin_block b sm).
Proof.
  destruct sm as [a st mp cs h sk hd]. intros (Ha & s & m & Hst & Hcs & Hs & Hm & <-) Hstop Hp. simpl in *. subst.
  unfold handled, run_begin_block. rewrite Hstop. handle (begin_block app b) Hs Hm Hp.
  eexists. split; [done|]. split; [|done]. split; [done|]. by exists s, m'.
Qed.

Lemma end_block_handled sm app v e :
  ready sm app v -> (iter = false -> point_prog (end_block app e)) ->
  handled ResEndBlock app (sm_header sm) (exec (end_block app e) v) (run_end_block e sm).
Proof.
  destruct sm as [a st mp cs h sk hd]. intros (Ha & s & m & Hst & Hcs & Hs & Hm & <-) Hp. simpl in *. subst.
  unfold handled, run_end_block. handle (end_block app e) Hs Hm Hp.
  eexists. split; [done|]. split; [|done]. split; [done|]. by exists s, m'.
Qed.

Lemma deliver_tx_handled sm app v tx :
  ready sm app v -> (iter = false -> point_prog (deliver_tx app tx)) ->
  handled ResDeliverTx app (sm_header sm) (exec (deliver_tx app tx) v) (run_deliver_tx tx sm).
Proof.
  destruct sm as [a st mp cs h sk hd]. intros (Ha & s & m & Hst & Hcs & Hs & Hm & <-) Hp. simpl in *. subst.
  unfold handled, run_deliver_tx. handle (deliver_tx app tx) Hs Hm Hp.
  destruct (flush_owned_exec s m' Hs Hm') as (s' & Hf & Hs' & Hv''). unfold BufStore_wrap_with_map in Hf.
  rewrite Hf. eexists. split; [done|]. split; [|done]. split; [done|]. exists s', [].
  split_and!; [done..|constructor|]. simpl. by rewrite overlay_empty, Hv''.
Qed.

Lemma commit_handled sm app v h :
  ready sm app v -> sm_header sm = Some h -> law_header h ->
  exists hash sm' s', run_commit sm = (Ok (ResCommit hash), sm') /\
    sm_app sm' = Some app /\ sm_store sm' = Some s' /\ law_inv s' /\ law_view s' = v /\
    consensus_state sm' = Some [] /\ mempool_state sm' = Some [] /\
    ABCIStore_height s' = Ok (wrap64 (Header_height h)).
Proof.
  destruct sm as [a st mp cs h0 sk hd]. intros (Ha & s & m & Hst & Hcs & Hs & Hm & <-) Hh Hok. simpl in *. subst.
  destruct (flush_owned_exec s m Hs Hm) as (s1 & Hf & Hs1 & Hv1).
  destruct (law_commit s1 h Hs1 Hok) as (s2 & Hc & Hs2 & Hv2 & Hh2).
  destruct (law_root_hash s2 Hs2) as (hash & Hr).
  unfold run_commit, bindM, take_unwrap, liftM, modifyM, readM, set_store, set_consensus_state, set_mempool_state.
  cbn [fst snd unwrap sm_app sm_store consensus_state mempool_state sm_header sm_height skip_init_chain].
  rewrite Hf. cbn [BufStore_store]. rewrite Hc, Hr.
  eexists hash, _, s2. split; [done|]. simpl. by rewrite Hv2, Hv1.
Qed.

(** The machine's sequencing follows the specification's. *)
Lemma run_all_cons (req : Req) (reqs : list Req) sm :
  run_all (req :: reqs) sm =
  (do r <- ABCIStateMachine_run (Some req); do rs <- run_all reqs; retM (r :: rs)) sm.
Proof. done. Qed.

(** Outcome of the requests of a block from the transactions on. *)
Definition block_done app (h : Header) (o : res (list Res) * View) (out : res (list Res) * SM) : Prop :=
  match o with
  | (Ok ress, v') =>
      exists hash sm' s', out = (Ok (ress ++ [ResCommit hash]), sm') /\
        sm_app sm' = Some app /\ sm_store sm' = Some s' /\ law_inv s' /\ law_view s' = v' /\
        consensus_state sm' = Some [] /\ mempool_state sm' = Some [] /\
        ABCIStore_height s' = Ok (wrap64 (Header_height h))
  | (Err e, _) => exists sm', out = (Err e, sm') /\ dead sm'
  | (Panic w, _) => out.1 = Panic w
  end.

(** One handled request in front of a sequence that is done. *)
Lemma block_done_cons {A} (wrap : A -> Res) app h (hdr : option Header) (p : StoreProg A)
    (req : Req) (f : M View (list Res)) (reqs : list Req) sm v :
  handled wrap app hdr (exec p v) (ABCIStateMachine_run (Some req) sm) ->
  (forall sm' v', ready sm' app v' -> sm_header sm' = hdr -> block_done app h (f v') (run_all reqs sm')) ->
  block_done app h ((do r <- exec p; do rs <- f; retM (wrap r :: rs)) v) (run_all (req :: reqs) sm).
Proof.
  intros Hh Hf. rewrite run_all_cons. unfold bindM at 1 3. unfold handled in Hh.
  destruct (exec p v) as [[r|e|w] v1].
  - destruct Hh as (sm1 & -> & Hr & Hhd). specialize (Hf sm1 v1 Hr Hhd). unfold block_done, bindM in *.
    destruct (f v1) as [[rs|e|w] v2].
    + destruct Hf as (hash & sm' & s' & -> & Hrest). by exists hash, sm', s'.
    + destruct Hf as (sm' & -> & Hd). by exists sm'.
    + destruct (run_all reqs sm1) as [[] ?]; simpl in *; congruence.
  - destruct Hh as (sm1 & -> & Hd). by exists sm1.
  - unfold block_done. destruct (ABCIStateMachine_run (Some req) sm) as [[] ?]; simpl in *; congruence.
Qed.

Lemma block_done_ext app h o1 o2 out : o1 = o2 -> block_done app h o1 out -> block_done app h o2 out.
Proof. by intros ->. Qed.

Lemma bindM_assoc {S A B C} (m : M S A) (f : A -> M S B) (g : B -> M S C) s :
  (do b <- (do a <- m; f a); g b) s = (do a <- m; do b <- f a; g b) s.
Proof. unfold bindM. by destruct (m s) as [[] ?]. Qed.

Lemma end_and_commit sm app v h e :
  ready sm app v -> sm_header sm = Some h -> law_header h -> (iter = false -> point_prog (end_block app e)) ->
  block_done app h ((do re <- exec (end_block app e); retM [ResEndBlock re]) v)
    (run_all [ReqEndBlock e; ReqCommit] sm).
Proof.
  intros Hr Hhd Hok Hp.
  apply (block_done_cons ResEndBlock app h (Some h) (end_block app e) (ReqEndBlock e) (retM []) [ReqCommit] sm v).
  - rewrite <- Hhd. by apply end_block_handled.
  - intros sm' v' Hr' Hh'. destruct (commit_handled sm' app v' h Hr' Hh' Hok) as (hash & sm2 & s2 & Hc & Hrest).
    exists hash, sm2, s2. split; [|done]. rewrite run_all_cons. unfold bindM. simpl. by rewrite Hc.
Qed.

Lemma txs_done app h e txs : forall sm v,
  ready sm app v -> sm_header sm = Some h -> law_header h ->
  (iter = false -> forall tx, point_prog (deliver_tx app tx)) ->
  (iter = false -> point_prog (end_block app e)) ->
  block_done app h
    ((do rs <- exec_txs app txs; do re <- exec (end_block app e); retM (rs ++ [ResEndBlock re])) v)
    (run_all (map ReqDeliverTx txs ++ [ReqEndBlock e; ReqCommit]) sm).
Proof.
  induction txs as [|tx txs IH]; intros sm v Hr Hhd Hok Ht He; [by apply end_and_commit|].
  eapply block_done_ext; cycle 1.
  - apply (block_done_cons ResDeliverTx app h (Some h) (deliver_tx app tx) (ReqDeliverTx tx)).
    + rewrite <- Hhd. apply deliver_tx_handled; [done|]. intros Hi. by apply Ht.
    + intros sm' v' Hr' Hh'. exact (IH sm' v' Hr' Hh' Hok Ht He).
  - cbn [exec_txs]. unfold bindM, retM.
    destruct (exec (deliver_tx app tx) v) as [[r|?|?] v1]; [|done..].
    destruct (exec_txs app txs v1) as [[rs|?|?] v2]; [|done..].
    by destruct (exec (end_block app e) v2) as [[re|?|?] v3].
Qed.

(** C1: handling a block has the effect of running the application's handlers
    one after the other on the state of the chain: BeginBlock, each transaction in
    turn, EndBlock, every one on what the ones before left. The responses are the
    handlers', after Commit the store itself reads as the resulting state and is
    at the header's height, and no buffered write is left. When a handler fails,
    its error is returned and the machine holds neither application nor store any
    more. The store only has to keep its contract for lookups if the handlers do
    not iterate. *)
Theorem ABCI_block_executes sm app v h b txs e :
  ready sm app v -> RequestBeginBlock_header b = Some h -> law_header h -> check_stop_height b = Ok tt ->
  (iter = false -> point_prog (begin_block app b) /\ (forall tx, point_prog (deliver_tx app tx)) /\
                   point_prog (end_block app e)) ->
  match exec_block app b txs e v with
  | (Ok ress, v') =>
      exists hash sm' s', run_all (block_reqs b txs e) sm = (Ok (ress ++ [ResCommit hash]), sm') /\
        sm_app sm' = Some app /\ sm_store sm' = Some s' /\ law_inv s' /\ law_view s' = v' /\
        consensus_state sm' = Some [] /\ mempool_state sm' = Some [] /\
        ABCIStore_height s' = Ok (wrap64 (Header_height h))
  | (Err err, _) =>
      exists sm', run_all (block_reqs b txs e) sm = (Err err, sm') /\
        sm_app sm' = None /\ sm_store sm' = None /\ consensus_state sm' = None
  | (Panic w, _) => (run_all (block_reqs b txs e) sm).1 = Panic w
  end.
Proof.
  intros Hr Hh Hok Hstop Hp.
  change (block_done app h (exec_block app b txs e v) (run_all (block_reqs b txs e) sm)).
  eapply block_done_ext; cycle 1.
  - apply (block_done_cons ResBeginBlock app h (Some h) (begin_block app b) (ReqBeginBlock b)).
    + rewrite <- Hh. apply begin_block_handled; [done..|]. intros Hi. by apply Hp.
    + intros sm' v' Hr' Hh'. apply (txs_done app h e txs sm' v' Hr' Hh' Hok); intros Hi; by apply Hp.
  - unfold exec_block, bindM, retM.
    destruct (exec (begin_block app b) v) as [[rb|?|?] v1]; [|done..].
    destruct (exec_txs app txs v1) as [[rs|?|?] v2]; [|done..].
    by destruct (exec (end_block app e) v2) as [[re|?|?] v3].
Qed.
End Block.

(** ** The mempool *)

Section Mempool.
Context `{AS : ABCIStore St} `{Env}.
Abbreviation SM := (ABCIStateMachine St).
Implicit Types (sm : SM).

(** Two machines that differ at most in the mempool's buffer. *)
Definition same_chain (sm1 sm2 : SM) : Prop :=
  set_mempool_state None sm1 = set_mempool_state None sm2.

#[export] Instance same_chain_equivalence : Equivalence same_chain.
Proof. split; unfold same_chain; repeat intro; congruence. Qed.

(** Outcomes that agree, up to the mempool's buffer. *)
Definition same_outcome {A} (o1 o2 : res A * SM) : Prop := o1.1 = o2.1 /\ same_chain o1.2 o2.2.

(** Computations that do not look at the mempool's buffer. *)
Abbreviation blind f := (Proper (same_chain ==> same_outcome) f).

Lemma blind_bind {A B} (m : M SM A) (f : A -> M SM B) :
  blind m -> (forall a, blind (f a)) -> blind (bindM m f).
Proof.
  intros Hm Hf sm1 sm2 Hs. specialize (Hm _ _ Hs). unfold bindM.
  destruct (m sm1) as [r1 sm1'], (m sm2) as [r2 sm2'], Hm as [Heq Hs']. simpl in *. subst r2.
  destruct r1; [by apply Hf|done..].
Qed.
Lemma blind_lift {A} (r : res A) : blind (liftM r).
Proof. by intros sm1 sm2 Hs. Qed.
Lemma blind_ret {A} (a : A) : blind (retM a).
Proof. by intros sm1 sm2 Hs. Qed.
Lemma blind_panic {A} w : blind (panicM (A := A) w).
Proof. by intros sm1 sm2 Hs. Qed.

Ltac blind_field := intros [] [] [=]; subst; by repeat split.
Lemma blind_take_app : blind (take_unwrap sm_app set_app).
Proof. blind_field. Qed.
Lemma blind_take_store : blind (take_unwrap sm_store set_store).
Proof. blind_field. Qed.
Lemma blind_take_consensus : blind (take_unwrap consensus_state set_consensus_state).
Proof. blind_field. Qed.
Lemma blind_set_app a : blind (modifyM (set_app a)).
Proof. blind_field. Qed.
Lemma blind_set_store s : blind (modifyM (set_store s)).
Proof. blind_field. Qed.
Lemma blind_set_consensus c : blind (modifyM (set_consensus_state c)).
Proof. blind_field. Qed.
Lemma blind_set_mempool c : blind (modifyM (set_mempool_state c)).
Proof. blind_field. Qed.
Lemma blind_set_height h : blind (modifyM (set_height h)).
Proof. blind_field. Qed.
Lemma blind_set_header h : blind (modifyM (set_header h)).
Proof. blind_field. Qed.
Lemma blind_height : blind (readM (fun sm => Ok (sm_height sm))).
Proof. blind_field. Qed.
Lemma blind_skip : blind (readM (fun sm => Ok (skip_init_chain sm))).
Proof. blind_field. Qed.
Lemma blind_header w : blind (readM (fun sm => unwrap (sm_header sm) w)).
Proof. blind_field. Qed.
Lemma blind_on_store {A} (f : M St A) : blind (on_store f).
Proof.
  intros [? [s|]] [] [=]; subst; unfold on_store; simpl; [|by repeat split].
  destruct (f s). by repeat split.
Qed.

Ltac blind :=
  repeat first
    [ apply blind_bind; [|intros ?] | apply blind_lift | apply blind_ret | apply blind_panic
    | apply blind_take_app | apply blind_take_store | apply blind_take_consensus
    | apply blind_set_app | apply blind_set_store | apply blind_set_consensus | apply blind_set_mempool
    | apply blind_set_height | apply blind_set_header | apply blind_height | apply blind_skip | apply blind_header
    | apply blind_on_store
    | match goal with |- context [match ?x with _ => _ end] => destruct x end ].

(** Only CheckTx looks at the mempool's buffer. *)
Definition is_check (req : Req) : bool := if req is ReqCheckTx _ then true else false.
Definition is_check_res (res : Res) : bool := if res is ResCheckTx _ then true else false.

Lemma run_blind req : is_check req = false -> blind (ABCIStateMachine_run (Some req)).
Proof.
  intros Hc. destruct req; try done; cbn [ABCIStateMachine_run].
  all: unfold run_info, run_query, run_init_chain, run_begin_block, run_deliver_tx, run_end_block,
    run_commit, run_apply_snapshot_chunk.
  all: blind.
Qed.

Lemma run_res_kind req sm r sm' :
  ABCIStateMachine_run (Some req) sm = (Ok r, sm') -> is_check_res r = is_check req.
Proof.
  destruct req; cbn [ABCIStateMachine_run].
  all: unfold run_info, run_query, run_init_chain, run_begin_block, run_deliver_tx, run_end_block,
    run_commit, run_apply_snapshot_chunk, run_check_tx, on_store, bindM, retM, modifyM, liftM, readM, take_unwrap.
  all: intros Hr; repeat (case_match; simplify_eq; try done); by simplify_eq.
Qed.

(** And CheckTx changes nothing else. *)
Lemma check_tx_changes_mempool req sm r sm' :
  run_check_tx req sm = (Ok r, sm') -> same_chain sm sm'.
Proof.
  destruct sm as [[a|] [s|] [m|] c h k hd].
  all: unfold run_check_tx, bindM, retM, modifyM, liftM, take_unwrap; cbn; try done.
  pose proof (with_flush_store_keeps (check_tx a req) (BufStore_wrap_with_map s m)) as Hk.
  destruct (run_prog _ _).1; [|by rewrite Hk..]. destruct Hk as (b & -> & Hb). intros [= <- <-].
  unfold same_chain. simpl in *. by rewrite Hb.
Qed.

Lemma run_all_filter reqs : forall sm1 sm2 ress sm1',
  same_chain sm1 sm2 -> run_all reqs sm1 = (Ok ress, sm1') ->
  exists sm2', run_all (filter (fun r => is_check r = false) reqs) sm2
                 = (Ok (filter (fun r => is_check_res r = false) ress), sm2') /\ same_chain sm1' sm2'.
Proof.
  induction reqs as [|req reqs IH]; intros sm1 sm2 ress sm1' Hs; cbn [run_all].
  { intros [= <- <-]. by exists sm2. }
  intros (r & sm & Hr & (rs & sm' & Hrs & [= <- <-])%bindM_ok)%bindM_ok.
  rewrite !filter_cons, (run_res_kind _ _ _ _ Hr). destruct (is_check req) eqn:Hc; case_decide; try done.
  - eapply IH; [|exact Hrs]. rewrite <- Hs. symmetry.
    destruct req; try done. by eapply check_tx_changes_mempool.
  - pose proof (run_blind req Hc _ _ Hs) as [Ho Hs']. rewrite Hr in Ho, Hs'.
    destruct (ABCIStateMachine_run (Some req) sm2) as [r2 sm2'] eqn:Hr2. cbn [fst snd] in *. subst r2.
    destruct (IH sm sm2' rs sm' Hs' Hrs) as (sm3 & H3 & Hs3). exists sm3. split; [|done].
    cbn [run_all]. unfold bindM. by rewrite Hr2, H3.
Qed.

(** C7: checking transactions for the mempool does not influence the chain: take
    any sequence of requests that is handled without error and leave out its
    CheckTx requests; the rest is handled with the same responses, and leaves the
    same store, the same consensus buffer, height and header. *)
Theorem ABCI_check_tx_isolated reqs sm ress sm' :
  run_all reqs sm = (Ok ress, sm') ->
  exists sm'',
    run_all (filter (fun r => is_check r = false) reqs) sm
      = (Ok (filter (fun r => is_check_res r = false) ress), sm'') /\
    sm_store sm'' = sm_store sm' /\ consensus_state sm'' = consensus_state sm' /\
    sm_height sm'' = sm_height sm' /\ sm_header sm'' = sm_header sm'.
Proof.
  intros Hr. destruct (run_all_filter reqs sm sm ress sm') as (sm'' & Hf & Hsame); [done..|].
  exists sm''. split; [done|]. destruct sm', sm''. injection Hsame. naive_solver.
Qed.
End Mempool.

(** *** Witnesses: an application that appends every transaction to a log under
    increasing keys and records each block's end, on the in-memory store. *)
Definition ex_messages : Messages :=
  {| Header := Z; Header_height h := h; Header_time_seconds h := Some h;
     RequestInitChain := unit; RequestBeginBlock := option Z; RequestBeginBlock_header b := b;
     RequestDeliverTx := bytes; RequestEndBlock := Z; RequestEndBlock_height e := e;
     RequestCheckTx := bytes; RequestQuery := unit;
     Snapshot := Z * bytes * Z; Snapshot_of c h n := (c, h, n);
     Snapshot_chunks s := s.1.1; Snapshot_hash s := s.1.2; Snapshot_height s := s.2;
     RequestOfferSnapshot := option (Z * bytes * Z) * bytes;
     RequestOfferSnapshot_snapshot := fst; RequestOfferSnapshot_app_hash := snd;
     RequestLoadSnapshotChunk := Z * Z;
     RequestLoadSnapshotChunk_height := fst; RequestLoadSnapshotChunk_chunk := snd;
     RequestApplySnapshotChunk := bytes; RequestApplySnapshotChunk_chunk c := c;
     RequestApplySnapshotChunk_index _ := 0%Z; RequestApplySnapshotChunk_sender _ := "";
     ResponseInitChain := unit; ResponseInitChain_default := tt;
     ResponseBeginBlock := unit; ResponseBeginBlock_default := tt;
     ResponseDeliverTx := bytes; ResponseDeliverTx_default := [];
     ResponseEndBlock := unit; ResponseEndBlock_default := tt;
     ResponseCheckTx := bytes; ResponseCheckTx_default := [];
     ResponseQuery := unit; ResponseQuery_default := tt; ResponseQuery_failed _ _ _ _ := tt;
     ResponseOfferSnapshot := bool; ResponseOfferSnapshot_default := false;
     ResponseOfferSnapshot_reject := false; ResponseOfferSnapshot_accept := true;
     Error_to_string _ := "" |}.
#[local] Existing Instance ex_messages.
#[local] Instance ex_env : Env := {| ORGA_STOP_HEIGHT := None |}.

(** Appends after the last key; answers with the key used. *)
Definition ex_append (tx : bytes) : StoreProg bytes :=
  PGetPrev None (fun r =>
    match r with
    | Ok (Some ([n], _)) => PPut [(n + 1)%Z] tx (fun _ => PRet (Ok [(n + 1)%Z]))
    | Ok _ => PPut [1%Z] tx (fun _ => PRet (Ok [1%Z]))
    | Err e => PRet (Err e)
    | Panic w => PRet (Panic w)
    end).
Definition ex_app : Application MemStore :=
  mkApplication (fun _ => PRet (Ok tt)) (fun _ => PRet (Ok tt)) ex_append
    (fun _ => PPut [200%Z] [] (fun _ => PRet (Ok tt))) ex_append (fun _ => retM tt).
Definition ex_machine : ABCIStateMachine MemStore := ABCIStateMachine_new ex_app MemStore_new false.

Lemma ABCI_block_executes_witness :
  exists hash sm' s',
    run_all (block_reqs (Some 5%Z) [[7]; [8]]%Z 5%Z) ex_machine =
      (Ok ([ResBeginBlock tt; ResDeliverTx [1]%Z; ResDeliverTx [2]%Z; ResEndBlock tt] ++ [ResCommit hash]), sm') /\
    sm_store sm' = Some s' /\
    law_view (iter := true) s' = <[ [200]%Z := [] ]> (<[ [2]%Z := [8]%Z ]> (<[ [1]%Z := [7]%Z ]> ∅)).
Proof.
  pose proof (ABCI_block_executes (iter := true) ex_machine ex_app ∅ 5%Z (Some 5%Z) [[7]; [8]]%Z 5%Z) as Hthm.
  destruct Hthm as (hash & sm' & s' & Hrun & _ & Hs & _ & Hv & _).
  - split; [done|]. exists MemStore_new, []. split_and!; [done..| |constructor|vm_compute; done].
    split; [constructor|done].
  - done.
  - done.
  - done.
  - done.
  - exists hash, sm', s'. split; [exact Hrun|]. split; [exact Hs|exact Hv].
Defined.

Definition ex_requests : list Req :=
  let check (tx : bytes) : Req := @ReqCheckTx ex_messages tx in
  [check [9]; @ReqBeginBlock ex_messages (Some 5); check [9]; @ReqDeliverTx ex_messages [7]; check [9]]%Z.
Definition ex_responses : list Res :=
  let check (tx : bytes) : Res := @ResCheckTx ex_messages tx in
  [check [1]; @ResBeginBlock ex_messages tt; check [2]; @ResDeliverTx ex_messages [1]; check [3]]%Z.

Lemma ABCI_check_tx_isolated_witness :
  run_all ex_requests ex_machine = (Ok ex_responses, (run_all ex_requests ex_machine).2) /\
  exists sm'', run_all [@ReqBeginBlock ex_messages (Some 5); @ReqDeliverTx ex_messages [7]]%Z ex_machine
    = (Ok [@ResBeginBlock ex_messages tt; @ResDeliverTx ex_messages [1]]%Z, sm'') /\
    consensus_state sm'' = Some [] /\ sm_header sm'' = Some 5%Z.
Proof.
  assert (Hr : run_all ex_requests ex_machine = (Ok ex_responses, (run_all ex_requests ex_machine).2))
    by (vm_compute; done).
  split; [exact Hr|].
  destruct (ABCI_check_tx_isolated ex_requests ex_machine ex_responses _ Hr)
    as (sm'' & Hf & _ & Hc & _ & Hh).
  exists sm''. split; [exact Hf|]. rewrite Hc, Hh. vm_compute. done.
Defined.
