(* ===== verification/MerkStore.v ===== *)
(** * The Merk-backed store ([src/merk/store.rs], [src/merk/snapshot.rs])

    [MerkStore] keeps writes in a pending map until [write] applies them to the
    Merk tree. The [merk] crate, RocksDB's raw iterator, the hash function, the
    clock and the files under the store's directory are parameters ([MerkLib]);
    [ms_disk] stands for those files. Loading snapshots from disk and the
    constructors that open a database ([Snapshots::load], [MerkStore::new],
    [open_readonly], [init_from]) are not modelled. *)

From stdpp Require Import base tactics numbers list strings gmap pretty.
From Stdlib Require Import ZArith Lia.
From S2P Require Import Prelude Bytes BTree StoreIface StoreIter NullStore BufStore Codec AbciStore.

(** ** What the source uses of other crates *)

(** [merk::Op] *)
Inductive Op :=
| OpPut (value : bytes)
| OpDelete.

Class MerkLib := {
  Merk : Type;
  Merk_get : Merk -> bytes -> res (option bytes);
  Merk_get_aux : Merk -> bytes -> res (option bytes);
  Merk_apply : list (bytes * Op) -> list (bytes * Op) -> M Merk unit;
  Merk_flush : M Merk unit;
  Merk_root_hash : Merk -> bytes;
  (** [chunks()?.len()] and [chunks()?.chunk(index)?] *)
  Merk_chunks_len : Merk -> res Z;
  Merk_chunk : Merk -> Z -> res bytes;
  (** [merk::snapshot::StaticSnapshot] *)
  StaticSnapshot : Type;
  Merk_snapshot : Merk -> res StaticSnapshot;
  (** [rocksdb::DBRawIterator], and the value of a decoded [Tree] node *)
  DBRawIterator : Type;
  Merk_raw_iter : Merk -> DBRawIterator;
  It_seek : bytes -> DBRawIterator -> DBRawIterator;
  It_seek_to_last : DBRawIterator -> DBRawIterator;
  It_next : DBRawIterator -> DBRawIterator;
  It_prev : DBRawIterator -> DBRawIterator;
  It_valid : DBRawIterator -> bool;
  It_status : DBRawIterator -> res unit;
  It_key : DBRawIterator -> option bytes;
  It_value : DBRawIterator -> option bytes;
  Tree_decode_value : bytes -> bytes;
  (** [Sha512_256] *)
  Sha512_256 : bytes -> bytes;
  (** The files under the store's directory, and the clock. *)
  Disk : Type;
  now_secs : Disk -> Z;
  Merk_checkpoint : Merk -> string -> M Disk Merk;
  Merk_open : string -> M Disk Merk;
  Merk_destroy : Merk -> M Disk unit;
  Path_exists : string -> Disk -> bool;
  remove_dir_all : string -> M Disk unit;
  fs_rename : string -> string -> M Disk unit;
  (** [merk::restore::Restorer] *)
  Restorer : Type;
  Restorer_new : string -> bytes -> Z -> M Disk Restorer;
  Restorer_process_chunk : bytes -> M (Restorer * Disk) Z;
  Restorer_finalize : Restorer -> M Disk Merk
}.

(** Compile-time features. *)
Class Features := { state_sync : bool }.

Definition path_join (base name : string) : string := base +:+ "/" +:+ name.

(** ** [BTreeMap<u64, T>] *)

Definition ZTree (T : Type) : Type := list (Z * T).
Fixpoint zt_insert {T} (k : Z) (x : T) (m : ZTree T) : ZTree T :=
  match m with
  | [] => [(k, x)]
  | (j, y) :: m' =>
      if (k <? j)%Z then (k, x) :: m
      else if (k =? j)%Z then (k, x) :: m'
      else (j, y) :: zt_insert k x m'
  end.
Fixpoint zt_get {T} (k : Z) (m : ZTree T) : option T :=
  match m with
  | [] => None
  | (j, y) :: m' => if (k =? j)%Z then Some y else zt_get k m'
  end.
Definition zt_remove {T} (k : Z) (m : ZTree T) : ZTree T := filter (fun e => e.1 <> k) m.

Definition SNAPSHOT_INTERVAL : Z := 1000.
Definition FIRST_SNAPSHOT_HEIGHT : Z := 2.

(** ** [src/merk/snapshot.rs] *)

Section Snapshot.
Context `{MerkLib} `{Profile}.

(** [merk::snapshot::Snapshot] of the source: a checkpoint with its chunk count
    and root hash. *)
Record MerkSnapshot := mkMerkSnapshot { ss_checkpoint : Merk; ss_length : Z; ss_hash : bytes }.

Definition Snapshot_new (checkpoint : Merk) : res MerkSnapshot :=
  let? len := Merk_chunks_len checkpoint in
  Ok (mkMerkSnapshot checkpoint (len mod 2 ^ 32)%Z (Merk_root_hash checkpoint)).
Definition Snapshot_chunk (s : MerkSnapshot) (index : Z) : res bytes := Merk_chunk (ss_checkpoint s) index.

Inductive SnapshotFilter :=
| FInterval (interval limit : Z)
| FSpecificHeight (height : Z) (keep_until : option Z).

(** [a % b] on [u64]. *)
Definition u64_rem (a b : Z) : res Z :=
  if (b =? 0)%Z then Panic "attempt to calculate the remainder with a divisor of zero" else Ok (a mod b)%Z.

Definition SnapshotFilter_should_create (f : SnapshotFilter) (height : Z) : res bool :=
  match f with
  | FInterval interval _ => let? r := u64_rem height interval in Ok (r =? 0)%Z
  | FSpecificHeight h _ => Ok (height =? h)%Z
  end.

Definition SnapshotFilter_should_keep (f : SnapshotFilter) (ss_height cur_height : Z) : res bool :=
  match f with
  | FInterval interval limit =>
      let? r := u64_rem ss_height interval in
      if (r =? 0)%Z then
        let? age := u64_sub cur_height ss_height in
        let? span := u64_op (interval * limit) in
        Ok (age <? span)%Z
      else Ok false
  | FSpecificHeight height keep_until =>
      Ok ((ss_height =? height)%Z && (if keep_until is Some n then (cur_height <? n)%Z else true))
  end.

(** [Iterator::any] with a predicate that can panic. *)
Fixpoint any_filter (p : SnapshotFilter -> res bool) (l : list SnapshotFilter) : res bool :=
  match l with
  | [] => Ok false
  | f :: l' => let? b := p f in if b : bool then Ok true else any_filter p l'
  end.

Record Snapshots := mkSnapshots {
  sss_snapshots : ZTree MerkSnapshot;
  sss_filters : list SnapshotFilter;
  sss_path : string
}.

Definition Snapshots_with_filters (s : Snapshots) (filters : list SnapshotFilter) : Snapshots :=
  mkSnapshots (sss_snapshots s) filters (sss_path s).
Definition Snapshots_get (s : Snapshots) (height : Z) : option MerkSnapshot :=
  zt_get height (sss_snapshots s).
Definition Snapshots_get_latest (s : Snapshots) : option (Z * MerkSnapshot) := last (sss_snapshots s).
Definition Snapshots_path (s : Snapshots) (height : Z) : string := path_join (sss_path s) (pretty height).

Definition Snapshots_should_create (s : Snapshots) (height : Z) : res bool :=
  if (0 <? height)%Z
  then any_filter (fun f => SnapshotFilter_should_create f height) (sss_filters s)
  else Ok false.
Definition Snapshots_should_keep (s : Snapshots) (ss_height cur_height : Z) : res bool :=
  any_filter (fun f => SnapshotFilter_should_keep f ss_height cur_height) (sss_filters s).

(** The heights [maybe_prune] removes. *)
Fixpoint prune_heights (s : Snapshots) (cur_height : Z) (l : ZTree MerkSnapshot) : res (list Z) :=
  match l with
  | [] => Ok []
  | (ss_height, _) :: l' =>
      let? keep := Snapshots_should_keep s ss_height cur_height in
      let? hs := prune_heights s cur_height l' in
      Ok (if keep : bool then hs else ss_height :: hs)
  end.
Fixpoint prune_each (heights : list Z) : M (Snapshots * Disk) unit := fun '(s, d) =>
  match heights with
  | [] => (Ok tt, (s, d))
  | ss_height :: heights' =>
      let s' := mkSnapshots (zt_remove ss_height (sss_snapshots s)) (sss_filters s) (sss_path s) in
      let path := Snapshots_path s' ss_height in
      if Path_exists path d then
        match remove_dir_all path d with
        | (Ok _, d') => prune_each heights' (s', d')
        | (Err e, d') => (Err e, (s', d'))
        | (Panic w, d') => (Panic w, (s', d'))
        end
      else prune_each heights' (s', d)
  end.
Definition Snapshots_maybe_prune (cur_height : Z) : M (Snapshots * Disk) unit :=
  do remove_heights <- readM (fun sd => prune_heights sd.1 cur_height (sss_snapshots sd.1));
  prune_each remove_heights.

Definition Snapshots_create (height : Z) (checkpoint : Merk) : M (Snapshots * Disk) unit := fun '(s, d) =>
  if zt_get height (sss_snapshots s) is Some _ then (Ok tt, (s, d))
  else
    (do snapshot <- liftM (Snapshot_new checkpoint);
     run (fun '(s, d) => (Ok tt, (mkSnapshots (zt_insert height snapshot (sss_snapshots s))
                                    (sss_filters s) (sss_path s), d)));
     Snapshots_maybe_prune height) (s, d).

Context `{Messages}.
Definition canonical_height (height : Z) : bool :=
  ((height mod SNAPSHOT_INTERVAL =? 0) || (height =? FIRST_SNAPSHOT_HEIGHT))%Z.
Definition Snapshots_abci_snapshots (s : Snapshots) : res (list Snapshot) :=
  Ok (map (fun e => Snapshot_of (ss_length e.2) (ss_hash e.2) e.1)
        (filter (fun e => canonical_height e.1 = true) (sss_snapshots s))).
Definition Snapshots_abci_load_chunk (s : Snapshots) (req : RequestLoadSnapshotChunk) : res bytes :=
  match zt_get (RequestLoadSnapshotChunk_height req) (sss_snapshots s) with
  | Some snapshot => Snapshot_chunk snapshot (RequestLoadSnapshotChunk_chunk req)
  | None => Ok []
  end.
End Snapshot.

(** ** Reading through the raw iterator *)

Section RawReads.
Context `{MerkLib}.

Definition raw_entry (iter : DBRawIterator) : res (option KV) :=
  let? key := unwrap (It_key iter) "called `Option::unwrap()` on a `None` value" in
  let? tree_bytes := unwrap (It_value iter) "called `Option::unwrap()` on a `None` value" in
  Ok (Some (key, Tree_decode_value tree_bytes)).

Definition raw_get_next (iter : DBRawIterator) (start : bytes) : res (option KV) :=
  let iter := It_seek start iter in
  if negb (It_valid iter) then let? _ := It_status iter in Ok None
  else
    let? key := unwrap (It_key iter) "called `Option::unwrap()` on a `None` value" in
    if beqb key start then
      let iter := It_next iter in
      if negb (It_valid iter) then let? _ := It_status iter in Ok None
      else raw_entry iter
    else raw_entry iter.

Definition raw_get_prev (iter : DBRawIterator) (end_ : option bytes) : res (option KV) :=
  match end_ with
  | Some key =>
      let iter := It_seek key iter in
      if negb (It_valid iter) then let? _ := It_status iter in Ok None
      else
        let? k := unwrap (It_key iter) "called `Option::unwrap()` on a `None` value" in
        if beqb k key then
          let iter := It_prev iter in
          if negb (It_valid iter) then let? _ := It_status iter in Ok None
          else raw_entry iter
        else raw_entry iter
  | None =>
      let iter := It_seek_to_last iter in
      if negb (It_valid iter) then let? _ := It_status iter in Ok None
      else raw_entry iter
  end.
End RawReads.

(** ** [MerkStore] *)

Section MerkStore.
Context `{MerkLib} `{Messages} `{Profile} `{Features}.

Record MerkStore := mkMerkStore {
  ms_merk : option Merk;
  ms_home : string;
  ms_map : option (BTree (option bytes));
  ms_snapshots : Snapshots;
  ms_restorer : option Restorer;
  ms_target_snapshot : option Snapshot;
  ms_mem_snapshots : ZTree StaticSnapshot;
  ms_disk : Disk
}.

Definition ms_set_merk (x : option Merk) (s : MerkStore) : MerkStore :=
  mkMerkStore x (ms_home s) (ms_map s) (ms_snapshots s) (ms_restorer s) (ms_target_snapshot s)
    (ms_mem_snapshots s) (ms_disk s).
Definition ms_set_map (x : option (BTree (option bytes))) (s : MerkStore) : MerkStore :=
  mkMerkStore (ms_merk s) (ms_home s) x (ms_snapshots s) (ms_restorer s) (ms_target_snapshot s)
    (ms_mem_snapshots s) (ms_disk s).
Definition ms_set_snapshots (x : Snapshots * Disk) (s : MerkStore) : MerkStore :=
  mkMerkStore (ms_merk s) (ms_home s) (ms_map s) x.1 (ms_restorer s) (ms_target_snapshot s)
    (ms_mem_snapshots s) x.2.
Definition ms_set_restorer (x : option Restorer) (s : MerkStore) : MerkStore :=
  mkMerkStore (ms_merk s) (ms_home s) (ms_map s) (ms_snapshots s) x (ms_target_snapshot s)
    (ms_mem_snapshots s) (ms_disk s).
Definition ms_set_target_snapshot (x : option Snapshot) (s : MerkStore) : MerkStore :=
  mkMerkStore (ms_merk s) (ms_home s) (ms_map s) (ms_snapshots s) (ms_restorer s) x
    (ms_mem_snapshots s) (ms_disk s).
Definition ms_set_mem_snapshots (x : ZTree StaticSnapshot) (s : MerkStore) : MerkStore :=
  mkMerkStore (ms_merk s) (ms_home s) (ms_map s) (ms_snapshots s) (ms_restorer s) (ms_target_snapshot s)
    x (ms_disk s).
Definition ms_set_disk (x : Disk) (s : MerkStore) : MerkStore :=
  mkMerkStore (ms_merk s) (ms_home s) (ms_map s) (ms_snapshots s) (ms_restorer s) (ms_target_snapshot s)
    (ms_mem_snapshots s) x.

Definition unwrap_none {A} (o : option A) : res A := unwrap o "called `Option::unwrap()` on a `None` value".

(** [self.merk.as_mut().unwrap()] *)
Definition on_merk {A} (f : M Merk A) : M MerkStore A := fun s =>
  match ms_merk s with
  | Some m => let '(r, m') := f m in (r, ms_set_merk (Some m') s)
  | None => (unwrap_none None, s)
  end.
Definition on_disk {A} (f : M Disk A) : M MerkStore A := zoomM ms_disk ms_set_disk f.
Definition ms_update (f : MerkStore -> MerkStore) : M MerkStore unit := fun s => (Ok tt, f s).

(** [MerkStore::merk] and [into_merk] panic alike. *)
Definition MerkStore_merk (s : MerkStore) : res Merk := unwrap_none (ms_merk s).

Definition to_batch (i : list (bytes * option bytes)) : list (bytes * Op) :=
  map (fun e => (e.1, match e.2 with Some val => OpPut val | None => OpDelete end)) i.

Definition MerkStore_write (aux : list (bytes * option bytes)) : M MerkStore unit :=
  do map <- readM (fun s => unwrap_none (ms_map s));
  run ms_update (ms_set_map (Some []));
  on_merk (Merk_apply (to_batch map) (to_batch aux)).

Definition MerkStore_get (s : MerkStore) (key : bytes) : res (option bytes) :=
  let? map := unwrap_none (ms_map s) in
  match bt_get key map with
  | Some (Some value) => Ok (Some value)
  | Some None => Ok None
  | None => let? merk := unwrap_none (ms_merk s) in Merk_get merk key
  end.
Definition MerkStore_get_next (s : MerkStore) (start : bytes) : res (option KV) :=
  let? merk := MerkStore_merk s in raw_get_next (Merk_raw_iter merk) start.
Definition MerkStore_get_prev (s : MerkStore) (end_ : option bytes) : res (option KV) :=
  let? merk := MerkStore_merk s in raw_get_prev (Merk_raw_iter merk) end_.

Definition MerkStore_put (key value : bytes) : M MerkStore unit := fun s =>
  match ms_map s with
  | Some m => (Ok tt, ms_set_map (Some (bt_insert key (Some value) m)) s)
  | None => (unwrap_none None, s)
  end.
Definition MerkStore_delete (key : bytes) : M MerkStore unit := fun s =>
  match ms_map s with
  | Some m => (Ok tt, ms_set_map (Some (bt_insert key None m)) s)
  | None => (unwrap_none None, s)
  end.

#[export] Instance MerkStore_Read : Read MerkStore :=
  {| Read_get := MerkStore_get; Read_get_next := MerkStore_get_next; Read_get_prev := MerkStore_get_prev |}.
#[export] Instance MerkStore_Write : Write MerkStore :=
  {| Write_put := MerkStore_put; Write_delete := MerkStore_delete |}.

(** [b"ibc"], [b"height"] *)
Definition ibc_bytes : bytes := [105; 98; 99]%Z.
Definition height_key : bytes := [104; 101; 105; 103; 104; 116]%Z.
Definition calc_app_hash (merk_root : bytes) : bytes := Sha512_256 (ibc_bytes ++ merk_root).

(** [copy_from_slice] panics when the lengths differ. *)
Definition read_u64 (bs : bytes) : res Z :=
  if decide (length bs = 8) then Ok (from_be_bytes bs)
  else Panic "copy_from_slice: source slice length does not match destination slice length".

Definition MerkStore_height (s : MerkStore) : res Z :=
  let? merk := MerkStore_merk s in
  let? maybe_bytes := Merk_get_aux merk height_key in
  match maybe_bytes with
  | None => Ok 0%Z
  | Some bs => read_u64 bs
  end.

Definition MerkStore_root_hash (s : MerkStore) : res bytes :=
  let? merk := unwrap_none (ms_merk s) in Ok (calc_app_hash (Merk_root_hash merk)).

(** [while self.mem_snapshots.len() > 20 { pop_first }] *)
Fixpoint prune_mem_snapshots {T} (m : ZTree T) : ZTree T :=
  if (20 <? length m)%nat then match m with [] => [] | _ :: m' => prune_mem_snapshots m' end else m.

Definition MerkStore_commit (header : Header) : M MerkStore unit :=
  let height := wrap64 (Header_height header) in
  run MerkStore_write [(height_key, Some (to_be_bytes 8 height))];
  run on_merk Merk_flush;
  do secs <- readM (fun s => Ok (wrap_i64 (now_secs (ms_disk s))));
  do time <- liftM (unwrap_none (Header_time_seconds header));
  do age <- liftM (i64_sub secs time);
  let recent := (age <? 10)%Z in
  run (if state_sync then
         if recent then
           do create <- readM (fun s => Snapshots_should_create (ms_snapshots s) height);
           if create : bool then
             do path <- readM (fun s => Ok (Snapshots_path (ms_snapshots s) height));
             do merk <- readM MerkStore_merk;
             do checkpoint <- on_disk (Merk_checkpoint merk path);
             zoomM (fun s => (ms_snapshots s, ms_disk s)) ms_set_snapshots (Snapshots_create height checkpoint)
           else retM tt
         else retM tt
       else retM tt);
  do snapshot <- readM (fun s => let? merk := MerkStore_merk s in Merk_snapshot merk);
  run ms_update (fun s => ms_set_mem_snapshots (zt_insert height snapshot (ms_mem_snapshots s)) s);
  ms_update (fun s => ms_set_mem_snapshots (prune_mem_snapshots (ms_mem_snapshots s)) s).

Definition MerkStore_list_snapshots (s : MerkStore) : res (list Snapshot) :=
  Snapshots_abci_snapshots (ms_snapshots s).
Definition MerkStore_load_snapshot_chunk (s : MerkStore) (req : RequestLoadSnapshotChunk) : res bytes :=
  Snapshots_abci_load_chunk (ms_snapshots s) req.

Definition MerkStore_offer_snapshot (req : RequestOfferSnapshot) : M MerkStore ResponseOfferSnapshot :=
  match RequestOfferSnapshot_snapshot req with
  | Some snapshot =>
      if canonical_height (Snapshot_height snapshot)
         && beqb (calc_app_hash (Snapshot_hash snapshot)) (RequestOfferSnapshot_app_hash req)
      then
        run ms_update (ms_set_target_snapshot (Some snapshot));
        retM ResponseOfferSnapshot_accept
      else retM ResponseOfferSnapshot_reject
  | None => retM ResponseOfferSnapshot_reject
  end.

(** [self.restorer.as_mut().unwrap().process_chunk(..)] *)
Definition process_chunk (chunk : bytes) : M MerkStore Z := fun s =>
  match ms_restorer s with
  | Some restorer =>
      let '(r, (restorer', d)) := Restorer_process_chunk chunk (restorer, ms_disk s) in
      (r, ms_set_disk d (ms_set_restorer (Some restorer') s))
  | None => (unwrap_none None, s)
  end.

Definition MerkStore_apply_snapshot_chunk (req : RequestApplySnapshotChunk) : M MerkStore unit :=
  do restore_path <- readM (fun s => Ok (path_join (ms_home s) "restore"));
  do target_snapshot <- readM (fun s => unwrap (ms_target_snapshot s)
    "Tried to apply a snapshot chunk while no state sync is in progress");
  do restorer <- readM (fun s => Ok (ms_restorer s));
  run (match restorer with
       | Some _ => retM tt
       | None =>
           if decide (length (Snapshot_hash target_snapshot) = 32) then
             do restorer <- on_disk (Restorer_new restore_path (Snapshot_hash target_snapshot)
                                       (Snapshot_chunks target_snapshot));
             ms_update (ms_set_restorer (Some restorer))
           else errM (EStore "Failed to convert expected root hash")
       end);
  do chunks_remaining <- process_chunk (RequestApplySnapshotChunk_chunk req);
  if (chunks_remaining =? 0)%Z then
    do restorer <- readM (fun s => unwrap_none (ms_restorer s));
    run ms_update (ms_set_restorer None);
    run on_disk (Restorer_finalize restorer);
    do merk <- readM (fun s => unwrap_none (ms_merk s));
    run ms_update (ms_set_merk None);
    run on_disk (Merk_destroy merk);
    do db_path <- readM (fun s => Ok (path_join (ms_home s) "db"));
    run on_disk (fs_rename restore_path db_path);
    do merk <- on_disk (Merk_open db_path);
    run ms_update (ms_set_merk (Some merk));
    do target <- readM (fun s => unwrap_none (ms_target_snapshot s));
    run MerkStore_write [(height_key, Some (to_be_bytes 8 (Snapshot_height target)))];
    on_merk Merk_flush
  else retM tt.

#[export] Instance MerkStore_ABCIStore : ABCIStore MerkStore :=
  {| ABCIStore_height := MerkStore_height;
     ABCIStore_root_hash := MerkStore_root_hash;
     ABCIStore_commit := MerkStore_commit;
     ABCIStore_list_snapshots := MerkStore_list_snapshots;
     ABCIStore_load_snapshot_chunk := MerkStore_load_snapshot_chunk;
     ABCIStore_offer_snapshot := MerkStore_offer_snapshot;
     ABCIStore_apply_snapshot_chunk := MerkStore_apply_snapshot_chunk |}.
End MerkStore.
