(* ===== verification/MerkSpec.v ===== *)
(** * What the Merk-backed store guarantees

    [MerkLaws] states what the source relies on of the [merk] crate and of
    RocksDB's iterator. Over it, lookups see pending writes but iteration does
    not, [commit] persists exactly the pending writes and the height, and the
    store keeps the laws the ABCI machine's theorems need for handlers that do
    not iterate. *)

From stdpp Require Import base tactics numbers list strings gmap pretty sorting.
From Stdlib Require Import ZArith Lia.
From S2P Require Import Prelude Bytes BTree StoreIface StoreIter NullStore BufStore Codec AbciStore Abci AbciSpec MerkStore.

(** ** The laws of the crate *)

Definition batch_sorted (b : list (bytes * Op)) : Prop := StronglySorted (fun x y => blt x.1 y.1) b.
Definition apply_op (v : View) (e : bytes * Op) : View :=
  match e.2 with OpPut x => <[e.1 := x]> v | OpDelete => delete e.1 v end.
Definition apply_batch (b : list (bytes * Op)) (v : View) : View := fold_left apply_op b v.

Class MerkLaws `{MerkLib} := {
  merk_inv : Merk -> Prop;
  merk_view : Merk -> View;
  aux_view : Merk -> View;
  merk_get_law m k : merk_inv m -> Merk_get m k = Ok (merk_view m !! k);
  merk_get_aux_law m k : merk_inv m -> Merk_get_aux m k = Ok (aux_view m !! k);
  (** A batch has to be sorted by key, without duplicates. *)
  merk_apply_law m b a :
    merk_inv m -> batch_sorted b -> batch_sorted a ->
    exists m', Merk_apply b a m = (Ok tt, m') /\ merk_inv m' /\
      merk_view m' = apply_batch b (merk_view m) /\ aux_view m' = apply_batch a (aux_view m);
  merk_flush_law m :
    merk_inv m -> exists m', Merk_flush m = (Ok tt, m') /\ merk_inv m' /\
      merk_view m' = merk_view m /\ aux_view m' = aux_view m;
  merk_snapshot_law m : merk_inv m -> exists ss, Merk_snapshot m = Ok ss;
  (** The iterator ranges over the encoded nodes; [it_cur] is the entry it is
      at. *)
  it_view : DBRawIterator -> View;
  it_cur : DBRawIterator -> option KV;
  raw_iter_law m : merk_inv m -> Tree_decode_value <$> it_view (Merk_raw_iter m) = merk_view m;
  it_seek_law it k : it_view (It_seek k it) = it_view it /\ is_first (it_view it) (ble k) (it_cur (It_seek k it));
  it_seek_to_last_law it : is_last (it_view it) (before None) (it_cur (It_seek_to_last it));
  it_next_law it k x : it_cur it = Some (k, x) -> is_first (it_view it) (blt k) (it_cur (It_next it));
  it_prev_law it k x : it_cur it = Some (k, x) -> is_last (it_view it) (before (Some k)) (it_cur (It_prev it));
  it_valid_law it : It_valid it = if it_cur it is Some _ then true else false;
  it_status_law it : It_status it = Ok tt;
  it_key_law it : It_key it = fst <$> it_cur it;
  it_value_law it : It_value it = snd <$> it_cur it;
  now_law d : (0 <= now_secs d <= i64_max)%Z
}.

(** ** Batches *)

Lemma to_batch_sorted m : bt_wf m -> batch_sorted (to_batch m).
Proof.
  unfold to_batch. induction 1 as [|[k o] m Hm IH Hf]; simpl; [constructor|].
  constructor; [done|]. by apply Forall_map.
Qed.

Lemma apply_to_batch m : forall v, bt_wf m -> apply_batch (to_batch m) v = overlay (bt_map m) v.
Proof.
  induction m as [|[k o] m IH]; intros v Hm; [by rewrite overlay_empty|].
  pose proof (bt_map_head _ _ _ Hm) as Hk. apply bt_wf_cons in Hm as [Hm _].
  unfold apply_batch in *. cbn [to_batch map fold_left]. fold (to_batch m). rewrite IH by done.
  rewrite bt_map_cons. destruct o as [x|]; unfold apply_op; simpl.
  - by rewrite overlay_push_some.
  - by rewrite overlay_push_none.
Qed.

Section Merk.
Context `{Lib : MerkLib} `{ML : !MerkLaws} `{Msgs : Messages} `{Prof : Profile} `{Feat : Features}.
Implicit Types (s : MerkStore) (m : Merk).

(** ** Reading *)

(** Decoding the nodes does not change which entry is first or last. *)
Lemma is_first_decode (f : bytes -> bytes) v P r :
  is_first v P r -> is_first (f <$> v) P (prod_map id f <$> r).
Proof.
  destruct r as [[k x]|]; simpl.
  - intros (H1 & H2 & H3). rewrite lookup_fmap, H1. split_and!; [done..|].
    intros j y. rewrite lookup_fmap, fmap_Some. intros (z & Hz & _). by eapply H3.
  - intros Hn j y. rewrite lookup_fmap, fmap_Some. intros (z & Hz & _). by eapply Hn.
Qed.
Lemma is_last_decode (f : bytes -> bytes) v P r :
  is_last v P r -> is_last (f <$> v) P (prod_map id f <$> r).
Proof.
  destruct r as [[k x]|]; simpl.
  - intros (H1 & H2 & H3). rewrite lookup_fmap, H1. split_and!; [done..|].
    intros j y. rewrite lookup_fmap, fmap_Some. intros (z & Hz & _). by eapply H3.
  - intros Hn j y. rewrite lookup_fmap, fmap_Some. intros (z & Hz & _). by eapply Hn.
Qed.

(** What the read functions return once the iterator is where it should be. *)
Lemma raw_entry_cur it :
  (if negb (It_valid it) then (let? _ := It_status it in Ok None) else raw_entry it)
    = Ok (prod_map id Tree_decode_value <$> it_cur it).
Proof.
  unfold raw_entry. rewrite it_valid_law, it_status_law, it_key_law, it_value_law.
  by destruct (it_cur it) as [[k x]|].
Qed.

Lemma raw_get_next_spec it k :
  exists r, raw_get_next it k = Ok r /\ is_first (Tree_decode_value <$> it_view it) (blt k) r.
Proof.
  destruct (it_seek_law it k) as [Hv Hs]. unfold raw_get_next.
  pose proof (raw_entry_cur (It_seek k it)) as He. rewrite it_valid_law in *. rewrite it_status_law in *.
  destruct (it_cur (It_seek k it)) as [[j x]|] eqn:Hc; simpl in *.
  - rewrite it_key_law, Hc. simpl. destruct (beqb_spec j k) as [->|Hne].
    + rewrite raw_entry_cur. eexists. split; [done|]. apply is_first_decode. rewrite <- Hv.
      by eapply it_next_law.
    + rewrite He. eexists. split; [done|].
      apply (is_first_decode Tree_decode_value (it_view it) (blt k) (Some (j, x))).
      destruct Hs as (H1 & [Hlt|Heq] & H3); [|congruence]. split_and!; [done..|].
      intros i y Hi Hki. apply (H3 i y Hi). by left.
  - exists None. split; [done|]. apply (is_first_decode Tree_decode_value (it_view it) (blt k) None).
    intros i y Hi Hki. apply (Hs i y Hi). by left.
Qed.

(** [get_prev] is right at a key that is stored. *)
Lemma raw_get_prev_present it k x :
  it_view it !! k = Some x ->
  exists r, raw_get_prev it (Some k) = Ok r /\ is_last (Tree_decode_value <$> it_view it) (before (Some k)) r.
Proof.
  intros Hk. destruct (it_seek_law it k) as [Hv Hs]. unfold raw_get_prev. rewrite it_valid_law.
  destruct (it_cur (It_seek k it)) as [[j y]|] eqn:Hc; [|by destruct (Hs k x Hk (ble_refl k))].
  simpl. rewrite it_key_law, Hc. simpl. destruct Hs as (H1 & H2 & H3).
  assert (j = k) as -> by (pose proof (H3 k x Hk (ble_refl k)); border).
  destruct (beqb_spec k k) as [_|]; [|done]. rewrite raw_entry_cur.
  eexists. split; [done|]. apply is_last_decode. rewrite <- Hv. by eapply it_prev_law.
Qed.

(** At any other key it answers with the entry after it. *)
Lemma raw_get_prev_absent it k :
  it_view it !! k = None ->
  exists r, raw_get_prev it (Some k) = Ok r /\ is_first (Tree_decode_value <$> it_view it) (blt k) r.
Proof.
  intros Hk. destruct (it_seek_law it k) as [Hv Hs]. unfold raw_get_prev.
  pose proof (raw_entry_cur (It_seek k it)) as He. rewrite it_valid_law in *. rewrite it_status_law in *.
  destruct (it_cur (It_seek k it)) as [[j x]|] eqn:Hc; simpl in *.
  - rewrite it_key_law, Hc. simpl. destruct Hs as (H1 & H2 & H3).
    destruct (beqb_spec j k) as [->|Hne]; [congruence|]. rewrite He. eexists. split; [done|].
    apply (is_first_decode Tree_decode_value (it_view it) (blt k) (Some (j, x))).
    destruct H2 as [Hlt|Heq]; [|congruence]. split_and!; [done..|].
    intros i y Hi Hki. apply (H3 i y Hi). by left.
  - exists None. split; [done|]. apply (is_first_decode Tree_decode_value (it_view it) (blt k) None).
    intros i y Hi Hki. apply (Hs i y Hi). by left.
Qed.

Lemma raw_get_prev_end it :
  exists r, raw_get_prev it None = Ok r /\ is_last (Tree_decode_value <$> it_view it) (before None) r.
Proof.
  unfold raw_get_prev. rewrite raw_entry_cur. eexists. split; [done|].
  apply is_last_decode, it_seek_to_last_law.
Qed.

(** ** The store's invariant and view *)

(** The store holds a sorted pending map [p] over the tree [m]. *)
Definition MerkStore_holds s (p : BTree (option bytes)) m : Prop :=
  ms_map s = Some p /\ ms_merk s = Some m /\ bt_wf p /\ merk_inv m.

Lemma MerkStore_get_spec s p m k :
  MerkStore_holds s p m -> MerkStore_get s k = Ok (overlay (bt_map p) (merk_view m) !! k).
Proof.
  intros (Hp & Hm & Hwf & Hi). unfold MerkStore_get, unwrap_none. rewrite Hp, Hm. simpl.
  rewrite bt_get_lookup, overlay_lookup.
  destruct (bt_map p !! k) as [[x|]|]; [done..|]. by apply merk_get_law.
Qed.

Lemma MerkStore_reads_tree s p m :
  MerkStore_holds s p m ->
  (forall k, MerkStore_get s k = Ok (overlay (bt_map p) (merk_view m) !! k)) /\
  (forall k, exists r, MerkStore_get_next s k = Ok r /\ is_first (merk_view m) (blt k) r) /\
  (forall k, is_Some (merk_view m !! k) ->
     exists r, MerkStore_get_prev s (Some k) = Ok r /\ is_last (merk_view m) (before (Some k)) r) /\
  (forall k, merk_view m !! k = None ->
     exists r, MerkStore_get_prev s (Some k) = Ok r /\ is_first (merk_view m) (blt k) r) /\
  (exists r, MerkStore_get_prev s None = Ok r /\ is_last (merk_view m) (before None) r).
Proof.
  intros Hs. pose proof Hs as (Hp & Hm & Hwf & Hi). pose proof (raw_iter_law m Hi) as Hv.
  split; [intros k; by apply MerkStore_get_spec|].
  unfold MerkStore_get_next, MerkStore_get_prev, MerkStore_merk, unwrap_none.
  rewrite Hm. cbn [unwrap res_bind]. rewrite <- Hv. split_and!.
  - intros k. apply raw_get_next_spec.
  - intros k [x Hx]. rewrite lookup_fmap, fmap_Some in Hx. destruct Hx as (y & Hy & _).
    by eapply raw_get_prev_present.
  - intros k Hk. rewrite lookup_fmap, fmap_None in Hk. by apply raw_get_prev_absent.
  - apply raw_get_prev_end.
Qed.

(** how reads see pending writes. [get] reads the pending writes over the
    tree. Iteration does not: [get_next] answers from the tree alone, so a pending
    entry is skipped and a deleted one still found. [get_prev] is the greatest
    entry of the tree before the key when the tree holds that very key, or with no
    key at all; at any other key it answers with the entry after it, not
    before. *)
Theorem MerkStore_reads s p m :
  MerkStore_holds s p m ->
  (forall k, MerkStore_get s k = Ok (overlay (bt_map p) (merk_view m) !! k)) /\
  (forall k, exists r, MerkStore_get_next s k = Ok r /\ is_first (merk_view m) (blt k) r) /\
  (forall k, is_Some (merk_view m !! k) ->
     exists r, MerkStore_get_prev s (Some k) = Ok r /\ is_last (merk_view m) (before (Some k)) r) /\
  (forall k, merk_view m !! k = None ->
     exists r, MerkStore_get_prev s (Some k) = Ok r /\ is_first (merk_view m) (blt k) r) /\
  (exists r, MerkStore_get_prev s None = Ok r /\ is_last (merk_view m) (before None) r).
Proof. apply MerkStore_reads_tree. Qed.

(** ** Writing and committing *)

Lemma MerkStore_put_spec s p m k x :
  MerkStore_holds s p m ->
  exists s', MerkStore_put k x s = (Ok tt, s') /\ MerkStore_holds s' (bt_insert k (Some x) p) m.
Proof.
  intros (Hp & Hm & Hwf & Hi). unfold MerkStore_put. rewrite Hp. eexists. split; [done|].
  split_and!; simpl; auto with orga.
Qed.
Lemma MerkStore_delete_spec s p m k :
  MerkStore_holds s p m ->
  exists s', MerkStore_delete k s = (Ok tt, s') /\ MerkStore_holds s' (bt_insert k None p) m.
Proof.
  intros (Hp & Hm & Hwf & Hi). unfold MerkStore_delete. rewrite Hp. eexists. split; [done|].
  split_and!; simpl; auto with orga.
Qed.

Lemma MerkStore_write_spec s p m aux :
  MerkStore_holds s p m -> bt_wf aux ->
  exists m', MerkStore_write aux s = (Ok tt, ms_set_merk (Some m') (ms_set_map (Some []) s)) /\
    merk_inv m' /\ merk_view m' = overlay (bt_map p) (merk_view m) /\
    aux_view m' = overlay (bt_map aux) (aux_view m).
Proof.
  intros (Hp & Hm & Hwf & Hi) Ha.
  destruct (merk_apply_law m (to_batch p) (to_batch aux) Hi) as (m' & Hap & Hi' & Hv & Hav);
    [by apply to_batch_sorted..|].
  exists m'. rewrite Hv, Hav, !apply_to_batch by done. split_and!; [|done..].
  unfold MerkStore_write, bindM, readM, ms_update, on_merk, unwrap_none. rewrite Hp. cbn. by rewrite Hm, Hap.
Qed.

Lemma wrap64_range z : uint_range 8 (wrap64 z) = true.
Proof.
  unfold uint_range, wrap64. change (256 ^ Z.of_nat 8)%Z with (2 ^ 64)%Z.
  pose proof (Z.mod_pos_bound z (2 ^ 64) ltac:(lia)). lia.
Qed.

Lemma prune_mem_snapshots_length {T} (l : ZTree T) : length (prune_mem_snapshots l) <= 20.
Proof.
  induction l as [|e l IH]; cbn [prune_mem_snapshots]; [simpl; lia|].
  destruct (Nat.ltb_spec 20 (length (e :: l))); [exact IH|lia].
Qed.

(** The headers [commit] accepts: with a time that is not before the epoch. *)
Definition header_ok (h : Header) : Prop := exists t, Header_time_seconds h = Some t /\ (0 <= t <= i64_max)%Z.

Lemma header_age h d : header_ok h ->
  exists t age, Header_time_seconds h = Some t /\ i64_sub (wrap_i64 (now_secs d)) t = Ok age.
Proof.
  intros (t & Ht & Hr). exists t. eexists. split; [done|]. pose proof (now_law d) as Hn.
  assert (wrap_i64 (now_secs d) = now_secs d) as ->.
  { unfold wrap_i64, i64_max in *. rewrite Z.mod_small; lia. }
  apply i64_op_ok. unfold is_i64, i64_min, i64_max in *. lia.
Qed.

Lemma MerkStore_commit_spec s p m h :
  state_sync = false -> MerkStore_holds s p m -> header_ok h ->
  exists s' m', MerkStore_commit h s = (Ok tt, s') /\ MerkStore_holds s' [] m' /\
    merk_view m' = overlay (bt_map p) (merk_view m) /\
    aux_view m' = <[height_key := to_be_bytes 8 (wrap64 (Header_height h))]> (aux_view m) /\
    length (ms_mem_snapshots s') <= 20.
Proof.
  intros Hss Hs Hh. set (bs := to_be_bytes 8 (wrap64 (Header_height h))).
  destruct (MerkStore_write_spec s p m [(height_key, Some bs)] Hs) as (m1 & Hw & Hi1 & Hv1 & Ha1);
    [by repeat constructor|].
  destruct (merk_flush_law m1 Hi1) as (m2 & Hf & Hi2 & Hv2 & Ha2).
  destruct (merk_snapshot_law m2 Hi2) as (ss & Hsn).
  destruct (header_age h (ms_disk s) Hh) as (t & age & Ht & Hage).
  unfold MerkStore_commit. unfold bindM at 1. fold bs. rewrite Hw.
  unfold bindM, on_merk, readM, liftM, ms_update, unwrap_none, MerkStore_merk, retM. cbn.
  rewrite Hf, Ht. cbn. rewrite Hage, Hss. cbn. rewrite Hsn.
  eexists _, m2. split; [done|]. split_and!; simpl.
  - by split_and!; [|..|constructor|].
  - by rewrite Hv2.
  - rewrite Ha2, Ha1, bt_map_cons, overlay_insert_some. by rewrite overlay_empty.
  - apply prune_mem_snapshots_length.
Qed.

Lemma MerkStore_height_spec s p m z :
  MerkStore_holds s p m -> aux_view m !! height_key = Some (to_be_bytes 8 (wrap64 z)) ->
  MerkStore_height s = Ok (wrap64 z).
Proof.
  intros (Hp & Hm & Hwf & Hi) Ha. unfold MerkStore_height, MerkStore_merk, unwrap_none. rewrite Hm. cbn [unwrap res_bind].
  rewrite merk_get_aux_law, Ha by done. cbn [res_bind]. unfold read_u64.
  rewrite decide_True by apply to_be_bytes_length. by rewrite from_to_be_bytes by apply wrap64_range.
Qed.

(** [commit] moves the pending writes into the tree and nothing else: it
    succeeds, every lookup answers as before it, the tree alone now holds what the
    pending writes over the old tree were, so that iteration sees them too, the
    store is at the header's height, and at most twenty snapshots are kept in
    memory. *)
Theorem MerkStore_commit_persists s p m h :
  state_sync = false -> MerkStore_holds s p m -> header_ok h ->
  exists s' m', MerkStore_commit h s = (Ok tt, s') /\ MerkStore_holds s' [] m' /\
    (forall k, MerkStore_get s' k = MerkStore_get s k) /\
    (forall k, exists r, MerkStore_get_next s' k = Ok r /\
       is_first (overlay (bt_map p) (merk_view m)) (blt k) r) /\
    MerkStore_height s' = Ok (wrap64 (Header_height h)) /\
    length (ms_mem_snapshots s') <= 20.
Proof.
  intros Hss Hs Hh. destruct (MerkStore_commit_spec s p m h Hss Hs Hh) as (s' & m' & Hc & Hs' & Hv & Ha & Hl).
  exists s', m'. split_and!; [done..| | | |done].
  - intros k. erewrite !MerkStore_get_spec by done. by rewrite overlay_empty, Hv.
  - intros k. pose proof Hs' as (_ & Hm' & _ & Hi'). unfold MerkStore_get_next, MerkStore_merk, unwrap_none.
    rewrite Hm'. cbn [unwrap res_bind]. rewrite <- Hv, <- (raw_iter_law m' Hi'). apply raw_get_next_spec.
  - apply (MerkStore_height_spec s' [] m'); [done|]. by rewrite Ha, lookup_insert_eq.
Qed.

(** ** The interface to the ABCI machine *)

Definition MerkStore_view s : View :=
  overlay (bt_map (default [] (ms_map s))) (if ms_merk s is Some m then merk_view m else ∅).

Lemma MerkStore_holds_view s p m :
  MerkStore_holds s p m -> MerkStore_view s = overlay (bt_map p) (merk_view m).
Proof. intros (Hp & Hm & _). unfold MerkStore_view. by rewrite Hp, Hm. Qed.

(** Lookups and writes can be relied on, iteration cannot. *)
#[export] Instance MerkStore_StoreLaws : StoreLaws false MerkStore.
Proof.
  refine {| law_inv s := exists p m, MerkStore_holds s p m; law_view := MerkStore_view |}.
  - intros s k (p & m & Hs). rewrite (MerkStore_holds_view _ _ _ Hs). by apply MerkStore_get_spec.
  - done.
  - done.
  - intros s k x (p & m & Hs). destruct (MerkStore_put_spec s p m k x Hs) as (s' & Hp & Hs').
    exists s'. split_and!; [done|by eauto|].
    by rewrite (MerkStore_holds_view _ _ _ Hs), (MerkStore_holds_view _ _ _ Hs'), bt_insert_map, overlay_insert_some.
  - intros s k (p & m & Hs). destruct (MerkStore_delete_spec s p m k Hs) as (s' & Hp & Hs').
    exists s'. split_and!; [done|by eauto|].
    by rewrite (MerkStore_holds_view _ _ _ Hs), (MerkStore_holds_view _ _ _ Hs'), bt_insert_map, overlay_insert_none.
Defined.

Definition MerkStore_ABCIStoreLaws (Hss : state_sync = false) : ABCIStoreLaws false MerkStore.
Proof.
  refine {| law_header := header_ok |}.
  - intros s h (p & m & Hs) Hh.
    destruct (MerkStore_commit_spec s p m h Hss Hs Hh) as (s' & m' & Hc & Hs' & Hv & Ha & _).
    exists s'. split_and!; [done|exists [], m'; exact Hs'| |].
    + cbn. rewrite (MerkStore_holds_view _ _ _ Hs), (MerkStore_holds_view _ _ _ Hs'), overlay_empty. done.
    + apply (MerkStore_height_spec s' [] m'); [done|]. by rewrite Ha, lookup_insert_eq.
  - intros s (p & m & Hp & Hm & _). cbn. unfold MerkStore_root_hash, unwrap_none. rewrite Hm. by eexists.
Defined.
(** ** Transactions of one block

    Reads through a buffer with nothing in it. *)
Lemma wrap_get `{Read St} (t : St) k : Read_get (BufStore_wrap t) k = Read_get t k.
Proof. done. Qed.
Lemma wrap_get_next `{Read St} (t : St) k r :
  Read_get_next t k = Ok r -> (forall kv, r = Some kv -> blt k kv.1) -> Read_get_next (BufStore_wrap t) k = Ok r.
Proof.
  intros Hr Hin. cbn. unfold BufStore_get_next. cbn. unfold bindM, Peekable_peek, peekable, Iter_next. cbn. rewrite Hr.
  destruct r as [[j x]|]; cbn; [|done]. pose proof (Hin _ eq_refl) as Hlt. cbn in Hlt. unfold bounds_contains. cbn.
  by destruct (bltb_spec k j).
Qed.
Lemma wrap_get_prev `{Read St} (t : St) ko r :
  Read_get_prev t ko = Ok r -> (forall kv, r = Some kv -> before ko kv.1) -> Read_get_prev (BufStore_wrap t) ko = Ok r.
Proof.
  intros Hr Hin. cbn. unfold BufStore_get_prev. destruct ko as [k|]; cbn; unfold bindM, Peekable_peek, peekable, Iter_next_back; cbn; rewrite Hr.
  - destruct r as [[j x]|]; cbn; [|done]. pose proof (Hin _ eq_refl) as Hlt. cbn in Hlt. unfold bounds_contains. cbn.
    by destruct (bltb_spec j k).
  - by destruct r as [[j x]|].
Qed.
(** An answer that is not before the key is dropped. *)
Lemma wrap_get_prev_drop `{Read St} (t : St) k r :
  Read_get_prev t (Some k) = Ok r -> (forall kv, r = Some kv -> blt k kv.1) -> Read_get_prev (BufStore_wrap t) (Some k) = Ok None.
Proof.
  intros Hr Hout. cbn. unfold BufStore_get_prev. cbn. unfold bindM, Peekable_peek, peekable, Iter_next_back. cbn. rewrite Hr.
  destruct r as [[j x]|]; cbn; [|done]. pose proof (Hout _ eq_refl) as Hlt. cbn in Hlt. unfold bounds_contains. cbn.
  destruct (bltb_spec j k); [border|done].
Qed.

Lemma is_first_in v P r : is_first v P r -> forall kv, r = Some kv -> P kv.1.
Proof. intros Hr [j x] ->. apply Hr. Qed.
Lemma is_last_in v P r : is_last v P r -> forall kv, r = Some kv -> P kv.1.
Proof. intros Hr [j x] ->. apply Hr. Qed.

(** What a handler can read that starts when the buffers are empty. *)
Definition handler_store s : BufStore (BufStore MerkStore) := BufStore_wrap (BufStore_wrap_with_map s []).

Lemma handler_reads s p m :
  MerkStore_holds s p m ->
  (forall k, Read_get (handler_store s) k = Ok (overlay (bt_map p) (merk_view m) !! k)) /\
  (forall k, exists r, Read_get_next (handler_store s) k = Ok r /\ is_first (merk_view m) (blt k) r) /\
  (forall k, is_Some (merk_view m !! k) ->
     exists r, Read_get_prev (handler_store s) (Some k) = Ok r /\ is_last (merk_view m) (before (Some k)) r) /\
  (forall k, merk_view m !! k = None -> Read_get_prev (handler_store s) (Some k) = Ok None) /\
  (exists r, Read_get_prev (handler_store s) None = Ok r /\ is_last (merk_view m) (before None) r).
Proof.
  intros Hs. destruct (MerkStore_reads_tree s p m Hs) as (Hg & Hn & Hp & Ha & He).
  unfold handler_store. split_and!.
  - intros k. exact (Hg k).
  - intros k. destruct (Hn k) as (r & Hr & Hf). exists r. split; [|done].
    pose proof (is_first_in _ _ _ Hf). by apply wrap_get_next; [apply wrap_get_next|].
  - intros k Hk. destruct (Hp k Hk) as (r & Hr & Hf). exists r. split; [|done].
    pose proof (is_last_in _ _ _ Hf). by apply wrap_get_prev; [apply wrap_get_prev|].
  - intros k Hk. destruct (Ha k Hk) as (r & Hr & Hf). pose proof (is_first_in _ _ _ Hf).
    apply wrap_get_prev; [by eapply wrap_get_prev_drop|done].
  - destruct He as (r & Hr & Hf). exists r. split; [|done].
    pose proof (is_last_in _ _ _ Hf). by apply wrap_get_prev; [apply wrap_get_prev|].
Qed.

(** Flushing into the store leaves the tree alone. *)
Lemma flush_keeps_tree buf : forall s p m, MerkStore_holds s p m ->
  exists s' p', BufStore_flush_loop buf s = (Ok tt, mkBufStore [] s') /\ MerkStore_holds s' p' m.
Proof.
  induction buf as [|[k [x|]] buf IH]; intros s p m Hs; cbn [BufStore_flush_loop flush_entry]; [by exists s, p| |].
  - destruct (MerkStore_put_spec s p m k x Hs) as (s1 & Hp & Hs1). cbn. rewrite Hp. by eapply IH.
  - destruct (MerkStore_delete_spec s p m k Hs) as (s1 & Hp & Hs1). cbn. rewrite Hp. by eapply IH.
Qed.

Section Block.
Context `{Env}.
Implicit Types (sm : ABCIStateMachine MerkStore) (app : Application MerkStore).

(** A machine between two requests of a block, with the tree [m] below. *)
Definition over_tree sm app (c : BufStoreMap) (p : BTree (option bytes)) m : Prop :=
  sm_app sm = Some app /\ consensus_state sm = Some c /\ exists s, sm_store sm = Some s /\ MerkStore_holds s p m.

Lemma deliver_tx_over_tree tx sm app c p m r sm' :
  over_tree sm app c p m -> run_deliver_tx tx sm = (Ok r, sm') -> exists p', over_tree sm' app [] p' m.
Proof.
  destruct sm as [a st mp cs h sk hd]. intros (Ha & Hc & s & Hst & Hs) Hrun. simpl in *. subst.
  unfold run_deliver_tx, bindM, take_unwrap, liftM, modifyM, set_app, set_store, set_consensus_state in Hrun.
  cbn [fst snd unwrap sm_app sm_store consensus_state mempool_state sm_header sm_height skip_init_chain] in Hrun.
  pose proof (with_flush_store_keeps (deliver_tx app tx) (BufStore_wrap_with_map s c)) as Hk.
  destruct (run_prog _ _).1 as [x|?|?]; [destruct Hk as (b' & Hw & Hb')|by rewrite Hk in Hrun..].
  rewrite Hw in Hrun. cbn in Hb'. unfold flush_owned, BufStore_flush in Hrun. rewrite Hb' in Hrun.
  destruct (flush_keeps_tree (BufStore_map b') s p m Hs) as (s' & p' & Hf & Hs'). cbn in Hrun. rewrite Hf in Hrun.
  injection Hrun as <- <-. exists p'. split_and!; [done..|]. by exists s'.
Qed.

(** The state the lookups of the next handler see, for handlers that do not iterate. *)
Lemma deliver_tx_lookups tx sm app c p m r sm' :
  over_tree sm app c p m -> bt_wf c -> point_prog (deliver_tx app tx) -> run_deliver_tx tx sm = (Ok r, sm') ->
  exists x p', r = ResDeliverTx x /\ over_tree sm' app [] p' m /\
    exec (deliver_tx app tx) (overlay (bt_map c) (overlay (bt_map p) (merk_view m))) = (Ok x, overlay (bt_map p') (merk_view m)).
Proof.
  intros Ho Hc Hp Hrun. destruct (deliver_tx_over_tree tx sm app c p m r sm' Ho Hrun) as (p' & Ho').
  pose proof Ho' as (_ & _ & s2 & Hst2 & Hs2).
  destruct sm as [a st mp cs h sk hd], Ho as (Ha & Hcs & s & Hst & Hs). simpl in *. subst.
  unfold run_deliver_tx, bindM, take_unwrap, liftM, modifyM, set_app, set_store, set_consensus_state in Hrun.
  cbn [fst snd unwrap sm_app sm_store consensus_state mempool_state sm_header sm_height skip_init_chain] in Hrun.
  assert (Hinv : law_inv s) by (exists p, m; exact Hs).
  assert (Hview : law_view s = overlay (bt_map p) (merk_view m)) by exact (MerkStore_holds_view s p m Hs).
  pose proof (with_flush_store_exec (deliver_tx app tx) s c Hinv Hc (fun _ => Hp)) as Hw. rewrite Hview in Hw.
  destruct (exec (deliver_tx app tx) _) as [[x|?|?] v']; [destruct Hw as (c' & Hw & Hc' & Hv')|by rewrite Hw in Hrun..].
  rewrite Hw in Hrun. destruct (flush_owned_exec s c' Hinv Hc') as (s3 & Hf & Hs3 & Hv3).
  unfold BufStore_wrap_with_map in Hf. rewrite Hf in Hrun. injection Hrun as <- <-. cbn in Hst2. injection Hst2 as ->.
  exists x, p'. split_and!; [done..|]. do 2 f_equal. rewrite <- Hv', Hview in *. rewrite <- Hv3. exact (MerkStore_holds_view s2 p' m Hs2).
Qed.

Lemma deliver_txs_over_tree app m txs : forall sm c p ress sm',
  over_tree sm app c p m -> run_all (map ReqDeliverTx txs) sm = (Ok ress, sm') ->
  exists c' p', over_tree sm' app c' p' m /\ (txs = [] \/ c' = []) /\
    (bt_wf c -> (forall tx, point_prog (deliver_tx app tx)) ->
     bt_wf c' /\ exec_txs app txs (overlay (bt_map c) (overlay (bt_map p) (merk_view m))) =
       (Ok ress, overlay (bt_map c') (overlay (bt_map p') (merk_view m)))).
Proof.
  induction txs as [|tx txs IH]; intros sm c p ress sm' Ho Hrun.
  - injection Hrun as <- <-. exists c, p. split; [done|]. split; [by left|]. done.
  - apply bindM_ok in Hrun as (r & sm1 & Hr & Hrun). apply bindM_ok in Hrun as (rs & sm2 & Hrs & Hrun). injection Hrun as <- <-.
    change (run_deliver_tx tx sm = (Ok r, sm1)) in Hr.
    destruct (deliver_tx_over_tree tx sm app c p m r sm1 Ho Hr) as (p1 & Ho1).
    destruct (IH sm1 [] p1 rs sm2 Ho1 Hrs) as (c' & p' & Ho' & Hc' & Hex).
    exists c', p'. split; [done|]. split.
    { right. destruct Hc' as [->|]; [|done]. injection Hrs as _ <-. destruct Ho1 as (_ & Hc1 & _), Ho' as (_ & Hc2 & _). congruence. }
    intros Hwf Hp. destruct (deliver_tx_lookups tx sm app c p m r sm1 Ho Hwf (Hp tx) Hr) as (x & p1' & -> & Ho1' & Hx).
    assert (p1' = p1) as ->.
    { destruct Ho1 as (_ & _ & s1 & Hs1 & Hh1 & _), Ho1' as (_ & _ & s2 & Hs2 & Hh2 & _). congruence. }
    destruct (Hex ltac:(constructor) Hp) as [Hwf' Hrest]. split; [done|]. rewrite overlay_empty in Hrest.
    cbn [exec_txs]. unfold bindM. by rewrite Hx, Hrest.
Qed.

(** C29: within one block a transaction that iterates does not see what the transactions
    before it wrote. Whatever the handlers are, after any transactions that were delivered
    without an error the tree of the Merk store is the one of the last commit, and the
    handler of the next transaction iterates over that tree alone, in both directions:
    the entries that were written since are skipped and those that were deleted are still
    found. Its lookups see all of it: for handlers that do not iterate themselves they
    answer from the state the handlers leave when they are run one after the other. *)
Theorem ABCI_iteration_misses_earlier_tx sm app c p m tx txs ress sm' :
  over_tree sm app c p m -> run_all (map ReqDeliverTx (tx :: txs)) sm = (Ok ress, sm') ->
  exists s' p', sm_app sm' = Some app /\ sm_store sm' = Some s' /\ consensus_state sm' = Some [] /\ MerkStore_holds s' p' m /\
    (forall k, exists r, Read_get_next (handler_store s') k = Ok r /\ is_first (merk_view m) (blt k) r) /\
    (forall k, is_Some (merk_view m !! k) ->
       exists r, Read_get_prev (handler_store s') (Some k) = Ok r /\ is_last (merk_view m) (before (Some k)) r) /\
    (forall k, merk_view m !! k = None -> Read_get_prev (handler_store s') (Some k) = Ok None) /\
    (exists r, Read_get_prev (handler_store s') None = Ok r /\ is_last (merk_view m) (before None) r) /\
    (bt_wf c -> (forall tx, point_prog (deliver_tx app tx)) ->
     exists v', exec_txs app (tx :: txs) (overlay (bt_map c) (overlay (bt_map p) (merk_view m))) = (Ok ress, v') /\
       forall k, Read_get (handler_store s') k = Ok (v' !! k)).
Proof.
  intros Ho Hrun. destruct (deliver_txs_over_tree app m (tx :: txs) sm c p ress sm' Ho Hrun) as (c' & p' & Ho' & Hc0 & Hex).
  destruct Hc0 as [|Hc0]; [done|subst c'].
  destruct Ho' as (Ha & Hc & s' & Hst & Hs). destruct (handler_reads s' p' m Hs) as (Hg & Hn & Hp & Hab & He).
  exists s', p'. split_and!; [done..|]. intros Hwf Hpt. destruct (Hex Hwf Hpt) as [_ Hv]. rewrite overlay_empty in Hv.
  by eexists.
Qed.
End Block.
End Merk.

(** *** Witnesses: an in-memory tree that keeps the laws. *)
Definition mem_cur_next (v : View) (cur : option KV) : option KV :=
  if cur is Some (k, _) then view_next v k else None.
Definition mem_cur_prev (v : View) (cur : option KV) : option KV :=
  if cur is Some (k, _) then view_prev v (Some k) else None.
Definition mem_seek (v : View) (k : bytes) : option KV :=
  match v !! k with Some x => Some (k, x) | None => view_next v k end.

Definition mem_merk : MerkLib :=
  {| Merk := View * View;
     Merk_get m k := Ok (m.1 !! k); Merk_get_aux m k := Ok (m.2 !! k);
     Merk_apply b a m := (Ok tt, (apply_batch b m.1, apply_batch a m.2));
     Merk_flush m := (Ok tt, m); Merk_root_hash _ := [];
     Merk_chunks_len _ := Ok 0%Z; Merk_chunk _ _ := Ok [];
     StaticSnapshot := View; Merk_snapshot m := Ok m.1;
     DBRawIterator := View * option KV; Merk_raw_iter m := (m.1, None);
     It_seek k it := (it.1, mem_seek it.1 k);
     It_seek_to_last it := (it.1, view_prev it.1 None);
     It_next it := (it.1, mem_cur_next it.1 it.2); It_prev it := (it.1, mem_cur_prev it.1 it.2);
     It_valid it := if it.2 is Some _ then true else false; It_status _ := Ok tt;
     It_key it := fst <$> it.2; It_value it := snd <$> it.2;
     Tree_decode_value x := x; Sha512_256 x := x;
     Disk := unit; now_secs _ := 100%Z;
     Merk_checkpoint m _ d := (Ok m, d); Merk_open _ d := (Ok (∅, ∅), d); Merk_destroy _ d := (Ok tt, d);
     Path_exists _ _ := false; remove_dir_all _ d := (Ok tt, d); fs_rename _ _ d := (Ok tt, d);
     Restorer := unit; Restorer_new _ _ _ d := (Ok tt, d);
     Restorer_process_chunk _ rd := (Ok 0%Z, rd); Restorer_finalize _ d := (Ok (∅, ∅), d) |}.

Lemma mem_seek_first v k : is_first v (ble k) (mem_seek v k).
Proof.
  unfold mem_seek. destruct (v !! k) eqn:Hk; [by apply is_first_incl_here|].
  apply is_first_incl_next; [done|apply view_next_first].
Qed.

Definition mem_merk_laws : MerkLaws (H := mem_merk).
Proof.
  refine {| merk_inv := fun m : Merk (MerkLib := mem_merk) => True;
            merk_view := (fst : Merk (MerkLib := mem_merk) -> View);
            aux_view := (snd : Merk (MerkLib := mem_merk) -> View);
            it_view := (fst : DBRawIterator (MerkLib := mem_merk) -> View);
            it_cur := (snd : DBRawIterator (MerkLib := mem_merk) -> option KV) |}; try done.
  - intros m b a _ _ _. by eexists.
  - intros m _. by eexists.
  - intros m _. by eexists.
  - intros m _. apply map_fmap_id.
  - intros [v c] k. split; [done|]. apply mem_seek_first.
  - intros [v c]. apply view_prev_last.
  - intros [v c] k x [= ->]. apply view_next_first.
  - intros [v c] k x [= ->]. apply (view_prev_last v (Some k)).
Defined.

Section Examples.
#[local] Existing Instance mem_merk.
#[local] Existing Instance mem_merk_laws.
#[local] Existing Instance ex_messages.
#[local] Instance ex_profile : Profile := {| overflow_checks := true; debug_assertions := true |}.
#[local] Instance ex_features : Features := {| state_sync := false |}.
#[local] Existing Instance ex_env.

(** A store whose tree holds an entry at 1 and one at 5, with a pending write at
    3. *)
Definition ex_tree : View := <[ [1]%Z := [10]%Z ]> (<[ [5]%Z := [50]%Z ]> ∅).
Definition ex_merk (v : View) : Merk := ((v, ∅) : View * View).
Definition ex_merk_store : MerkStore :=
  mkMerkStore (Some (ex_merk ex_tree)) "home" (Some [([3]%Z, Some [30]%Z)]) (mkSnapshots [] [] "snapshots")
    None None [] (tt : Disk).

Lemma ex_merk_store_holds :
  MerkStore_holds ex_merk_store [([3]%Z, Some [30]%Z)] (ex_merk ex_tree).
Proof. split_and!; [done..|by repeat constructor|done]. Qed.

Definition ex_header : @Header ex_messages := 7%Z.

Lemma MerkStore_reads_witness :
  MerkStore_get ex_merk_store [3]%Z = Ok (Some [30]%Z) /\
  MerkStore_get_next ex_merk_store [1]%Z = Ok (Some ([5], [50])%Z) /\
  MerkStore_get_prev ex_merk_store (Some [3]%Z) = Ok (Some ([5], [50])%Z) /\
  exists r, MerkStore_get_prev ex_merk_store (Some [3]%Z) = Ok r /\ is_first ex_tree (blt [3]%Z) r.
Proof.
  destruct (MerkStore_reads ex_merk_store [([3]%Z, Some [30]%Z)] (ex_merk ex_tree) ex_merk_store_holds)
    as (_ & _ & _ & Hprev & _).
  split; [vm_compute; done|]. split; [vm_compute; done|]. split; [vm_compute; done|].
  apply Hprev. vm_compute. done.
Defined.

Lemma MerkStore_commit_persists_witness :
  exists s' m', MerkStore_commit ex_header ex_merk_store = (Ok tt, s') /\ MerkStore_holds s' [] m' /\
    MerkStore_height s' = Ok 7%Z.
Proof.
  destruct (MerkStore_commit_persists ex_merk_store [([3]%Z, Some [30]%Z)] (ex_merk ex_tree) ex_header)
    as (s' & m' & Hc & Hs' & _ & _ & Hh & _).
  - done.
  - exact ex_merk_store_holds.
  - exists 7%Z. done.
  - exists s', m'. split; [exact Hc|]. split; [exact Hs'|exact Hh].
Defined.

(** An application whose transactions append to a log, finding the end of it by
    iterating. *)
Definition log_app : Application MerkStore :=
  mkApplication (fun _ => PRet (Ok tt)) (fun _ => PRet (Ok tt)) ex_append
    (fun _ => PRet (Ok tt)) ex_append (fun _ => retM tt).
Definition log_machine : ABCIStateMachine MerkStore :=
  ABCIStateMachine_new log_app (mkMerkStore (Some (ex_merk ∅)) "home" (Some [])
    (mkSnapshots [] [] "snapshots") None None [] (tt : Disk)) false.

Definition ex_begin : @RequestBeginBlock ex_messages := Some 5%Z.
Definition ex_txs : list (@RequestDeliverTx ex_messages) := [[7]; [8]]%Z.
Definition ex_end : @RequestEndBlock ex_messages := 5%Z.
Definition ex_block : list Req := block_reqs ex_begin ex_txs ex_end.

(** A block of two transactions that append to a log: the second overwrites the first,
    where running them in sequence on the state gives both their own key. *)
Example log_overwritten :
  (run_all ex_block log_machine).1
    = Ok [@ResBeginBlock ex_messages tt; @ResDeliverTx ex_messages [1]%Z; @ResDeliverTx ex_messages [1]%Z;
          @ResEndBlock ex_messages tt; ResCommit ibc_bytes] /\
  (exec_block log_app ex_begin ex_txs ex_end ∅).1
    = Ok [@ResBeginBlock ex_messages tt; @ResDeliverTx ex_messages [1]%Z; @ResDeliverTx ex_messages [2]%Z;
          @ResEndBlock ex_messages tt].
Proof. vm_compute. done. Qed.

(** After one such transaction the log still looks empty to the next one. *)
Lemma ABCI_iteration_misses_earlier_tx_witness :
  exists sm' s', run_all [@ReqDeliverTx ex_messages [7]%Z] log_machine = (Ok [@ResDeliverTx ex_messages [1]%Z], sm') /\
    sm_store sm' = Some s' /\ Read_get (handler_store s') [1]%Z = Ok (Some [7]%Z) /\
    exists r, Read_get_next (handler_store s') [] = Ok r /\ is_first ∅ (blt []) r.
Proof.
  set (o := run_all [@ReqDeliverTx ex_messages [7]%Z] log_machine).
  assert (Hr : o.1 = Ok [@ResDeliverTx ex_messages [1]%Z]) by by vm_compute.
  assert (Ho : o = (Ok [@ResDeliverTx ex_messages [1]%Z], o.2)) by (rewrite <- Hr; apply surjective_pairing).
  destruct (ABCI_iteration_misses_earlier_tx log_machine log_app [] [] (ex_merk ∅) [7]%Z [] [@ResDeliverTx ex_messages [1]%Z] o.2) as (s' & p' & _ & Hs & _ & _ & Hn & _).
  - split_and!; [done..|]. eexists. split; [done|]. split_and!; [done..|constructor|done].
  - exact Ho.
  - exists o.2, s'. split_and!; [done..| |apply (Hn [])].
    assert (Hg : (let? s := unwrap (sm_store o.2) "" in Read_get (handler_store s) [1]%Z) = Ok (Some [7]%Z)) by by vm_compute.
    by rewrite Hs in Hg.
Defined.
End Examples.
